(* ===== verification/_CoqProject ===== *)
-Q . S2P
Prelude.v
GoStrings.v
Regex.v
GoEncoding.v
Secretsafe.v
Dfs.v
Sdk.v
GoTime.v
Coverage.v
Sessions.v
LocalCapacity.v
Admission.v
AdmissionSnapshot.v
SnapshotClaims.v
RunAdmission.v
RunAdmissionClaims.v
Architecture.v
Resilience.v
ResiliencePlan.v
ResilienceClaims.v
Lifecycle.v
LifecycleClaims.v
ProviderAdmission.v
AdmissionClaims.v
Artifact.v
ArtifactBuild.v
ArtifactClaims.v
Base64.v
References.v
Edge.v
EdgeComposite.v
EdgeClaims.v
Observability.v
Telemetry.v
TelemetryClient.v
TelemetryComposite.v
TelemetryClaims.v
VerifyClaims.v
Collector.v
CollectorEngine.v
CollectorClaims.v
RecoveryRun.v
RecoveryOrder.v
RecoveryClaims.v
Scenarios.v
ScenarioClaims.v
FailureRun.v
FailureClaims.v
Schedule.v
Units.v
Batches.v
UnitClaims.v
BuildSchedule.v
BuildClaims.v
ScheduleSessions.v
Execution.v
Certification.v
CertificationBridge.v
BridgeClaims.v
ScheduleRun.v
ValidSchedule.v
RunProtocol.v
RunInvariant.v
RunClaims.v
RunTermination.v
Deploy.v
CleanupLedger.v
CleanupClaims.v
