(* ===== verification/Prelude.v ===== *)
(** * MageLift: the verified core of deployment, certification and recovery

    MageLift deploys Magento shops to several clouds and certifies each
    topology with paid acceptance runs.  This development models the decision
    logic of the Go program, the part that must not spend money twice, lose an
    owned resource, release someone else's session or restore out of order, and
    proves what it promises.  Paths below are relative to [src/].

    ** Parts

    - This file, [GoStrings], [Regex], [GoEncoding], [GoTime], [Dfs]: the
      language and its library as the sources use them.  Errors are values; an
      effectful function is an [eff E W A] that logs the calls [E] it makes on
      the clients of a world [W]; strings are bytes; [regexp] patterns are run by
      a derivative matcher proved correct; SHA-256 and the JSON text of
      [encoding/json] are computed; a depth-first search is shared by the four
      cycle checks of the sources.
    - [Secretsafe]: [internal/secretsafe], the check that no credential shape
      occurs in a text or in the JSON of a value.
    - [Sdk]: descriptors, identifiers and hooks of [sdk/types.go] and
      [sdk/validation.go].
    - [Coverage], [Architecture]: [sdk/coverage.go] and [sdk/contracts.go], the
      intents of an architecture, their validators and the coverage boundary
      derived from them.
    - [Deploy]: [internal/deploy], the orchestrator and its lifecycle hooks.
    - [CleanupLedger], [CleanupClaims]: [sdk/cleanup_ledger.go], the restartable
      deletion of owned resources.
    - [Sessions]: [internal/certification/resource_registry.go], reusable
      sessions and their claims, with the registry as a class and the memory
      registry as its instance.
    - [LocalCapacity]: [internal/certification/local_capacity.go], a reservation
      with waiters, as a step relation over interleaved callers.
    - [Admission]: [internal/certification/admission.go], the gate before a paid
      mutation.
    - [ProviderAdmission], [AdmissionClaims]: [provider_admission.go] of the same
      package, the probe that asks a provider for each prerequisite, with
      [internal/provider/identity.go] and [credentials.go].
    - [AdmissionSnapshot], [SnapshotClaims], [RunAdmission],
      [RunAdmissionClaims]: [admission_snapshot.go] and [run_admission.go], the
      probe shared by the callers of a run and the pool that admits the scopes
      of a run; callers and workers interleave as steps.
    - [Artifact], [ArtifactBuild], [ArtifactClaims]: [sdk/artifact.go],
      [artifact_registry.go] and [artifact_build.go], the artifact of a run: its
      registries, the callers that build it once, and its signature.
    - [Certification], [CertificationBridge], [BridgeClaims]:
      [sdk/certification.go] and [internal/platform/certification.go], the ports
      through which a provider module executes a unit and answers an admission.
    - [Schedule], [Units], [Batches], [UnitClaims], [BuildSchedule],
      [BuildClaims], [ScheduleSessions]: [internal/certification/scheduler.go],
      from cells to execution units, batches, claims and a budget.
    - [Execution], [ScheduleRun], [ValidSchedule], [RunProtocol],
      [RunInvariant], [RunClaims], [RunTermination]:
      [internal/certification/scheduler_run.go], the executor of a schedule: a
      program per unit, a run as a list of actions of goroutines, main loop and
      environment.
    - [Resilience], [ResiliencePlan], [ResilienceClaims]: [sdk/resilience.go] and
      [sdk/resilience_plan.go], recovery plans and their compiler.
    - [Lifecycle], [LifecycleClaims]: [sdk/resilience_lifecycle.go] and
      [sdk/deletion_lifecycle.go], the polling of recovery operations and
      deletions, the evidence of a stage and the adapter over asynchronous
      operations.
    - [Edge], [EdgeComposite], [EdgeClaims], with [Base64] and [References]:
      the edge half of [sdk/integrations.go], [sdk/integration_lifecycle.go] and
      [sdk/edge_lifecycle.go], and [internal/external/edge/composite.go]: the
      port of an edge adapter, its gate, the adapter over asynchronous operations
      and the composite that fans one intent out to several adapters.
    - [Observability], [Telemetry], [TelemetryClient], [TelemetryComposite],
      [TelemetryClaims], [VerifyClaims]: the observability half of
      [sdk/integrations.go] and [sdk/integration_lifecycle.go], and
      [internal/external/observability]: the port and its gate, the planner of
      telemetry, verification, the client that manages a provider backend, the
      adapter behind the port and the composite of several destinations.
    - [Collector], [CollectorEngine], [CollectorClaims]: [sdk/collector.go],
      [sdk/collector_lifecycle.go] and [collector.go] of the same package, the
      deployment of collectors.
    - [RecoveryRun], [RecoveryOrder], [RecoveryClaims]:
      [internal/certification/recovery_runner.go], the resumable execution of a
      recovery plan; [RecoveryClaims.step] is its specification as a machine of
      four moves.
    - [Scenarios], [ScenarioClaims], [FailureRun], [FailureClaims]:
      [internal/certification/resilience_scenarios.go] and [failure_runner.go],
      the matrix of failure drills and the resumable run of one drill.

    The parts meet where the program's do: the scheduler claims sessions of
    [Sessions] through its class, passes the gate of [Admission], and hands
    [ScheduleRun] a schedule that [ValidSchedule] proves acceptable; the run
    executes a unit through the bridge of [CertificationBridge] and releases the
    claims again.  The gate is asked through a snapshot, whose probe is the one of
    [ProviderAdmission] or the bridge to a provider module.  [RecoveryRun] has an adapter, such as the one of
    [Lifecycle], compile a plan with [ResiliencePlan] and execute its stages.
    Each component of the sources keeps its names; a comment before a definition
    names the lines it translates.

    ** Theorems

    - Deployment: the lock is released exactly when it was taken, nothing runs
      before the gates pass, a failed step stops the later ones, hooks run in
      dependency order.
    - Cleanup: only owned, announced resources are deleted, the ledger only
      advances, a complete answer means an empty inventory, and everything owned
      is deleted when the clients cooperate.
    - Sessions and capacity: claims are exclusive, records stay valid, capacity
      is conserved under cancellation and no waiter that fits sleeps.
    - Admission: a ready report rests on every prerequisite, asked of its own
      checker; a shared probe asks once for a key, serves every caller the same
      facts and strands nobody; a run is admitted on all its scopes, and its pool
      drains.  One theorem states that the cancellation of one caller fails the
      others.
    - Artifacts: for one fingerprint one caller builds at a time, nobody builds
      what is published, everybody gets the same record; what is published was
      signed and verified; the file registry behaves as the one in memory.
    - Ports: a provider result the bridge passes on is one the scheduler accepts;
      a unit that starts from another cell never reaches its provider.
    - Scheduling: batches respect dependencies and mutation keys, totals do not
      overflow and stay in the budget, a failed build gives back what it claimed,
      and a built schedule is one the executor accepts.
    - Execution: for every interleaving and every answer of the environment, a
      unit enters the executor at most once and only after its checkpoints say
      so, units in flight share no mutation key, the report is exact, a run ends,
      and the sessions come back.
    - Recovery plans: a compiled plan is the blueprint of its data classes, and
      its order puts backup before fence, fence before restore, restore before
      check, check before failover and cleanup after everything.
    - Recovery runs: a stage runs after the stages it depends on have passed, its
      result is saved before the next starts, and no later run executes it again;
      a stage that passes has the evidence its action needs; a deletion is over
      only when the owning service lists nothing.
    - Edges: an edge action that succeeds was started once and vouched for by the
      provider's last report, a destroy ends with a clean inventory; a composite
      executes each planned child once, and its references find their way back.
      Two theorems state what the composite fails to do: its traffic actions
      never pass the shared gate, and a destination nobody serves is executed as
      nothing.
    - Telemetry: which intents can be planned, exactly; what an adapter plans it
      executes, at its own provider only; a composite that destroys has asked
      every destination; a verify action proves every binding, and for that very
      reason never succeeds on a live deployment.
    - Collectors: the engine only touches what it owns, rolls back what does not
      prove itself, and its results pass the validator of the port.
    - Failure drills: a fault is injected at most once while a checkpoint exists,
      an injection that cannot be recorded is cleaned up, a drill is complete only
      after a confirmed cleanup, and it passes exactly when every gate of its
      scenario was observed.

    ** Bounds and fuel

    Machine integers are [Z]; where the sources guard an overflow ([int64]
    totals) the bound is written out.  [Dfs.dfs] takes the number of nodes as
    fuel, enough because the nodes being visited are distinct
    ([Dfs.dfs_fuel]); [Units.batch_loop] takes the number of units and is proved
    to end within it, [RecoveryRun.order_stages] the number of stages.  The polls
    of [Lifecycle] and [Edge] recurse on the attempts the policy allows.  A run of the
    executor is a finite list of actions, and [RunTermination] bounds its length;
    so do [SnapshotClaims] and [RunAdmissionClaims] for the callers of a snapshot
    and the workers of a run.

    ** Choices

    A Go map is a [gmap]; where its order only decides which of several errors
    is reported, the model fixes one.  A nil and an empty slice are the same
    list.  Clocks, identifiers and [net/url.Parse] are arguments.  Timeouts and
    cancellation are errors of the environment.

    ** Not modelled

    Provider adapters ([internal/cloud], [providers/gcp], the clients of
    [internal/external] for Fastly and New Relic) and everything that is input
    and output (the command line, configuration files, image builds, plugin
    hosting, imports) are left out: their meaning is in the services and
    libraries they call.  The file stores of checkpoints and sessions, like
    the file under the artifact registry, rest on renames and locks of the
    operating system and on a JSON decoder: the registry of artifacts is modelled
    on the decoded document.  The preparation of a run in [run.go] joins the parts
    above to the capability matrix, which is not modelled; the evidence
    documents and the capability matrix of [internal/certification] are tables and
    text reports over results that are modelled; the plugin protocol of
    [sdk/protocol.go] carries plans of the automation library.  None of them adds
    a decision that the parts above take. *)

From Stdlib Require Export ZArith Lia.
From stdpp Require Export base strings list gmap sets relations.
From stdpp Require Import sorting.

Declare Scope go_scope.
Delimit Scope go_scope with go.
Open Scope go_scope.

(** ** Errors

    A Go error is a value.  [errors.New] and the sentinels keep their text or
    their name; [fmt.Errorf] keeps its format string, the arguments of the
    plain verbs and the errors of the [%w] verbs; [errors.Join] keeps its
    parts.  Text is never rendered, so no theorem depends on formatting. *)

Set Warnings "-register-all".

Inductive garg :=
  | GStr (s : string)
  | GInt (z : Z).

Coercion GStr : string >-> garg.

Inductive error :=
  | ErrSentinel (name : string)
  | ErrNew (text : string)
  | Errorf (format : string) (args : list garg) (wrapped : list error)
  | ErrTyped (type : string) (fields : list garg)
  | ErrJoin (parts : list error).

(** [errors.Is] against a sentinel: the sentinel occurs in the error tree. *)
Fixpoint errors_Is (name : string) (e : error) : bool :=
  match e with
  | ErrSentinel n => bool_decide (n = name)
  | ErrNew _ | ErrTyped _ _ => false
  | Errorf _ _ es | ErrJoin es =>
      (fix any (l : list error) : bool :=
         match l with
         | [] => false
         | x :: l => errors_Is name x || any l
         end) es
  end.

Definition errorf (format : string) (args : list garg) : error :=
  Errorf format args [].
Definition wrapf (format : string) (args : list garg) (e : error) : error :=
  Errorf format args [e].

(** [nil] or an error, the return type of a validator. *)
Abbreviation gerror := (option error).

(** [errors.Join]: nil parts are dropped, nil when nothing is left. *)
Definition errors_Join (parts : list gerror) : gerror :=
  match omap (λ p, p) parts with
  | [] => None
  | es => Some (ErrJoin es)
  end.

(** [if cond { return err }], and sequencing [if err := f(); err != nil]. *)
Definition fail_if (cond : bool) (e : error) : gerror :=
  if cond then Some e else None.

Definition err_seq (first : gerror) (rest : gerror) : gerror :=
  match first with Some e => Some e | None => rest end.

Notation "a ;;? b" := (err_seq a b)
  (at level 90, right associativity) : go_scope.

Definition err_wrap (f : error → error) (e : gerror) : gerror := f <$> e.

(** The first error a list of checks reports, in order. *)
Definition first_error {A} (check : A → gerror) (l : list A) : gerror :=
  foldr (λ x acc, check x ;;? acc) None l.

(** ** Results: a value or an error *)

Inductive result (A : Type) :=
  | Ok (a : A)
  | Err (e : error).
Arguments Ok {A} _.
Arguments Err {A} _.

#[export] Instance result_ret : MRet result := λ A a, Ok a.
#[export] Instance result_bind : MBind result := λ A B f m,
  match m with Ok a => f a | Err e => Err e end.

Definition lift_check {A} (check : gerror) (k : result A) : result A :=
  match check with Some e => Err e | None => k end.

Notation "c ;;! k" := (lift_check c k)
  (at level 90, right associativity) : go_scope.

Definition map_err {A} (f : error → error) (m : result A) : result A :=
  match m with Ok a => Ok a | Err e => Err (f e) end.

Definition err_of {A} (m : result A) : gerror :=
  match m with Ok _ => None | Err e => Some e end.

Definition is_ok {A} (m : result A) : bool :=
  match m with Ok _ => true | Err _ => false end.

(** ** Effects

    A computation that calls clients supplied by the caller: [W] is the state
    of the world behind those clients, [E] the type of the calls, in the order
    they are made. *)

Definition eff (E W A : Type) : Type := W → list E * A * W.

#[export] Instance eff_ret {E W} : MRet (eff E W) := λ A a w, ([], a, w).
#[export] Instance eff_bind {E W} : MBind (eff E W) := λ A B f m w,
  let '(t1, a, w1) := m w in
  let '(t2, b, w2) := f a w1 in
  (t1 ++ t2, b, w2).

(** Call a client and log the call together with its answer. *)
Definition call {E W A} (log : A → E) (client : W → A * W) : eff E W A :=
  λ w, let '(a, w') := client w in ([log a], a, w').

Definition events {E W A} (m : eff E W A) (w : W) : list E := (m w).1.1.
Definition outcome {E W A} (m : eff E W A) (w : W) : A := (m w).1.2.
Definition final {E W A} (m : eff E W A) (w : W) : W := (m w).2.

Section effects.
Context {E W : Type}.

Lemma events_ret {A} (a : A) (w : W) : events (E:=E) (mret a) w = [].
Proof. done. Qed.
Lemma outcome_ret {A} (a : A) (w : W) : outcome (E:=E) (mret a) w = a.
Proof. done. Qed.
Lemma final_ret {A} (a : A) (w : W) : final (E:=E) (mret a) w = w.
Proof. done. Qed.

Lemma events_bind {A B} (m : eff E W A) (k : A → eff E W B) w :
  events (m ≫= k) w = events m w ++ events (k (outcome m w)) (final m w).
Proof.
  unfold events, outcome, final, mbind, eff_bind.
  by destruct (m w) as [[t a] w1]; simpl; destruct (k a w1) as [[??]?].
Qed.
Lemma outcome_bind {A B} (m : eff E W A) (k : A → eff E W B) w :
  outcome (m ≫= k) w = outcome (k (outcome m w)) (final m w).
Proof.
  unfold events, outcome, final, mbind, eff_bind.
  by destruct (m w) as [[t a] w1]; simpl; destruct (k a w1) as [[??]?].
Qed.
Lemma final_bind {A B} (m : eff E W A) (k : A → eff E W B) w :
  final (m ≫= k) w = final (k (outcome m w)) (final m w).
Proof.
  unfold events, outcome, final, mbind, eff_bind.
  by destruct (m w) as [[t a] w1]; simpl; destruct (k a w1) as [[??]?].
Qed.
End effects.

#[export] Hint Rewrite @events_ret @outcome_ret @final_ret
  @events_bind @outcome_bind @final_bind : eff.

Ltac run_eff := repeat (progress (autorewrite with eff; simpl)).

(** ** The errors inside an error *)

(** [wraps x e]: [x] occurs in the tree of [e] the way [errors.Is] and
    [errors.As] search it. *)
Inductive wraps (x : error) : error → Prop :=
  | wraps_refl : wraps x x
  | wraps_errorf f args es e : e ∈ es → wraps x e → wraps x (Errorf f args es)
  | wraps_join es e : e ∈ es → wraps x e → wraps x (ErrJoin es).

(** Two parts of [errors.Join]: both stay reachable. *)
Lemma wraps_join_l x e1 p : wraps x e1 → ∃ e, errors_Join [Some e1; p] = Some e ∧ wraps x e.
Proof.
  intros H. destruct p; (eexists; split; [reflexivity|]);
    (apply (wraps_join _ _ e1); [set_solver|done]).
Qed.
Lemma wraps_join_r x p e2 : wraps x e2 → ∃ e, errors_Join [p; Some e2] = Some e ∧ wraps x e.
Proof.
  intros H. destruct p; (eexists; split; [reflexivity|]);
    (apply (wraps_join _ _ e2); [set_solver|done]).
Qed.

Lemma wraps_errors_Is name e : wraps (ErrSentinel name) e → errors_Is name e = true.
Proof.
  induction 1 as [|f args es e Hin _ IH|es e Hin _ IH]; simpl; [by apply bool_decide_eq_true| |];
    induction es as [|y es IHes]; simpl; try (by apply elem_of_nil in Hin);
    apply elem_of_cons in Hin as [<-|Hin]; rewrite ?IH; try done;
    rewrite IHes by done; apply orb_true_r.
Qed.

(** ** Lemmas on checks *)

Lemma fail_if_None cond e : fail_if cond e = None ↔ cond = false.
Proof. by destruct cond. Qed.

Lemma err_seq_None a b : (a ;;? b) = None ↔ a = None ∧ b = None.
Proof. destruct a; naive_solver. Qed.

Lemma err_wrap_None f e : err_wrap f e = None ↔ e = None.
Proof. by destruct e. Qed.

Lemma first_error_None {A} (check : A → gerror) l :
  first_error check l = None ↔ Forall (λ x, check x = None) l.
Proof.
  induction l as [|x l IH]; simpl; [by split; [constructor|]|].
  rewrite err_seq_None, Forall_cons, IH. done.
Qed.

Lemma errors_Join_None parts :
  errors_Join parts = None ↔ Forall (λ p, p = None) parts.
Proof.
  unfold errors_Join. induction parts as [|[e|] parts IH]; simpl.
  - by split; [constructor|].
  - split; [done|]. by intros [? _]%Forall_cons.
  - rewrite Forall_cons, <-IH. naive_solver.
Qed.

Lemma lift_check_Ok {A} c (k : result A) a :
  lift_check c k = Ok a ↔ c = None ∧ k = Ok a.
Proof. destruct c; naive_solver. Qed.

Lemma map_err_Ok {A} f (m : result A) a : map_err f m = Ok a ↔ m = Ok a.
Proof. destruct m; naive_solver. Qed.

Lemma errors_Is_join name es :
  errors_Is name (ErrJoin es) = existsb (errors_Is name) es.
Proof. induction es as [|x es IH]; simpl; [done|]. by rewrite <-IH. Qed.

Lemma errors_Is_wrap name f args es :
  errors_Is name (Errorf f args es) = existsb (errors_Is name) es.
Proof. induction es as [|x es IH]; simpl; [done|]. by rewrite <-IH. Qed.

#[export] Hint Rewrite fail_if_None err_seq_None err_wrap_None
  @first_error_None errors_Join_None @lift_check_Ok @map_err_Ok : checks.

(** Turn [check = None] hypotheses into their meaning. *)
Ltac inv_checks :=
  repeat match goal with
  | H : _ = None |- _ => progress autorewrite with checks in H
  | H : lift_check _ _ = Ok _ |- _ => apply lift_check_Ok in H
  | H : map_err _ _ = Ok _ |- _ => apply map_err_Ok in H
  | H : _ ∧ _ |- _ => destruct H
  end.

(** ** Which calls a computation can make *)

Definition emits {E W A} (P : E → Prop) (m : eff E W A) : Prop :=
  ∀ w, Forall P (events m w).

Section emits.
Context {E W : Type} (P : E → Prop).

Lemma emits_ret {A} (a : A) : emits P (mret a : eff E W A).
Proof. intros w. constructor. Qed.

Lemma emits_bind {A B} (m : eff E W A) (k : A → eff E W B) :
  emits P m → (∀ a, emits P (k a)) → emits P (m ≫= k).
Proof. intros Hm Hk w. rewrite events_bind. apply Forall_app. split; [apply Hm|apply Hk]. Qed.

Lemma emits_call {A} (log : A → E) (client : W → A * W) :
  (∀ a, P (log a)) → emits P (call log client).
Proof.
  intros H w. unfold events, call. destruct (client w) as [a w']. simpl.
  repeat constructor. apply H.
Qed.

Lemma emits_weaken {A} (Q : E → Prop) (m : eff E W A) :
  (∀ e, P e → Q e) → emits P m → emits Q m.
Proof. intros H Hm w. eapply Forall_impl; [apply Hm|done]. Qed.
End emits.

Lemma events_call {E W A} (log : A → E) (client : W → A * W) w :
  events (call log client) w = [log (client w).1].
Proof. unfold events, call. by destruct (client w). Qed.
Lemma outcome_call {E W A} (log : A → E) (client : W → A * W) w :
  outcome (call log client) w = (client w).1.
Proof. unfold outcome, call. by destruct (client w). Qed.
Lemma final_call {E W A} (log : A → E) (client : W → A * W) w :
  final (call log client) w = (client w).2.
Proof. unfold final, call. by destruct (client w). Qed.

#[export] Hint Rewrite @events_call @outcome_call @final_call : eff.

Create HintDb emits.
#[export] Hint Resolve emits_ret emits_bind emits_call : emits.

(** ** Calls and answer together *)

(** Whatever the world, the calls of [m] and its answer are related by [Q]. *)
Definition yields {E W A} (m : eff E W A) (Q : list E → A → Prop) : Prop :=
  ∀ w, Q (events m w) (outcome m w).

Section yields.
Context {E W : Type}.

Lemma yields_ret {A} (a : A) (Q : list E → A → Prop) : Q [] a → yields (mret a : eff E W A) Q.
Proof. intros H w. exact H. Qed.

Lemma yields_bind {A B} (m : eff E W A) (k : A → eff E W B) (Q : list E → B → Prop) :
  yields m (λ es a, yields (k a) (λ es', Q (es ++ es'))) → yields (m ≫= k) Q.
Proof. intros H w. rewrite events_bind, outcome_bind. apply (H w). Qed.

Lemma yields_call {A} (log : A → E) (client : W → A * W) (Q : list E → A → Prop) :
  (∀ a, Q [log a] a) → yields (call log client) Q.
Proof. intros H w. rewrite events_call, outcome_call. apply H. Qed.

Lemma yields_weaken {A} (m : eff E W A) (P Q : list E → A → Prop) :
  yields m P → (∀ es a, P es a → Q es a) → yields m Q.
Proof. intros Hm H w. apply H, Hm. Qed.

(** A call and what follows it. *)
Lemma yields_call_bind {A B} (log : A → E) (client : W → A * W) (k : A → eff E W B) (Q : list E → B → Prop) :
  (∀ a, yields (k a) (λ es, Q (log a :: es))) → yields (call log client ≫= k) Q.
Proof. intros H. apply yields_bind, yields_call, H. Qed.
End yields.

Create HintDb yields.
#[export] Hint Resolve yields_ret yields_call : yields.
