(* ===== verification/GoStrings.v ===== *)
(** * Go strings

    A Go string is a byte sequence; here a [string] of 8-bit characters.  The
    functions of package [strings] the repository calls, on bytes: white space
    is recognised through the UTF-8 encodings of the code points
    [unicode.IsSpace] accepts, so no rune is decoded. *)

From S2P Require Import Prelude.
From stdpp Require Export sorting.
From Stdlib Require Export Ascii.

Definition go_bytes (s : string) : list ascii := String.list_ascii_of_string s.
Definition of_bytes (l : list ascii) : string := String.string_of_list_ascii l.

Lemma of_bytes_go_bytes s : of_bytes (go_bytes s) = s.
Proof. apply String.string_of_list_ascii_of_string. Qed.

Lemma go_bytes_of_bytes l : go_bytes (of_bytes l) = l.
Proof. apply String.list_ascii_of_string_of_list_ascii. Qed.

#[export] Instance go_bytes_inj : Inj (=) (=) go_bytes.
Proof.
  intros s1 s2 H. by rewrite <-(of_bytes_go_bytes s1), H, of_bytes_go_bytes.
Qed.

(** ** White space *)

Definition code (c : ascii) : N := Ascii.N_of_ascii c.

Definition ascii_space (c : ascii) : bool :=
  let n := code c in ((9 <=? n) && (n <=? 13) || (n =? 32))%N.

(** U+0085 and U+00A0. *)
Definition space2 (a b : ascii) : bool :=
  ((code a =? 0xC2) && ((code b =? 0x85) || (code b =? 0xA0)))%N.

(** U+1680, U+2000..U+200A, U+2028, U+2029, U+202F, U+205F and U+3000. *)
Definition space3 (a b c : ascii) : bool :=
  let x := code a in let y := code b in let z := code c in
  ((x =? 0xE1) && (y =? 0x9A) && (z =? 0x80)
   || (x =? 0xE2) && (y =? 0x80)
      && ((0x80 <=? z) && (z <=? 0x8A) || (z =? 0xA8) || (z =? 0xA9) || (z =? 0xAF))
   || (x =? 0xE2) && (y =? 0x81) && (z =? 0x9F)
   || (x =? 0xE3) && (y =? 0x80) && (z =? 0x80))%N.

Fixpoint trim_left (l : list ascii) : list ascii :=
  match l with
  | [] => []
  | a :: l1 =>
      if ascii_space a then trim_left l1 else
      match l1 with
      | [] => l
      | b :: l2 =>
          if space2 a b then trim_left l2 else
          match l2 with
          | [] => l
          | c :: l3 => if space3 a b c then trim_left l3 else l
          end
      end
  end.

(** The same scan from the end, on the reversed bytes. *)
Fixpoint trim_right_rev (l : list ascii) : list ascii :=
  match l with
  | [] => []
  | a :: l1 =>
      if ascii_space a then trim_right_rev l1 else
      match l1 with
      | [] => l
      | b :: l2 =>
          if space2 b a then trim_right_rev l2 else
          match l2 with
          | [] => l
          | c :: l3 => if space3 c b a then trim_right_rev l3 else l
          end
      end
  end.

Definition TrimSpace (s : string) : string :=
  of_bytes (reverse (trim_right_rev (reverse (trim_left (go_bytes s))))).

(** [strings.TrimSpace(s) == ""]. *)
Definition blank (s : string) : bool := bool_decide (TrimSpace s = "").

(** ** Search *)

Definition ContainsAny (s chars : string) : bool :=
  existsb (λ c, bool_decide (c ∈ go_bytes chars)) (go_bytes s).

(** The three bytes of the literal used throughout the sources: CR, LF, NUL. *)
Definition line_breaks : string := of_bytes (Ascii.ascii_of_N <$> [13; 10; 0]%N).
(** CR and LF only. *)
Definition cr_lf : string := of_bytes (Ascii.ascii_of_N <$> [13; 10]%N).

Definition multiline (s : string) : bool := ContainsAny s line_breaks.

Definition HasPrefix (s prefix : string) : bool := String.prefix prefix s.

Definition HasSuffix (s suffix : string) : bool :=
  bool_decide (drop (length (go_bytes s) - length (go_bytes suffix)) (go_bytes s)
               = go_bytes suffix).

Fixpoint contains_bytes (l sub : list ascii) : bool :=
  bool_decide (take (length sub) l = sub)
  || match l with [] => false | _ :: l => contains_bytes l sub end.

Definition Contains (s sub : string) : bool :=
  contains_bytes (go_bytes s) (go_bytes sub).

(** [strings.ToLower] on the bytes below 0x80; other bytes are unchanged. *)
Definition lower_ascii (c : ascii) : ascii :=
  let n := code c in
  if ((65 <=? n) && (n <=? 90))%N then Ascii.ascii_of_N (n + 32) else c.

Definition ToLower (s : string) : string := of_bytes (lower_ascii <$> go_bytes s).

Fixpoint strings_Join (parts : list string) (sep : string) : string :=
  match parts with
  | [] => ""
  | [p] => p
  | p :: parts => p +:+ sep +:+ strings_Join parts sep
  end.

(** ** Sorting

    [sort.Strings], [sort.Slice] and [sort.SliceStable] as a stable insertion
    sort.  [sort.Slice] leaves the order of equal elements open; it is only
    used here where the keys are distinct. *)

Section sort.
Context {A : Type} (R : A → A → Prop) `{!∀ x y, Decision (R x y)}.

Fixpoint insert_sorted (x : A) (l : list A) : list A :=
  match l with
  | [] => [x]
  | y :: l => if decide (R x y) then x :: y :: l else y :: insert_sorted x l
  end.

Definition sort_by (l : list A) : list A := foldr insert_sorted [] l.

Lemma insert_sorted_perm x l : insert_sorted x l ≡ₚ x :: l.
Proof.
  induction l as [|y l IH]; simpl; [done|]. case_decide; [done|].
  rewrite IH. by constructor.
Qed.

Lemma sort_by_perm l : sort_by l ≡ₚ l.
Proof. induction l as [|x l IH]; simpl; [done|]. by rewrite insert_sorted_perm, IH. Qed.

Lemma elem_of_sort_by x l : x ∈ sort_by l ↔ x ∈ l.
Proof. by rewrite sort_by_perm. Qed.

Lemma length_sort_by l : length (sort_by l) = length l.
Proof. by rewrite sort_by_perm. Qed.

Lemma NoDup_sort_by l : NoDup (sort_by l) ↔ NoDup l.
Proof. by rewrite sort_by_perm. Qed.

Lemma insert_sorted_sorted `{!Total R, !Transitive R} x l :
  StronglySorted R l → StronglySorted R (insert_sorted x l).
Proof.
  induction 1 as [|y l Hl IH Hy]; simpl; [by repeat constructor|].
  case_decide as Hxy.
  - constructor; [by constructor|]. constructor; [done|].
    eapply Forall_impl; [exact Hy|]. intros z Hz. by transitivity y.
  - constructor; [done|]. rewrite insert_sorted_perm. constructor; [|done].
    by destruct (total R x y).
Qed.

Lemma sort_by_sorted `{!Total R, !Transitive R} l : StronglySorted R (sort_by l).
Proof. induction l; simpl; [constructor|]. by apply insert_sorted_sorted. Qed.

(** Sorting does not depend on the order it is given when [R] is a total
    order: this is what makes a Go map iteration deterministic again. *)
Lemma sort_by_unique `{!Total R, !Transitive R, !AntiSymm (=) R} l1 l2 :
  l1 ≡ₚ l2 → sort_by l1 = sort_by l2.
Proof.
  intros Hp. apply (StronglySorted_unique R); try apply sort_by_sorted; try done.
  by rewrite !sort_by_perm.
Qed.
End sort.

#[export] Instance String_le_total : Total String.le.
Proof.
  intros s1 s2. unfold String.le.
  destruct (String.leb_total s1 s2) as [->| ->]; auto.
Qed.

Definition sort_strings : list string → list string := sort_by String.le.

Lemma sort_strings_perm l : sort_strings l ≡ₚ l.
Proof. apply sort_by_perm. Qed.

Lemma sort_strings_sorted l : StronglySorted String.le (sort_strings l).
Proof. apply sort_by_sorted; apply _. Qed.

Lemma sort_strings_unique l1 l2 : l1 ≡ₚ l2 → sort_strings l1 = sort_strings l2.
Proof. apply sort_by_unique; apply _. Qed.

Lemma elem_of_sort_strings x l : x ∈ sort_strings l ↔ x ∈ l.
Proof. apply elem_of_sort_by. Qed.

(** ** Duplicate elimination *)

(** Keep the first occurrence of every value. *)
Fixpoint dedup {A} `{!EqDecision A} (seen : list A) (l : list A) : list A :=
  match l with
  | [] => []
  | x :: l => if decide (x ∈ seen) then dedup seen l else x :: dedup (x :: seen) l
  end.

Section dedup.
Context {A : Type} `{!EqDecision A}.
Implicit Types l seen : list A.

Lemma elem_of_dedup seen l x : x ∈ dedup seen l ↔ x ∈ l ∧ x ∉ seen.
Proof.
  revert seen; induction l as [|y l IH]; intros seen; simpl.
  - rewrite elem_of_nil. tauto.
  - case_decide; rewrite ?elem_of_cons, IH, ?elem_of_cons.
    + destruct (decide (x = y)); naive_solver.
    + destruct (decide (x = y)); naive_solver.
Qed.

Lemma NoDup_dedup seen l : NoDup (dedup seen l).
Proof.
  revert seen; induction l as [|y l IH]; intros seen; simpl; [constructor|].
  case_decide; [done|]. constructor; [|done]. rewrite elem_of_dedup. set_solver.
Qed.

Lemma dedup_NoDup seen l :
  NoDup l → (∀ x, x ∈ l → x ∉ seen) → dedup seen l = l.
Proof.
  revert seen; induction l as [|y l IH]; intros seen Hl Hs; simpl; [done|].
  apply NoDup_cons in Hl as [Hy Hl]. rewrite decide_False by set_solver.
  f_equal. apply IH; set_solver.
Qed.
End dedup.

(** A loop that rejects a value already in the [seen] set. *)
Fixpoint has_repeat {A} `{!EqDecision A} (l : list A) : bool :=
  match l with
  | [] => false
  | x :: l => bool_decide (x ∈ l) || has_repeat l
  end.

Lemma has_repeat_false {A} `{!EqDecision A} (l : list A) :
  has_repeat l = false ↔ NoDup l.
Proof.
  induction l as [|x l IH]; simpl; [by split; [constructor|]|].
  rewrite orb_false_iff, bool_decide_eq_false, IH, NoDup_cons. done.
Qed.

Lemma blank_empty : blank "" = true.
Proof. reflexivity. Qed.

(** A value that is not blank is not empty. *)
Lemma blank_false_nonempty s : blank s = false → s ≠ "".
Proof. by intros H ->. Qed.

(** A visible ASCII character survives trimming. *)
Definition visible (c : ascii) : Prop := ascii_space c = false ∧ (code c < 128)%N.

Lemma space2_high a b : space2 a b = true → (128 <= code a)%N ∧ (128 <= code b)%N.
Proof. unfold space2. rewrite andb_true_iff, orb_true_iff, !N.eqb_eq. lia. Qed.

Lemma space3_high a b c : space3 a b c = true → (128 <= code a)%N ∧ (128 <= code b)%N ∧ (128 <= code c)%N.
Proof.
  unfold space3. rewrite !orb_true_iff, !andb_true_iff, !orb_true_iff, !andb_true_iff, !N.eqb_eq, !N.leb_le. lia.
Qed.

Lemma trim_left_keeps l c : visible c → c ∈ l → c ∈ trim_left l.
Proof.
  intros Hc. remember (length l) as n eqn:Hn. revert l Hn.
  induction (lt_wf n) as [n _ IH]. intros [|a l1] -> Hin; [done|]. cbn [trim_left].
  destruct (ascii_space a) eqn:Ha.
  { apply (IH (length l1)); [simpl; lia|done|]. apply elem_of_cons in Hin as [->|?]; [by destruct Hc; congruence|done]. }
  destruct l1 as [|b l2]; [done|]. destruct (space2 a b) eqn:H2.
  { apply space2_high in H2 as [? ?]. apply (IH (length l2)); [simpl; lia|done|].
    apply elem_of_cons in Hin as [->|Hin]; [by destruct Hc; lia|]. apply elem_of_cons in Hin as [->|?]; [by destruct Hc; lia|done]. }
  destruct l2 as [|d l3]; [done|]. destruct (space3 a b d) eqn:H3; [|done].
  apply space3_high in H3 as (?&?&?). apply (IH (length l3)); [simpl; lia|done|].
  apply elem_of_cons in Hin as [->|Hin]; [by destruct Hc; lia|]. apply elem_of_cons in Hin as [->|Hin]; [by destruct Hc; lia|].
  apply elem_of_cons in Hin as [->|?]; [by destruct Hc; lia|done].
Qed.

Lemma trim_right_keeps l c : visible c → c ∈ l → c ∈ trim_right_rev l.
Proof.
  intros Hc. remember (length l) as n eqn:Hn. revert l Hn.
  induction (lt_wf n) as [n _ IH]. intros [|a l1] -> Hin; [done|]. cbn [trim_right_rev].
  destruct (ascii_space a) eqn:Ha.
  { apply (IH (length l1)); [simpl; lia|done|]. apply elem_of_cons in Hin as [->|?]; [by destruct Hc; congruence|done]. }
  destruct l1 as [|b l2]; [done|]. destruct (space2 b a) eqn:H2.
  { apply space2_high in H2 as [? ?]. apply (IH (length l2)); [simpl; lia|done|].
    apply elem_of_cons in Hin as [->|Hin]; [by destruct Hc; lia|]. apply elem_of_cons in Hin as [->|?]; [by destruct Hc; lia|done]. }
  destruct l2 as [|d l3]; [done|]. destruct (space3 d b a) eqn:H3; [|done].
  apply space3_high in H3 as (?&?&?). apply (IH (length l3)); [simpl; lia|done|].
  apply elem_of_cons in Hin as [->|Hin]; [by destruct Hc; lia|]. apply elem_of_cons in Hin as [->|Hin]; [by destruct Hc; lia|].
  apply elem_of_cons in Hin as [->|?]; [by destruct Hc; lia|done].
Qed.

Lemma visible_not_blank s c : visible c → c ∈ go_bytes s → blank s = false.
Proof.
  intros Hc Hin. apply bool_decide_eq_false. unfold TrimSpace. intros He.
  assert (c ∈ reverse (trim_right_rev (reverse (trim_left (go_bytes s))))) as Hk.
  { by apply elem_of_reverse, trim_right_keeps, elem_of_reverse, trim_left_keeps. }
  apply (f_equal go_bytes) in He. rewrite go_bytes_of_bytes in He. rewrite He in Hk. by apply elem_of_nil in Hk.
Qed.

Lemma go_bytes_app a b : go_bytes (a +:+ b) = go_bytes a ++ go_bytes b.
Proof. induction a; simpl; [done|]. unfold go_bytes in *; simpl. by f_equal. Qed.

#[export] Instance string_app_inj a : Inj (=) (=) (String.app a).
Proof.
  intros x y H. apply (f_equal go_bytes) in H. rewrite !go_bytes_app in H.
  by apply app_inv_head, go_bytes_inj in H.
Qed.

(** ** Trimming twice *)

Lemma trim_left_length l : length (trim_left l) ≤ length l.
Proof.
  remember (length l) as n eqn:Hn. revert l Hn. induction (lt_wf n) as [n _ IH]. intros [|a l1] ->; [done|]. cbn [trim_left].
  destruct (ascii_space a); [etrans; [by apply (IH (length l1)); [simpl; lia|]|simpl; lia]|].
  destruct l1 as [|b l2]; [done|]. destruct (space2 a b); [etrans; [by apply (IH (length l2)); [simpl; lia|]|simpl; lia]|].
  destruct l2 as [|c l3]; [done|]. destruct (space3 a b c); [etrans; [by apply (IH (length l3)); [simpl; lia|]|simpl; lia]|done].
Qed.

Lemma trim_left_idemp l : trim_left (trim_left l) = trim_left l.
Proof.
  remember (length l) as n eqn:Hn. revert l Hn. induction (lt_wf n) as [n _ IH]. intros [|a l1] ->; [done|]. cbn [trim_left].
  destruct (ascii_space a) eqn:Ha; [by apply (IH (length l1)); [simpl; lia|]|].
  destruct l1 as [|b l2]; [cbn [trim_left]; by rewrite Ha|].
  destruct (space2 a b) eqn:H2; [by apply (IH (length l2)); [simpl; lia|]|].
  destruct l2 as [|c l3]; [cbn [trim_left]; by rewrite Ha, H2|].
  destruct (space3 a b c) eqn:H3; [by apply (IH (length l3)); [simpl; lia|]|]. cbn [trim_left]. by rewrite Ha, H2, H3.
Qed.

(** Bytes that do not start with a space keep that when they are cut short. *)
Lemma trim_left_prefix x z : trim_left (x ++ z) = x ++ z → trim_left x = x.
Proof.
  assert (Hshort : ∀ (l l' : list ascii), length l < length l' → trim_left l ≠ l').
  { intros l l' Hl He. pose proof (trim_left_length l) as H. rewrite He in H. lia. }
  destruct x as [|a x1]; [done|]. cbn [app trim_left]. destruct (ascii_space a); [intros H; by apply Hshort in H; [|simpl; lia]|].
  destruct x1 as [|b x2]; [done|]. cbn [app]. destruct (space2 a b); [intros H; by apply Hshort in H; [|simpl; lia]|].
  destruct x2 as [|c x3]; [done|]. cbn [app]. destruct (space3 a b c); [intros H; by apply Hshort in H; [|simpl; lia]|done].
Qed.

Lemma trim_right_idemp l : trim_right_rev (trim_right_rev l) = trim_right_rev l.
Proof.
  remember (length l) as n eqn:Hn. revert l Hn. induction (lt_wf n) as [n _ IH]. intros [|a l1] ->; [done|]. cbn [trim_right_rev].
  destruct (ascii_space a) eqn:Ha; [by apply (IH (length l1)); [simpl; lia|]|].
  destruct l1 as [|b l2]; [cbn [trim_right_rev]; by rewrite Ha|].
  destruct (space2 b a) eqn:H2; [by apply (IH (length l2)); [simpl; lia|]|].
  destruct l2 as [|c l3]; [cbn [trim_right_rev]; by rewrite Ha, H2|].
  destruct (space3 c b a) eqn:H3; [by apply (IH (length l3)); [simpl; lia|]|]. cbn [trim_right_rev]. by rewrite Ha, H2, H3.
Qed.

Lemma trim_right_suffix l : ∃ p, l = p ++ trim_right_rev l.
Proof.
  remember (length l) as n eqn:Hn. revert l Hn. induction (lt_wf n) as [n _ IH]. intros [|a l1] ->; [by exists []|]. cbn [trim_right_rev].
  destruct (ascii_space a); [destruct (IH (length l1) ltac:(simpl; lia) l1 eq_refl) as [p Hp]; exists (a :: p); simpl; by rewrite <-Hp|].
  destruct l1 as [|b l2]; [by exists []|].
  destruct (space2 b a); [destruct (IH (length l2) ltac:(simpl; lia) l2 eq_refl) as [p Hp]; exists (a :: b :: p); simpl; by rewrite <-Hp|].
  destruct l2 as [|c l3]; [by exists []|].
  destruct (space3 c b a); [destruct (IH (length l3) ltac:(simpl; lia) l3 eq_refl) as [p Hp]; exists (a :: b :: c :: p); simpl; by rewrite <-Hp|].
  by exists [].
Qed.

Lemma TrimSpace_idemp s : TrimSpace (TrimSpace s) = TrimSpace s.
Proof.
  unfold TrimSpace. rewrite go_bytes_of_bytes. f_equal. f_equal.
  destruct (trim_right_suffix (reverse (trim_left (go_bytes s)))) as [p Hp].
  rewrite (trim_left_prefix _ (reverse p)).
  - by rewrite reverse_involutive, trim_right_idemp.
  - apply (f_equal reverse) in Hp. rewrite reverse_involutive, reverse_app in Hp. rewrite <-Hp. apply trim_left_idemp.
Qed.

Lemma blank_TrimSpace s : blank (TrimSpace s) = blank s.
Proof. unfold blank. by rewrite TrimSpace_idemp. Qed.
