(* ===== verification/Regex.v ===== *)
(** * Regular expressions

    The patterns compiled with [regexp.MustCompile] are transcribed as terms of
    [re] and run by a derivative matcher, proved to decide the language of the
    pattern.  Matching is on bytes: the classes used by the sources are ASCII
    classes or complements of them, so a multi-byte rune matches exactly when
    its bytes do. *)

From S2P Require Import Prelude GoStrings.

Inductive re :=
  | Nul
  | Eps
  | Cls (p : ascii → bool)
  | Seq (r1 r2 : re)
  | Alt (r1 r2 : re)
  | Star (r : re).

Inductive matches : re → list ascii → Prop :=
  | m_eps : matches Eps []
  | m_cls p c : p c = true → matches (Cls p) [c]
  | m_seq r1 r2 l1 l2 : matches r1 l1 → matches r2 l2 → matches (Seq r1 r2) (l1 ++ l2)
  | m_alt_l r1 r2 l : matches r1 l → matches (Alt r1 r2) l
  | m_alt_r r1 r2 l : matches r2 l → matches (Alt r1 r2) l
  | m_star_nil r : matches (Star r) []
  | m_star_app r l1 l2 : matches r l1 → matches (Star r) l2 → matches (Star r) (l1 ++ l2).

Create HintDb regex.
#[export] Hint Constructors matches : regex.

Fixpoint nullable (r : re) : bool :=
  match r with
  | Nul | Cls _ => false
  | Eps | Star _ => true
  | Seq r1 r2 => nullable r1 && nullable r2
  | Alt r1 r2 => nullable r1 || nullable r2
  end.

Definition seq (r1 r2 : re) : re :=
  match r1, r2 with
  | Nul, _ | _, Nul => Nul
  | Eps, r | r, Eps => r
  | _, _ => Seq r1 r2
  end.

Definition alt (r1 r2 : re) : re :=
  match r1, r2 with
  | Nul, r | r, Nul => r
  | _, _ => Alt r1 r2
  end.

Fixpoint deriv (c : ascii) (r : re) : re :=
  match r with
  | Nul | Eps => Nul
  | Cls p => if p c then Eps else Nul
  | Seq r1 r2 =>
      if nullable r1 then alt (seq (deriv c r1) r2) (deriv c r2)
      else seq (deriv c r1) r2
  | Alt r1 r2 => alt (deriv c r1) (deriv c r2)
  | Star r => seq (deriv c r) (Star r)
  end.

Fixpoint match_bytes (r : re) (l : list ascii) : bool :=
  match l with
  | [] => nullable r
  | c :: l => match_bytes (deriv c r) l
  end.

Definition MatchString (r : re) (s : string) : bool := match_bytes r (go_bytes s).

(** ** The matcher decides the language *)

Lemma matches_seq_inv r1 r2 l :
  matches (Seq r1 r2) l ↔ ∃ l1 l2, l = l1 ++ l2 ∧ matches r1 l1 ∧ matches r2 l2.
Proof.
  split; [inv 1; eauto|]. intros (?&?&->&?&?). by constructor.
Qed.

Lemma matches_alt_inv r1 r2 l :
  matches (Alt r1 r2) l ↔ matches r1 l ∨ matches r2 l.
Proof. split; [inv 1; auto|]. intros []; auto with regex. Qed.

Lemma matches_nul l : ¬ matches Nul l.
Proof. inversion 1. Qed.

Lemma matches_eps l : matches Eps l ↔ l = [].
Proof. split; [by inv 1|intros ->; constructor]. Qed.

Lemma matches_seq r1 r2 l : matches (seq r1 r2) l ↔ matches (Seq r1 r2) l.
Proof.
  assert (∀ r, matches r l ↔ matches (Seq Eps r) l) as Hl.
  { intros r. rewrite matches_seq_inv. split.
    - intros. exists [], l. auto with regex.
    - intros (?&?&->&->%matches_eps&?). done. }
  assert (∀ r, matches r l ↔ matches (Seq r Eps) l) as Hr.
  { intros r. rewrite matches_seq_inv. split.
    - intros. exists l, []. rewrite app_nil_r. auto with regex.
    - intros (?&?&->&?&->%matches_eps). by rewrite app_nil_r. }
  assert (∀ r, matches Nul l ↔ matches (Seq Nul r) l) as Hnl.
  { intros r. rewrite matches_seq_inv. split; [by intros ?%matches_nul|].
    by intros (?&?&_&?%matches_nul&_). }
  assert (∀ r, matches Nul l ↔ matches (Seq r Nul) l) as Hnr.
  { intros r. rewrite matches_seq_inv. split; [by intros ?%matches_nul|].
    by intros (?&?&_&_&?%matches_nul). }
  destruct r1, r2; simpl; auto; done.
Qed.

Lemma matches_alt r1 r2 l : matches (alt r1 r2) l ↔ matches (Alt r1 r2) l.
Proof.
  rewrite matches_alt_inv. pose proof (matches_nul l).
  destruct r1, r2; simpl; rewrite ?matches_alt_inv; tauto.
Qed.

Lemma nullable_correct r : nullable r = true ↔ matches r [].
Proof.
  induction r as [| |p|r1 IH1 r2 IH2|r1 IH1 r2 IH2|r IH]; simpl.
  - split; [done|]. by intros ?%matches_nul.
  - split; auto with regex.
  - split; [done|]. inversion 1.
  - rewrite andb_true_iff, IH1, IH2, matches_seq_inv. split.
    + intros []. by exists [], [].
    + by intros (?&?&[-> ->]%symmetry%app_nil&?&?).
  - by rewrite orb_true_iff, IH1, IH2, matches_alt_inv.
  - split; auto with regex.
Qed.

Lemma matches_star_cons r c l :
  matches (Star r) (c :: l) →
  ∃ l1 l2, l = l1 ++ l2 ∧ matches r (c :: l1) ∧ matches (Star r) l2.
Proof.
  intros H. remember (Star r) as s eqn:Hs. remember (c :: l) as k eqn:Hk.
  revert Hs Hk. induction H as [| | | | | |r' l1 l2 H1 _ H2 IH2]; intros Hs Hk;
    try done. injection Hs as ->.
  destruct l1 as [|c' l1]; simpl in *; [by apply IH2|].
  injection Hk as -> <-. eauto.
Qed.

Lemma deriv_correct r c l : matches (deriv c r) l ↔ matches r (c :: l).
Proof.
  revert l. induction r as [| |p|r1 IH1 r2 IH2|r1 IH1 r2 IH2|r IH]; intros l; simpl.
  - split; by intros ?%matches_nul.
  - split; [by intros ?%matches_nul|by intros ?%matches_eps].
  - destruct (p c) eqn:Hp.
    + rewrite matches_eps. split; [intros ->; by constructor|by inv 1].
    + split; [by intros ?%matches_nul|]. inv 1; congruence.
  - assert (matches (seq (deriv c r1) r2) l ↔
      ∃ l1 l2, l = l1 ++ l2 ∧ matches r1 (c :: l1) ∧ matches r2 l2) as Hd.
    { rewrite matches_seq, matches_seq_inv. naive_solver eauto. }
    assert (matches (Seq r1 r2) (c :: l) ↔
      (matches r1 [] ∧ matches r2 (c :: l)) ∨
      ∃ l1 l2, l = l1 ++ l2 ∧ matches r1 (c :: l1) ∧ matches r2 l2) as ->.
    { rewrite matches_seq_inv. split.
      - intros ([|d l1]&l2&Heq&?&?); simpl in *; simplify_eq; eauto 10.
      - intros [[]|(l1&l2&->&?&?)]; [by exists [], (c :: l)|by exists (c :: l1), l2]. }
    destruct (nullable r1) eqn:Hn.
    + rewrite matches_alt, matches_alt_inv, Hd, IH2.
      apply nullable_correct in Hn. tauto.
    + rewrite Hd. assert (¬ matches r1 []) by (rewrite <-nullable_correct, Hn; done). tauto.
  - by rewrite matches_alt, !matches_alt_inv, IH1, IH2.
  - rewrite matches_seq, matches_seq_inv. split.
    + intros (l1&l2&->&?%IH&?). by apply (m_star_app _ (c :: l1)).
    + intros (l1&l2&->&?&?)%matches_star_cons. exists l1, l2. by rewrite IH.
Qed.

Theorem MatchString_correct r s : MatchString r s = true ↔ matches r (go_bytes s).
Proof.
  unfold MatchString. generalize (go_bytes s); intros l; revert r.
  induction l as [|c l IH]; intros r; simpl; [apply nullable_correct|].
  by rewrite IH, deriv_correct.
Qed.

(** ** Building patterns *)

Definition byte_in (lo hi : N) (c : ascii) : bool := ((lo <=? code c) && (code c <=? hi))%N.
Definition chr (c : ascii) : ascii → bool := λ d, bool_decide (c = d).
Definition oneof (s : string) : ascii → bool := λ c, bool_decide (c ∈ go_bytes s).
Definition either (p q : ascii → bool) : ascii → bool := λ c, p c || q c.
Definition none_of (p : ascii → bool) : ascii → bool := λ c, negb (p c).

Definition lower : ascii → bool := byte_in 97 122.
Definition upper : ascii → bool := byte_in 65 90.
Definition digit : ascii → bool := byte_in 48 57.
Definition hexdigit : ascii → bool := either digit (byte_in 97 102).
Definition alnum_lower : ascii → bool := either lower digit.
Definition alnum : ascii → bool := either alnum_lower upper.
(** [\s]: tab, LF, FF, CR and space. *)
Definition re_space (c : ascii) : bool :=
  bool_decide (code c ∈ [9; 10; 12; 13; 32]%N).
(** [\w]. *)
Definition word : ascii → bool := either alnum (chr "_").

Definition any : re := Cls (λ _, true).
Definition lit (s : string) : re := foldr (λ c r, Seq (Cls (chr c)) r) Eps (go_bytes s).
Definition plus (r : re) : re := Seq r (Star r).
Definition opt (r : re) : re := Alt Eps r.
Definition rep (n : nat) (r : re) : re := Nat.iter n (Seq r) Eps.
Definition at_least (n : nat) (r : re) : re := Seq (rep n r) (Star r).
Definition alts (l : list re) : re := foldr Alt Nul l.
Definition seqs (l : list re) : re := foldr Seq Eps l.

(** An unanchored pattern. *)
Definition search (r : re) : re := Seq (Star any) (Seq r (Star any)).

(** A letter under [(?i)]: both cases, and for [s] and [k] the two non-ASCII
    code points that fold to them (U+017F and U+212A). *)
Definition ci_char (c : ascii) : re :=
  let both := Cls (λ d, bool_decide (lower_ascii d = c)) in
  if bool_decide (c = "s"%char)
  then Alt both (lit (of_bytes (Ascii.ascii_of_N <$> [0xC5; 0xBF]%N)))
  else if bool_decide (c = "k"%char)
  then Alt both (lit (of_bytes (Ascii.ascii_of_N <$> [0xE2; 0x84; 0xAA]%N)))
  else both.

(** A lower-case literal under [(?i)]. *)
Definition ci (s : string) : re := foldr (λ c r, Seq (ci_char c) r) Eps (go_bytes s).

(** ** Shared consequences *)

Lemma matches_cls p l : matches (Cls p) l ↔ ∃ c, l = [c] ∧ p c = true.
Proof. split; [inv 1; eauto|]. intros (c&->&?). by constructor. Qed.

Lemma matches_star_cls p l : matches (Star (Cls p)) l ↔ Forall (λ c, p c = true) l.
Proof.
  split.
  - remember (Star (Cls p)) as r eqn:Hr. intros H; revert Hr.
    induction H as [| | | | | |r' l1 l2 H1 _ H2 IH2]; intros Hr; try done.
    injection Hr as ->. apply matches_cls in H1 as (c&->&?). simpl. constructor; auto.
  - induction 1 as [|c l Hc _ IH]; [constructor|].
    apply (m_star_app _ [c]); [by constructor|done].
Qed.

Lemma matches_plus_cls p l :
  matches (plus (Cls p)) l ↔ l ≠ [] ∧ Forall (λ c, p c = true) l.
Proof.
  unfold plus. rewrite matches_seq_inv. split.
  - intros (l1&l2&->&(c&->&?)%matches_cls&?%matches_star_cls).
    split; [done|]. by constructor.
  - intros [Hne Hall]. destruct Hall as [|c l Hc Hl]; [done|].
    exists [c], l. split_and!; [done| |by apply matches_star_cls].
    apply matches_cls; eauto.
Qed.

Lemma matches_rep_cls n p l :
  matches (rep n (Cls p)) l ↔ length l = n ∧ Forall (λ c, p c = true) l.
Proof.
  unfold rep. revert l; induction n as [|n IH]; intros l; simpl.
  - rewrite matches_eps. split; [by intros ->|]. intros [?%nil_length_inv _]. done.
  - rewrite matches_seq_inv. split.
    + intros (l1&l2&->&(c&->&?)%matches_cls&[<- ?]%IH). by repeat constructor.
    + intros [Hlen Hall]. destruct Hall as [|c l Hc Hl]; [done|].
      exists [c], l. rewrite IH. split_and!; [done| |simpl in *; lia|done].
      apply matches_cls; eauto.
Qed.

Lemma matches_lit s l : matches (lit s) l ↔ l = go_bytes s.
Proof.
  unfold lit. revert l; induction (go_bytes s) as [|c k IH]; intros l; simpl.
  - apply matches_eps.
  - rewrite matches_seq_inv. split.
    + intros (l1&l2&->&(d&->&Hd)%matches_cls&->%IH).
      unfold chr in Hd. apply bool_decide_eq_true in Hd as ->. done.
    + intros ->. exists [c], k. split_and!; [done| |by apply IH].
      apply matches_cls. exists c. unfold chr. by rewrite bool_decide_true.
Qed.

Lemma matches_any l : matches (Star any) l.
Proof. apply matches_star_cls. apply Forall_forall. done. Qed.

(** An unanchored pattern found in a text is found in a longer one. *)
Lemma search_app r a s b :
  MatchString (search r) s = true → MatchString (search r) (a +:+ s +:+ b) = true.
Proof.
  rewrite !MatchString_correct. unfold search. rewrite !go_bytes_app, !matches_seq_inv.
  intros (l1&l2&->&_&Hm). apply matches_seq_inv in Hm as (l3&l4&->&Hr&_).
  exists (go_bytes a ++ l1), (l3 ++ (l4 ++ go_bytes b)).
  split_and!; [by rewrite <-!app_assoc|apply matches_any|].
  constructor; [done|apply matches_any].
Qed.
