(* ===== verification/GoEncoding.v ===== *)
(** * Encodings of the Go standard library

    [crypto/sha256], [encoding/hex] and the writer half of [encoding/json], as
    far as the repository uses them: digests of JSON documents, and JSON text
    as a traversal of a structured value. *)

From S2P Require Import Prelude GoStrings.
From stdpp Require Import pretty.

(** ** SHA-256 *)

Module Sha256.
Local Open Scope N_scope.

Definition w32 (x : N) : N := N.land x 0xFFFFFFFF.
Definition add32 (x y : N) : N := w32 (x + y).
Definition rotr (n x : N) : N := N.lor (N.shiftr x n) (w32 (N.shiftl x (32 - n))).
Definition not32 (x : N) : N := N.lxor x 0xFFFFFFFF.

(** The 32-bit digits of a number, most significant first. *)
Definition digits32 (n : nat) (x : N) : list N :=
  (λ i, w32 (N.shiftr x (32 * N.of_nat i))) <$> reverse (seq 0 n).

(** The 64 round constants, as one number. *)
Definition k : list N := digits32 64
  0x428a2f9871374491b5c0fbcfe9b5dba53956c25b59f111f1923f82a4ab1c5ed5d807aa9812835b01243185be550c7dc372be5d7480deb1fe9bdc06a7c19bf174e49b69c1efbe47860fc19dc6240ca1cc2de92c6f4a7484aa5cb0a9dc76f988da983e5152a831c66db00327c8bf597fc7c6e00bf3d5a7914706ca63511429296727b70a852e1b21384d2c6dfc53380d13650a7354766a0abb81c2c92e92722c85a2bfe8a1a81a664bc24b8b70c76c51a3d192e819d6990624f40e3585106aa07019a4c1161e376c082748774c34b0bcb5391c0cb34ed8aa4a5b9cca4f682e6ff3748f82ee78a5636f84c878148cc7020890befffaa4506cebbef9a3f7c67178f2.

Definition state : Type := N * N * N * N * N * N * N * N.

Definition of_digits (l : list N) : state :=
  match l with
  | [a; b; c; d; e; f; g; h] => (a, b, c, d, e, f, g, h)
  | _ => (0, 0, 0, 0, 0, 0, 0, 0)
  end.

(** The initial hash value, as one number. *)
Definition init : state := of_digits (digits32 8
  0x6a09e667bb67ae853c6ef372a54ff53a510e527f9b05688c1f83d9ab5be0cd19).

Definition round (s : state) (kw : N * N) : state :=
  let '(a, b, c, d, e, f, g, h) := s in
  let s1 := N.lxor (rotr 6 e) (N.lxor (rotr 11 e) (rotr 25 e)) in
  let ch := N.lxor (N.land e f) (N.land (not32 e) g) in
  let t1 := w32 (h + s1 + ch + kw.1 + kw.2) in
  let s0 := N.lxor (rotr 2 a) (N.lxor (rotr 13 a) (rotr 22 a)) in
  let maj := N.lxor (N.land a b) (N.lxor (N.land a c) (N.land b c)) in
  let t2 := w32 (s0 + maj) in
  (add32 t1 t2, a, b, c, add32 d t1, e, f, g).

(** The message schedule, newest word first. *)
Definition extend (ws : list N) : list N :=
  let w n := default 0 (ws !! n) in
  let s0 := N.lxor (rotr 7 (w 14%nat)) (N.lxor (rotr 18 (w 14%nat)) (N.shiftr (w 14%nat) 3)) in
  let s1 := N.lxor (rotr 17 (w 1%nat)) (N.lxor (rotr 19 (w 1%nat)) (N.shiftr (w 1%nat) 10)) in
  w32 (w 15%nat + s0 + w 6%nat + s1) :: ws.

Definition compress (s : state) (block : list N) : state :=
  let ws := reverse (Nat.iter 48 extend (reverse block)) in
  let '(a, b, c, d, e, f, g, h) := fold_left round (zip k ws) s in
  let '(a0, b0, c0, d0, e0, f0, g0, h0) := s in
  (add32 a0 a, add32 b0 b, add32 c0 c, add32 d0 d, add32 e0 e, add32 f0 f, add32 g0 g, add32 h0 h).

Definition be_bytes (n : nat) (x : N) : list N :=
  (λ i, N.land (N.shiftr x (8 * N.of_nat i)) 0xFF) <$> reverse (seq 0 n).

Definition pad (msg : list N) : list N :=
  let len := length msg in
  let zeros := ((119 - len mod 64) mod 64)%nat in
  msg ++ [0x80] ++ replicate zeros 0 ++ be_bytes 8 (8 * N.of_nat len).

Fixpoint words (l : list N) : list N :=
  match l with
  | a :: b :: c :: d :: l => (N.shiftl a 24 + N.shiftl b 16 + N.shiftl c 8 + d) :: words l
  | _ => []
  end.

Fixpoint blocks (fuel : nat) (ws : list N) : list (list N) :=
  match fuel, ws with
  | O, _ | _, [] => []
  | S fuel, _ => take 16 ws :: blocks fuel (drop 16 ws)
  end.

Definition sum (msg : list N) : list N :=
  let ws := words (pad msg) in
  let '(a, b, c, d, e, f, g, h) := fold_left compress (blocks (length ws) ws) init in
  mjoin (be_bytes 4 <$> [a; b; c; d; e; f; g; h]).
End Sha256.

Definition hex_digit (n : N) : ascii :=
  Ascii.ascii_of_N (if (n <? 10)%N then 48 + n else 87 + n)%N.

(** [hex.EncodeToString]. *)
Definition hex_encode (bytes : list N) : string :=
  of_bytes (bytes ≫= λ b, [hex_digit (N.shiftr b 4); hex_digit (N.land b 15)]).

(** [hex.EncodeToString(sha256.Sum256(data))]. *)
Definition sha256_hex (data : string) : string :=
  hex_encode (Sha256.sum (code <$> go_bytes data)).

Example sha256_abc :
  sha256_hex "abc" = "ba7816bf8f01cfea414140de5dae2223b00361a396177a9cb410ff61f20015ad".
Proof. vm_compute. reflexivity. Qed.

Example sha256_two_blocks :
  sha256_hex "abcdbcdecdefdefgefghfghighijhijkijkljklmklmnlmnomnopnopq"
  = "248d6a61d20638b8e5c026930c3e6039a33ce45964ff2167f6ecedd419db06c1".
Proof. vm_compute. reflexivity. Qed.

(** ** JSON text *)

Inductive json :=
  | JNull
  | JBool (b : bool)
  | JInt (z : Z)
  | JStr (s : string)
  | JArr (l : list json)
  | JObj (fields : list (string * json)).

Definition quote : ascii := Ascii.ascii_of_N 34.
Definition backslash : ascii := Ascii.ascii_of_N 92.

Definition escape_u (n : N) : list ascii :=
  [backslash; "u"%char; hex_digit (N.shiftr n 12); hex_digit (N.land (N.shiftr n 8) 15);
   hex_digit (N.land (N.shiftr n 4) 15); hex_digit (N.land n 15)].

Definition cont (lo hi : N) (c : ascii) : bool := ((lo <=? code c) && (code c <=? hi))%N.

(** One ASCII byte of a JSON string; HTML characters are escaped. *)
Definition escape_ascii (c : ascii) : list ascii :=
  let n := code c in
  if (n =? 34)%N || (n =? 92)%N then [backslash; c]
  else if (n =? 8)%N then [backslash; "b"%char]
  else if (n =? 12)%N then [backslash; "f"%char]
  else if (n =? 10)%N then [backslash; "n"%char]
  else if (n =? 13)%N then [backslash; "r"%char]
  else if (n =? 9)%N then [backslash; "t"%char]
  else if (n <? 32)%N || bool_decide (n ∈ [38; 60; 62]%N) then escape_u n
  else [c].

(** The length of the well-formed multi-byte sequence at the head. *)
Definition utf8_width (l : list ascii) : option nat :=
  match l with
  | a :: b :: l =>
      let x := code a in
      if ((0xC2 <=? x) && (x <=? 0xDF))%N && cont 0x80 0xBF b then Some 2 else
      match l with
      | c :: l =>
          if ((x =? 0xE0)%N && cont 0xA0 0xBF b
              || (((0xE1 <=? x) && (x <=? 0xEC))%N || (x =? 0xEE)%N || (x =? 0xEF)%N)
                 && cont 0x80 0xBF b
              || (x =? 0xED)%N && cont 0x80 0x9F b) && cont 0x80 0xBF c
          then Some 3 else
          match l with
          | d :: _ =>
              if ((x =? 0xF0)%N && cont 0x90 0xBF b
                  || ((0xF1 <=? x) && (x <=? 0xF3))%N && cont 0x80 0xBF b
                  || (x =? 0xF4)%N && cont 0x80 0x8F b)
                 && cont 0x80 0xBF c && cont 0x80 0xBF d
              then Some 4 else None
          | [] => None
          end
      | [] => None
      end
  | _ => None
  end.

(** U+2028 and U+2029. *)
Definition line_separator (a b c : ascii) : bool :=
  ((code a =? 0xE2) && (code b =? 0x80) && ((code c =? 0xA8) || (code c =? 0xA9)))%N.

Fixpoint escape_bytes (l : list ascii) : list ascii :=
  match l with
  | [] => []
  | a :: l1 =>
      if (code a <? 0x80)%N then escape_ascii a ++ escape_bytes l1 else
      match utf8_width l, l1 with
      | Some 2, b :: l2 => a :: b :: escape_bytes l2
      | Some 3, b :: c :: l3 =>
          (if line_separator a b c
           then escape_u (0x2028 + (code c - 0xA8))%N else [a; b; c]) ++ escape_bytes l3
      | Some 4, b :: c :: d :: l4 => a :: b :: c :: d :: escape_bytes l4
      | _, _ => escape_u 0xFFFD ++ escape_bytes l1
      end
  end.

Definition json_string (s : string) : string :=
  of_bytes ([quote] ++ escape_bytes (go_bytes s) ++ [quote]).

(** [json.Marshal]. *)
Fixpoint json_text (j : json) : string :=
  match j with
  | JNull => "null"
  | JBool b => if b then "true" else "false"
  | JInt z => pretty z
  | JStr s => json_string s
  | JArr l =>
      "[" +:+ strings_Join ((fix go (l : list json) := match l with
                     | [] => [] | x :: l => json_text x :: go l end) l) "," +:+ "]"
  | JObj fields =>
      "{" +:+ strings_Join ((fix go (l : list (string * json)) := match l with
                     | [] => []
                     | (name, x) :: l => (json_string name +:+ ":" +:+ json_text x) :: go l
                     end) fields) "," +:+ "}"
  end.

(** Field constructors; [omitempty] fields disappear at their zero value.  A
    nil slice prints as [null], and the empty slices of the modelled documents
    are nil slices. *)
Definition js (name value : string) : list (string * json) := [(name, JStr value)].
Definition js_opt (name value : string) : list (string * json) :=
  if bool_decide (value = "") then [] else [(name, JStr value)].
Definition jb (name : string) (b : bool) : list (string * json) := [(name, JBool b)].
Definition ji (name : string) (z : Z) : list (string * json) := [(name, JInt z)].
Definition jl (name : string) (l : list string) : list (string * json) :=
  [(name, match l with [] => JNull | _ => JArr (JStr <$> l) end)].
Definition jl_opt (name : string) (l : list string) : list (string * json) :=
  match l with [] => [] | _ => [(name, JArr (JStr <$> l))] end.
Definition jo_opt (name : string) (o : option json) : list (string * json) :=
  match o with None => [] | Some j => [(name, j)] end.

(** A map prints with its keys sorted. *)
Definition json_map (m : gmap string string) : json :=
  JObj ((λ k, (k, JStr (default "" (m !! k)))) <$> sort_strings (map_to_list m).*1).

Example json_escapes :
  json_text (JObj (js "a" ("<" +:+ of_bytes [quote]))) =
  "{" +:+ of_bytes [quote] +:+ "a" +:+ of_bytes [quote] +:+ ":" +:+
  of_bytes ([quote; backslash] ++ go_bytes "u003c" ++ [backslash; quote; quote]) +:+ "}".
Proof. vm_compute. reflexivity. Qed.
