(* ===== verification/Dfs.v ===== *)
(** * Depth-first search with a visiting and a visited set

    Four parts of the repository walk a dependency graph with the same
    recursive closure: [visit] fails when the node is being visited, returns
    when it was visited, and otherwise visits the dependencies and marks the
    node visited.  The stack of nodes being visited is an argument here, which
    is the [visiting] map of the sources at every call; the visited nodes are
    kept in the order they are finished. *)

From S2P Require Import Prelude.

Section dfs.
Context {K : Type} `{!EqDecision K} (deps : K → list K).

(** Outcome of a walk: a node closing a cycle, or the visited nodes. *)
Inductive walk :=
  | Cycle (k : K)
  | Visited (order : list K).

(** [None] is fuel exhaustion. *)
Fixpoint visit (fuel : nat) (visiting visited : list K) (id : K) : option walk :=
  match fuel with
  | O => None
  | S fuel =>
      if decide (id ∈ visiting) then Some (Cycle id)
      else if decide (id ∈ visited) then Some (Visited visited)
      else
        match (fix loop (l : list K) (visited : list K) : option walk :=
                 match l with
                 | [] => Some (Visited visited)
                 | d :: l =>
                     match visit fuel (id :: visiting) visited d with
                     | Some (Visited visited) => loop l visited
                     | r => r
                     end
                 end) (deps id) visited with
        | Some (Visited visited) => Some (Visited (visited ++ [id]))
        | r => r
        end
  end.

Fixpoint visit_all (fuel : nat) (visiting visited : list K) (l : list K) : option walk :=
  match l with
  | [] => Some (Visited visited)
  | d :: l =>
      match visit fuel visiting visited d with
      | Some (Visited visited) => visit_all fuel visiting visited l
      | r => r
      end
  end.

(** Walk from every root, with fuel for a graph of [size] nodes. *)
Definition dfs (size : nat) (roots : list K) : option walk :=
  visit_all (S size) [] [] roots.

Lemma visit_S fuel visiting visited id :
  visit (S fuel) visiting visited id =
  if decide (id ∈ visiting) then Some (Cycle id)
  else if decide (id ∈ visited) then Some (Visited visited)
  else match visit_all fuel (id :: visiting) visited (deps id) with
       | Some (Visited visited) => Some (Visited (visited ++ [id]))
       | r => r
       end.
Proof.
  simpl. case_decide; [done|]. case_decide; [done|].
  match goal with |- match ?a with _ => _ end = match ?b with _ => _ end =>
    assert (a = b) as ->; [|done] end.
  generalize (deps id). intros l. revert visited H0.
  induction l as [|d l IH]; intros visited H0; simpl; [done|].
  destruct (visit fuel (id :: visiting) visited d) as [[k|v]|] eqn:E; try done.
  clear H0. revert v E. intros v _. clear -IH.
  assert (∀ v, (fix loop (l0 : list K) (visited0 : list K) {struct l0} : option walk :=
     match l0 with
     | [] => Some (Visited visited0)
     | d0 :: l1 =>
         match visit fuel (id :: visiting) visited0 d0 with
         | Some (Cycle k) => Some (Cycle k)
         | Some (Visited visited1) => loop l1 visited1
         | None => None
         end
     end) l v = visit_all fuel (id :: visiting) v l) as Hl.
  { clear. induction l as [|d l IH]; intros v; simpl; [done|].
    destruct (visit _ _ _ _) as [[]|]; auto. }
  apply Hl.
Qed.

(** [y] is a dependency of [x]. *)
Definition edge (x y : K) : Prop := y ∈ deps x.

(** Every node comes after its dependencies, once. *)
Definition topological (order : list K) : Prop :=
  NoDup order ∧
  ∀ l1 k l2, order = l1 ++ k :: l2 → ∀ d, edge k d → d ∈ l1.

Lemma topological_nil : topological [].
Proof. split; [constructor|]. by intros [] ???. Qed.

Lemma topological_snoc order k :
  topological order → k ∉ order → (∀ d, edge k d → d ∈ order) →
  topological (order ++ [k]).
Proof.
  intros [Hnd Ht] Hk Hd. split.
  - apply NoDup_app. split_and!; [done| |apply NoDup_singleton]. set_solver.
  - intros l1 x l2 Heq d Hx.
    destruct l2 as [|y l2 _] using rev_ind.
    + apply app_inj_tail in Heq as [-> ->]. auto.
    + rewrite app_comm_cons, app_assoc in Heq.
      apply app_inj_tail in Heq as [-> ->]. by eapply Ht.
Qed.

Lemma topological_prefix l1 l2 : topological (l1 ++ l2) → topological l1.
Proof.
  intros [Hnd Ht]. split; [by apply NoDup_app in Hnd as [? _]|].
  intros a k b -> d Hd. eapply (Ht a k (b ++ l2)); [|done].
  by rewrite <-app_assoc.
Qed.

Lemma topological_reach l1 k l2 d :
  topological (l1 ++ k :: l2) → tc edge k d → d ∈ l1.
Proof.
  intros Ht Hp. revert l1 l2 Ht.
  induction Hp as [k d Hd|k z d Hz Hp IH]; intros l1 l2 Ht.
  - by eapply (proj2 Ht).
  - assert (z ∈ l1) as (a&b&->)%list_elem_of_split by by eapply (proj2 Ht).
    apply topological_prefix in Ht. specialize (IH a b Ht). set_solver.
Qed.

(** A topological order leaves no room for a cycle. *)
Lemma topological_acyclic order k :
  topological order → k ∈ order → ¬ tc edge k k.
Proof.
  intros Ht (l1&l2&->)%list_elem_of_split Hp.
  pose proof (topological_reach _ _ _ _ Ht Hp).
  destruct Ht as [Hnd _]. apply NoDup_app in Hnd as (_&Hd&_). set_solver.
Qed.

(** What one call guarantees when it succeeds. *)
Definition extends (visiting visited order : list K) : Prop :=
  visited `prefix_of` order ∧ topological order ∧
  (∀ x, x ∈ visiting → x ∉ order).

Lemma visit_all_extends fuel visiting visited l order :
  (∀ visited d order, visit fuel visiting visited d = Some (Visited order) →
     topological visited → (∀ x, x ∈ visiting → x ∉ visited) →
     extends visiting visited order ∧ d ∈ order) →
  visit_all fuel visiting visited l = Some (Visited order) →
  topological visited → (∀ x, x ∈ visiting → x ∉ visited) →
  extends visiting visited order ∧ ∀ d, d ∈ l → d ∈ order.
Proof.
  intros Hv. revert visited. induction l as [|d l IH]; intros visited Hr Ht Hs; simpl in Hr.
  { simplify_eq. split; [by split_and!|set_solver]. }
  destruct (visit fuel visiting visited d) as [[k|v]|] eqn:E; simplify_eq.
  destruct (Hv _ _ _ E Ht Hs) as [(Hp1&Ht1&Hs1) Hd].
  destruct (IH v Hr Ht1 Hs1) as [(Hp2&Ht2&Hs2) Hl].
  split; [split_and!; [by transitivity v|done..]|].
  intros x [->|Hx]%elem_of_cons; [|auto]. destruct Hp2 as [k ->]. set_solver.
Qed.

Lemma visit_extends fuel visiting visited id order :
  visit fuel visiting visited id = Some (Visited order) →
  topological visited → (∀ x, x ∈ visiting → x ∉ visited) →
  extends visiting visited order ∧ id ∈ order.
Proof.
  revert visiting visited id order.
  induction fuel as [|fuel IH]; intros visiting visited id order Hr Ht Hs; [done|].
  rewrite visit_S in Hr. case_decide as Hg; [done|].
  case_decide as Hd; [simplify_eq; by split|].
  destruct (visit_all _ _ _ _) as [[k|v]|] eqn:E; simplify_eq.
  destruct (visit_all_extends fuel (id :: visiting) visited (deps id) v)
    as [([e ->]&Ht'&Hs') Hdeps]; auto.
  { intros x [->|?]%elem_of_cons; auto. }
  split; [|set_solver]. split_and!.
  - exists (e ++ [id]). by rewrite app_assoc.
  - apply topological_snoc; [done| |done]. apply Hs'. set_solver.
  - intros x Hx. specialize (Hs' x). set_solver.
Qed.

(** A reported cycle is one. *)
Lemma visit_all_cycle fuel visiting visited l k :
  (∀ visited d, d ∈ l → visit fuel visiting visited d = Some (Cycle k) → tc edge k k) →
  visit_all fuel visiting visited l = Some (Cycle k) → tc edge k k.
Proof.
  revert visited. induction l as [|d l IH]; intros visited Hv Hr; simpl in Hr; [done|].
  destruct (visit fuel visiting visited d) as [[k'|v]|] eqn:E; simplify_eq.
  - eapply Hv; [|done]. set_solver.
  - eapply IH; [|done]. intros. eapply Hv; [|done]. set_solver.
Qed.

Lemma visit_cycle fuel visiting visited id k :
  visit fuel visiting visited id = Some (Cycle k) →
  (∀ x, x ∈ visiting → tc edge x id) → tc edge k k.
Proof.
  revert visiting visited id. induction fuel as [|fuel IH]; intros visiting visited id Hr Hs; [done|].
  rewrite visit_S in Hr. case_decide as Hg; [simplify_eq; by apply Hs|].
  case_decide; [done|].
  destruct (visit_all _ _ _ _) as [[k'|v]|] eqn:E; simplify_eq.
  eapply visit_all_cycle; [|exact E]. intros v' d Hd Hv. eapply IH; [exact Hv|].
  intros x [->|Hx]%elem_of_cons; [by apply tc_once|].
  eapply tc_r; [by apply Hs|done].
Qed.

(** Fuel: the stack holds distinct nodes of a closed universe. *)
Section fuel.
Context (nodes : list K).
Hypothesis closed : ∀ k d, k ∈ nodes → edge k d → d ∈ nodes.

Lemma visit_all_fuel fuel visiting visited l :
  (∀ d, d ∈ l → d ∈ nodes) →
  (∀ visited d, d ∈ nodes → visit fuel visiting visited d ≠ None) →
  visit_all fuel visiting visited l ≠ None.
Proof.
  revert visited. induction l as [|d l IH]; intros visited Hl Hv; simpl; [done|].
  destruct (visit fuel visiting visited d) as [[k|v]|] eqn:E; try done.
  - apply IH; set_solver.
  - by apply (Hv visited d) in E; [|set_solver].
Qed.

Lemma visit_fuel fuel visiting visited id :
  NoDup visiting → (∀ x, x ∈ visiting → x ∈ nodes) → id ∈ nodes →
  length nodes < fuel + length visiting → visit fuel visiting visited id ≠ None.
Proof.
  revert visiting visited id.
  induction fuel as [|fuel IH]; intros visiting visited id Hnd Hsub Hid Hlen.
  - assert (length visiting ≤ length nodes); [|simpl in *; lia].
    apply submseteq_length, NoDup_submseteq; auto.
  - rewrite visit_S. case_decide as Hg; [done|]. case_decide; [done|].
    destruct (visit_all _ _ _ _) as [[k|v]|] eqn:E; try done.
    apply visit_all_fuel in E; [done|by intros; eapply closed|].
    intros v d Hd. apply IH; [by constructor| |done|simpl; lia].
    intros x [->|?]%elem_of_cons; auto.
Qed.

Lemma dfs_fuel roots :
  (∀ d, d ∈ roots → d ∈ nodes) → dfs (length nodes) roots ≠ None.
Proof.
  intros Hr. apply visit_all_fuel; [done|]. intros v d Hd.
  apply visit_fuel; [constructor|set_solver|done|simpl; lia].
Qed.
End fuel.

(** ** The walk from the roots *)

Lemma dfs_visited size roots order :
  dfs size roots = Some (Visited order) →
  topological order ∧ (∀ d, d ∈ roots → d ∈ order).
Proof.
  intros Hr. apply visit_all_extends in Hr as [(_&?&_) ?].
  - done.
  - apply visit_extends.
  - apply topological_nil.
  - set_solver.
Qed.

Lemma dfs_cycle size roots k : dfs size roots = Some (Cycle k) → tc edge k k.
Proof.
  intros Hr. eapply visit_all_cycle; [|exact Hr].
  intros v d _ Hv. eapply visit_cycle; [exact Hv|set_solver].
Qed.

(** Nothing is visited but the nodes the roots reach. *)
Lemma visit_all_sound (P : K → Prop) fuel visiting visited l order :
  (∀ visited d order, P d → visit fuel visiting visited d = Some (Visited order) →
     Forall P visited → Forall P order) →
  visit_all fuel visiting visited l = Some (Visited order) →
  Forall P visited → Forall P l → Forall P order.
Proof.
  intros Hv. revert visited. induction l as [|d l IH]; intros visited Hr Hp Hl; simpl in Hr.
  { by simplify_eq. }
  apply Forall_cons in Hl as [Hd Hl].
  destruct (visit fuel visiting visited d) as [[k|v]|] eqn:E; simplify_eq. eauto.
Qed.

Lemma visit_sound (P : K → Prop) fuel visiting visited id order :
  (∀ k d, P k → edge k d → P d) →
  P id → visit fuel visiting visited id = Some (Visited order) →
  Forall P visited → Forall P order.
Proof.
  intros Hc. revert visiting visited id order.
  induction fuel as [|fuel IH]; intros visiting visited id order Hid Hr Hp; [done|].
  rewrite visit_S in Hr. case_decide; [done|]. case_decide; [by simplify_eq|].
  destruct (visit_all _ _ _ _) as [[k|v]|] eqn:E; simplify_eq.
  apply Forall_app. split; [|by constructor].
  eapply (visit_all_sound P); [| exact E|done|]; [eauto|].
  apply Forall_forall. intros d Hd. by eapply Hc.
Qed.

Lemma dfs_sound (P : K → Prop) size roots order :
  (∀ k d, P k → edge k d → P d) → Forall P roots →
  dfs size roots = Some (Visited order) → Forall P order.
Proof.
  intros Hc Hroots Hr. eapply (visit_all_sound P); [|exact Hr|constructor|done].
  intros v d o Hd Hv Hp. by eapply visit_sound.
Qed.
End dfs.

Arguments walk : clear implicits.
