(* ===== verification/Sdk.v ===== *)
(** * The extension boundary (sdk/types.go, sdk/validation.go)

    Stable identifiers, the descriptors of targets, capabilities, transforms,
    existing resources and lifecycle hooks, and their validators.  Enumerations
    of the sources are named strings; they stay strings here, since a value
    from outside the enumeration is what the validators reject. *)

From S2P Require Import Prelude GoStrings Regex Dfs.

(** ** Data *)

(* sdk/types.go, lines 183-186: BuildArtifact *)
Record BuildArtifact := {
  ImageDigest : string;
  ManifestDigest : string;
}.

(* sdk/types.go, lines 197-201: TargetDescriptor *)
Record TargetDescriptor := {
  TargetID : string;
  TargetProvider : string;
  TargetRuntime : string;
}.

(* sdk/types.go, lines 210-220: CapabilityKind *)
Definition capability_kinds : list string :=
  ["database"; "cache"; "search"; "queue"; "object-storage"; "edge"; "observability"].

(* sdk/types.go, lines 250-255: CapabilityDescriptor *)
Record CapabilityDescriptor := {
  CapProviderID : string;
  Capability : string;
  CapKind : string;
  CapProvider : string;
}.

(* sdk/types.go, lines 268-273: TransformDescriptor *)
Record TransformDescriptor := {
  TransformID : string;
  TransformProvider : string;
  TransformRuntime : string;
  Components : list string;
}.

(* sdk/types.go, lines 286-297: ExistingResourceKind *)
Definition existing_resource_kinds : list string :=
  ["network"; "database"; "cache"; "search"; "queue"; "object-storage"; "dns-zone"; "certificate"].

(* sdk/types.go, lines 299-304: ExistingResourceRef *)
Record ExistingResourceRef := {
  RefID : string;
  RefProvider : string;
  RefKind : string;
  RefExternalID : string;
}.

(* sdk/types.go, lines 306-314: LifecyclePhase *)
Definition PhaseValidate := "validate".
(* sdk/types.go, lines 310-310: PhaseBuild *)
Definition PhaseBuild := "build".
(* sdk/types.go, lines 311-311: PhasePackage *)
Definition PhasePackage := "package".
(* sdk/types.go, lines 312-312: PhaseDeploy *)
Definition PhaseDeploy := "deploy".
(* sdk/types.go, lines 313-313: PhasePostDeploy *)
Definition PhasePostDeploy := "post-deploy".

(* sdk/types.go, lines 316-323: HookRelationship *)
Definition HookBefore := "before".
(* sdk/types.go, lines 320-320: HookAfter *)
Definition HookAfter := "after".
(* sdk/types.go, lines 321-321: HookReplace *)
Definition HookReplace := "replace".
(* sdk/types.go, lines 322-322: HookDisable *)
Definition HookDisable := "disable".

(* sdk/types.go, lines 325-334: LifecycleHookDescriptor *)
Record LifecycleHookDescriptor := {
  HookID : string;
  Phase : string;
  Relationship : string;
  RelativeTo : string;
  DependsOn : list string;
  Timeout : Z;
  MaxAttempts : Z;
  Idempotent : bool;
}.

(** ** Identifiers *)

(* sdk/validation.go, lines 13-13: stableID *)
Definition stableID : re :=
  seqs [Cls lower; Star (Cls alnum_lower);
        Star (Seq (Cls (oneof ".-")) (plus (Cls alnum_lower)))].

(** [(?i)] and unanchored. *)
(* sdk/validation.go, lines 15-15: sensitiveField *)
Definition sensitiveField : re :=
  let dash := opt (Cls (oneof "_-")) in
  search (alts [ci "password"; ci "secret"; ci "token"; seqs [ci "api"; dash; ci "key"];
                seqs [ci "access"; dash; ci "key"]; seqs [ci "private"; dash; ci "key"]]).

(* sdk/validation.go, lines 263-268: validateID *)
Definition validateID (name value : string) : gerror :=
  fail_if (negb (MatchString stableID value)) (errorf "%s %q is not a stable ID" [GStr name; GStr value]).

(* sdk/validation.go, lines 270-278: validCapabilityKind *)
Definition validCapabilityKind (kind : string) : bool :=
  bool_decide (kind ∈ capability_kinds).

(* sdk/validation.go, lines 280-288: validExistingResourceKind *)
Definition validExistingResourceKind (kind : string) : bool :=
  bool_decide (kind ∈ existing_resource_kinds).

(* sdk/validation.go, lines 290-297: validLifecyclePhase *)
Definition validLifecyclePhase (phase : string) : bool :=
  bool_decide (phase ∈ [PhaseValidate; PhaseBuild; PhasePackage; PhaseDeploy; PhasePostDeploy]).

(* sdk/validation.go, lines 299-306: validHookRelationship *)
Definition validHookRelationship (relationship : string) : bool :=
  bool_decide (relationship ∈ [HookBefore; HookAfter; HookReplace; HookDisable]).

(* sdk/contracts.go, lines 574-578: SortedStrings *)
Definition SortedStrings (values : list string) : list string := sort_strings values.

(** ** Descriptors

    A [problems] slice collects nil and non-nil errors; [errors.Join] drops the
    nil ones.  The [seen] maps are the values met so far. *)

(* sdk/validation.go, lines 17-23: ValidateTargetDescriptor *)
Definition ValidateTargetDescriptor (d : TargetDescriptor) : gerror :=
  errors_Join
    [validateID "target ID" (TargetID d);
     validateID "provider ID" (TargetProvider d);
     validateID "runtime ID" (TargetRuntime d)].

(** One pass over a list with the values met before each element. *)
Fixpoint with_seen {A B} (f : list A → A → list B) (seen l : list A) : list B :=
  match l with
  | [] => []
  | x :: l => f seen x ++ with_seen f (x :: seen) l
  end.

(* sdk/validation.go, lines 90-108: ValidateCapabilityDescriptors *)
Definition ValidateCapabilityDescriptors (descriptors : list CapabilityDescriptor) : gerror :=
  errors_Join (with_seen (λ seen d,
    [validateID "capability provider ID" (CapProviderID d);
     validateID "capability ID" (Capability d);
     validateID "provider ID" (CapProvider d);
     fail_if (negb (validCapabilityKind (CapKind d)))
       (errorf "invalid capability kind %q" [GStr (CapKind d)]);
     fail_if (bool_decide (CapProviderID d ∈ CapProviderID <$> seen))
       (errorf "duplicate capability provider ID %q" [GStr (CapProviderID d)])])
    [] descriptors).

(* sdk/validation.go, lines 112-139: ValidateCapabilityRequirements *)
Definition ValidateCapabilityRequirements (required available : list string) : gerror :=
  let unsupported := filter (λ c, c ∉ available) required in
  errors_Join (
    with_seen (λ seen c,
      [validateID "available capability ID" c;
       fail_if (bool_decide (c ∈ seen)) (errorf "duplicate available capability %q" [GStr c])])
      [] available
    ++ with_seen (λ seen c,
      [validateID "required capability ID" c;
       fail_if (bool_decide (c ∈ seen)) (errorf "duplicate required capability %q" [GStr c])])
      [] required
    ++ [fail_if (negb (bool_decide (unsupported = [])))
          (errorf "target does not provide required capabilities: %s"
             [GStr (strings_Join (sort_strings unsupported) ", ")])]).

(* sdk/validation.go, lines 141-160: ValidateTransformDescriptor *)
Definition ValidateTransformDescriptor (d : TransformDescriptor) : gerror :=
  errors_Join (
    [validateID "transform ID" (TransformID d);
     validateID "provider ID" (TransformProvider d);
     validateID "runtime ID" (TransformRuntime d)]
    ++ with_seen (λ seen c,
      [validateID "component ID" c;
       fail_if (bool_decide (c ∈ seen)) (errorf "duplicate component ID %q" [GStr c])])
      [] (Components d)
    ++ [fail_if (bool_decide (Components d = []))
          (ErrNew "transform must select at least one component")]).

(* sdk/validation.go, lines 162-175: ValidateExistingResourceRef *)
Definition ValidateExistingResourceRef (ref : ExistingResourceRef) : gerror :=
  errors_Join
    [validateID "resource ID" (RefID ref);
     validateID "provider ID" (RefProvider ref);
     fail_if (negb (validExistingResourceKind (RefKind ref)))
       (errorf "invalid existing resource kind %q" [GStr (RefKind ref)]);
     fail_if (blank (RefExternalID ref)) (ErrNew "existing resource external ID is required")].

(** ** Lifecycle hooks *)

(* sdk/validation.go, lines 201-230: validateHookDescriptor *)
Definition validateHookDescriptor (d : LifecycleHookDescriptor) : gerror :=
  errors_Join (
    [validateID "lifecycle hook ID" (HookID d);
     validateID "relative lifecycle step ID" (RelativeTo d);
     fail_if (negb (validLifecyclePhase (Phase d)))
       (errorf "invalid lifecycle phase %q" [GStr (Phase d)]);
     fail_if (negb (validHookRelationship (Relationship d)))
       (errorf "invalid hook relationship %q" [GStr (Relationship d)]);
     fail_if (Timeout d <? 1)%Z
       (ErrNew "lifecycle hook timeout must be at least one second");
     if (MaxAttempts d <? 1)%Z
     then Some (ErrNew "lifecycle hook attempts must be at least one")
     else fail_if ((1 <? MaxAttempts d)%Z && negb (Idempotent d))
            (ErrNew "only idempotent lifecycle hooks may be retried")]
    ++ with_seen (λ seen dependency,
      [validateID "lifecycle dependency ID" dependency;
       fail_if (bool_decide (dependency ∈ seen))
         (errorf "lifecycle hook %q contains duplicate dependency %q"
            [GStr (HookID d); GStr dependency])])
      [] (DependsOn d)).

(** The last descriptor with an ID, as a map filled in order keeps it. *)
Definition by_id {A} (id : A → string) (l : list A) : gmap string A :=
  fold_left (λ m d, <[id d := d]> m) l ∅.

(** The key is not in the map. *)
Definition absent {A} (m : gmap string A) (k : string) : bool :=
  match m !! k with Some _ => false | None => true end.

(** Dependencies that name a hook of the set; other IDs are lifecycle steps. *)
Definition hook_deps (known : gmap string LifecycleHookDescriptor) (id : string) : list string :=
  match known !! id with
  | Some d => filter (λ dependency, is_Some (known !! dependency)) (DependsOn d)
  | None => []
  end.

(** The sources range over a map here: the roots are visited in the order of
    [map_to_list], one of the orders Go may choose, and only the node a cycle
    is reported at depends on it. *)
(* sdk/validation.go, lines 232-261: lifecycleCycles *)
Definition lifecycleCycles (known : gmap string LifecycleHookDescriptor) : gerror :=
  let ids := (map_to_list known).*1 in
  match dfs (hook_deps known) (length ids) ids with
  | Some (Cycle id) => Some (errorf "lifecycle hook dependency cycle at %q" [GStr id])
  | Some (Visited _) => None
  | None => Some (ErrNew "fuel")
  end.

(* sdk/validation.go, lines 179-199: ValidateLifecycleHooks *)
Definition ValidateLifecycleHooks (descriptors : list LifecycleHookDescriptor) : gerror :=
  errors_Join (
    with_seen (λ seen d,
      [validateHookDescriptor d;
       fail_if (bool_decide (HookID d ∈ HookID <$> seen))
         (errorf "duplicate lifecycle hook ID %q" [GStr (HookID d)])])
      [] descriptors
    ++ (descriptors ≫= λ d,
          (λ dependency, fail_if (bool_decide (dependency = HookID d))
             (errorf "lifecycle hook %q cannot depend on itself" [GStr (HookID d)]))
          <$> DependsOn d)
    ++ [lifecycleCycles (by_id HookID descriptors)]).

(** ** Lemmas *)

Lemma with_seen_None {A} (f : list A → A → list gerror) seen l :
  Forall (λ p, p = None) (with_seen f seen l) ↔
  ∀ l1 x l2, l = l1 ++ x :: l2 → Forall (λ p, p = None) (f (reverse l1 ++ seen) x).
Proof.
  revert seen; induction l as [|x l IH]; intros seen; simpl.
  - split; [intros _ [] ???; done|constructor].
  - rewrite Forall_app, IH. split.
    + intros [Hx Hl] [|y l1] z l2 Heq; simplify_eq/=; [done|].
      rewrite reverse_cons, <-app_assoc. by eapply Hl.
    + intros H. split; [by apply (H [] x l)|].
      intros l1 y l2 ->. specialize (H (x :: l1) y l2 eq_refl).
      by rewrite reverse_cons, <-app_assoc in H.
Qed.

(** The [seen] idiom accepts exactly the lists without repetition. *)
Lemma seen_NoDup {A B} `{!EqDecision B} (f : A → B) (l : list A) :
  (∀ l1 x l2, l = l1 ++ x :: l2 → f x ∉ f <$> reverse l1 ++ []) ↔ NoDup (f <$> l).
Proof.
  induction l as [|x l IH] using rev_ind; simpl.
  - split; [constructor|]. intros _ [] ???; done.
  - rewrite fmap_app, NoDup_app; simpl. split.
    + intros H. split_and!.
      * apply IH. intros l1 y l2 ->. apply (H l1 y (l2 ++ [x])).
        by rewrite <-app_assoc.
      * intros y Hy ->%list_elem_of_singleton.
        specialize (H l x [] eq_refl). rewrite app_nil_r in H.
        apply H.
        rewrite list_elem_of_fmap in Hy |- *. destruct Hy as (z&?&?). exists z.
        by rewrite elem_of_reverse.
      * apply NoDup_singleton.
    + intros (Hnd&Hx&_) l1 y l2 Heq Hin. rewrite app_nil_r in Hin.
      rewrite list_elem_of_fmap in Hin. destruct Hin as (z&Hz&Hin).
      rewrite elem_of_reverse in Hin.
      destruct l2 as [|w l2 _] using rev_ind.
      * apply app_inj_tail in Heq as [-> ->]. apply (Hx (f y)); [|set_solver].
        rewrite Hz. by apply list_elem_of_fmap_2.
      * rewrite app_comm_cons, app_assoc in Heq.
        apply app_inj_tail in Heq as [-> ->].
        apply (proj2 IH Hnd l1 y l2 eq_refl). rewrite app_nil_r, Hz.
        apply list_elem_of_fmap_2. by rewrite elem_of_reverse.
Qed.

Lemma seen_NoDup_id {A} `{!EqDecision A} (l : list A) :
  (∀ l1 x l2, l = l1 ++ x :: l2 → x ∉ reverse l1 ++ []) ↔ NoDup l.
Proof.
  transitivity (NoDup (id <$> l)); [|by rewrite list_fmap_id].
  rewrite <-(seen_NoDup id).
  split; intros H l1 x l2 Heq; specialize (H l1 x l2 Heq);
    by rewrite ?list_fmap_id in *.
Qed.

Lemma by_id_app {A} (id : A → string) l d :
  by_id id (l ++ [d]) = <[id d := d]> (by_id id l).
Proof. unfold by_id. by rewrite fold_left_app. Qed.

Lemma by_id_Some {A} (id : A → string) l k d :
  by_id id l !! k = Some d → d ∈ l ∧ id d = k.
Proof.
  induction l as [|x l IH] using rev_ind; [done|]. rewrite by_id_app, lookup_insert.
  case_decide; intros; simplify_eq; [set_solver|]. destruct IH; [done|set_solver].
Qed.

Lemma by_id_is_Some {A} (id : A → string) l k :
  is_Some (by_id id l !! k) ↔ k ∈ id <$> l.
Proof.
  induction l as [|x l IH] using rev_ind; simpl.
  - split; [intros [? [=]]|set_solver].
  - rewrite by_id_app, fmap_app, elem_of_app, lookup_insert; simpl.
    case_decide; [set_solver|]. rewrite IH. set_solver.
Qed.

Lemma by_id_lookup {A} (id : A → string) l d :
  NoDup (id <$> l) → d ∈ l → by_id id l !! id d = Some d.
Proof.
  induction l as [|x l IH] using rev_ind; [set_solver|].
  rewrite fmap_app, NoDup_app, elem_of_app, list_elem_of_singleton, by_id_app.
  intros (Hnd&Hx&_) [Hd| ->]; [|by rewrite lookup_insert_eq].
  rewrite lookup_insert_ne; [by apply IH|].
  intros Heq. apply (Hx (id d)); [by apply list_elem_of_fmap_2|]. simpl. set_solver.
Qed.

Lemma absent_false {A} (m : gmap string A) k : absent m k = false ↔ is_Some (m !! k).
Proof. unfold absent. destruct (m !! k); split; eauto; [done|by intros [??]]. Qed.

Lemma map_keys_elem {A} (m : gmap string A) k :
  k ∈ (map_to_list m).*1 ↔ is_Some (m !! k).
Proof.
  rewrite list_elem_of_fmap. split.
  - intros ([k' a]&->&H%elem_of_map_to_list). by exists a.
  - intros [a H]. exists (k, a). by rewrite elem_of_map_to_list.
Qed.

Lemma hook_deps_known known k d :
  edge (hook_deps known) k d → is_Some (known !! k) ∧ is_Some (known !! d).
Proof.
  unfold edge, hook_deps. destruct (known !! k) as [x|] eqn:E; [|set_solver].
  intros [??]%list_elem_of_filter. eauto.
Qed.

Lemma lifecycleCycles_fuel known :
  dfs (hook_deps known) (length (map_to_list known).*1) (map_to_list known).*1 ≠ None.
Proof.
  apply dfs_fuel; [|done]. intros k d _ [_ ?]%hook_deps_known. by apply map_keys_elem.
Qed.

Lemma lifecycleCycles_acyclic known :
  lifecycleCycles known = None ↔ ∀ k, ¬ tc (edge (hook_deps known)) k k.
Proof.
  unfold lifecycleCycles. pose proof (lifecycleCycles_fuel known) as Hf.
  destruct (dfs _ _ _) as [[k|order]|] eqn:E; [| |done].
  - split; [done|]. intros H. by apply dfs_cycle, H in E.
  - split; [|done]. intros _ k Hk.
    apply dfs_visited in E as [Ht Hr]. apply (topological_acyclic _ _ k Ht); [|done].
    apply Hr, map_keys_elem.
    assert (∃ d, edge (hook_deps known) k d) as [d []%hook_deps_known]; [|done].
    inversion Hk; eauto.
Qed.

Lemma with_seen_each {A} (f : list A → A → list gerror) l x :
  Forall (λ p, p = None) (with_seen f [] l) → x ∈ l →
  ∃ seen, Forall (λ p, p = None) (f seen x).
Proof. intros H (l1&l2&->)%list_elem_of_split. rewrite with_seen_None in H. eauto. Qed.

Lemma validateHookDescriptor_attempts d :
  validateHookDescriptor d = None →
  (1 ≤ MaxAttempts d)%Z ∧ (Idempotent d = false → MaxAttempts d = 1%Z).
Proof.
  unfold validateHookDescriptor. intros H. inv_checks.
  apply Forall_app in H as [H _]. rewrite !Forall_cons in H.
  destruct H as (_&_&_&_&_&H&_).
  destruct (MaxAttempts d <? 1)%Z eqn:E; [done|]. apply fail_if_None in H.
  apply Z.ltb_ge in E. split; [done|]. intros Hi. rewrite Hi, andb_true_r in H.
  apply Z.ltb_ge in H. lia.
Qed.

(** What the validator of a set of hooks establishes. *)
Lemma ValidateLifecycleHooks_None ds :
  ValidateLifecycleHooks ds = None →
  Forall (λ d, validateHookDescriptor d = None) ds ∧
  NoDup (HookID <$> ds) ∧
  ∀ k, ¬ tc (edge (hook_deps (by_id HookID ds))) k k.
Proof.
  unfold ValidateLifecycleHooks. intros H. inv_checks. rewrite !Forall_app in H.
  destruct H as (H&_&Hc). split_and!.
  - apply Forall_forall. intros d Hd. destruct (with_seen_each _ _ _ H Hd) as [seen Hs].
    by apply Forall_cons in Hs as [? _].
  - rewrite with_seen_None in H. apply seen_NoDup. intros l1 d l2 Heq Hin.
    specialize (H l1 d l2 Heq). rewrite !Forall_cons in H. destruct H as (_&H&_).
    apply fail_if_None, bool_decide_eq_false in H. apply H.
    rewrite app_nil_r in *. done.
  - apply Forall_cons in Hc as [Hc _]. by apply lifecycleCycles_acyclic.
Qed.

(** The usual pass over a list of values: each one is checked and none may
    repeat. *)
Lemma seen_values {A} `{!EqDecision A} (check : A → gerror) (dup : A → error) (l : list A) :
  Forall (λ p, p = None) (with_seen (λ seen x, [check x; fail_if (bool_decide (x ∈ seen)) (dup x)]) [] l)
  ↔ Forall (λ x, check x = None) l ∧ NoDup l.
Proof.
  rewrite with_seen_None, <-seen_NoDup_id. split.
  - intros H. split.
    + apply Forall_forall. intros x (l1&l2&->)%list_elem_of_split.
      specialize (H l1 x l2 eq_refl). by apply Forall_cons in H as [? _].
    + intros l1 x l2 Heq. specialize (H l1 x l2 Heq). rewrite !Forall_cons in H.
      destruct H as (_&H&_). by apply fail_if_None, bool_decide_eq_false in H.
  - intros [Hc Hd] l1 x l2 ->. rewrite Forall_forall in Hc.
    repeat (apply Forall_cons; split); [apply Hc; set_solver| |apply Forall_nil; done].
    apply fail_if_None, bool_decide_eq_false. by eapply Hd.
Qed.
