(* ===== verification/GoTime.v ===== *)
(** * Timestamps

    [time.Parse(time.RFC3339, s)]: the strict form and the leniencies of the
    layout-driven parser (an hour of one digit, a fraction of a second after a
    comma or a period, offsets up to 24:60).  The result is the number of
    nanoseconds since 1970-01-01T00:00:00Z, which is what [After], [Before]
    and [Sub] compare. *)

From S2P Require Import Prelude GoStrings.

Local Open Scope Z_scope.

Definition digit_value (c : ascii) : option Z :=
  let n := Z.of_N (code c) in
  if (48 <=? n) && (n <=? 57) then Some (n - 48) else None.

(** A scanner returns a value and the rest of the input. *)
Definition scanner A := list ascii → option (A * list ascii).

Definition expect (c : ascii) : scanner () :=
  λ l, match l with
       | x :: l => if bool_decide (x = c) then Some ((), l) else None
       | [] => None
       end.

(** [getnum(s, true)]: two digits. *)
Definition two_digits : scanner Z :=
  λ l, match l with
       | a :: b :: l =>
           x ← digit_value a; y ← digit_value b; Some (10 * x + y, l)
       | _ => None
       end.

(** [getnum(s, false)]: one or two digits. *)
Definition one_or_two_digits : scanner Z :=
  λ l, match two_digits l with
       | Some r => Some r
       | None => match l with a :: l => x ← digit_value a; Some (x, l) | [] => None end
       end.

Definition four_digits : scanner Z :=
  λ l, '(a, l) ← two_digits l; '(b, l) ← two_digits l; Some (100 * a + b, l).

Definition in_range (lo hi : Z) (s : scanner Z) : scanner Z :=
  λ l, '(x, l) ← s l; if (lo <=? x) && (x <=? hi) then Some (x, l) else None.

(** The digits of a fraction, the first nine of them as nanoseconds. *)
Fixpoint fraction (weight : Z) (l : list ascii) : Z * list ascii :=
  match l with
  | [] => (0, [])
  | c :: l' =>
      match digit_value c with
      | None => (0, l)
      | Some d => let '(n, rest) := fraction (weight / 10) l' in (weight * d + n, rest)
      end
  end.

Definition optional_fraction : scanner Z :=
  λ l, match l with
       | sep :: d :: _ =>
           if bool_decide (sep ∈ ["."%char; ","%char]) && bool_decide (is_Some (digit_value d))
           then Some (fraction 100000000 (tail l)) else Some (0, l)
       | _ => Some (0, l)
       end.

(** [Z] or a signed offset; the offset in seconds. *)
Definition zone : scanner Z :=
  λ l, match l with
       | [] => None
       | s :: l =>
           if bool_decide (s = "Z"%char) then Some (0, l) else
           '(hour, l) ← in_range 0 24 two_digits l;
           '(_, l) ← expect ":"%char l;
           '(minute, l) ← in_range 0 60 two_digits l;
           let offset := 3600 * hour + 60 * minute in
           if bool_decide (s = "+"%char) then Some (offset, l)
           else if bool_decide (s = "-"%char) then Some (- offset, l)
           else None
       end.

Definition leap (year : Z) : bool :=
  (year mod 4 =? 0) && (negb (year mod 100 =? 0) || (year mod 400 =? 0)).

Definition days_in (month year : Z) : Z :=
  if month =? 2 then (if leap year then 29 else 28)
  else if bool_decide (month ∈ [4; 6; 9; 11]) then 30 else 31.

(** Days from 1970-01-01 to the first of March of the shifted year, plus the
    days since: years start in March so that the leap day comes last. *)
Definition days_since_epoch (year month day : Z) : Z :=
  let y := if month <=? 2 then year - 1 else year in
  let m := (month + 9) mod 12 in
  365 * y + y / 4 - y / 100 + y / 400 + (153 * m + 2) / 5 + (day - 1) - 719468.

Definition parse_rfc3339 (s : string) : option Z :=
  '(year, l) ← four_digits (go_bytes s);
  '(_, l) ← expect "-"%char l;
  '(month, l) ← in_range 1 12 two_digits l;
  '(_, l) ← expect "-"%char l;
  '(day, l) ← two_digits l;
  '(_, l) ← expect "T"%char l;
  '(hour, l) ← in_range 0 23 one_or_two_digits l;
  '(_, l) ← expect ":"%char l;
  '(minute, l) ← in_range 0 59 two_digits l;
  '(_, l) ← expect ":"%char l;
  '(second, l) ← in_range 0 59 two_digits l;
  '(nanos, l) ← optional_fraction l;
  '(offset, l) ← zone l;
  if bool_decide (l = []) && (1 <=? day) && (day <=? days_in month year) then
    Some (1000000000 * (86400 * days_since_epoch year month day
                        + 3600 * hour + 60 * minute + second - offset) + nanos)
  else None.

(** [time.Parse] succeeds. *)
Definition is_rfc3339 (s : string) : bool := bool_decide (is_Some (parse_rfc3339 s)).

Example epoch : parse_rfc3339 "1970-01-01T00:00:00Z" = Some 0.
Proof. vm_compute. reflexivity. Qed.

Example offset_and_fraction :
  parse_rfc3339 "2024-02-29T12:30:15.25+02:00" = Some 1709202615250000000.
Proof. vm_compute. reflexivity. Qed.

Example rejected :
  parse_rfc3339 "2023-02-29T00:00:00Z" = None ∧ parse_rfc3339 "2023-02-28" = None ∧
  parse_rfc3339 "2023-02-28T00:00:00" = None ∧ parse_rfc3339 "" = None.
Proof. vm_compute. done. Qed.
