(* ===== verification/Coverage.v ===== *)
(** * Coverage boundaries (sdk/coverage.go)

    The identity of a certification boundary, its fingerprint, and the changes
    a warm transition may make.  Where the sources range over a map literal,
    the problems are listed in the order of the literal: Go leaves that order
    open, and only the order inside a joined error depends on it. *)

From S2P Require Import Prelude GoStrings Regex GoEncoding Sdk.

(* sdk/coverage.go, lines 17-26: CoverageTransitionKind *)
Definition CoverageTransitionServiceMajor := "service-major".
(* sdk/coverage.go, lines 21-21: CoverageTransitionRestore *)
Definition CoverageTransitionRestore := "restore".
(* sdk/coverage.go, lines 22-22: CoverageTransitionObservability *)
Definition CoverageTransitionObservability := "observability".
(* sdk/coverage.go, lines 23-23: CoverageTransitionEdge *)
Definition CoverageTransitionEdge := "edge".
(* sdk/coverage.go, lines 24-24: CoverageTransitionNone *)
Definition CoverageTransitionNone := "none".
(* sdk/coverage.go, lines 25-25: CoverageTransitionUnsupported *)
Definition CoverageTransitionUnsupported := "unsupported".

Module CoverageBoundary.

(* sdk/coverage.go, lines 32-50: CoverageBoundary *)
Record CoverageBoundary := {
  Provider : string;
  Regions : list string;
  ComputeMode : string;
  KubernetesTopology : string;
  NetworkProfile : string;
  ManagedSelfHostedBoundary : string;
  ServiceMajors : gmap string string;
  ResilienceProfileID : string;
  ObservabilityDestination : string;
  EdgePath : string;
  ArtifactDigest : string;
  SchemaFingerprint : string;
  MigrationFingerprint : string;
  RecoveryFixtureID : string;
  RecoveryDestination : string;
  OwnershipMarker : string;
  ConfigurationFingerprint : string;
}.

End CoverageBoundary.
Export CoverageBoundary(CoverageBoundary).
Import CoverageBoundary.

#[export] Instance CoverageBoundary_eq_dec : EqDecision CoverageBoundary.
Proof. solve_decision. Defined.

(* sdk/coverage.go, lines 52-52: coverageArtifactDigestPattern *)
Definition coverageArtifactDigestPattern : re :=
  seqs [plus (Cls (none_of (either re_space (chr "@")))); lit "@sha256:";
        rep 64 (Cls (either (byte_in 97 102) digit))].
(* sdk/coverage.go, lines 53-53: coverageMajorPattern *)
Definition coverageMajorPattern : re :=
  seqs [Cls digit; Star (Cls (either alnum (oneof "._+-")))].
(* sdk/coverage.go, lines 54-54: coveragePathPattern *)
Definition coveragePathPattern : re :=
  seqs [Cls lower; Star (Cls (either alnum_lower (oneof "._+:-")))].

(* sdk/coverage.go, lines 59-122: CoverageBoundary.Validate *)
Definition CoverageBoundary_Validate (b : CoverageBoundary) : gerror :=
  errors_Join (
    [validateID "coverage provider" (Provider b);
     validateID "coverage compute mode" (ComputeMode b);
     validateID "coverage Kubernetes topology" (KubernetesTopology b);
     validateID "coverage managed/self-hosted boundary" (ManagedSelfHostedBoundary b);
     validateID "coverage resilience profile" (ResilienceProfileID b);
     validateID "coverage recovery fixture" (RecoveryFixtureID b);
     if blank (NetworkProfile b) then None
     else validateID "coverage network profile" (NetworkProfile b)]
    ++ ((λ nv : string * string,
           fail_if (negb (MatchString coveragePathPattern nv.2))
             (errorf "%s %q is invalid" [GStr nv.1; GStr nv.2])) <$>
        [("coverage observability destination", ObservabilityDestination b);
         ("coverage edge path", EdgePath b);
         ("coverage recovery destination", RecoveryDestination b)])
    ++ [fail_if (bool_decide (length (Regions b) = 0))
          (ErrNew "coverage boundary requires at least one region")]
    ++ with_seen (λ seen region,
         [validateID "coverage region" region;
          fail_if (bool_decide (region ∈ seen)) (errorf "duplicate coverage region %q" [GStr region])])
         [] (Regions b)
    ++ [fail_if (negb (bool_decide (ManagedSelfHostedBoundary b ∈
          ["managed"; "self-hosted"; "mixed"; "existing"; "external"])))
          (errorf "invalid managed/self-hosted boundary %q" [GStr (ManagedSelfHostedBoundary b)]);
        fail_if (bool_decide (size (ServiceMajors b) = 0))
          (ErrNew "coverage boundary requires service majors")]
    ++ (map_to_list (ServiceMajors b) ≫= λ rm,
          [validateID "coverage service role" rm.1;
           fail_if (negb (MatchString coverageMajorPattern rm.2))
             (errorf "coverage service major %q is invalid" [GStr rm.2])])
    ++ [fail_if (negb (MatchString coverageArtifactDigestPattern (ArtifactDigest b)))
          (ErrNew "coverage boundary requires an immutable artifact digest")]
    ++ ((λ nv : string * string,
           fail_if (blank nv.2 || multiline nv.2)
             (errorf "coverage boundary %s is required and must be single-line" [GStr nv.1])) <$>
        [("schema fingerprint", SchemaFingerprint b);
         ("migration fingerprint", MigrationFingerprint b);
         ("ownership marker", OwnershipMarker b)])
    ++ [fail_if (negb (blank (ConfigurationFingerprint b)) && multiline (ConfigurationFingerprint b))
          (ErrNew "coverage configuration fingerprint must be single-line and NUL-free")]).

(** [json.Marshal] of a boundary; the fields are printed in the order of the
    struct, the regions in the order given. *)
Definition boundary_json (b : CoverageBoundary) (regions : list string) : json :=
  JObj (js "provider" (Provider b) ++ jl "regions" regions ++ js "computeMode" (ComputeMode b)
    ++ js "kubernetesTopology" (KubernetesTopology b) ++ js_opt "networkProfile" (NetworkProfile b)
    ++ js "managedSelfHostedBoundary" (ManagedSelfHostedBoundary b)
    ++ [("serviceMajors", json_map (ServiceMajors b))]
    ++ js "resilienceProfileId" (ResilienceProfileID b)
    ++ js "observabilityDestination" (ObservabilityDestination b) ++ js "edgePath" (EdgePath b)
    ++ js "artifactDigest" (ArtifactDigest b) ++ js "schemaFingerprint" (SchemaFingerprint b)
    ++ js "migrationFingerprint" (MigrationFingerprint b)
    ++ js "recoveryFixtureId" (RecoveryFixtureID b)
    ++ js "recoveryDestination" (RecoveryDestination b) ++ js "ownershipMarker" (OwnershipMarker b)
    ++ js_opt "configurationFingerprint" (ConfigurationFingerprint b)).

(* sdk/coverage.go, lines 126-142: CoverageBoundary.Fingerprint *)
Definition CoverageBoundary_Fingerprint (b : CoverageBoundary) : result string :=
  CoverageBoundary_Validate b ;;!
  Ok (sha256_hex (json_text (boundary_json b (SortedStrings (Regions b))))).

Definition nul : string := of_bytes [Ascii.ascii_of_N 0].

(* sdk/coverage.go, lines 263-265: sameStrings *)
Definition sameStrings (a b : list string) : bool :=
  bool_decide (strings_Join (SortedStrings a) nul = strings_Join (SortedStrings b) nul).

(* sdk/coverage.go, lines 267-277: sameStringMap *)
Definition sameStringMap (a b : gmap string string) : bool :=
  bool_decide (size a = size b)
  && forallb (λ kv, bool_decide (default "" (b !! kv.1) = kv.2)) (map_to_list a).

(* sdk/coverage.go, lines 240-261: coverageDifferences *)
Definition coverageDifferences (a b : CoverageBoundary) : list string :=
  (if sameStringMap (ServiceMajors a) (ServiceMajors b) then [] else ["serviceMajors"])
  ++ (if bool_decide (ObservabilityDestination a = ObservabilityDestination b) then []
      else ["observabilityDestination"])
  ++ (if bool_decide (EdgePath a = EdgePath b) then [] else ["edgePath"])
  ++ (if bool_decide (RecoveryDestination a = RecoveryDestination b) then [] else ["recoveryDestination"])
  ++ (if bool_decide (NetworkProfile a = NetworkProfile b) then [] else ["networkProfile"])
  ++ (if bool_decide (ConfigurationFingerprint a = ConfigurationFingerprint b) then []
      else ["configurationFingerprint"]).

(** The fields a transition may never change, without the regions. *)
Definition cold_fields (b : CoverageBoundary) : list string :=
  [Provider b; ComputeMode b; KubernetesTopology b; NetworkProfile b; ManagedSelfHostedBoundary b;
   ResilienceProfileID b; ConfigurationFingerprint b; ArtifactDigest b; SchemaFingerprint b;
   MigrationFingerprint b; RecoveryFixtureID b; OwnershipMarker b].

(* sdk/coverage.go, lines 148-188: ValidateCoverageTransition *)
Definition ValidateCoverageTransition (baseline next : CoverageBoundary) (kind : string) : gerror :=
  err_wrap (wrapf "validate baseline coverage boundary: %w" []) (CoverageBoundary_Validate baseline)
  ;;? err_wrap (wrapf "validate next coverage boundary: %w" []) (CoverageBoundary_Validate next)
  ;;? fail_if (negb (bool_decide (cold_fields baseline = cold_fields next))
               || negb (sameStrings (Regions baseline) (Regions next)))
        (ErrNew "coverage transition crosses a cold boundary")
  ;;? let differences := coverageDifferences baseline next in
      let listed := GStr (strings_Join differences ", ") in
      let only dimension err := fail_if (negb (bool_decide (differences = [dimension]))) err in
      if bool_decide (differences = []) then
        fail_if (negb (bool_decide (kind = "") || bool_decide (kind = CoverageTransitionNone)))
          (errorf "coverage transition kind %q has no boundary change" [GStr kind])
      else if bool_decide (kind = CoverageTransitionServiceMajor) then
        only "serviceMajors" (errorf "service-major transition changes %s" [listed])
      else if bool_decide (kind = CoverageTransitionRestore) then
        only "recoveryDestination"
          (errorf "restore transition changes %s; recovery fixture and all other boundary dimensions remain cold" [listed])
      else if bool_decide (kind = CoverageTransitionObservability) then
        only "observabilityDestination" (errorf "observability transition changes %s" [listed])
      else if bool_decide (kind = CoverageTransitionEdge) then
        only "edgePath" (errorf "edge transition changes %s" [listed])
      else if bool_decide (kind ∈ [CoverageTransitionNone; CoverageTransitionUnsupported; ""]) then
        Some (errorf "coverage transition kind %q is not permitted for changes in %s" [GStr kind; listed])
      else Some (errorf "unsupported coverage transition kind %q" [GStr kind]).

(** ** Lemmas *)

(** [strings.Join] with a NUL separator loses nothing when no part has a NUL. *)
Definition nul_free (s : string) : Prop := Ascii.ascii_of_N 0 ∉ go_bytes s.

Lemma go_bytes_nul : go_bytes nul = [Ascii.ascii_of_N 0].
Proof. reflexivity. Qed.

Lemma strings_Join_cons p q parts sep :
  strings_Join (p :: q :: parts) sep = p +:+ sep +:+ strings_Join (q :: parts) sep.
Proof. done. Qed.

Lemma split_at_nul (a b : list ascii) x y z :
  x ∉ a → x ∉ b → a ++ x :: y = b ++ x :: z → a = b ∧ y = z.
Proof.
  revert b; induction a as [|c a IH]; intros [|d b] Ha Hb Heq; simpl in Heq.
  - by injection Heq.
  - injection Heq as -> _. set_solver.
  - injection Heq as -> _. set_solver.
  - injection Heq as -> Heq. destruct (IH b) as [-> ->]; set_solver.
Qed.

Lemma no_nul_split (a b : list ascii) x y : x ∉ a → a ≠ b ++ x :: y.
Proof. intros Ha ->. set_solver. Qed.

Lemma strings_Join_inj l1 l2 :
  Forall nul_free l1 → Forall nul_free l2 → l1 ≠ [] → l2 ≠ [] →
  strings_Join l1 nul = strings_Join l2 nul → l1 = l2.
Proof.
  intros H1. revert l2. induction H1 as [|p l1 Hp H1 IH]; intros l2 H2 Hn1 Hn2 Heq; [done|].
  destruct H2 as [|q l2 Hq H2]; [done|].
  apply (f_equal go_bytes) in Heq.
  destruct l1 as [|p' l1], l2 as [|q' l2]; rewrite ?strings_Join_cons, ?go_bytes_app, ?go_bytes_nul in Heq.
  - simpl in Heq. by apply go_bytes_inj in Heq as ->.
  - by apply no_nul_split in Heq.
  - symmetry in Heq. by apply no_nul_split in Heq.
  - apply split_at_nul in Heq as [->%go_bytes_inj Heq%go_bytes_inj]; [|done|done].
    f_equal. by apply IH.
Qed.

Lemma stableID_nul_free name s : validateID name s = None → nul_free s.
Proof.
  unfold validateID. rewrite fail_if_None, negb_false_iff, MatchString_correct.
  unfold nul_free. intros Hm Hin.
  assert (∀ r l, matches r l → 
    (fix safe (r : re) : Prop := match r with
      | Nul | Eps => True | Cls p => p (Ascii.ascii_of_N 0) = false
      | Seq a b | Alt a b => safe a ∧ safe b | Star a => safe a end) r →
    Ascii.ascii_of_N 0 ∉ l) as Hsafe.
  { clear. induction 1; simpl in *; intros Hs.
    - set_solver.
    - rewrite list_elem_of_singleton. intros Heq. rewrite Heq in Hs. congruence.
    - rewrite elem_of_app. naive_solver.
    - naive_solver.
    - naive_solver.
    - set_solver.
    - rewrite elem_of_app. naive_solver. }
  apply (Hsafe _ _ Hm); [|done]. vm_compute. repeat split.
Qed.

(** The conditions of [Validate], as far as the claims need them. *)
Lemma CoverageBoundary_Validate_regions b :
  CoverageBoundary_Validate b = None →
  Regions b ≠ [] ∧ Forall (λ r, validateID "coverage region" r = None) (Regions b) ∧ NoDup (Regions b).
Proof.
  unfold CoverageBoundary_Validate. intros H%errors_Join_None. rewrite !Forall_app in H.
  destruct H as (_&_&Hne&Hr&_). apply seen_values in Hr as [??]. split_and!; try done.
  apply Forall_cons in Hne as [Hne%fail_if_None%bool_decide_eq_false _]. intros Heq. by rewrite Heq in Hne.
Qed.

(** The boundary with its regions listed differently. *)
Definition with_regions (regions : list string) (b : CoverageBoundary) : CoverageBoundary :=
  {| Provider := Provider b; Regions := regions; ComputeMode := ComputeMode b;
     KubernetesTopology := KubernetesTopology b; NetworkProfile := NetworkProfile b;
     ManagedSelfHostedBoundary := ManagedSelfHostedBoundary b; ServiceMajors := ServiceMajors b;
     ResilienceProfileID := ResilienceProfileID b;
     ObservabilityDestination := ObservabilityDestination b; EdgePath := EdgePath b;
     ArtifactDigest := ArtifactDigest b; SchemaFingerprint := SchemaFingerprint b;
     MigrationFingerprint := MigrationFingerprint b; RecoveryFixtureID := RecoveryFixtureID b;
     RecoveryDestination := RecoveryDestination b; OwnershipMarker := OwnershipMarker b;
     ConfigurationFingerprint := ConfigurationFingerprint b |}.

Lemma CoverageBoundary_Validate_perm b regions :
  regions ≡ₚ Regions b → CoverageBoundary_Validate b = None →
  CoverageBoundary_Validate (with_regions regions b) = None.
Proof.
  intros Hp. unfold CoverageBoundary_Validate. intros H%errors_Join_None.
  apply errors_Join_None. rewrite !Forall_app in H |- *.
  change (Regions (with_regions regions b)) with regions.
  destruct H as (H1&H2&H3&H4&H5&H6). apply seen_values in H4.
  split_and!; try done; try apply H6.
  - by rewrite (Permutation_length Hp).
  - apply seen_values. by rewrite Hp.
Qed.

Lemma sameStringMap_eq a b :
  (∀ k, a !! k ≠ Some "") → sameStringMap a b = true → a = b.
Proof.
  intros Ha [Hs%bool_decide_eq_true Hall]%andb_true_iff.
  rewrite forallb_forall in Hall.
  assert (Hsub : a ⊆ b).
  { apply map_subseteq_spec. intros k v Hk.
    assert (List.In (k, v) (map_to_list a)) as Hin by by apply list_elem_of_In, elem_of_map_to_list.
    specialize (Hall _ Hin). apply bool_decide_eq_true in Hall. simpl in Hall.
    destruct (b !! k) as [w|] eqn:E; simpl in Hall; [congruence|].
    subst. by apply Ha in Hk. }
  apply map_subseteq_size_eq; [done|by rewrite Hs].
Qed.

Lemma CoverageBoundary_Validate_majors b k :
  CoverageBoundary_Validate b = None → ServiceMajors b !! k ≠ Some "".
Proof.
  unfold CoverageBoundary_Validate. intros H%errors_Join_None Hk. rewrite !Forall_app in H.
  destruct H as (_&_&_&_&_&H&_).
  rewrite Forall_bind, Forall_forall in H.
  specialize (H (k, "")). rewrite elem_of_map_to_list in H. specialize (H Hk).
  apply Forall_cons in H as [_ H]. apply Forall_cons in H as [H _]. done.
Qed.

(** ** Claims *)

(** The fingerprint of a boundary does not depend on the order in which
    its regions are listed, nor on the iteration order of its service majors. *)
Theorem CoverageBoundary_Fingerprint_canonical b regions fingerprint :
  regions ≡ₚ Regions b → CoverageBoundary_Fingerprint b = Ok fingerprint →
  CoverageBoundary_Fingerprint (with_regions regions b) = Ok fingerprint.
Proof.
  intros Hp [Hv Hf]%lift_check_Ok. unfold CoverageBoundary_Fingerprint.
  rewrite CoverageBoundary_Validate_perm by done. rewrite <-Hf.
  change (Regions (with_regions regions b)) with regions.
  replace (SortedStrings regions) with (SortedStrings (Regions b)); [done|].
  by apply sort_strings_unique.
Qed.

(** A warm transition changes one named dimension.  When a transition is
    accepted, both boundaries are valid, they agree on every cold field and on
    the set of regions, and they differ in no other dimension than the one the
    kind names (in none for the kinds [none] and the empty kind). *)
Theorem ValidateCoverageTransition_single baseline next kind :
  ValidateCoverageTransition baseline next kind = None →
  CoverageBoundary_Validate baseline = None ∧ CoverageBoundary_Validate next = None ∧
  cold_fields baseline = cold_fields next ∧ Regions baseline ≡ₚ Regions next ∧
  (ServiceMajors baseline = ServiceMajors next ∨ kind = CoverageTransitionServiceMajor) ∧
  (RecoveryDestination baseline = RecoveryDestination next ∨ kind = CoverageTransitionRestore) ∧
  (ObservabilityDestination baseline = ObservabilityDestination next ∨
     kind = CoverageTransitionObservability) ∧
  (EdgePath baseline = EdgePath next ∨ kind = CoverageTransitionEdge).
Proof.
  unfold ValidateCoverageTransition. intros H. inv_checks.
  apply orb_false_iff in H1 as [Hc Hr].
  apply negb_false_iff, bool_decide_eq_true in Hc. apply negb_false_iff in Hr.
  destruct (CoverageBoundary_Validate_regions _ H) as (Hn1&Hr1&_).
  destruct (CoverageBoundary_Validate_regions _ H0) as (Hn2&Hr2&_).
  assert (Regions baseline ≡ₚ Regions next) as Hperm.
  { unfold sameStrings in Hr. apply bool_decide_eq_true in Hr. unfold SortedStrings in Hr.
    apply strings_Join_inj in Hr.
    - rewrite <-(sort_strings_perm (Regions baseline)), Hr. apply sort_strings_perm.
    - rewrite sort_strings_perm. eapply Forall_impl; [exact Hr1|]. intros r. apply stableID_nul_free.
    - rewrite sort_strings_perm. eapply Forall_impl; [exact Hr2|]. intros r. apply stableID_nul_free.
    - intros Hs. apply Hn1, Permutation_nil_r. by rewrite <-Hs, sort_strings_perm.
    - intros Hs. apply Hn2, Permutation_nil_r. by rewrite <-Hs, sort_strings_perm. }
  pose proof Hc as Hc0. injection Hc0 as _ _ _ Hnet _ _ Hconf _ _ _ _ _.
  unfold coverageDifferences in H2.
  rewrite Hnet, Hconf, (bool_decide_true (NetworkProfile next = NetworkProfile next)),
    (bool_decide_true (ConfigurationFingerprint next = ConfigurationFingerprint next)) in H2 by done.
  assert (Hk : (sameStringMap (ServiceMajors baseline) (ServiceMajors next) = true
        ∨ kind = CoverageTransitionServiceMajor) ∧
      (bool_decide (RecoveryDestination baseline = RecoveryDestination next) = true
        ∨ kind = CoverageTransitionRestore) ∧
      (bool_decide (ObservabilityDestination baseline = ObservabilityDestination next) = true
        ∨ kind = CoverageTransitionObservability) ∧
      (bool_decide (EdgePath baseline = EdgePath next) = true ∨ kind = CoverageTransitionEdge)).
  { clear -H2. revert H2.
    generalize (sameStringMap (ServiceMajors baseline) (ServiceMajors next)),
      (bool_decide (RecoveryDestination baseline = RecoveryDestination next)),
      (bool_decide (ObservabilityDestination baseline = ObservabilityDestination next)),
      (bool_decide (EdgePath baseline = EdgePath next)).
    intros m r o e.
    destruct (decide (kind = CoverageTransitionServiceMajor)) as [->|];
      [|destruct (decide (kind = CoverageTransitionRestore)) as [->|];
        [|destruct (decide (kind = CoverageTransitionObservability)) as [->|];
          [|destruct (decide (kind = CoverageTransitionEdge)) as [->|]]]];
      destruct m, r, o, e; simpl; try done; auto;
      rewrite ?bool_decide_false by done; repeat case_match; done. }
  destruct Hk as (Hm&Hd&Ho&He). rewrite !bool_decide_eq_true in Hd, Ho, He.
  split_and!; try done. destruct Hm as [Hm|]; [left|by right].
  apply sameStringMap_eq in Hm; [done|]. intros k. by apply CoverageBoundary_Validate_majors.
Qed.

(** ** Concrete boundaries *)

Module CoverageExample.

Definition boundary (regions : list string) (major : string) : CoverageBoundary :=
  {| Provider := "aws"; Regions := regions; ComputeMode := "ecs"; KubernetesTopology := "none";
     NetworkProfile := ""; ManagedSelfHostedBoundary := "managed";
     ServiceMajors := {[ "database" := major; "cache" := "7" ]}; ResilienceProfileID := "standard";
     ObservabilityDestination := "none"; EdgePath := "none";
     ArtifactDigest := "app@sha256:" +:+ of_bytes (replicate 64 "a"%char);
     SchemaFingerprint := "schema-1"; MigrationFingerprint := "migration-1";
     RecoveryFixtureID := "fixture-1"; RecoveryDestination := "none"; OwnershipMarker := "run-1";
     ConfigurationFingerprint := "" |}.

Definition fingerprint : string := Eval vm_compute in
  match CoverageBoundary_Fingerprint (boundary ["eu-west-1"; "eu-north-1"] "8.0") with
  | Ok f => f | Err _ => "" end.

Lemma CoverageBoundary_Fingerprint_canonical_witness :
  CoverageBoundary_Fingerprint (with_regions ["eu-north-1"; "eu-west-1"]
    (boundary ["eu-west-1"; "eu-north-1"] "8.0")) = Ok fingerprint.
Proof.
  apply CoverageBoundary_Fingerprint_canonical; [apply Permutation_swap|vm_compute; reflexivity].
Defined.

Definition upgraded := boundary ["eu-west-1"] "8.4".

Lemma ValidateCoverageTransition_single_witness :
  CoverageBoundary_Validate (boundary ["eu-west-1"] "8.0") = None ∧
  CoverageBoundary_Validate upgraded = None ∧
  cold_fields (boundary ["eu-west-1"] "8.0") = cold_fields upgraded ∧
  Regions (boundary ["eu-west-1"] "8.0") ≡ₚ Regions upgraded ∧
  (ServiceMajors (boundary ["eu-west-1"] "8.0") = ServiceMajors upgraded
     ∨ "service-major" = CoverageTransitionServiceMajor) ∧
  (RecoveryDestination (boundary ["eu-west-1"] "8.0") = RecoveryDestination upgraded
     ∨ "service-major" = CoverageTransitionRestore) ∧
  (ObservabilityDestination (boundary ["eu-west-1"] "8.0") = ObservabilityDestination upgraded
     ∨ "service-major" = CoverageTransitionObservability) ∧
  (EdgePath (boundary ["eu-west-1"] "8.0") = EdgePath upgraded
     ∨ "service-major" = CoverageTransitionEdge).
Proof. apply ValidateCoverageTransition_single. vm_compute. reflexivity. Defined.
End CoverageExample.
