(* ===== verification/Sessions.v ===== *)
(** * Reusable sessions (internal/certification/resource_registry.go)

    The identity under which a provisioned scope may be reused, the records of
    the session registry, the registry interface and its in-memory
    implementation.  A context is [None] when nil and otherwise [Some err],
    where [err] is what [ctx.Err()] answers; the mutex makes each operation of
    the memory registry one atomic step, here one function on its map.  Maps
    of named values are checked in the order of the literal, which only
    decides which of several errors is reported. *)

From S2P Require Import Prelude GoStrings Regex GoEncoding Secretsafe Sdk.

(** ** Fingerprints *)

Module ReuseFingerprint.

(* internal/certification/resource_registry.go, lines 19-30: ReuseFingerprint *)
Record ReuseFingerprint := {
  Architecture : string;
  Fixture : string;
  BackupSet : string;
  Observability : string;
  Edge : string;
  ArtifactDigest : string;
  SchemaFingerprint : string;
  MigrationFingerprint : string;
  OwnershipMarker : string;
  StateBackend : string;
}.

Definition to_json (f : ReuseFingerprint) : json :=
  JObj (js "architecture" (Architecture f) ++ js "fixture" (Fixture f) ++ js "backupSet" (BackupSet f)
    ++ js "observability" (Observability f) ++ js "edge" (Edge f)
    ++ js "artifactDigest" (ArtifactDigest f) ++ js "schemaFingerprint" (SchemaFingerprint f)
    ++ js "migrationFingerprint" (MigrationFingerprint f) ++ js "ownershipMarker" (OwnershipMarker f)
    ++ js "stateBackend" (StateBackend f)).

#[export] Instance eq_dec : EqDecision ReuseFingerprint.
Proof. solve_decision. Defined.

End ReuseFingerprint.
Notation ReuseFingerprint := ReuseFingerprint.ReuseFingerprint.

Section fingerprint.
Import ReuseFingerprint.

(* internal/certification/resource_registry.go, lines 32-53: ReuseFingerprint.Validate *)
Definition ReuseFingerprint_Validate (f : ReuseFingerprint) : gerror :=
  fail_if (bool_decide (is_Some (ValidateSecretSafeValue (to_json f))))
    (ErrNew "reuse fingerprint contains secret-like material")
  ;;? first_error (λ nv : string * string,
        fail_if (blank nv.2 || multiline nv.2)
          (errorf "reuse fingerprint %s is required and must be single-line" [GStr nv.1]))
      [("architecture", Architecture f); ("fixture", Fixture f); ("backup set", BackupSet f);
       ("observability", Observability f); ("edge", Edge f); ("artifact digest", ArtifactDigest f);
       ("schema fingerprint", SchemaFingerprint f); ("migration fingerprint", MigrationFingerprint f);
       ("ownership marker", OwnershipMarker f); ("state backend", StateBackend f)].

(* internal/certification/resource_registry.go, lines 55-65: ReuseFingerprint.Digest *)
Definition ReuseFingerprint_Digest (f : ReuseFingerprint) : result string :=
  ReuseFingerprint_Validate f ;;! Ok (sha256_hex (json_text (to_json f))).

End fingerprint.

(** ** Records *)

(* internal/certification/resource_registry.go, lines 67-74: SessionState *)
Definition SessionReady := "ready".
(* internal/certification/resource_registry.go, lines 71-71: SessionPendingDelete *)
Definition SessionPendingDelete := "pending-delete".
(* internal/certification/resource_registry.go, lines 72-72: SessionCleanupVerified *)
Definition SessionCleanupVerified := "cleanup-verified".
(* internal/certification/resource_registry.go, lines 73-73: SessionQuarantined *)
Definition SessionQuarantined := "quarantined".

Module SessionRecord.

(* internal/certification/resource_registry.go, lines 79-97: SessionRecord *)
Record SessionRecord := {
  SessionID : string;
  Fingerprint : ReuseFingerprint;
  FingerprintHash : string;
  StackID : string;
  WriterID : string;
  ClaimOwner : string;
  State : string;
  Live : bool;
  CleanupComplete : bool;
  OperationIDs : list string;
  ResourceRefs : list string;
  FixtureRefs : list string;
  MigrationRefs : list string;
  BackupRefs : list string;
  TelemetryRefs : list string;
  EdgeRefs : list string;
  PendingRefs : list string;
}.

Definition to_json (r : SessionRecord) : json :=
  JObj (js "sessionId" (SessionID r) ++ [("fingerprint", ReuseFingerprint.to_json (Fingerprint r))]
    ++ js "fingerprintHash" (FingerprintHash r) ++ js "stackId" (StackID r)
    ++ js "writerId" (WriterID r) ++ js_opt "claimOwner" (ClaimOwner r) ++ js "state" (State r)
    ++ jb "live" (Live r) ++ jb "cleanupComplete" (CleanupComplete r)
    ++ jl_opt "operationIds" (OperationIDs r) ++ jl_opt "resourceRefs" (ResourceRefs r)
    ++ jl_opt "fixtureRefs" (FixtureRefs r) ++ jl_opt "migrationRefs" (MigrationRefs r)
    ++ jl_opt "backupRefs" (BackupRefs r) ++ jl_opt "telemetryRefs" (TelemetryRefs r)
    ++ jl_opt "edgeRefs" (EdgeRefs r) ++ jl_opt "pendingRefs" (PendingRefs r)).

Definition with_claim (owner : string) (r : SessionRecord) : SessionRecord :=
  {| SessionID := SessionID r; Fingerprint := Fingerprint r; FingerprintHash := FingerprintHash r;
     StackID := StackID r; WriterID := WriterID r; ClaimOwner := owner; State := State r;
     Live := Live r; CleanupComplete := CleanupComplete r; OperationIDs := OperationIDs r;
     ResourceRefs := ResourceRefs r; FixtureRefs := FixtureRefs r; MigrationRefs := MigrationRefs r;
     BackupRefs := BackupRefs r; TelemetryRefs := TelemetryRefs r; EdgeRefs := EdgeRefs r;
     PendingRefs := PendingRefs r |}.

Definition with_lifecycle (state : string) (live complete : bool) (pending : list string)
    (r : SessionRecord) : SessionRecord :=
  {| SessionID := SessionID r; Fingerprint := Fingerprint r; FingerprintHash := FingerprintHash r;
     StackID := StackID r; WriterID := WriterID r; ClaimOwner := ""; State := state;
     Live := live; CleanupComplete := complete; OperationIDs := OperationIDs r;
     ResourceRefs := ResourceRefs r; FixtureRefs := FixtureRefs r; MigrationRefs := MigrationRefs r;
     BackupRefs := BackupRefs r; TelemetryRefs := TelemetryRefs r; EdgeRefs := EdgeRefs r;
     PendingRefs := pending |}.

(** The zero value. *)
Definition zero : SessionRecord :=
  {| SessionID := "";
     Fingerprint := {| ReuseFingerprint.Architecture := ""; ReuseFingerprint.Fixture := "";
       ReuseFingerprint.BackupSet := ""; ReuseFingerprint.Observability := "";
       ReuseFingerprint.Edge := ""; ReuseFingerprint.ArtifactDigest := "";
       ReuseFingerprint.SchemaFingerprint := ""; ReuseFingerprint.MigrationFingerprint := "";
       ReuseFingerprint.OwnershipMarker := ""; ReuseFingerprint.StateBackend := "" |};
     FingerprintHash := ""; StackID := ""; WriterID := ""; ClaimOwner := ""; State := "";
     Live := false; CleanupComplete := false; OperationIDs := []; ResourceRefs := [];
     FixtureRefs := []; MigrationRefs := []; BackupRefs := []; TelemetryRefs := []; EdgeRefs := [];
     PendingRefs := [] |}.

End SessionRecord.
Notation SessionRecord := SessionRecord.SessionRecord.

Section record.
Import SessionRecord.

(** The flags a state allows. *)
(* internal/certification/resource_registry.go, lines 129-148: SessionRecord.Validate *)
Definition check_state (r : SessionRecord) : gerror :=
  let pending := negb (bool_decide (PendingRefs r = [])) in
  if bool_decide (State r = SessionReady) then
    fail_if (negb (Live r) || CleanupComplete r || pending)
      (ErrNew "ready session registry record must be live and not pending cleanup")
  else if bool_decide (State r = SessionPendingDelete) then
    fail_if (negb (Live r) || CleanupComplete r || negb pending)
      (ErrNew "pending-delete session registry record requires live pending resources")
  else if bool_decide (State r = SessionCleanupVerified) then
    fail_if (Live r || negb (CleanupComplete r) || pending)
      (ErrNew "cleanup-verified session registry record must be non-live and complete")
  else if bool_decide (State r = SessionQuarantined) then
    fail_if (CleanupComplete r && Live r)
      (ErrNew "quarantined session registry record cannot be live and cleanup-complete")
  else Some (errorf "invalid session registry state %q" [GStr (State r)]).

(** The values of one named list: not blank, on one line, no repetition. *)
(* internal/certification/resource_registry.go, lines 159-168: SessionRecord.Validate *)
Fixpoint check_refs (name : string) (seen values : list string) : gerror :=
  match values with
  | [] => None
  | v :: values =>
      fail_if (blank v || multiline v)
        (errorf "session registry %s must be non-empty and single-line" [GStr name])
      ;;? fail_if (bool_decide (v ∈ seen)) (errorf "session registry %s %q is duplicated" [GStr name; GStr v])
      ;;? check_refs name (v :: seen) values
  end.

(** What a live session must hold. *)
(* internal/certification/resource_registry.go, lines 170-187: SessionRecord.Validate *)
Definition check_live (r : SessionRecord) : gerror :=
  if bool_decide (State r = SessionReady) || bool_decide (State r = SessionPendingDelete) then
    first_error (λ nv : string * list string,
      fail_if (bool_decide (nv.2 = []))
        (errorf "live session registry record requires at least one %s" [GStr nv.1]))
      [("resource reference", ResourceRefs r); ("fixture reference", FixtureRefs r);
       ("migration reference", MigrationRefs r); ("backup reference", BackupRefs r)]
    ;;? fail_if (negb (bool_decide (ReuseFingerprint.Observability (Fingerprint r) = "none"))
                 && bool_decide (TelemetryRefs r = []))
          (ErrNew "live session registry record requires telemetry references for an enabled observability destination")
    ;;? fail_if (negb (bool_decide (ReuseFingerprint.Edge (Fingerprint r) = "none"))
                 && bool_decide (EdgeRefs r = []))
          (ErrNew "live session registry record requires edge references for an enabled edge destination")
  else None.

(* internal/certification/resource_registry.go, lines 99-189: SessionRecord.Validate *)
Definition SessionRecord_Validate (r : SessionRecord) : gerror :=
  fail_if (bool_decide (is_Some (ValidateSecretSafeValue (to_json r))))
    (ErrNew "session registry record contains secret-like material")
  ;;? first_error (λ nv : string * string,
        fail_if ((bool_decide (nv.2 = "") && negb (bool_decide (nv.1 = "claim owner"))) || multiline nv.2)
          (errorf "session registry %s is required and must be single-line" [GStr nv.1]))
      [("session ID", SessionID r); ("stack ID", StackID r); ("writer ID", WriterID r);
       ("claim owner", ClaimOwner r)]
  ;;? ReuseFingerprint_Validate (Fingerprint r)
  ;;? match ReuseFingerprint_Digest (Fingerprint r) with
      | Err e => Some e
      | Ok digest =>
          fail_if (negb (bool_decide (FingerprintHash r = digest)))
            (ErrNew "session registry fingerprint hash does not match fingerprint")
      end
  ;;? check_state r
  ;;? first_error (λ nv : string * list string, check_refs nv.1 [] nv.2)
      [("operation ID", OperationIDs r); ("resource reference", ResourceRefs r);
       ("fixture reference", FixtureRefs r); ("migration reference", MigrationRefs r);
       ("backup reference", BackupRefs r); ("telemetry reference", TelemetryRefs r);
       ("edge reference", EdgeRefs r); ("pending reference", PendingRefs r)]
  ;;? check_live r.

End record.
Import SessionRecord(SessionID, StackID, ClaimOwner, FingerprintHash, State).

(** ** The registry interface *)

(* internal/certification/resource_registry.go, lines 205-211: ReuseDecision *)
Definition ReuseReady := "ready".
(* internal/certification/resource_registry.go, lines 209-209: ReuseMiss *)
Definition ReuseMiss := "miss".
(* internal/certification/resource_registry.go, lines 210-210: ReuseBlocked *)
Definition ReuseBlocked := "blocked".

(* internal/certification/resource_registry.go, lines 213-217: ReuseLookup *)
Record ReuseLookup := {
  Decision : string;
  Found : SessionRecord;
  Reason : string;
}.

(** [None] is a nil context, [Some err] one whose [Err()] is [err]. *)
Definition context := option gerror.

Definition live_context (ctx : context) : gerror :=
  match ctx with
  | None => Some (ErrNew "session registry context is required")
  | Some err => err
  end.

Definition check_owner (owner : string) : gerror :=
  fail_if (blank owner || multiline owner)
    (ErrNew "session reuse claim owner is required and must be single-line").

Section interface.
Context {W : Type}.

Abbreviation action A := (W → A * W).

(* internal/certification/resource_registry.go, lines 194-203: SessionRegistry *)
Record SessionRegistry := {
  Lookup : context → ReuseFingerprint → action (result (SessionRecord * bool));
  Claim : context → ReuseFingerprint → string → action (result ReuseLookup);
  ReleaseClaim : context → ReuseFingerprint → string → action gerror;
  Put : context → SessionRecord → action gerror;
  MarkPendingDeletion : context → ReuseFingerprint → list string → action gerror;
  MarkCleanupVerified : context → ReuseFingerprint → string → action gerror;
}.

(* internal/certification/resource_registry.go, lines 330-343: validateSessionRecordFingerprint *)
Definition validateSessionRecordFingerprint (r : SessionRecord) (f : ReuseFingerprint) : gerror :=
  fail_if (bool_decide (is_Some (SessionRecord_Validate r)))
    (ErrNew "session registry returned an invalid record")
  ;;? match ReuseFingerprint_Digest f with
      | Err e => Some e
      | Ok want =>
          match ReuseFingerprint_Digest (SessionRecord.Fingerprint r) with
          | Ok got => fail_if (negb (bool_decide (got = want)))
                        (ErrNew "session registry returned an incompatible record")
          | Err _ => Some (ErrNew "session registry returned an incompatible record")
          end
      end.

(* internal/certification/resource_registry.go, lines 345-353: validateClaimedSessionRecord *)
Definition validateClaimedSessionRecord (r : SessionRecord) (f : ReuseFingerprint) (owner : string) : gerror :=
  validateSessionRecordFingerprint r f
  ;;? fail_if (negb (bool_decide (ClaimOwner r = owner)))
        (ErrNew "session registry returned an unclaimed reusable session").

(* internal/certification/resource_registry.go, lines 223-265: FindReusableSession *)
Definition FindReusableSession (ctx : context) (registry : option SessionRegistry)
    (f : ReuseFingerprint) : action (result ReuseLookup) :=
  λ w,
  match ctx, registry with
  | None, _ => (Err (ErrNew "session registry context is required"), w)
  | Some _, None => (Err (ErrNew "session registry is required"), w)
  | Some err, Some registry =>
      match ReuseFingerprint_Digest f, err with
      | Err e, _ => (Err e, w)
      | Ok _, Some e => (Err e, w)
      | Ok digest, None =>
          let '(r, w) := Lookup registry ctx f w in
          (match r with
           | Err e => Err e
           | Ok (_, false) =>
               Ok {| Decision := ReuseMiss; Found := SessionRecord.zero;
                     Reason := "no compatible session is registered" |}
           | Ok (record, true) =>
               fail_if (bool_decide (is_Some (SessionRecord_Validate record)))
                 (ErrNew "session registry returned an invalid record") ;;!
               match ReuseFingerprint_Digest (SessionRecord.Fingerprint record) with
               | Err _ => Err (ErrNew "session registry returned an incompatible record")
               | Ok got =>
                   fail_if (negb (bool_decide (got = digest)))
                     (ErrNew "session registry returned an incompatible record") ;;!
                   Ok (if bool_decide (State record = SessionReady) then
                         {| Decision := ReuseReady; Found := record; Reason := "" |}
                       else if bool_decide (State record = SessionPendingDelete) then
                         {| Decision := ReuseBlocked; Found := record;
                            Reason := "compatible session has pending owning-service deletion" |}
                       else if bool_decide (State record = SessionQuarantined) then
                         {| Decision := ReuseBlocked; Found := record;
                            Reason := "compatible session is quarantined" |}
                       else if bool_decide (State record = SessionCleanupVerified) then
                         {| Decision := ReuseMiss; Found := record;
                            Reason := "compatible session was already cleaned up" |}
                       else
                         {| Decision := ReuseBlocked; Found := record;
                            Reason := "compatible session has an unknown state" |})
               end
           end, w)
      end
  end.

(* internal/certification/resource_registry.go, lines 271-315: ClaimReusableSession *)
Definition ClaimReusableSession (ctx : context) (registry : option SessionRegistry)
    (f : ReuseFingerprint) (owner : string) : action (result ReuseLookup) :=
  λ w,
  match ctx, registry with
  | None, _ => (Err (ErrNew "session registry context is required"), w)
  | Some _, None => (Err (ErrNew "session registry is required"), w)
  | Some err, Some registry =>
      match check_owner owner ;;? ReuseFingerprint_Validate f ;;? err with
      | Some e => (Err e, w)
      | None =>
          let '(r, w) := Claim registry ctx f owner w in
          (lookup ← r;
           (if bool_decide (Decision lookup = ReuseReady) then
              validateClaimedSessionRecord (Found lookup) f owner
            else if bool_decide (Decision lookup = ReuseBlocked)
                    || bool_decide (Decision lookup = ReuseMiss) then
              if bool_decide (SessionID (Found lookup) = "") then None
              else validateSessionRecordFingerprint (Found lookup) f
            else Some (ErrNew "session registry returned an unknown reuse decision")) ;;!
           Ok lookup, w)
      end
  end.
End interface.
Arguments SessionRegistry : clear implicits.

(** ** The memory registry *)

(** The [records] map of [MemorySessionRegistry]. *)
Abbreviation MemorySessionRegistry := (gmap string SessionRecord).

Section memory.
Implicit Types (registry : MemorySessionRegistry) (ctx : context) (f : ReuseFingerprint).

(* internal/certification/resource_registry.go, lines 540-546: MemorySessionRegistry.putLocked *)
Definition putLocked (r : SessionRecord) registry : gerror * MemorySessionRegistry :=
  match SessionRecord_Validate r with
  | Some e => (Some e, registry)
  | None => (None, <[FingerprintHash r := r]> registry)
  end.

(* internal/certification/resource_registry.go, lines 367-385: MemorySessionRegistry.Lookup *)
Definition mem_Lookup ctx f registry : result (SessionRecord * bool) * MemorySessionRegistry :=
  (live_context ctx ;;!
   (digest ← ReuseFingerprint_Digest f;
    Ok (match registry !! digest with
        | Some record => (record, true)
        | None => (SessionRecord.zero, false)
        end)), registry).

(** The part of [Claim] under the lock. *)
(* internal/certification/resource_registry.go, lines 401-429: MemorySessionRegistry.Claim *)
Definition claim_locked (digest owner : string) registry : result ReuseLookup * MemorySessionRegistry :=
  let blocked record reason := {| Decision := ReuseBlocked; Found := record; Reason := reason |} in
  match registry !! digest with
  | None => (Ok {| Decision := ReuseMiss; Found := SessionRecord.zero;
                   Reason := "no compatible session is registered" |}, registry)
  | Some record =>
      match SessionRecord_Validate record with
      | Some _ => (Err (ErrNew "session registry returned an invalid record"), registry)
      | None =>
          if bool_decide (State record = SessionReady) then
            if negb (bool_decide (ClaimOwner record = "")) && negb (bool_decide (ClaimOwner record = owner))
            then (Ok (blocked record "compatible session is claimed by another certification run"), registry)
            else
              let record := SessionRecord.with_claim owner record in
              let '(err, registry) := putLocked record registry in
              (err ;;! Ok {| Decision := ReuseReady; Found := record; Reason := "" |}, registry)
          else
            (Ok (if bool_decide (State record = SessionPendingDelete) then
                   blocked record "compatible session has pending owning-service deletion"
                 else if bool_decide (State record = SessionQuarantined) then
                   blocked record "compatible session is quarantined"
                 else if bool_decide (State record = SessionCleanupVerified) then
                   {| Decision := ReuseMiss; Found := record;
                      Reason := "compatible session was already cleaned up" |}
                 else blocked record "compatible session has an unknown state"), registry)
      end
  end.

(* internal/certification/resource_registry.go, lines 387-429: MemorySessionRegistry.Claim *)
Definition mem_Claim ctx f owner registry : result ReuseLookup * MemorySessionRegistry :=
  match ctx with
  | None => (Err (ErrNew "session registry context is required"), registry)
  | Some err =>
      match (check_owner owner ;;? err) ;;! ReuseFingerprint_Digest f with
      | Err e => (Err e, registry)
      | Ok digest => claim_locked digest owner registry
      end
  end.

(* internal/certification/resource_registry.go, lines 431-459: MemorySessionRegistry.ReleaseClaim *)
Definition mem_ReleaseClaim ctx f owner registry : gerror * MemorySessionRegistry :=
  match ctx with
  | None => (Some (ErrNew "session registry context is required"), registry)
  | Some err =>
      match (check_owner owner ;;? err) ;;! ReuseFingerprint_Digest f with
      | Err e => (Some e, registry)
      | Ok digest =>
          match registry !! digest with
          | None => (Some (ErrNew "session registry claim identity was not found"), registry)
          | Some record =>
              if bool_decide (ClaimOwner record = "") then (None, registry)
              else if negb (bool_decide (ClaimOwner record = owner)) then
                (Some (ErrNew "session registry claim owner does not match"), registry)
              else putLocked (SessionRecord.with_claim "" record) registry
          end
      end
  end.

(* internal/certification/resource_registry.go, lines 461-482: MemorySessionRegistry.Put *)
Definition mem_Put ctx (record : SessionRecord) registry : gerror * MemorySessionRegistry :=
  match live_context ctx ;;? SessionRecord_Validate record with
  | Some e => (Some e, registry)
  | None =>
      let duplicate :=
        match registry !! FingerprintHash record with
        | Some existing => negb (bool_decide (StackID existing = StackID record)) && SessionRecord.Live existing
        | None => false
        end in
      if duplicate then
        (Some (ErrNew "session registry rejects a duplicate live writer for the fingerprint"), registry)
      else (None, <[FingerprintHash record := record]> registry)
  end.

(* internal/certification/resource_registry.go, lines 484-510: MemorySessionRegistry.MarkPendingDeletion *)
Definition mem_MarkPendingDeletion ctx f (pending : list string) registry : gerror * MemorySessionRegistry :=
  match live_context ctx
        ;;? fail_if (bool_decide (pending = []))
              (ErrNew "pending deletion requires owning-service resource references") with
  | Some e => (Some e, registry)
  | None =>
      match ReuseFingerprint_Digest f with
      | Err e => (Some e, registry)
      | Ok digest =>
          match registry !! digest with
          | None => (Some (ErrNew "session registry record was not found"), registry)
          | Some record =>
              putLocked (SessionRecord.with_lifecycle SessionPendingDelete true false pending record) registry
          end
      end
  end.

(* internal/certification/resource_registry.go, lines 512-538: MemorySessionRegistry.MarkCleanupVerified *)
Definition mem_MarkCleanupVerified ctx f (stackID : string) registry : gerror * MemorySessionRegistry :=
  match live_context ctx with
  | Some e => (Some e, registry)
  | None =>
      match ReuseFingerprint_Digest f with
      | Err e => (Some e, registry)
      | Ok digest =>
          match registry !! digest with
          | Some record =>
              if negb (bool_decide (StackID record = stackID)) then
                (Some (ErrNew "session registry cleanup identity was not found"), registry)
              else if negb (bool_decide (State record = SessionPendingDelete)) then
                (Some (ErrNew "session registry cleanup verification requires pending deletion"), registry)
              else putLocked (SessionRecord.with_lifecycle SessionCleanupVerified false true [] record) registry
          | None => (Some (ErrNew "session registry cleanup identity was not found"), registry)
          end
      end
  end.

(** The memory registry as an implementation of the interface. *)
(* internal/certification/resource_registry.go, lines 363-365: NewMemorySessionRegistry *)
Definition NewMemorySessionRegistry : SessionRegistry MemorySessionRegistry :=
  {| Lookup := mem_Lookup; Claim := mem_Claim; ReleaseClaim := mem_ReleaseClaim; Put := mem_Put;
     MarkPendingDeletion := mem_MarkPendingDeletion; MarkCleanupVerified := mem_MarkCleanupVerified |}.
End memory.

(** ** Histories of the memory registry *)

(** One locked operation, by any caller. *)
Inductive operation :=
  | OpLookup (ctx : context) (f : ReuseFingerprint)
  | OpClaim (ctx : context) (f : ReuseFingerprint) (owner : string)
  | OpReleaseClaim (ctx : context) (f : ReuseFingerprint) (owner : string)
  | OpPut (ctx : context) (r : SessionRecord)
  | OpMarkPendingDeletion (ctx : context) (f : ReuseFingerprint) (pending : list string)
  | OpMarkCleanupVerified (ctx : context) (f : ReuseFingerprint) (stackID : string).

Definition apply_op (registry : MemorySessionRegistry) (op : operation) : MemorySessionRegistry :=
  match op with
  | OpLookup ctx f => (mem_Lookup ctx f registry).2
  | OpClaim ctx f owner => (mem_Claim ctx f owner registry).2
  | OpReleaseClaim ctx f owner => (mem_ReleaseClaim ctx f owner registry).2
  | OpPut ctx r => (mem_Put ctx r registry).2
  | OpMarkPendingDeletion ctx f pending => (mem_MarkPendingDeletion ctx f pending registry).2
  | OpMarkCleanupVerified ctx f stackID => (mem_MarkCleanupVerified ctx f stackID registry).2
  end.

(** The registry after a history that starts empty. *)
Definition after (ops : list operation) : MemorySessionRegistry := fold_left apply_op ops ∅.

(** How one operation changes the map: not at all, or one valid record under
    its own hash. *)
Inductive change (registry : MemorySessionRegistry) (op : operation) : MemorySessionRegistry → Prop :=
  | change_none : change registry op registry
  | change_put ctx r :
      op = OpPut ctx r → SessionRecord_Validate r = None →
      (∀ old, registry !! FingerprintHash r = Some old → SessionRecord.Live old = true →
         StackID old = StackID r) →
      change registry op (<[FingerprintHash r := r]> registry)
  | change_update digest old r :
      registry !! digest = Some old → SessionRecord_Validate r = None →
      StackID r = StackID old → FingerprintHash r = FingerprintHash old →
      (∃ ctx f owner, op = OpClaim ctx f owner ∧ ReuseFingerprint_Digest f = Ok digest ∧
         State old = SessionReady ∧ (ClaimOwner old = "" ∨ ClaimOwner old = owner) ∧
         r = SessionRecord.with_claim owner old ∧ blank owner = false) ∨
      (∃ ctx f owner, op = OpReleaseClaim ctx f owner ∧ ReuseFingerprint_Digest f = Ok digest ∧
         ClaimOwner old = owner ∧ r = SessionRecord.with_claim "" old) ∨
      (∃ ctx f pending, op = OpMarkPendingDeletion ctx f pending ∧ ReuseFingerprint_Digest f = Ok digest ∧
         r = SessionRecord.with_lifecycle SessionPendingDelete true false pending old) ∨
      (∃ ctx f stackID, op = OpMarkCleanupVerified ctx f stackID ∧
         ReuseFingerprint_Digest f = Ok digest ∧ State old = SessionPendingDelete ∧
         r = SessionRecord.with_lifecycle SessionCleanupVerified false true [] old) →
      change registry op (<[FingerprintHash r := r]> registry).

Lemma putLocked_cases r registry :
  putLocked r registry = (None, <[FingerprintHash r := r]> registry) ∧ SessionRecord_Validate r = None ∨
  ∃ e, putLocked r registry = (Some e, registry).
Proof. unfold putLocked. destruct (SessionRecord_Validate r); eauto. Qed.

Lemma check_owner_None owner : check_owner owner = None → blank owner = false.
Proof. by intros [? _]%fail_if_None%orb_false_iff. Qed.

Lemma apply_op_change registry op : change registry op (apply_op registry op).
Proof.
  destruct op as [ctx f|ctx f owner|ctx f owner|ctx r|ctx f pending|ctx f stackID]; simpl.
  - constructor.
  - unfold mem_Claim. destruct ctx as [err|]; [|constructor].
    destruct (lift_check _ _) as [digest|e] eqn:Ed; [|constructor].
    apply lift_check_Ok in Ed as [[Ho _]%err_seq_None Ed]. apply check_owner_None in Ho.
    unfold claim_locked. destruct (registry !! digest) as [old|] eqn:El; [|constructor].
    destruct (SessionRecord_Validate old); [constructor|].
    case_bool_decide as Hs; [|constructor].
    destruct (negb _ && negb _) eqn:Hc; [constructor|].
    destruct (putLocked_cases (SessionRecord.with_claim owner old) registry) as [[-> Hv]|[e ->]];
      [|constructor].
    eapply (change_update _ _ digest old); [done|done|done|done|]. left. exists (Some err), f, owner.
    split_and!; try done. apply andb_false_iff in Hc as [H|H]; apply negb_false_iff in H;
      apply bool_decide_eq_true in H; auto.
  - unfold mem_ReleaseClaim. destruct ctx as [err|]; [|constructor].
    destruct (lift_check _ _) as [digest|e] eqn:Ed; [|constructor].
    apply lift_check_Ok in Ed as [_ Ed].
    destruct (registry !! digest) as [old|] eqn:El; [|constructor].
    case_bool_decide; [constructor|]. case_bool_decide; simpl; [|constructor].
    destruct (putLocked_cases (SessionRecord.with_claim "" old) registry) as [[-> Hv]|[e ->]];
      [|constructor].
    eapply (change_update _ _ digest old); [done|done|done|done|]. right; left.
    by exists (Some err), f, owner.
  - unfold mem_Put. destruct (err_seq _ _) eqn:Hv; [constructor|].
    apply err_seq_None in Hv as [_ Hv].
    destruct (registry !! FingerprintHash r) as [old|] eqn:El; simpl.
    + destruct (negb _ && _) eqn:Hd; [constructor|]. eapply change_put; [done|done|].
      intros old' H Hl. rewrite El in H. injection H as <-.
      rewrite Hl, andb_true_r in Hd. by apply negb_false_iff, bool_decide_eq_true in Hd.
    + eapply change_put; [done|done|]. intros old' H. by rewrite El in H.
  - unfold mem_MarkPendingDeletion. destruct (err_seq _ _); [constructor|].
    destruct (ReuseFingerprint_Digest f) as [digest|e] eqn:Ed; [|constructor].
    destruct (registry !! digest) as [old|] eqn:El; [|constructor].
    destruct (putLocked_cases (SessionRecord.with_lifecycle SessionPendingDelete true false pending old)
      registry) as [[-> Hv]|[e ->]]; [|constructor].
    eapply (change_update _ _ digest old); [done|done|done|done|]. right; right; left. by exists ctx, f, pending.
  - unfold mem_MarkCleanupVerified. destruct (live_context ctx); [constructor|].
    destruct (ReuseFingerprint_Digest f) as [digest|e] eqn:Ed; [|constructor].
    destruct (registry !! digest) as [old|] eqn:El; [|constructor].
    case_bool_decide; simpl; [|constructor]. case_bool_decide; simpl; [|constructor].
    destruct (putLocked_cases (SessionRecord.with_lifecycle SessionCleanupVerified false true [] old)
      registry) as [[-> Hv]|[e ->]]; [|constructor].
    eapply (change_update _ _ digest old); [done|done|done|done|]. right; right; right. by exists ctx, f, stackID.
Qed.

(** Every record is valid and stored under its own hash. *)
Definition registry_ok (registry : MemorySessionRegistry) : Prop :=
  ∀ k r, registry !! k = Some r → FingerprintHash r = k ∧ SessionRecord_Validate r = None.

Lemma registry_ok_step registry op : registry_ok registry → registry_ok (apply_op registry op).
Proof.
  intros Hok. destruct (apply_op_change registry op) as [|ctx r _ Hv _|digest old r Hl Hv _ _ _];
    [done| |]; intros k x [[<- <-]|[_ Hx]]%lookup_insert_Some; auto.
Qed.

Lemma registry_ok_after ops registry : registry_ok registry → registry_ok (fold_left apply_op ops registry).
Proof. revert registry; induction ops as [|op ops IH]; intros registry H; simpl; auto using registry_ok_step. Qed.

(** Whatever the history of the memory registry, each record it holds is
    valid and filed under the digest of its own fingerprint; and no further
    operation replaces the stack of a live session: as long as the record of a
    digest is live, every operation leaves a record of the same stack there. *)
Theorem MemorySessionRegistry_invariant ops op k r :
  after ops !! k = Some r →
  SessionRecord_Validate r = None ∧ ReuseFingerprint_Digest (SessionRecord.Fingerprint r) = Ok k ∧
  (SessionRecord.Live r = true →
   ∃ r', apply_op (after ops) op !! k = Some r' ∧ StackID r' = StackID r).
Proof.
  intros Hk. assert (registry_ok (after ops)) as Hok by (apply registry_ok_after; by intros ??).
  destruct (Hok _ _ Hk) as [Hh Hv]. split_and!; [done| |].
  - unfold SessionRecord_Validate in Hv. inv_checks. rewrite <-Hh.
    destruct (ReuseFingerprint_Digest _) as [d|e]; [|done]. apply fail_if_None, negb_false_iff in H2.
    by apply bool_decide_eq_true in H2 as ->.
  - intros Hl. destruct (apply_op_change (after ops) op)
      as [|ctx r' _ Hv' Hs|digest old r' Hd Hv' Hs Hf _]; [by exists r| |].
    + destruct (decide (FingerprintHash r' = k)) as [<-|]; [|exists r; by rewrite lookup_insert_ne].
      exists r'. split; [by rewrite lookup_insert_eq|]. symmetry. by apply Hs.
    + destruct (decide (FingerprintHash r' = k)) as [<-|]; [|exists r; by rewrite lookup_insert_ne].
      exists r'. split; [by rewrite lookup_insert_eq|].
      destruct (Hok _ _ Hd) as [Hh' _]. rewrite Hf, Hh', Hd in Hk. by simplify_eq.
Qed.

(** Operations that neither end nor take over the claim of [owner] on the
    session of [digest]. *)
Definition respects (digest owner : string) (op : operation) : Prop :=
  match op with
  | OpLookup _ _ | OpClaim _ _ _ | OpMarkCleanupVerified _ _ _ => True
  | OpReleaseClaim _ f o => o ≠ owner ∨ ReuseFingerprint_Digest f ≠ Ok digest
  | OpPut _ r => FingerprintHash r ≠ digest
  | OpMarkPendingDeletion _ f _ => ReuseFingerprint_Digest f ≠ Ok digest
  end.

Definition claimed (digest owner : string) (registry : MemorySessionRegistry) : Prop :=
  ∃ r, registry !! digest = Some r ∧ ClaimOwner r = owner ∧ State r = SessionReady.

Lemma claimed_step digest owner registry op :
  owner ≠ "" → registry_ok registry → claimed digest owner registry → respects digest owner op →
  claimed digest owner (apply_op registry op).
Proof.
  intros Hne Hok (r&Hr&Ho&Hs) Hresp.
  destruct (apply_op_change registry op) as [|ctx r' -> Hv' _|d old r' Hd Hv' _ Hf Hop]; [by exists r| |].
  - exists r. by rewrite lookup_insert_ne.
  - destruct (Hok _ _ Hd) as [Hh _].
    destruct (decide (d = digest)) as [->|]; [|exists r; rewrite lookup_insert_ne; [done|congruence]].
    rewrite Hr in Hd. injection Hd as <-.
    destruct Hop as [(ctx&f&o&->&_&_&Hc&->&_)|[(ctx&f&o&->&Hf'&Hc&->)|[(ctx&f&pending&->&Hf'&->)|(ctx&f&st&->&_&Hst&_)]]].
    + exists (SessionRecord.with_claim o r). rewrite Hf, Hh, lookup_insert_eq.
      split_and!; [done| |done]. simpl. destruct Hc; congruence.
    + exfalso. destruct Hresp; congruence.
    + exfalso. by apply Hresp.
    + exfalso. by rewrite Hs in Hst.
Qed.

(** C36: a claim is exclusive.  Once an owner has claimed a ready session, no
    history of operations gives it to another owner, short of that owner's own
    release, a [Put] of a record with the same hash or the start of its
    deletion: a claim by anybody else fails or is blocked, and changes nothing. *)
Theorem MemorySessionRegistry_claim_exclusive ops ctx f owner lookup registry later ctx' other :
  mem_Claim ctx f owner (after ops) = (Ok lookup, registry) → Decision lookup = ReuseReady →
  (∀ digest, ReuseFingerprint_Digest f = Ok digest → Forall (respects digest owner) later) →
  other ≠ owner →
  let registry' := fold_left apply_op later registry in
  (mem_Claim ctx' f other registry').2 = registry' ∧
  match (mem_Claim ctx' f other registry').1 with
  | Ok answer => Decision answer = ReuseBlocked
  | Err _ => True
  end.
Proof.
  intros Hclaim Hready Hlater Hother registry'.
  assert (registry_ok (after ops)) as Hok by (apply registry_ok_after; by intros ??).
  assert (Hown : ∃ digest, ReuseFingerprint_Digest f = Ok digest ∧ claimed digest owner registry ∧
    blank owner = false ∧ registry_ok registry).
  { pose proof (registry_ok_step (after ops) (OpClaim ctx f owner) Hok) as Hok'. simpl in Hok'.
    rewrite Hclaim in Hok'. simpl in Hok'.
    unfold mem_Claim in Hclaim. destruct ctx as [err|]; [|done].
    destruct (lift_check _ _) as [digest|e] eqn:Ed; [|done].
    apply lift_check_Ok in Ed as [[Ho _]%err_seq_None Ed]. apply check_owner_None in Ho.
    exists digest. split_and!; [done| |done|done].
    unfold claim_locked in Hclaim. destruct (after ops !! digest) as [old|] eqn:El;
      [|injection Hclaim as <- _; done].
    destruct (SessionRecord_Validate old); [done|].
    case_bool_decide as Hs; cycle 1.
    { injection Hclaim as <- _. revert Hready. by repeat case_bool_decide. }
    destruct (negb _ && negb _); [injection Hclaim as <- _; done|].
    destruct (putLocked_cases (SessionRecord.with_claim owner old) (after ops)) as [[Hp Hv]|[e Hp]];
      rewrite Hp in Hclaim; [|done]. injection Hclaim as _ <-.
    destruct (Hok _ _ El) as [Hh _]. exists (SessionRecord.with_claim owner old).
    split_and!; [|done|done]. change (FingerprintHash (SessionRecord.with_claim owner old)) with (FingerprintHash old).
    by rewrite Hh, lookup_insert_eq. }
  destruct Hown as (digest&Hd&Hcl&Hb&Hokr).
  assert (Hne : owner ≠ "") by by apply blank_false_nonempty.
  assert (claimed digest owner registry') as (r&Hr&Ho&Hs).
  { specialize (Hlater _ Hd). unfold registry'. clear Hclaim registry'. revert registry Hcl Hokr.
    induction Hlater as [|op later Hop _ IH]; intros registry Hcl Hokr; simpl; [done|].
    apply IH; [by apply claimed_step|by apply registry_ok_step]. }
  unfold mem_Claim. destruct ctx' as [err|]; [|done].
  destruct (lift_check _ _) as [d|e] eqn:Ed; [|done].
  apply lift_check_Ok in Ed as [_ Ed]. rewrite Hd in Ed. injection Ed as <-.
  unfold claim_locked. rewrite Hr. destruct (SessionRecord_Validate r); [done|].
  rewrite (bool_decide_true _ Hs), !bool_decide_false by congruence. done.
Qed.

(** What the checks of [ClaimReusableSession] leave of an answer. *)
Lemma ClaimReusableSession_ready {W} (registry : SessionRegistry W) ctx f owner w lookup w' :
  ClaimReusableSession ctx (Some registry) f owner w = (Ok lookup, w') → Decision lookup = ReuseReady →
  ctx = Some None ∧ ReuseFingerprint_Validate f = None ∧ check_owner owner = None ∧
  SessionRecord_Validate (Found lookup) = None ∧ ClaimOwner (Found lookup) = owner ∧
  ReuseFingerprint_Digest (SessionRecord.Fingerprint (Found lookup)) = ReuseFingerprint_Digest f.
Proof.
  unfold ClaimReusableSession. destruct ctx as [err|]; [|done].
  destruct (err_seq _ _) eqn:Hc; [done|]. inv_checks.
  destruct (Claim registry (Some err) f owner w) as [r w2].
  destruct r as [l|e]; simpl; [|done]. intros [= Hl ->] Hready. apply lift_check_Ok in Hl as [Hv [= ->]].
  rewrite (bool_decide_true _ Hready) in Hv. unfold validateClaimedSessionRecord, validateSessionRecordFingerprint in Hv.
  inv_checks. apply bool_decide_eq_false in H2. apply negb_false_iff, bool_decide_eq_true in H3.
  destruct (ReuseFingerprint_Digest f) as [want|e] eqn:Ew; [|done].
  destruct (ReuseFingerprint_Digest (SessionRecord.Fingerprint _)) as [got|e] eqn:Eg; [|done].
  apply fail_if_None, negb_false_iff, bool_decide_eq_true in H4. subst.
  split_and!; try done. destruct (SessionRecord_Validate (Found lookup)); [|done]. by destruct H2.
Qed.

(** A scheduler cannot be handed a foreign session.  Whatever the registry
    behind the interface answers, a claim that [ClaimReusableSession] accepts
    as ready is for a valid record of the same fingerprint digest, held by the
    claiming owner. *)
Theorem ClaimReusableSession_sound {W} (registry : SessionRegistry W) ctx f owner w lookup w' :
  ClaimReusableSession ctx (Some registry) f owner w = (Ok lookup, w') →
  Decision lookup = ReuseReady →
  ctx = Some None ∧ ReuseFingerprint_Validate f = None ∧ blank owner = false ∧
  ClaimOwner (Found lookup) = owner ∧ SessionRecord_Validate (Found lookup) = None ∧
  ReuseFingerprint_Digest (SessionRecord.Fingerprint (Found lookup)) = ReuseFingerprint_Digest f.
Proof.
  intros H Hready. destruct (ClaimReusableSession_ready _ _ _ _ _ _ _ H Hready) as (?&?&Ho&?&?&?).
  apply check_owner_None in Ho. done.
Qed.

(** ** A concrete registry *)

Module SessionsExample.

Definition print : ReuseFingerprint :=
  {| ReuseFingerprint.Architecture := "arch-1"; ReuseFingerprint.Fixture := "fixture-1";
     ReuseFingerprint.BackupSet := "backup-1"; ReuseFingerprint.Observability := "none";
     ReuseFingerprint.Edge := "none"; ReuseFingerprint.ArtifactDigest := "sha256:aa";
     ReuseFingerprint.SchemaFingerprint := "schema-1";
     ReuseFingerprint.MigrationFingerprint := "migration-1";
     ReuseFingerprint.OwnershipMarker := "run-1"; ReuseFingerprint.StateBackend := "s3" |}.

Definition digest : string := Eval vm_compute in
  match ReuseFingerprint_Digest print with Ok d => d | Err _ => "" end.

Definition session : SessionRecord :=
  {| SessionRecord.SessionID := "session-1"; SessionRecord.Fingerprint := print;
     SessionRecord.FingerprintHash := digest; SessionRecord.StackID := "stack-1";
     SessionRecord.WriterID := "writer-1"; SessionRecord.ClaimOwner := "";
     SessionRecord.State := SessionReady; SessionRecord.Live := true;
     SessionRecord.CleanupComplete := false; SessionRecord.OperationIDs := [];
     SessionRecord.ResourceRefs := ["db-1"]; SessionRecord.FixtureRefs := ["fixture-1"];
     SessionRecord.MigrationRefs := ["migration-1"]; SessionRecord.BackupRefs := ["backup-1"];
     SessionRecord.TelemetryRefs := []; SessionRecord.EdgeRefs := [];
     SessionRecord.PendingRefs := [] |}.

Definition put := [OpPut (Some None) session].
Definition taken := SessionRecord.with_claim "alice" session.
Definition answer := {| Decision := ReuseReady; Found := taken; Reason := "" |}.

Lemma MemorySessionRegistry_invariant_witness :
  SessionRecord_Validate session = None ∧ ReuseFingerprint_Digest print = Ok digest ∧
  (true = true → ∃ r', apply_op (after put) (OpClaim (Some None) print "alice") !! digest = Some r' ∧
     StackID r' = "stack-1").
Proof.
  apply (MemorySessionRegistry_invariant put (OpClaim (Some None) print "alice") digest session).
  vm_compute. reflexivity.
Defined.

Lemma MemorySessionRegistry_claim_exclusive_witness :
  let registry := fold_left apply_op [OpReleaseClaim (Some None) print "bob"]
                    (<[digest := taken]> (after put)) in
  (mem_Claim (Some None) print "bob" registry).2 = registry ∧
  match (mem_Claim (Some None) print "bob" registry).1 with
  | Ok answer => Decision answer = ReuseBlocked
  | Err _ => True
  end.
Proof.
  apply (MemorySessionRegistry_claim_exclusive put (Some None) print "alice" answer
    (<[digest := taken]> (after put)) [OpReleaseClaim (Some None) print "bob"] (Some None) "bob").
  - vm_cast_no_check (eq_refl (Ok answer, <[digest := taken]> (after put))).
  - reflexivity.
  - intros d _. apply Forall_singleton. by left.
  - done.
Defined.

Lemma ClaimReusableSession_sound_witness :
  Some (None : gerror) = Some None ∧ ReuseFingerprint_Validate print = None ∧ blank "alice" = false ∧
  ClaimOwner taken = "alice" ∧ SessionRecord_Validate taken = None ∧
  ReuseFingerprint_Digest print = ReuseFingerprint_Digest print.
Proof.
  apply (ClaimReusableSession_sound NewMemorySessionRegistry (Some None) print "alice" (after put)
    answer (after [OpPut (Some None) session; OpClaim (Some None) print "alice"])); [|reflexivity].
  vm_cast_no_check (eq_refl (Ok answer, after [OpPut (Some None) session; OpClaim (Some None) print "alice"])).
Defined.
End SessionsExample.
