(* ===== verification/LocalCapacity.v ===== *)
(** * Local capacity (internal/certification/local_capacity.go)

    The in-process reservation of runner CPU and memory: a counter, a queue of
    waiters and leases.  Each critical section of its mutex is one function on
    the reservation; the callers of [Acquire] and [Release] interleave as a
    step relation.  A waiter is a number in the queue and a record in a store,
    as the queue holds pointers.  A reservation obtained through the interface
    is a parameter of [acquireLocalCapacity]. *)

From S2P Require Import Prelude GoStrings.

Local Open Scope Z_scope.

(* internal/certification/local_capacity.go, lines 15-18: LocalCapacityRequest *)
Record LocalCapacityRequest := { CPUMilli : Z; MemoryMB : Z }.

#[export] Instance LocalCapacityRequest_eq_dec : EqDecision LocalCapacityRequest.
Proof. solve_decision. Defined.

Implicit Types (request capacity : LocalCapacityRequest).

(* internal/certification/local_capacity.go, lines 20-28: LocalCapacityRequest.Validate *)
Definition LocalCapacityRequest_Validate request : gerror :=
  fail_if (CPUMilli request <? 0) (ErrNew "local capacity CPU cannot be negative")
  ;;? fail_if (MemoryMB request <? 0) (ErrNew "local capacity memory cannot be negative").

(* internal/certification/local_capacity.go, lines 30-32: LocalCapacityRequest.empty *)
Definition request_empty request : bool := (CPUMilli request =? 0) && (MemoryMB request =? 0).

(* internal/certification/local_capacity.go, lines 34-36: LocalCapacityRequest.fits *)
Definition request_fits request (available : LocalCapacityRequest) : bool :=
  (CPUMilli request <=? CPUMilli available) && (MemoryMB request <=? MemoryMB available).

(* internal/certification/local_capacity.go, lines 38-43: LocalCapacityRequest.subtract *)
Definition request_subtract request (available : LocalCapacityRequest) : LocalCapacityRequest :=
  {| CPUMilli := CPUMilli available - CPUMilli request;
     MemoryMB := MemoryMB available - MemoryMB request |}.

(** [available.CPUMilli += request.CPUMilli], and the same for memory. *)
(* internal/certification/local_capacity.go, lines 172-173: MemoryLocalCapacityReservation.release *)
Definition give_back request (available : LocalCapacityRequest) : LocalCapacityRequest :=
  {| CPUMilli := CPUMilli available + CPUMilli request;
     MemoryMB := MemoryMB available + MemoryMB request |}.

(** ** The reservation *)

(** The number of a waiter stands for its pointer; [ready] tells whether the
    channel is closed. *)
(* internal/certification/local_capacity.go, lines 71-76: memoryLocalCapacityWaiter *)
Record waiter := { wanted : LocalCapacityRequest; ready : bool; queued : bool; granted : bool }.

(* internal/certification/local_capacity.go, lines 64-69: MemoryLocalCapacityReservation *)
Record MemoryLocalCapacityReservation := {
  capacity : LocalCapacityRequest;
  available : LocalCapacityRequest;
  waiters : list nat;
  store : gmap nat waiter;
}.

Implicit Types (res : MemoryLocalCapacityReservation).

(* internal/certification/local_capacity.go, lines 81-86: NewMemoryLocalCapacityReservation *)
Definition NewMemoryLocalCapacityReservation capacity : result MemoryLocalCapacityReservation :=
  err_wrap (wrapf "local capacity reservation capacity: %w" []) (LocalCapacityRequest_Validate capacity) ;;!
  Ok {| capacity := capacity; available := capacity; waiters := []; store := ∅ |}.

(* internal/certification/local_capacity.go, lines 151-153: MemoryLocalCapacityReservation.grantWaitersLocked *)
Definition grant_waiter (w : waiter) : waiter :=
  {| wanted := wanted w; ready := true; queued := false; granted := true |}.

(** The loop, on the three fields it updates. *)
(* internal/certification/local_capacity.go, lines 144-154: MemoryLocalCapacityReservation.grantWaitersLocked *)
Fixpoint grant_loop (queue : list nat) (available : LocalCapacityRequest) (store : gmap nat waiter)
    : list nat * LocalCapacityRequest * gmap nat waiter :=
  match queue with
  | [] => ([], available, store)
  | id :: rest =>
      match store !! id with
      | None => (queue, available, store)
      | Some w =>
          if request_fits (wanted w) available
          then grant_loop rest (request_subtract (wanted w) available) (<[id := grant_waiter w]> store)
          else (queue, available, store)
      end
  end.

(* internal/certification/local_capacity.go, lines 143-155: MemoryLocalCapacityReservation.grantWaitersLocked *)
Definition grantWaitersLocked res : MemoryLocalCapacityReservation :=
  let '(queue, available, store) := grant_loop (waiters res) (available res) (store res) in
  {| capacity := capacity res; available := available; waiters := queue; store := store |}.

(* internal/certification/local_capacity.go, lines 157-168: MemoryLocalCapacityReservation.removeWaiterLocked *)
Definition removeWaiterLocked (target : nat) res : MemoryLocalCapacityReservation :=
  match list_find (λ id, id = target) (waiters res) with
  | None => res
  | Some (index, _) =>
      {| capacity := capacity res; available := available res;
         waiters := delete index (waiters res);
         store := alter (λ w, {| wanted := wanted w; ready := ready w; queued := false;
                                 granted := granted w |}) target (store res) |}
  end.

(** The checks of [Acquire] before the lock; [true] asks for the no-op lease
    of an empty request. *)
(* internal/certification/local_capacity.go, lines 90-108: MemoryLocalCapacityReservation.Acquire *)
Definition acquire_checks (ctx : option gerror) request res : result bool :=
  match ctx with
  | None => Err (ErrNew "local capacity reservation context is required")
  | Some err =>
      LocalCapacityRequest_Validate request ;;!
      fail_if ((CPUMilli (capacity res) <? CPUMilli request) || (MemoryMB (capacity res) <? MemoryMB request))
        (ErrNew "local capacity request exceeds reservation capacity") ;;!
      err ;;!
      Ok (request_empty request)
  end.

(** The first critical section of [Acquire]: a lease at once, or a place in
    the queue. *)
(* internal/certification/local_capacity.go, lines 110-119: MemoryLocalCapacityReservation.Acquire *)
Definition acquire_locked (id : nat) request res : bool * MemoryLocalCapacityReservation :=
  if bool_decide (waiters res = []) && request_fits request (available res) then
    (true, {| capacity := capacity res; available := request_subtract request (available res);
              waiters := waiters res; store := store res |})
  else
    (false, grantWaitersLocked
      {| capacity := capacity res; available := available res; waiters := waiters res ++ [id];
         store := <[id := {| wanted := request; ready := false; queued := true; granted := false |}]>
                    (store res) |}).

(** The second critical section, when the context was done first. *)
(* internal/certification/local_capacity.go, lines 121-139: MemoryLocalCapacityReservation.Acquire *)
Definition cancel_locked (id : nat) res : MemoryLocalCapacityReservation :=
  match store res !! id with
  | None => res
  | Some w =>
      if granted w then
        grantWaitersLocked
          {| capacity := capacity res; available := give_back (wanted w) (available res);
             waiters := waiters res;
             store := <[id := {| wanted := wanted w; ready := ready w; queued := queued w;
                                 granted := false |}]> (store res) |}
      else if queued w then grantWaitersLocked (removeWaiterLocked id res)
      else res
  end.

(* internal/certification/local_capacity.go, lines 170-176: MemoryLocalCapacityReservation.release *)
Definition release request res : MemoryLocalCapacityReservation :=
  grantWaitersLocked
    {| capacity := capacity res; available := give_back request (available res);
       waiters := waiters res; store := store res |}.

(** ** Callers *)

(** A caller is blocked in the select of [Acquire] or holds a lease. *)
Inductive caller :=
  | Blocked
  | Leased request.

Record system := { res : MemoryLocalCapacityReservation; callers : gmap nat caller }.

Inductive step : system → system → Prop :=
  | step_acquire id request ctx s :
      callers s !! id = None → store (res s) !! id = None →
      acquire_checks ctx request (res s) = Ok false →
      let r := acquire_locked id request (res s) in
      step s {| res := r.2; callers := <[id := if r.1 then Leased request else Blocked]> (callers s) |}
  | step_ready id w s :
      callers s !! id = Some Blocked → store (res s) !! id = Some w → ready w = true →
      step s {| res := res s; callers := <[id := Leased (wanted w)]> (callers s) |}
  | step_cancel id s :
      callers s !! id = Some Blocked →
      step s {| res := cancel_locked id (res s); callers := delete id (callers s) |}
  | step_release id request s :
      callers s !! id = Some (Leased request) →
      step s {| res := release request (res s); callers := delete id (callers s) |}.

Definition start capacity (s : system) : Prop :=
  ∃ r, NewMemoryLocalCapacityReservation capacity = Ok r ∧ s = {| res := r; callers := ∅ |}.

Definition reachable capacity (s : system) : Prop := ∃ s0, start capacity s0 ∧ rtc step s0 s.

(** ** What is handed out *)

Definition no_capacity : LocalCapacityRequest := {| CPUMilli := 0; MemoryMB := 0 |}.

(** The requests that hold capacity: the leases, and the waiters that were
    granted theirs and have not picked it up. *)
Definition held (callers : gmap nat caller) (store : gmap nat waiter) : gmap nat LocalCapacityRequest :=
  map_imap (λ id c,
    match c with
    | Leased request => Some request
    | Blocked => w ← store !! id; if granted w then Some (wanted w) else None
    end) callers.

Definition total (m : gmap nat LocalCapacityRequest) : LocalCapacityRequest :=
  map_fold (λ _, give_back) no_capacity m.

Lemma total_insert m i r : m !! i = None → total (<[i := r]> m) = give_back r (total m).
Proof.
  intros Hi. unfold total. apply map_fold_insert_L; [|done].
  intros. unfold give_back; simpl. f_equal; lia.
Qed.

Lemma total_delete m i r : m !! i = Some r → total m = give_back r (total (delete i m)).
Proof.
  intros Hi. rewrite <-(total_insert (delete i m) i r) by apply lookup_delete_eq.
  by rewrite insert_delete_id.
Qed.

Lemma held_lookup callers store id :
  held callers store !! id =
  match callers !! id with
  | Some (Leased request) => Some request
  | Some Blocked => w ← store !! id; if granted w then Some (wanted w) else None
  | None => None
  end.
Proof. unfold held. rewrite map_lookup_imap. by destruct (callers !! id) as [[]|]. Qed.

Definition nonneg request : Prop := 0 ≤ CPUMilli request ∧ 0 ≤ MemoryMB request.

Lemma total_nonneg m : (∀ i r, m !! i = Some r → nonneg r) → nonneg (total m).
Proof.
  induction m as [|i r m Hi IH] using map_ind; intros Hm.
  - split; vm_compute; done.
  - rewrite total_insert by done.
    assert (nonneg r) as [??] by (apply (Hm i); by rewrite lookup_insert_eq).
    destruct IH as [??]; [|unfold nonneg, give_back; simpl; lia].
    intros j x Hj. apply (Hm j). rewrite lookup_insert_ne; congruence.
Qed.

(** ** The invariant *)

Record balanced (cap : LocalCapacityRequest) (callers : gmap nat caller)
    (queue : list nat) (available : LocalCapacityRequest) (store : gmap nat waiter) : Prop := {
  bal_sum : give_back (total (held callers store)) available = cap;
  bal_nodup : NoDup queue;
  bal_queue : ∀ id, id ∈ queue → callers !! id = Some Blocked ∧
    ∃ w, store !! id = Some w ∧ queued w = true ∧ granted w = false ∧ ready w = false ∧
      nonneg (wanted w) ∧ request_fits (wanted w) cap = true;
  bal_blocked : ∀ id, callers !! id = Some Blocked →
    id ∈ queue ∨ ∃ w, store !! id = Some w ∧ granted w = true ∧ ready w = true;
  bal_ready : ∀ id w, store !! id = Some w → callers !! id = Some Blocked → ready w = true → granted w = true;
  bal_held : ∀ id r, held callers store !! id = Some r → nonneg r;
  bal_avail : nonneg available;
}.

(** The queue is blocked at its head. *)
Definition head_waits (queue : list nat) (available : LocalCapacityRequest) (store : gmap nat waiter) : Prop :=
  match queue with
  | [] => True
  | id :: _ => ∃ w, store !! id = Some w ∧ request_fits (wanted w) available = false
  end.

Lemma held_insert_store callers store id w :
  callers !! id = Some Blocked → granted w = true →
  held callers (<[id := w]> store) = <[id := wanted w]> (held callers store).
Proof.
  intros Hc Hg. apply map_eq. intros j. rewrite held_lookup.
  destruct (decide (id = j)) as [<-|Hne].
  - rewrite Hc, !lookup_insert_eq. simpl. by rewrite Hg.
  - rewrite !lookup_insert_ne, held_lookup by done. done.
Qed.

Lemma grant_loop_balanced cap callers queue available store :
  balanced cap callers queue available store →
  let '(queue', available', store') := grant_loop queue available store in
  balanced cap callers queue' available' store' ∧ head_waits queue' available' store' ∧
  queue' `suffix_of` queue.
Proof.
  revert available store. induction queue as [|id queue IH]; intros available store Hb; simpl.
  { by split_and!. }
  destruct (bal_queue _ _ _ _ _ Hb id) as (Hc&w&Hw&Hq&Hg&Hr&Hn&Hf); [set_solver|]. rewrite Hw.
  destruct (request_fits (wanted w) available) eqn:Hfit; cycle 1.
  { split_and!; [done| |done]. by exists w. }
  specialize (IH (request_subtract (wanted w) available) (<[id := grant_waiter w]> store)).
  destruct (grant_loop queue _ _) as [[queue' available'] store'].
  destruct IH as (?&?&?); [|split_and!; [done|done|by apply suffix_cons_r]].
  assert (Hh : held callers store !! id = None) by by rewrite held_lookup, Hc, Hw; simpl; rewrite Hg.
  apply andb_true_iff in Hfit as [H1%Z.leb_le H2%Z.leb_le].
  pose proof (bal_nodup _ _ _ _ _ Hb) as [Hni Hnd]%NoDup_cons.
  split.
  - rewrite (held_insert_store callers store id (grant_waiter w)), total_insert by done.
    rewrite <-(bal_sum _ _ _ _ _ Hb). unfold give_back, request_subtract; simpl. f_equal; lia.
  - done.
  - intros j Hj. destruct (bal_queue _ _ _ _ _ Hb j) as (?&wj&?&?); [set_solver|].
    split; [done|]. exists wj. rewrite lookup_insert_ne; [done|]. intros ->. done.
  - intros j Hj. destruct (decide (id = j)) as [<-|].
    + right. exists (grant_waiter w). by rewrite lookup_insert_eq.
    + rewrite lookup_insert_ne by done. destruct (bal_blocked _ _ _ _ _ Hb j Hj) as [Hin|?]; [|by right].
      left. set_solver.
  - intros j wj. destruct (decide (id = j)) as [<-|].
    + rewrite lookup_insert_eq. by intros [= <-].
    + rewrite lookup_insert_ne by done. apply (bal_ready _ _ _ _ _ Hb).
  - intros j r. rewrite (held_insert_store callers store id (grant_waiter w)) by done.
    intros [[<- <-]|[_ Hj]]%lookup_insert_Some; [done|]. by eapply bal_held.
  - unfold nonneg, request_subtract; simpl. lia.
Qed.

Record system_ok (cap : LocalCapacityRequest) (s : system) : Prop := {
  ok_cap : capacity (res s) = cap;
  ok_balanced : balanced cap (callers s) (waiters (res s)) (available (res s)) (store (res s));
  ok_head : head_waits (waiters (res s)) (available (res s)) (store (res s));
}.

(** [grantWaitersLocked] restores the invariant. *)
Lemma grant_ok cap callers res :
  capacity res = cap → balanced cap callers (waiters res) (available res) (store res) →
  system_ok cap {| res := grantWaitersLocked res; callers := callers |}.
Proof.
  intros Hc Hb. unfold grantWaitersLocked.
  pose proof (grant_loop_balanced _ _ _ _ _ Hb) as H.
  destruct (grant_loop _ _ _) as [[q a] st]. destruct H as (?&?&_). by split.
Qed.

Lemma held_insert_lease callers store id r :
  held (<[id := Leased r]> callers) store = <[id := r]> (held callers store).
Proof.
  apply map_eq. intros j. rewrite held_lookup.
  destruct (decide (id = j)) as [<-|]; [by rewrite !lookup_insert_eq|].
  by rewrite !lookup_insert_ne, held_lookup.
Qed.

Lemma held_delete callers store id : held (delete id callers) store = delete id (held callers store).
Proof.
  apply map_eq. intros j. rewrite held_lookup.
  destruct (decide (id = j)) as [<-|]; [by rewrite !lookup_delete_eq|].
  by rewrite !lookup_delete_ne, held_lookup.
Qed.

(** A store entry of a number that is no blocked caller does not count. *)
Lemma held_store_irrelevant callers store store' :
  (∀ id, callers !! id = Some Blocked → store' !! id = store !! id) →
  held callers store' = held callers store.
Proof.
  intros H. apply map_eq. intros j. rewrite !held_lookup.
  destruct (callers !! j) as [[|r]|] eqn:E; [|done|done]. by rewrite H.
Qed.

Lemma Validate_nonneg request : LocalCapacityRequest_Validate request = None → nonneg request.
Proof.
  unfold LocalCapacityRequest_Validate. intros [H1 H2]%err_seq_None.
  apply fail_if_None in H1, H2. by apply Z.ltb_ge in H1, H2.
Qed.

Lemma acquire_checks_Ok ctx request res :
  acquire_checks ctx request res = Ok false → nonneg request ∧ request_fits request (capacity res) = true.
Proof.
  unfold acquire_checks. destruct ctx as [err|]; [|done]. intros H. inv_checks.
  split; [by apply Validate_nonneg|].
  match goal with H : _ || _ = false |- _ => apply orb_false_iff in H as [?%Z.ltb_ge ?%Z.ltb_ge] end.
  apply andb_true_iff. by rewrite !Z.leb_le.
Qed.

Section preservation.
Context (cap : LocalCapacityRequest).

Lemma acquire_ok id request ctx s :
  callers s !! id = None → store (res s) !! id = None →
  acquire_checks ctx request (res s) = Ok false → system_ok cap s →
  system_ok cap {| res := (acquire_locked id request (res s)).2;
    callers := <[id := if (acquire_locked id request (res s)).1 then Leased request else Blocked]> (callers s) |}.
Proof.
  intros Hid Hst [Hn Hf]%acquire_checks_Ok [Hc Hb Hh]. rewrite Hc in Hf.
  assert (held (callers s) (store (res s)) !! id = None) as Hheld by by rewrite held_lookup, Hid.
  assert (id ∉ waiters (res s)) as Hq.
  { intros [Hx _]%(bal_queue _ _ _ _ _ Hb). congruence. }
  unfold acquire_locked. destruct (bool_decide _ && _) eqn:E; simpl.
  - apply andb_true_iff in E as [He%bool_decide_eq_true Hfit].
    apply andb_true_iff in Hfit as [H1%Z.leb_le H2%Z.leb_le].
    split; simpl; [done| |by rewrite He]. rewrite He in *. split.
    + rewrite held_insert_lease, total_insert by done. rewrite <-(bal_sum _ _ _ _ _ Hb).
      unfold give_back, request_subtract; simpl. f_equal; lia.
    + constructor.
    + set_solver.
    + intros j [[_ [=]]|[_ Hj]]%lookup_insert_Some. by apply (bal_blocked _ _ _ _ _ Hb).
    + intros j w Hw [[_ [=]]|[_ Hj]]%lookup_insert_Some. by eapply bal_ready.
    + intros j r. rewrite held_insert_lease. intros [[<- <-]|[_ Hj]]%lookup_insert_Some; [done|].
      by eapply bal_held.
    + unfold nonneg, request_subtract; simpl. lia.
  - apply grant_ok; simpl; [done|].
    assert (Hsame : held (<[id := Blocked]> (callers s))
      (<[id := {| wanted := request; ready := false; queued := true; granted := false |}]> (store (res s)))
      = held (callers s) (store (res s))).
    { apply map_eq. intros j. rewrite !held_lookup. destruct (decide (id = j)) as [<-|].
      - by rewrite !lookup_insert_eq, Hid.
      - by rewrite !lookup_insert_ne. }
    split; rewrite ?Hsame; try by apply Hb.
    + apply NoDup_app. split_and!; [by apply Hb|set_solver|apply NoDup_singleton].
    + intros j [Hj| ->%list_elem_of_singleton]%elem_of_app.
      * assert (id ≠ j) by by intros ->. rewrite !lookup_insert_ne by done. by apply Hb.
      * rewrite !lookup_insert_eq. split; [done|]. by eexists.
    + intros j [[<- _]|[Hne Hj]]%lookup_insert_Some; [left; set_solver|].
      rewrite lookup_insert_ne by done. destruct (bal_blocked _ _ _ _ _ Hb j Hj); [left; set_solver|by right].
    + intros j w [[<- <-]|[Hne Hw]]%lookup_insert_Some; [done|].
      rewrite lookup_insert_ne by done. by apply Hb.
Qed.

Lemma ready_ok id w s :
  callers s !! id = Some Blocked → store (res s) !! id = Some w → ready w = true → system_ok cap s →
  system_ok cap {| res := res s; callers := <[id := Leased (wanted w)]> (callers s) |}.
Proof.
  intros Hid Hw Hr [Hc Hb Hh].
  pose proof (bal_ready _ _ _ _ _ Hb id w Hw Hid Hr) as Hg.
  assert (Hsame : held (<[id := Leased (wanted w)]> (callers s)) (store (res s))
    = held (callers s) (store (res s))).
  { rewrite held_insert_lease. apply insert_id. rewrite held_lookup, Hid, Hw. simpl. by rewrite Hg. }
  assert (Hq : id ∉ waiters (res s)).
  { intros (_&w'&?&_&?&_)%(bal_queue _ _ _ _ _ Hb). congruence. }
  split; simpl; [done| |done]. split; rewrite ?Hsame; try by apply Hb.
  - intros j Hj. rewrite lookup_insert_ne; [by apply Hb|]. by intros ->.
  - intros j [[_ [=]]|[_ Hj]]%lookup_insert_Some. by apply Hb.
  - intros j w' Hw' [[_ [=]]|[_ Hj]]%lookup_insert_Some. by eapply bal_ready.
Qed.

(** Capacity comes back and a caller leaves. *)
Lemma balanced_return callers queue available store store' id r :
  balanced cap callers queue available store →
  held callers store !! id = Some r → id ∉ queue →
  (∀ j, j ≠ id → store' !! j = store !! j) →
  balanced cap (delete id callers) queue (give_back r available) store'.
Proof.
  intros Hb Hr Hq Hst.
  assert (Hsame : held (delete id callers) store' = delete id (held callers store)).
  { rewrite <-held_delete. apply held_store_irrelevant. intros j [Hne _]%lookup_delete_Some. auto. }
  split; rewrite ?Hsame.
  - rewrite <-(bal_sum _ _ _ _ _ Hb), (total_delete _ id r Hr). unfold give_back; simpl. f_equal; lia.
  - apply Hb.
  - intros j Hj. assert (j ≠ id) by by intros ->. rewrite lookup_delete_ne, Hst by done. by apply Hb.
  - intros j [Hne Hj]%lookup_delete_Some. rewrite Hst by done. by apply Hb.
  - intros j w Hw [Hne Hj]%lookup_delete_Some. rewrite Hst in Hw by done. by eapply bal_ready.
  - intros j x [Hne Hj]%lookup_delete_Some. by eapply bal_held.
  - destruct (bal_avail _ _ _ _ _ Hb), (bal_held _ _ _ _ _ Hb id r Hr).
    unfold nonneg, give_back; simpl. lia.
Qed.

Lemma cancel_ok id s :
  callers s !! id = Some Blocked → system_ok cap s →
  system_ok cap {| res := cancel_locked id (res s); callers := delete id (callers s) |}.
Proof.
  intros Hid [Hc Hb Hh]. unfold cancel_locked.
  destruct (bal_blocked _ _ _ _ _ Hb id Hid) as [Hq|(w&Hw&Hg&Hr)].
  - destruct (bal_queue _ _ _ _ _ Hb id Hq) as (_&w&Hw&Hqd&Hg&Hr&Hn&Hf). rewrite Hw, Hg, Hqd.
    unfold removeWaiterLocked.
    destruct (list_find (λ i, i = id) (waiters (res s))) as [[index x]|] eqn:Ef; cycle 1.
    { apply list_find_None in Ef. rewrite Forall_forall in Ef. by apply Ef in Hq. }
    apply list_find_Some in Ef as (Hi&->&_).
    assert (Hperm : waiters (res s) ≡ₚ id :: delete index (waiters (res s))) by by apply delete_Permutation.
    assert (NoDup (id :: delete index (waiters (res s)))) as [Hni Hnd]%NoDup_cons.
    { rewrite <-Hperm. apply Hb. }
    apply grant_ok; [done|]; simpl.
    assert (Hh0 : held (callers s) (store (res s)) !! id = None).
    { rewrite held_lookup, Hid, Hw. simpl. by rewrite Hg. }
    assert (Hsame : held (delete id (callers s)) (alter (λ w, {| wanted := wanted w; ready := ready w;
      queued := false; granted := granted w |}) id (store (res s))) = held (callers s) (store (res s))).
    { etrans; [|apply (delete_id _ id Hh0)]. rewrite <-held_delete. apply held_store_irrelevant.
      intros j [Hne _]%lookup_delete_Some. by rewrite lookup_alter_ne. }
    split; rewrite ?Hsame; try by apply Hb.
    + done.
    + intros j Hj. assert (j ≠ id) by by intros ->. rewrite lookup_delete_ne, lookup_alter_ne by done.
      apply Hb. rewrite Hperm. set_solver.
    + intros j [Hne Hj]%lookup_delete_Some. rewrite lookup_alter_ne by done.
      destruct (bal_blocked _ _ _ _ _ Hb j Hj) as [Hin|?]; [left|by right].
      rewrite Hperm in Hin. set_solver.
    + intros j w' Hw' [Hne Hj]%lookup_delete_Some. rewrite lookup_alter_ne in Hw' by done. by eapply bal_ready.
  - rewrite Hw, Hg. apply grant_ok; [done|]; simpl.
    eapply balanced_return; [done| | |].
    + rewrite held_lookup, Hid, Hw. simpl. by rewrite Hg.
    + intros (_&w'&?&_&?&_)%(bal_queue _ _ _ _ _ Hb). congruence.
    + intros j Hne. by rewrite lookup_insert_ne.
Qed.

Lemma release_ok id request s :
  callers s !! id = Some (Leased request) → system_ok cap s →
  system_ok cap {| res := release request (res s); callers := delete id (callers s) |}.
Proof.
  intros Hid [Hc Hb Hh]. apply grant_ok; [done|]; simpl.
  eapply balanced_return; [done| | |done].
  - by rewrite held_lookup, Hid.
  - intros [? _]%(bal_queue _ _ _ _ _ Hb). congruence.
Qed.

Lemma step_ok s s' : step s s' → system_ok cap s → system_ok cap s'.
Proof.
  intros [id request ctx ? ? ? Hck|id w|id|id request];
    [by apply acquire_ok with ctx|by apply ready_ok|by apply cancel_ok|by apply release_ok].
Qed.

Lemma reachable_ok s : reachable cap s → system_ok cap s.
Proof.
  intros (s0&(r&Hr&->)&Hs). 
  assert (system_ok cap {| res := r; callers := ∅ |}) as H0.
  { unfold NewMemoryLocalCapacityReservation in Hr. inv_checks.
    match goal with H : Ok _ = Ok _ |- _ => injection H as <- end.
    apply Validate_nonneg in H.
    split; [done| |done]. split; simpl.
    - unfold held. rewrite map_imap_empty. unfold total. rewrite map_fold_empty.
      unfold give_back; simpl. destruct cap; simpl; f_equal; lia.
    - constructor.
    - set_solver.
    - intros id Hid. by rewrite lookup_empty in Hid.
    - intros id w Hid. by rewrite lookup_empty in Hid.
    - intros id r' Hid. by rewrite held_lookup, lookup_empty in Hid.
    - done. }
  induction Hs as [|s1 s2 s3 H12 _ IH]; [done|]. apply IH. by eapply step_ok.
Qed.
End preservation.

(** ** Claims *)

(** C37: local capacity is conserved.  In every interleaving of acquisitions,
    cancellations and releases, what is available plus what the leases and the
    granted waiters hold is the capacity of the reservation, and nothing is
    negative: the additions stay below the capacity, so the 64-bit counters
    never overflow. *)
Theorem local_capacity_conserved cap s :
  reachable cap s →
  give_back (total (held (callers s) (store (res s)))) (available (res s)) = cap ∧
  (0 ≤ CPUMilli (available (res s)) ≤ CPUMilli cap)%Z ∧
  (0 ≤ MemoryMB (available (res s)) ≤ MemoryMB cap)%Z.
Proof.
  intros [Hc Hb Hh]%reachable_ok. pose proof (bal_sum _ _ _ _ _ Hb) as Hs.
  pose proof (bal_avail _ _ _ _ _ Hb) as [??].
  assert (nonneg (total (held (callers s) (store (res s))))) as [??].
  { apply total_nonneg. apply Hb. }
  split; [done|]. rewrite <-Hs. simpl. lia.
Qed.

(** C38: no wake-up is lost.  In every reachable state the first waiter of the
    queue does not fit in what is available, every blocked caller is queued or
    has been granted its capacity, and when nothing is held no caller waits. *)
Theorem local_capacity_no_lost_wakeup cap s :
  reachable cap s →
  head_waits (waiters (res s)) (available (res s)) (store (res s)) ∧
  (∀ id, callers s !! id = Some Blocked →
     id ∈ waiters (res s) ∨ ∃ w, store (res s) !! id = Some w ∧ granted w = true ∧ ready w = true) ∧
  (held (callers s) (store (res s)) = ∅ → waiters (res s) = []).
Proof.
  intros [Hc Hb Hh]%reachable_ok. split_and!; [done|apply Hb|].
  intros He. destruct (waiters (res s)) as [|id queue] eqn:Eq; [done|].
  destruct Hh as (w&Hw&Hfit).
  destruct (bal_queue _ _ _ _ _ Hb id) as (_&w'&Hw'&_&_&_&_&Hcap); [set_solver|].
  rewrite Hw in Hw'. injection Hw' as <-.
  pose proof (bal_sum _ _ _ _ _ Hb) as Hs. rewrite He in Hs.
  unfold total in Hs. rewrite map_fold_empty in Hs.
  assert (available (res s) = cap) as Ha.
  { rewrite <-Hs. destruct (available (res s)). unfold give_back; simpl. f_equal; lia. }
  rewrite Ha in Hfit. congruence.
Qed.

(** ** Leases through the interface *)

Section acquireLocalCapacity.
Context {L W : Type}.

(** [None] is a nil reservation or one that wraps a nil pointer; the lease
    [None] likewise.  The type of leases and the world are the
    implementation's. *)
(* internal/certification/local_capacity.go, lines 57-59: LocalCapacityReservation *)
Definition LocalCapacityReservation : Type :=
  option gerror → LocalCapacityRequest → W → result (option L) * W.

(* internal/certification/local_capacity.go, lines 198-222: acquireLocalCapacity *)
Definition acquireLocalCapacity (ctx : option gerror) (reservation : option LocalCapacityReservation)
    (request : option LocalCapacityRequest) (w : W) : result (option L) * W :=
  match request with
  | None => (Ok None, w)
  | Some request =>
      match LocalCapacityRequest_Validate request with
      | Some err => (Err err, w)
      | None =>
          if request_empty request then (Ok None, w)
          else match ctx, reservation with
               | None, _ => (Err (ErrNew "local capacity reservation context is required"), w)
               | _, None => (Err (ErrNew "local capacity reservation is required"), w)
               | _, Some Acquire =>
                   match Acquire ctx request w with
                   | (Err err, w) => (Err (Errorf "acquire local capacity: %w" [] [err]), w)
                   | (Ok None, w) => (Err (ErrNew "local capacity reservation returned a nil lease"), w)
                   | (Ok lease, w) => (Ok lease, w)
                   end
               end
      end
  end.
End acquireLocalCapacity.

(** ** Witnesses *)

(** A reservation of two CPUs: the first unit takes both, the second waits,
    the first releases. *)
Module LocalCapacityExample.
Definition cap : LocalCapacityRequest := {| CPUMilli := 2000; MemoryMB := 1024 |}.
Definition first : LocalCapacityRequest := {| CPUMilli := 2000; MemoryMB := 512 |}.
Definition second : LocalCapacityRequest := {| CPUMilli := 500; MemoryMB := 256 |}.

Definition fresh : MemoryLocalCapacityReservation :=
  {| capacity := cap; available := cap; waiters := []; store := ∅ |}.

Definition s1 : system :=
  {| res := (acquire_locked 0 first fresh).2; callers := {[0%nat := Leased first]} |}.
Definition s2 : system :=
  {| res := (acquire_locked 1 second (res s1)).2; callers := <[1%nat := Blocked]> (callers s1) |}.
Definition s3 : system :=
  {| res := release first (res s2); callers := delete 0%nat (callers s2) |}.

Lemma s2_reachable : reachable cap s2.
Proof.
  exists {| res := fresh; callers := ∅ |}. split; [by exists fresh|].
  eapply rtc_l; [exact (step_acquire 0 first (Some None) {| res := fresh; callers := ∅ |} eq_refl eq_refl eq_refl)|].
  eapply rtc_l; [exact (step_acquire 1 second (Some None) s1 eq_refl eq_refl eq_refl)|].
  apply rtc_refl.
Qed.

Lemma s3_reachable : reachable cap s3.
Proof.
  destruct s2_reachable as (s0&?&?). exists s0. split; [done|].
  eapply rtc_r; [done|]. exact (step_release 0 first s2 eq_refl).
Qed.

(** The waiter got its capacity when the first lease came back. *)
Lemma conserved_witness :
  ready <$> (store (res s2) !! 1%nat) = Some false ∧
  ready <$> (store (res s3) !! 1%nat) = Some true ∧
  available (res s3) = {| CPUMilli := 1500; MemoryMB := 768 |} ∧
  give_back (total (held (callers s3) (store (res s3)))) (available (res s3)) = cap.
Proof.
  split_and!; [by vm_compute|by vm_compute|by vm_compute|].
  by destruct (local_capacity_conserved cap s3 s3_reachable).
Defined.

Lemma no_lost_wakeup_witness :
  waiters (res s2) = [1%nat] ∧ head_waits (waiters (res s2)) (available (res s2)) (store (res s2)).
Proof.
  split; [by vm_compute|]. by destruct (local_capacity_no_lost_wakeup cap s2 s2_reachable).
Defined.
End LocalCapacityExample.
