(* ===== verification/Admission.v ===== *)
(** * Admission (internal/certification/admission.go)

    The gate before a paid mutation: the local contract of the input, the live
    facts of the provider's probe, and the report.  [net/url.Parse] and the
    quoting of [%q] are arguments: the checks use the fields of a parsed
    reference, the reports the text of a quoted key.  A nil map and an empty one
    are the same here; ranging over a map only decides which of several errors
    is reported, and the model takes the order of the literal. *)

From stdpp Require Import pretty.
From S2P Require Import Prelude GoStrings Regex GoEncoding Secretsafe Sdk Sessions.

Local Open Scope Z_scope.

(** ** Credential references (sdk/validation.go) *)

(** What the checks read of a [url.URL]. *)
Record url := {
  Scheme : string;
  HasUser : bool;
  Fragment : string;
  Host : string;
  Path : string;
  Opaque : string;
}.

(** [strings.IndexFunc(s, unicode.IsSpace) >= 0]: the first byte of a space is
    never inside another rune. *)
Fixpoint has_space (l : list ascii) : bool :=
  match l with
  | [] => false
  | a :: l1 =>
      ascii_space a
      || match l1 with
         | b :: c :: _ => space2 a b || space3 a b c
         | [b] => space2 a b
         | [] => false
         end
      || has_space l1
  end.

(* sdk/validation.go, lines 15-15: credentialScheme *)
Definition credentialScheme : re := Seq (Cls lower) (Star (Cls (either alnum_lower (oneof "+.-")))).

(* internal/certification/admission.go, lines 80-80: admissionReferencePattern *)
Definition admissionReferencePattern : re :=
  seqs [Cls lower; Star (Cls (either alnum_lower (oneof "+.-"))); lit "://"; plus (Cls (none_of re_space))].

Section credentials.
Context (url_Parse : string → result url).

(* sdk/validation.go, lines 29-58: ValidateCredentialReference *)
Definition ValidateCredentialReference (reference : string) : gerror :=
  fail_if (negb (bool_decide (TrimSpace reference = reference)) || bool_decide (reference = "")
           || has_space (go_bytes reference))
    (ErrNew "credential reference must be a non-empty URI without whitespace")
  ;;? fail_if (negb (Contains reference "://"))
        (ErrNew "credential reference must be a URI-shaped secret reference")
  ;;? match url_Parse reference with
      | Err _ => Some (ErrNew "credential reference must use a valid URI scheme")
      | Ok parsed =>
          fail_if (negb (MatchString credentialScheme (Scheme parsed)))
            (ErrNew "credential reference must use a valid URI scheme")
          ;;? fail_if (bool_decide (ToLower (Scheme parsed) ∈
                ["data"; "env"; "file"; "http"; "https"; "literal"; "password"; "raw"; "token"]))
                (ErrNew "credential reference must point to a secret store and must not embed a credential")
          ;;? fail_if (HasUser parsed) (ErrNew "credential reference must not contain user information")
          ;;? fail_if (negb (bool_decide (Fragment parsed = ""))
                       && negb (bool_decide (ToLower (Scheme parsed) = "kubernetes-secret")))
                (ErrNew "credential reference must not contain a fragment")
          ;;? fail_if (bool_decide (Host parsed = "") && bool_decide (Path parsed = "")
                       && bool_decide (Opaque parsed = ""))
                (ErrNew "credential reference must identify a secret")
      end.
End credentials.

(** ** Data *)

(** A map of integers prints with its keys sorted. *)
Definition json_int_map (m : gmap string Z) : json :=
  JObj ((λ k, (k, JInt (default 0 (m !! k)))) <$> sort_strings (map_to_list m).*1).

Module AdmissionInput.
(* internal/certification/admission.go, lines 18-35: AdmissionInput *)
Record AdmissionInput := {
  Provider : string;
  AccountOrProjectRef : string;
  Region : string;
  NetworkRef : string;
  StateBackendRef : string;
  FixtureID : string;
  OwnershipMarker : string;
  CredentialRefs : list string;
  RequireCredentials : bool;
  RequiredQuota : gmap string Z;
  AvailableQuota : gmap string Z;
  RequiredLocalCPUMilli : Z;
  AvailableLocalCPUMilli : Z;
  RequiredLocalMemoryMB : Z;
  AvailableLocalMemoryMB : Z;
  MutationKeys : list string;
}.

Definition quota_json (name : string) (m : gmap string Z) : list (string * json) :=
  if bool_decide (m = ∅) then [] else [(name, json_int_map m)].

Definition to_json (i : AdmissionInput) : json :=
  JObj (js "provider" (Provider i) ++ js "accountOrProjectRef" (AccountOrProjectRef i)
    ++ js "region" (Region i) ++ js "networkRef" (NetworkRef i)
    ++ js "stateBackendRef" (StateBackendRef i) ++ js "fixtureId" (FixtureID i)
    ++ js "ownershipMarker" (OwnershipMarker i) ++ jl_opt "credentialRefs" (CredentialRefs i)
    ++ jb "requireCredentials" (RequireCredentials i)
    ++ quota_json "requiredQuota" (RequiredQuota i) ++ quota_json "availableQuota" (AvailableQuota i)
    ++ ji "requiredLocalCpuMilli" (RequiredLocalCPUMilli i)
    ++ ji "availableLocalCpuMilli" (AvailableLocalCPUMilli i)
    ++ ji "requiredLocalMemoryMb" (RequiredLocalMemoryMB i)
    ++ ji "availableLocalMemoryMb" (AvailableLocalMemoryMB i) ++ jl "mutationKeys" (MutationKeys i)).

(** [input] with the capacity the probe measured. *)
Definition with_available (quota : gmap string Z) (cpu memory : Z) (i : AdmissionInput) : AdmissionInput :=
  {| Provider := Provider i; AccountOrProjectRef := AccountOrProjectRef i; Region := Region i;
     NetworkRef := NetworkRef i; StateBackendRef := StateBackendRef i; FixtureID := FixtureID i;
     OwnershipMarker := OwnershipMarker i; CredentialRefs := CredentialRefs i;
     RequireCredentials := RequireCredentials i; RequiredQuota := RequiredQuota i;
     AvailableQuota := quota; RequiredLocalCPUMilli := RequiredLocalCPUMilli i;
     AvailableLocalCPUMilli := cpu; RequiredLocalMemoryMB := RequiredLocalMemoryMB i;
     AvailableLocalMemoryMB := memory; MutationKeys := MutationKeys i |}.
End AdmissionInput.
Notation AdmissionInput := AdmissionInput.AdmissionInput.

(* internal/certification/admission.go, lines 39-42: AdmissionReady *)
Definition AdmissionReady := "ready".
(* internal/certification/admission.go, lines 41-41: AdmissionBlocked *)
Definition AdmissionBlocked := "blocked".

Module AdmissionCheck.
(* internal/certification/admission.go, lines 44-48: AdmissionCheck *)
Record AdmissionCheck := { ID : string; Status : string; Reason : string }.
End AdmissionCheck.
Notation AdmissionCheck := AdmissionCheck.AdmissionCheck.

(* internal/certification/admission.go, lines 50-54: AdmissionReport *)
Record AdmissionReport := {
  Ready : bool;
  Checks : list AdmissionCheck;
  BlockingReasons : list string;
}.

Module AdmissionProbeResult.
(* internal/certification/admission.go, lines 67-78: AdmissionProbeResult *)
Record AdmissionProbeResult := {
  CredentialsReady : bool;
  AccountOrProjectReady : bool;
  NetworkReady : bool;
  StateBackendReady : bool;
  FixtureReady : bool;
  OwnershipReady : bool;
  AvailableQuota : gmap string Z;
  AvailableLocalCPUMilli : Z;
  AvailableLocalMemoryMB : Z;
  Reasons : gmap string string;
}.

Definition to_json (r : AdmissionProbeResult) : json :=
  JObj (jb "CredentialsReady" (CredentialsReady r) ++ jb "AccountOrProjectReady" (AccountOrProjectReady r)
    ++ jb "NetworkReady" (NetworkReady r) ++ jb "StateBackendReady" (StateBackendReady r)
    ++ jb "FixtureReady" (FixtureReady r) ++ jb "OwnershipReady" (OwnershipReady r)
    ++ [("AvailableQuota", if bool_decide (AvailableQuota r = ∅) then JNull else json_int_map (AvailableQuota r))]
    ++ ji "AvailableLocalCPUMilli" (AvailableLocalCPUMilli r)
    ++ ji "AvailableLocalMemoryMB" (AvailableLocalMemoryMB r)
    ++ [("Reasons", if bool_decide (Reasons r = ∅) then JNull else json_map (Reasons r))]).
End AdmissionProbeResult.
Notation AdmissionProbeResult := AdmissionProbeResult.AdmissionProbeResult.

(** ** The input *)

Section admission.
Context (url_Parse : string → result url) (Quote : string → string).

Definition check_named_values (nv : string * list string) : gerror :=
  let fix go (seen values : list string) : gerror :=
    match values with
    | [] => None
    | value :: values =>
        fail_if (blank value || ContainsAny value cr_lf)
          (errorf "admission %s must not contain empty or multiline values" [GStr nv.1])
        ;;? fail_if (bool_decide (value ∈ seen))
              (errorf "admission %s contain duplicate value %q" [GStr nv.1; GStr value])
        ;;? go (value :: seen) values
    end in
  go [] nv.2.

Section input.
Import AdmissionInput.

(* internal/certification/admission.go, lines 212-268: validateAdmissionInput *)
Definition validateAdmissionInput (input : AdmissionInput) : gerror :=
  fail_if (bool_decide (is_Some (ValidateSecretSafeValue (to_json input))))
    (ErrNew "admission input contains secret-like material")
  ;;? first_error (λ nv : string * string,
        fail_if (blank nv.2 || ContainsAny nv.2 cr_lf)
          (errorf "admission %s is required and must not contain line breaks" [GStr nv.1]))
      [("provider", Provider input); ("account or project reference", AccountOrProjectRef input);
       ("region", Region input); ("network reference", NetworkRef input);
       ("state backend reference", StateBackendRef input); ("fixture ID", FixtureID input);
       ("ownership marker", OwnershipMarker input)]
  ;;? fail_if (negb (MatchString admissionReferencePattern (StateBackendRef input)))
        (ErrNew "admission state backend reference must be URI-shaped")
  ;;? first_error (λ reference,
        fail_if (negb (MatchString admissionReferencePattern reference))
          (ErrNew "admission credential references must be URI-shaped secret or identity references")
        ;;? err_wrap (wrapf "admission credential reference: %w" [])
              (ValidateCredentialReference url_Parse reference)) (CredentialRefs input)
  ;;? first_error check_named_values
      [("credential references", CredentialRefs input); ("mutation keys", MutationKeys input)]
  ;;? fail_if (bool_decide (MutationKeys input = [])) (ErrNew "admission requires at least one mutation key")
  ;;? first_error (λ nq : string * gmap string Z,
        first_error (λ kv : string * Z,
          fail_if (blank kv.1 || (kv.2 <? 0))
            (errorf "admission %s contains an empty key or negative value" [GStr nq.1])) (map_to_list nq.2))
      [("required quota", RequiredQuota input); ("available quota", AvailableQuota input)]
  ;;? first_error (λ nv : string * Z,
        fail_if (nv.2 <? 0) (errorf "admission %s cannot be negative" [GStr nv.1]))
      [("required local CPU", RequiredLocalCPUMilli input); ("available local CPU", AvailableLocalCPUMilli input);
       ("required local memory", RequiredLocalMemoryMB input);
       ("available local memory", AvailableLocalMemoryMB input)].
End input.

(* internal/certification/admission.go, lines 270-275: reasonIfBlocked *)
Definition reasonIfBlocked (ready : bool) (reason : string) : string := if ready then "" else reason.

(* internal/certification/admission.go, lines 277-284: sortedMapKeys *)
Definition sortedMapKeys (values : gmap string Z) : list string := sort_strings (map_to_list values).*1.

(** The closures [check] of both functions: one more check, and its reason
    when it blocks. *)
Definition add_check (id : string) (ready : bool) (reason : string) (report : AdmissionReport) : AdmissionReport :=
  {| Ready := Ready report && ready;
     Checks := Checks report ++ [{| AdmissionCheck.ID := id;
       AdmissionCheck.Status := if ready then AdmissionReady else AdmissionBlocked;
       AdmissionCheck.Reason := reasonIfBlocked ready reason |}];
     BlockingReasons := BlockingReasons report ++ (if ready then [] else [reason]) |}.

Definition sort_reasons (report : AdmissionReport) : AdmissionReport :=
  {| Ready := Ready report; Checks := Checks report; BlockingReasons := sort_strings (BlockingReasons report) |}.

Definition no_checks : AdmissionReport := {| Ready := true; Checks := []; BlockingReasons := [] |}.

Definition quota_reason (prefix key : string) (available required : Z) : string :=
  prefix +:+ "quota " +:+ Quote key +:+ " has " +:+ pretty available +:+ " available, "
  +:+ pretty required +:+ " required".

Section check.
Import AdmissionInput.

(* internal/certification/admission.go, lines 85-114: CheckAdmission *)
Definition CheckAdmission (input : AdmissionInput) : result AdmissionReport :=
  validateAdmissionInput input ;;!
  let report := add_check "credentials"
    (negb (RequireCredentials input) || negb (bool_decide (CredentialRefs input = [])))
    "required provider credentials are not available as references" no_checks in
  let report := fold_left (λ report key,
    let required := default 0 (RequiredQuota input !! key) in
    let available := default 0 (AvailableQuota input !! key) in
    add_check ("quota." +:+ key) (required <=? available) (quota_reason "" key available required) report)
    (sortedMapKeys (RequiredQuota input)) report in
  let report :=
    if 0 <? RequiredLocalCPUMilli input then
      add_check "local.cpu" (RequiredLocalCPUMilli input <=? AvailableLocalCPUMilli input)
        ("local CPU has " +:+ pretty (AvailableLocalCPUMilli input) +:+ " milli available, "
         +:+ pretty (RequiredLocalCPUMilli input) +:+ " required") report
    else report in
  let report :=
    if 0 <? RequiredLocalMemoryMB input then
      add_check "local.memory" (RequiredLocalMemoryMB input <=? AvailableLocalMemoryMB input)
        ("local memory has " +:+ pretty (AvailableLocalMemoryMB input) +:+ " MiB available, "
         +:+ pretty (RequiredLocalMemoryMB input) +:+ " required") report
    else report in
  Ok (sort_reasons report).
End check.

(* internal/certification/admission.go, lines 201-210: blockedAdmissionReport *)
Definition blockedAdmissionReport (report : AdmissionReport) (check : AdmissionCheck) : AdmissionReport :=
  let reason := if bool_decide (AdmissionCheck.Reason check = "")
                then "provider admission requirement is not verified" else AdmissionCheck.Reason check in
  sort_reasons
    {| Ready := false;
       Checks := Checks report ++ [{| AdmissionCheck.ID := AdmissionCheck.ID check;
         AdmissionCheck.Status := AdmissionCheck.Status check; AdmissionCheck.Reason := reason |}];
       BlockingReasons := BlockingReasons report ++ [reason] |}.

(* internal/certification/admission_snapshot.go, lines 239-257: validateAdmissionSnapshotResult *)
Definition validateAdmissionSnapshotResult (r : AdmissionProbeResult) : gerror :=
  fail_if (bool_decide (is_Some (ValidateSecretSafeValue (AdmissionProbeResult.to_json r))))
    (ErrNew "admission snapshot result contains secret-like material")
  ;;? first_error (λ kv : string * Z,
        fail_if (blank kv.1 || (kv.2 <? 0)) (ErrNew "admission snapshot result contains an invalid quota"))
      (map_to_list (AdmissionProbeResult.AvailableQuota r))
  ;;? fail_if ((AdmissionProbeResult.AvailableLocalCPUMilli r <? 0)
               || (AdmissionProbeResult.AvailableLocalMemoryMB r <? 0))
        (ErrNew "admission snapshot result contains negative local capacity")
  ;;? first_error (λ kv : string * string,
        fail_if (blank kv.1 || multiline (kv.1 +:+ kv.2))
          (ErrNew "admission snapshot result contains an invalid reason"))
      (map_to_list (AdmissionProbeResult.Reasons r)).

(** The checks made on the facts of the probe. *)
(* internal/certification/admission.go, lines 150-187: CheckAdmissionWithProbe *)
Definition check_facts (required : gmap string Z) (requireCredentials : bool) (facts : AdmissionProbeResult)
    (report : AdmissionReport) : AdmissionReport :=
  let check report (fact : string * bool) :=
    let reason := TrimSpace (default "" (AdmissionProbeResult.Reasons facts !! fact.1)) in
    add_check fact.1 fact.2
      (if bool_decide (reason = "") then "provider admission requirement is not verified" else reason) report in
  let report := fold_left check
    [("provider.credentials", AdmissionProbeResult.CredentialsReady facts || negb requireCredentials);
     ("provider.account-or-project", AdmissionProbeResult.AccountOrProjectReady facts);
     ("provider.network", AdmissionProbeResult.NetworkReady facts);
     ("provider.state-backend", AdmissionProbeResult.StateBackendReady facts);
     ("provider.fixture", AdmissionProbeResult.FixtureReady facts);
     ("provider.ownership", AdmissionProbeResult.OwnershipReady facts)] report in
  sort_reasons (fold_left (λ report key,
    match AdmissionProbeResult.AvailableQuota facts !! key with
    | None => check report ("provider.quota." +:+ key, false)
    | Some available =>
        let required := default 0 (required !! key) in
        add_check ("provider.quota." +:+ key) (required <=? available)
          (quota_reason "provider " key available required) report
    end) (sortedMapKeys required) report).

(* internal/certification/admission.go, lines 60-62: AdmissionProbe *)
Definition AdmissionProbe (W : Type) : Type :=
  context → AdmissionInput → W → result AdmissionProbeResult * W.

(* internal/certification/admission.go, lines 120-188: CheckAdmissionWithProbe *)
Definition CheckAdmissionWithProbe {W} (ctx : context) (input : AdmissionInput)
    (probe : option (AdmissionProbe W)) (w : W) : result AdmissionReport * W :=
  let blocked reason := blockedAdmissionReport no_checks
    {| AdmissionCheck.ID := "provider-admission"; AdmissionCheck.Status := AdmissionBlocked;
       AdmissionCheck.Reason := reason |} in
  match ctx, probe with
  | None, _ => (Err (ErrNew "admission context is required"), w)
  | Some _, None => (Err (ErrNew "admission probe is required"), w)
  | Some err, Some Probe =>
      match validateAdmissionInput input ;;? err with
      | Some e => (Err e, w)
      | None =>
          match Probe ctx input w with
          | (Err e, w) =>
              (if errors_Is "context.Canceled" e || errors_Is "context.DeadlineExceeded" e then Err e
               else Ok (blocked "provider admission probe failed"), w)
          | (Ok facts, w) =>
              match validateAdmissionSnapshotResult facts with
              | Some _ => (Ok (blocked "provider admission result is invalid"), w)
              | None =>
                  (report ← CheckAdmission (AdmissionInput.with_available
                     (AdmissionProbeResult.AvailableQuota facts)
                     (AdmissionProbeResult.AvailableLocalCPUMilli facts)
                     (AdmissionProbeResult.AvailableLocalMemoryMB facts) input);
                   Ok (check_facts (AdmissionInput.RequiredQuota input)
                         (AdmissionInput.RequireCredentials input) facts report), w)
              end
          end
      end
  end.
End admission.

(** ** Reports *)

Lemma fold_ready {A} (step : AdmissionReport → A → AdmissionReport) (ok : A → bool) (l : list A) report :
  (∀ r x, Ready (step r x) = Ready r && ok x) →
  Ready (fold_left step l report) = Ready report && forallb ok l.
Proof.
  intros Hs. revert report. induction l as [|x l IH]; intros report; simpl; [by rewrite andb_true_r|].
  by rewrite IH, Hs, andb_assoc.
Qed.

Lemma elem_of_sortedMapKeys m key : key ∈ sortedMapKeys m ↔ is_Some (m !! key).
Proof. unfold sortedMapKeys. rewrite elem_of_sort_strings. apply map_keys_elem. Qed.

Lemma forallb_keys m (ok : string → bool) :
  forallb ok (sortedMapKeys m) = true ↔ ∀ key v, m !! key = Some v → ok key = true.
Proof.
  rewrite forallb_forall. split.
  - intros H key v Hv. apply H, list_elem_of_In, elem_of_sortedMapKeys. by exists v.
  - intros H key [v Hv]%list_elem_of_In%elem_of_sortedMapKeys. by eapply H.
Qed.

(** Ready exactly when nothing blocks. *)
Definition consistent (report : AdmissionReport) : Prop :=
  Ready report = true ↔ BlockingReasons report = [].

Lemma add_check_consistent id ready reason report : consistent report → consistent (add_check id ready reason report).
Proof.
  unfold consistent, add_check. simpl. intros H. destruct ready.
  - by rewrite andb_true_r, app_nil_r.
  - rewrite andb_false_r. split; [done|]. by intros [_ [=]]%app_nil.
Qed.

Lemma fold_consistent {A} (step : AdmissionReport → A → AdmissionReport) (l : list A) report :
  (∀ r x, consistent r → consistent (step r x)) → consistent report → consistent (fold_left step l report).
Proof. intros Hs. revert report. induction l as [|x l IH]; intros report Hr; simpl; auto. Qed.

Lemma sort_strings_nil l : sort_strings l = [] ↔ l = [].
Proof. rewrite <-!length_zero_iff_nil. unfold sort_strings. by rewrite length_sort_by. Qed.

Lemma sort_reasons_consistent report : consistent report → consistent (sort_reasons report).
Proof. unfold consistent, sort_reasons. simpl. by rewrite sort_strings_nil. Qed.

Section claims.
Context (url_Parse : string → result url) (Quote : string → string).
Abbreviation CheckAdmission := (CheckAdmission url_Parse Quote).
Abbreviation validateAdmissionInput := (validateAdmissionInput url_Parse).

(** What a ready report promises. *)
Record admitted (input : AdmissionInput) : Prop := {
  admitted_credentials : AdmissionInput.RequireCredentials input = true → AdmissionInput.CredentialRefs input ≠ [];
  admitted_quota : ∀ key required, AdmissionInput.RequiredQuota input !! key = Some required →
    required ≤ default 0 (AdmissionInput.AvailableQuota input !! key);
  admitted_cpu : AdmissionInput.RequiredLocalCPUMilli input ≤ AdmissionInput.AvailableLocalCPUMilli input;
  admitted_memory : AdmissionInput.RequiredLocalMemoryMB input ≤ AdmissionInput.AvailableLocalMemoryMB input;
}.

Lemma validateAdmissionInput_amounts input :
  validateAdmissionInput input = None →
  0 ≤ AdmissionInput.AvailableLocalCPUMilli input ∧ 0 ≤ AdmissionInput.AvailableLocalMemoryMB input.
Proof.
  unfold Admission.validateAdmissionInput. intros H. inv_checks.
  repeat match goal with H : Forall _ (_ :: _) |- _ => apply Forall_cons in H as [? H] end.
  repeat match goal with H : fail_if _ _ = None |- _ => apply fail_if_None in H; simpl in H end.
  repeat match goal with H : (_ <? 0) = false |- _ => apply Z.ltb_ge in H end. done.
Qed.

Lemma amount_check b a (report : AdmissionReport) id reason :
  0 ≤ a → Ready (if 0 <? b then add_check id (b <=? a) reason report else report) = Ready report && (b <=? a).
Proof.
  intros Ha. destruct (0 <? b) eqn:E; [done|]. apply Z.ltb_ge in E.
  destruct (Z.leb_spec b a); [by rewrite andb_true_r|lia].
Qed.

Lemma CheckAdmission_Ok input report :
  CheckAdmission input = Ok report →
  validateAdmissionInput input = None ∧ (Ready report = true ↔ admitted input) ∧
  (Ready report = true ↔ BlockingReasons report = []).
Proof.
  unfold Admission.CheckAdmission. intros H. apply lift_check_Ok in H as [Hv H]. injection H as <-.
  destruct (validateAdmissionInput_amounts input Hv) as [Hcpu Hmem]. split_and!; [done| |].
  - simpl. rewrite !amount_check by done.
    rewrite (fold_ready _ (λ key, default 0 (AdmissionInput.RequiredQuota input !! key)
      <=? default 0 (AdmissionInput.AvailableQuota input !! key))) by done.
    rewrite !andb_true_iff, forallb_keys, !Z.leb_le. simpl. split.
    + intros [[[Hc Hq] ?] ?]. split; [|intros key required Hk|done|done].
      * intros Hr He. rewrite Hr, He in Hc. done.
      * specialize (Hq key required Hk). rewrite Hk in Hq. by apply Z.leb_le.
    + intros [Hc Hq ? ?]. split_and!; [|intros key v Hk|done|done].
      * destruct (AdmissionInput.RequireCredentials input); [|done]. simpl.
        apply negb_true_iff, bool_decide_eq_false. by apply Hc.
      * rewrite Hk. by apply Z.leb_le, Hq.
  - apply sort_reasons_consistent. repeat case_match; repeat apply add_check_consistent;
      (apply fold_consistent; [intros; by apply add_check_consistent|by apply add_check_consistent]).
Qed.

(** A report is ready exactly when every local requirement is met, and
    exactly when it lists no blocking reason; a shortage is a report and never
    an error, a malformed input an error and never a report. *)
Theorem CheckAdmission_ready input :
  match CheckAdmission input with
  | Ok report =>
      validateAdmissionInput input = None ∧ (Ready report = true ↔ admitted input) ∧
      (Ready report = true ↔ BlockingReasons report = [])
  | Err e => validateAdmissionInput input = Some e
  end.
Proof.
  destruct (CheckAdmission input) as [report|e] eqn:H; [by apply CheckAdmission_Ok|].
  unfold Admission.CheckAdmission in H. by destruct (validateAdmissionInput input); simplify_eq/=.
Qed.

(** The facts a ready report rests on. *)
Record proven (input : AdmissionInput) (facts : AdmissionProbeResult) : Prop := {
  proven_valid : validateAdmissionSnapshotResult facts = None;
  proven_local : admitted (AdmissionInput.with_available (AdmissionProbeResult.AvailableQuota facts)
    (AdmissionProbeResult.AvailableLocalCPUMilli facts)
    (AdmissionProbeResult.AvailableLocalMemoryMB facts) input);
  proven_credentials : AdmissionInput.RequireCredentials input = true →
    AdmissionProbeResult.CredentialsReady facts = true;
  proven_account : AdmissionProbeResult.AccountOrProjectReady facts = true;
  proven_network : AdmissionProbeResult.NetworkReady facts = true;
  proven_state : AdmissionProbeResult.StateBackendReady facts = true;
  proven_fixture : AdmissionProbeResult.FixtureReady facts = true;
  proven_ownership : AdmissionProbeResult.OwnershipReady facts = true;
  proven_quota : ∀ key required, AdmissionInput.RequiredQuota input !! key = Some required →
    ∃ available, AdmissionProbeResult.AvailableQuota facts !! key = Some available ∧ required ≤ available;
}.

Lemma check_facts_ready required requireCredentials facts report :
  Ready (check_facts Quote required requireCredentials facts report) = true ↔
  Ready report = true ∧
  (requireCredentials = true → AdmissionProbeResult.CredentialsReady facts = true) ∧
  AdmissionProbeResult.AccountOrProjectReady facts = true ∧ AdmissionProbeResult.NetworkReady facts = true ∧
  AdmissionProbeResult.StateBackendReady facts = true ∧ AdmissionProbeResult.FixtureReady facts = true ∧
  AdmissionProbeResult.OwnershipReady facts = true ∧
  ∀ key need, required !! key = Some need →
    ∃ available, AdmissionProbeResult.AvailableQuota facts !! key = Some available ∧ need ≤ available.
Proof.
  unfold check_facts. cbn [sort_reasons Ready].
  rewrite (fold_ready _ (λ key, match AdmissionProbeResult.AvailableQuota facts !! key with
    | None => false | Some available => default 0 (required !! key) <=? available end)); cycle 1.
  { intros r key. by destruct (_ !! key). }
  rewrite (fold_ready _ snd) by done. cbn [forallb snd].
  rewrite !andb_true_iff, forallb_keys, orb_true_iff, negb_true_iff. split.
  - intros ([Hr (Hc&?&?&?&?&?&_)]&Hq). split_and!; try done.
    + intros ->. destruct Hc; [done|congruence].
    + intros key need Hk. specialize (Hq key need Hk). rewrite Hk in Hq. simpl in Hq.
      destruct (_ !! key) as [available|]; [|done]. exists available. by apply Z.leb_le in Hq.
  - intros (Hr&Hc&?&?&?&?&?&Hq). split_and!; try done.
    + destruct requireCredentials; auto.
    + intros key need Hk. destruct (Hq key need Hk) as (available&->&?). rewrite Hk. by apply Z.leb_le.
Qed.

(** Admission with a probe fails closed.  A ready report means that the
    input is valid, that the context was live and that the probe, called once,
    answered with valid facts that prove every requirement; a probe that fails
    or answers with invalid facts gives a report that is not ready, and only a
    cancelled probe is an error. *)
Theorem CheckAdmissionWithProbe_fails_closed {W} ctx input (Probe : AdmissionProbe W) w :
  let '(answer, w') := CheckAdmissionWithProbe url_Parse Quote ctx input (Some Probe) w in
  match answer with
  | Ok report =>
      validateAdmissionInput input = None ∧ ctx = Some None ∧ w' = (Probe ctx input w).2 ∧
      (Ready report = true ↔ ∃ facts, (Probe ctx input w).1 = Ok facts ∧
         validateAdmissionInput (AdmissionInput.with_available (AdmissionProbeResult.AvailableQuota facts)
           (AdmissionProbeResult.AvailableLocalCPUMilli facts)
           (AdmissionProbeResult.AvailableLocalMemoryMB facts) input) = None ∧ proven input facts)
  | Err _ => True
  end.
Proof.
  unfold CheckAdmissionWithProbe. destruct ctx as [err|]; [|done].
  destruct (validateAdmissionInput input ;;? err) as [e|] eqn:Hv; [done|].
  apply err_seq_None in Hv as [Hv ->].
  destruct (Probe (Some None) input w) as [[facts|e] w'] eqn:Hp; cbn [fst snd]; cycle 1.
  { destruct (_ || _); [done|]. split_and!; [done|done|done|]. split; [done|]. by intros (?&?&_). }
  destruct (validateAdmissionSnapshotResult facts) as [e|] eqn:Hf.
  { split_and!; [done|done|done|]. split; [done|]. intros (facts'&[= <-]&_&[Hf']). congruence. }
  destruct (CheckAdmission _) as [report|] eqn:Hr; cbn [mbind result_bind]; [|done].
  apply CheckAdmission_Ok in Hr as (Hv'&Hr&_).
  split_and!; [done|done|done|]. rewrite check_facts_ready, Hr. split.
  - intros (Ha&?&?&?&?&?&?&?). exists facts. split_and!; [done|done|by split].
  - intros (facts'&[= <-]&_&[]). by split_and!.
Qed.
End claims.
