(* ===== verification/AdmissionSnapshot.v ===== *)
(** * The admission snapshot of a run (internal/certification/admission_snapshot.go)

    A memoizer around an admission probe.  Each critical section of its mutex is one
    function; the goroutines that call [Probe] interleave as steps, one phase of a
    caller per blocking point.  A call in flight is the number of the caller that
    owns it.  The maps of a result are copied wherever it is handed out, so a result
    is a value.  A probe that panics is not modelled. *)

From S2P Require Import Prelude GoStrings GoEncoding Secretsafe Sdk Sessions Admission.

Local Open Scope Z_scope.

(** ** Data *)

Module SnapshotKey.
(* internal/certification/admission_snapshot.go, lines 54-60: admissionSnapshotKey *)
Record admissionSnapshotKey := {
  Provider : string;
  AccountOrProjectRef : string;
  Region : string;
  Schema : string;
  ScopeDigest : string;
}.

Definition fields (k : admissionSnapshotKey) : list string :=
  [Provider k; AccountOrProjectRef k; Region k; Schema k; ScopeDigest k].
Definition of_fields (l : list string) : admissionSnapshotKey :=
  match l with
  | [provider; account; region; schema; digest] =>
      {| Provider := provider; AccountOrProjectRef := account; Region := region; Schema := schema; ScopeDigest := digest |}
  | _ => {| Provider := ""; AccountOrProjectRef := ""; Region := ""; Schema := ""; ScopeDigest := "" |}
  end.
#[global] Instance eq_dec : EqDecision admissionSnapshotKey.
Proof. solve_decision. Defined.
#[global] Instance countable : Countable admissionSnapshotKey.
Proof. apply (inj_countable' fields of_fields). by intros []. Defined.
End SnapshotKey.
Notation admissionSnapshotKey := SnapshotKey.admissionSnapshotKey.

(* internal/certification/admission_snapshot.go, lines 19-19: DefaultAdmissionSnapshotSchema *)
Definition DefaultAdmissionSnapshotSchema := "magelift-certification-admission-v1".
(* internal/certification/admission_snapshot.go, lines 23-23: DefaultAdmissionSnapshotMaxConcurrent *)
Definition DefaultAdmissionSnapshotMaxConcurrent : Z := 4.

Module SnapshotOptions.
(* internal/certification/admission_snapshot.go, lines 29-35: AdmissionSnapshotOptions *)
Record AdmissionSnapshotOptions := { Schema : string; MaxConcurrent : Z }.
End SnapshotOptions.
Notation AdmissionSnapshotOptions := SnapshotOptions.AdmissionSnapshotOptions.

(** A call that is not [None] has its channel closed, with the result and the error it carries. *)
(* internal/certification/admission_snapshot.go, lines 62-66: admissionSnapshotCall *)
Definition admissionSnapshotCall : Type := option (result AdmissionProbeResult).

(** [calls] is the store of the calls, [taken] the number of values in the channel [concurrency]. *)
(* internal/certification/admission_snapshot.go, lines 44-52: AdmissionSnapshot *)
Record AdmissionSnapshot := {
  schema : string;
  concurrency : Z;
  taken : Z;
  entries : gmap admissionSnapshotKey AdmissionProbeResult;
  inFlight : gmap admissionSnapshotKey nat;
  calls : gmap nat admissionSnapshotCall;
}.
Implicit Types (s : AdmissionSnapshot) (key : admissionSnapshotKey) (input : AdmissionInput) (facts : AdmissionProbeResult).

Definition with_taken (n : Z) s : AdmissionSnapshot :=
  {| schema := schema s; concurrency := concurrency s; taken := n; entries := entries s; inFlight := inFlight s; calls := calls s |}.

(** [probe] tells whether the probe is there. *)
(* internal/certification/admission_snapshot.go, lines 71-99: NewAdmissionSnapshot *)
Definition NewAdmissionSnapshot (probe : bool) (options : AdmissionSnapshotOptions) : result AdmissionSnapshot :=
  let schema := TrimSpace (SnapshotOptions.Schema options) in
  let schema := if bool_decide (schema = "") then DefaultAdmissionSnapshotSchema else schema in
  let maxConcurrent := SnapshotOptions.MaxConcurrent options in
  let maxConcurrent := if maxConcurrent =? 0 then DefaultAdmissionSnapshotMaxConcurrent else maxConcurrent in
  fail_if (negb probe) (ErrNew "admission snapshot probe is required") ;;!
  fail_if (multiline schema) (ErrNew "admission snapshot schema must be single-line") ;;!
  fail_if (bool_decide (is_Some (ValidateSecretSafeText schema))) (ErrNew "admission snapshot schema contains secret-like material") ;;!
  fail_if (maxConcurrent <? 1) (ErrNew "admission snapshot max concurrency must be at least one") ;;!
  Ok {| schema := schema; concurrency := maxConcurrent; taken := 0; entries := ∅; inFlight := ∅; calls := ∅ |}.

(** ** Keys *)

Section key.
Import AdmissionInput.
(* internal/certification/admission_snapshot.go, lines 180-185: canonicalAdmissionInput *)
Definition canonicalAdmissionInput input : string :=
  json_text (to_json
    {| Provider := Provider input; AccountOrProjectRef := AccountOrProjectRef input; Region := Region input;
       NetworkRef := NetworkRef input; StateBackendRef := StateBackendRef input; FixtureID := FixtureID input;
       OwnershipMarker := OwnershipMarker input; CredentialRefs := sort_strings (CredentialRefs input);
       RequireCredentials := RequireCredentials input; RequiredQuota := RequiredQuota input; AvailableQuota := AvailableQuota input;
       RequiredLocalCPUMilli := RequiredLocalCPUMilli input; AvailableLocalCPUMilli := AvailableLocalCPUMilli input;
       RequiredLocalMemoryMB := RequiredLocalMemoryMB input; AvailableLocalMemoryMB := AvailableLocalMemoryMB input;
       MutationKeys := sort_strings (MutationKeys input) |}).

(** The JSON writer has no error on strings, integers, lists and maps of them. *)
(* internal/certification/admission_snapshot.go, lines 165-178: AdmissionSnapshot.key *)
Definition snapshot_key s input : admissionSnapshotKey :=
  {| SnapshotKey.Provider := TrimSpace (Provider input); SnapshotKey.AccountOrProjectRef := TrimSpace (AccountOrProjectRef input);
     SnapshotKey.Region := TrimSpace (Region input); SnapshotKey.Schema := schema s;
     SnapshotKey.ScopeDigest := sha256_hex (canonicalAdmissionInput input) |}.
End key.

(** ** Results *)

Definition context_error (e : error) : bool := errors_Is "context.Canceled" e || errors_Is "context.DeadlineExceeded" e.

(* internal/certification/admission_snapshot.go, lines 259-267: safeAdmissionSnapshotError *)
Definition safeAdmissionSnapshotError (e : error) : error :=
  if context_error e then e else ErrNew "admission snapshot probe failed".

(** What the owner makes of the answer of [runProbe]; the zero result of a failure is left out. *)
(* internal/certification/admission_snapshot.go, lines 139-151: AdmissionSnapshot.Probe *)
Definition settle_answer (answer : result AdmissionProbeResult) : result AdmissionProbeResult :=
  match answer with
  | Err e => Err (safeAdmissionSnapshotError e)
  | Ok facts =>
      match validateAdmissionSnapshotResult facts with
      | Some e => Err (safeAdmissionSnapshotError e)
      | None => Ok facts
      end
  end.

(** ** Critical sections *)

Inductive entrance :=
  | Cached (facts : AdmissionProbeResult)
  | Joined (call : nat)
  | Owner.

(* internal/certification/admission_snapshot.go, lines 125-136: AdmissionSnapshot.Probe *)
Definition enter_locked (id : nat) key s : entrance * AdmissionSnapshot :=
  match entries s !! key, inFlight s !! key with
  | Some facts, _ => (Cached facts, s)
  | None, Some call => (Joined call, s)
  | None, None => (Owner,
      {| schema := schema s; concurrency := concurrency s; taken := taken s; entries := entries s;
         inFlight := <[key := id]> (inFlight s); calls := <[id := None]> (calls s) |})
  end.

(* internal/certification/admission_snapshot.go, lines 153-161: AdmissionSnapshot.Probe *)
Definition finish_locked (id : nat) key (answer : result AdmissionProbeResult) s : AdmissionSnapshot :=
  {| schema := schema s; concurrency := concurrency s; taken := taken s;
     entries := match answer with Ok facts => <[key := facts]> (entries s) | Err _ => entries s end;
     inFlight := delete key (inFlight s); calls := <[id := Some answer]> (calls s) |}.

(** ** Callers *)

(** Where a call of [Probe] is: called; with its key, before the lock; waiting for the call of another; its owner
    waiting for a slot, in the probe, or with a settled answer before the second lock; and returned. *)
Inductive caller :=
  | Called (input : AdmissionInput)
  | Keyed (input : AdmissionInput) (key : admissionSnapshotKey)
  | Waiting (key : admissionSnapshotKey) (call : nat)
  | Acquiring (input : AdmissionInput) (key : admissionSnapshotKey)
  | Probing (input : AdmissionInput) (key : admissionSnapshotKey)
  | Settled (key : admissionSnapshotKey) (answer : result AdmissionProbeResult)
  | Returned (key : option admissionSnapshotKey) (answer : result AdmissionProbeResult).

(** What happens next to a caller.  An action carries what comes from outside: what [ctx.Err()] answers, and what the
    probe answers. *)
Inductive action :=
  | Begin (ctx : context)
  | Enter
  | Slot
  | SlotCancelled (err : error)
  | Answer (answer : result AdmissionProbeResult)
  | Finish
  | Notified
  | WaitCancelled (err : error).

(** [asked] is what the probe was asked, and its answers. *)
Record world := {
  snapshot : AdmissionSnapshot;
  callers : gmap nat caller;
  asked : list (admissionSnapshotKey * AdmissionInput * result AdmissionProbeResult);
}.

Definition move (id : nat) (c : caller) s (w : world) : world :=
  {| snapshot := s; callers := <[id := c]> (callers w); asked := asked w |}.

Section steps.
Context (url_Parse : string → result url).

(* internal/certification/admission_snapshot.go, lines 107-123: AdmissionSnapshot.Probe *)
Definition probe_checks (ctx : context) input : gerror :=
  match ctx with
  | None => Some (ErrNew "admission snapshot context is required")
  | Some err => err ;;? validateAdmissionInput url_Parse input
  end.

(** The select of a waiting caller; when both channels are ready either may be taken. *)
(* internal/certification/admission_snapshot.go, lines 230-237: waitForAdmissionSnapshotCall *)
Definition waitForAdmissionSnapshotCall (call : nat) s (a : action) : option (result AdmissionProbeResult) :=
  match a with
  | Notified => calls s !! call ≫= id
  | WaitCancelled err => if context_error err then Some (Err err) else None
  | _ => None
  end.

(** The select of the owner: a slot, or the error of its context. *)
(* internal/certification/admission_snapshot.go, lines 220-228: AdmissionSnapshot.runProbe *)
Definition runProbe_slot s (a : action) : option (result AdmissionSnapshot) :=
  match a with
  | Slot => if taken s <? concurrency s then Some (Ok (with_taken (taken s + 1) s)) else None
  | SlotCancelled err => if context_error err then Some (Err err) else None
  | _ => None
  end.

(** The owner asks, and gives the slot back whatever the answer is. *)
(* internal/certification/admission_snapshot.go, lines 220-228: AdmissionSnapshot.runProbe *)
Definition runProbe_answer (id : nat) input key (answer : result AdmissionProbeResult) (w : world) : world :=
  {| snapshot := with_taken (taken (snapshot w) - 1) (snapshot w);
     callers := <[id := Settled key (settle_answer answer)]> (callers w);
     asked := asked w ++ [(key, input, answer)] |}.

(* internal/certification/admission_snapshot.go, lines 106-163: AdmissionSnapshot.Probe *)
Definition perform (id : nat) (a : action) (w : world) : option world :=
  let s := snapshot w in
  match callers w !! id, a with
  | Some (Called input), Begin ctx =>
      Some (move id (match probe_checks ctx input with
                     | Some err => Returned None (Err err)
                     | None => Keyed input (snapshot_key s input)
                     end) s w)
  | Some (Keyed input key), Enter =>
      let '(entrance, s) := enter_locked id key s in
      Some (move id (match entrance with
                     | Cached facts => Returned (Some key) (Ok facts)
                     | Joined call => Waiting key call
                     | Owner => Acquiring input key
                     end) s w)
  | Some (Acquiring input key), a =>
      slot ← runProbe_slot s a;
      Some (match slot with
            | Ok s => move id (Probing input key) s w
            | Err err => move id (Settled key (settle_answer (Err err))) s w
            end)
  | Some (Probing input key), Answer answer => Some (runProbe_answer id input key answer w)
  | Some (Settled key answer), Finish => Some (move id (Returned (Some key) answer) (finish_locked id key answer s) w)
  | Some (Waiting key call), a =>
      answer ← waitForAdmissionSnapshotCall call s a;
      Some (move id (Returned (Some key) answer) s w)
  | _, _ => None
  end.

Fixpoint run (actions : list (nat * action)) (w : world) : option world :=
  match actions with
  | [] => Some w
  | (id, a) :: actions => perform id a w ≫= run actions
  end.

(** A snapshot just made, and the callers that will use it. *)
Definition start (options : AdmissionSnapshotOptions) (inputs : gmap nat AdmissionInput) : result world :=
  s ← NewAdmissionSnapshot true options;
  Ok {| snapshot := s; callers := Called <$> inputs; asked := [] |}.

Definition reachable options inputs (w : world) : Prop :=
  ∃ w0 actions, start options inputs = Ok w0 ∧ run actions w0 = Some w.
End steps.
