(* ===== verification/SnapshotClaims.v ===== *)
(** * What the admission snapshot promises

    However its callers interleave, the probe is asked by one caller at a time for a
    key, by no more callers than there are slots, and never again once it answered;
    every caller that gets facts gets the facts of that answer; and every caller
    returns. *)

From S2P Require Import Prelude GoStrings GoEncoding Secretsafe Sdk Sessions Admission AdmissionSnapshot.

Local Open Scope Z_scope.

(** ** The invariant *)

(** The caller whose call is in flight for the key. *)
Definition owns (c : caller) (key : admissionSnapshotKey) : Prop :=
  match c with Acquiring _ k | Probing _ k | Settled k _ => k = key | _ => False end.

Definition probes (c : caller) : bool := match c with Probing _ _ => true | _ => false end.

Definition probing (callers : gmap nat caller) : gmap nat caller := filter (λ ic, probes ic.2 = true) callers.

(** The valid answers the probe gave for a key. *)
Definition answered (key : admissionSnapshotKey) (asked : list (admissionSnapshotKey * AdmissionInput * result AdmissionProbeResult))
    : list AdmissionProbeResult :=
  omap (λ '(k, _, answer), if decide (k = key) then match settle_answer answer with Ok facts => Some facts | Err _ => None end else None) asked.

Lemma answered_snoc key asked k input answer :
  answered key (asked ++ [(k, input, answer)]) =
  answered key asked ++ (if decide (k = key) then match settle_answer answer with Ok facts => [facts] | Err _ => [] end else []).
Proof. unfold answered. rewrite omap_app. f_equal. cbn. destruct (decide _); [|done]. by destruct (settle_answer answer). Qed.

Section invariant.
Context (url_Parse : string → result url).

Record snapshot_ok (w : world) : Prop := {
  ok_taken : taken (snapshot w) = Z.of_nat (size (probing (callers w)));
  ok_slots : taken (snapshot w) ≤ concurrency (snapshot w);
  ok_flight : ∀ key id, inFlight (snapshot w) !! key = Some id ↔ ∃ c, callers w !! id = Some c ∧ owns c key;
  ok_absent : ∀ key id, inFlight (snapshot w) !! key = Some id → entries (snapshot w) !! key = None;
  ok_open : ∀ key id, inFlight (snapshot w) !! key = Some id → calls (snapshot w) !! id = Some None;
  ok_closed : ∀ id answer, calls (snapshot w) !! id = Some (Some answer) → ∃ key, callers w !! id = Some (Returned (Some key) answer);
  ok_waiting : ∀ id key call, callers w !! id = Some (Waiting key call) →
    inFlight (snapshot w) !! key = Some call ∨
    ∃ answer, calls (snapshot w) !! call = Some (Some answer) ∧ callers w !! call = Some (Returned (Some key) answer);
  ok_input : ∀ id c input key, callers w !! id = Some c → (c = Keyed input key ∨ c = Acquiring input key ∨ c = Probing input key) →
    key = snapshot_key (snapshot w) input ∧ validateAdmissionInput url_Parse input = None;
  ok_asked : ∀ key input answer, (key, input, answer) ∈ asked w →
    key = snapshot_key (snapshot w) input ∧ validateAdmissionInput url_Parse input = None;
  ok_entries : ∀ key facts, entries (snapshot w) !! key = Some facts → answered key (asked w) = [facts];
  ok_settled : ∀ id key facts, callers w !! id = Some (Settled key (Ok facts)) → answered key (asked w) = [facts];
  ok_none : ∀ key, entries (snapshot w) !! key = None → (∀ id facts, callers w !! id ≠ Some (Settled key (Ok facts))) → answered key (asked w) = [];
  ok_returned : ∀ id key facts, callers w !! id = Some (Returned (Some key) (Ok facts)) → entries (snapshot w) !! key = Some facts;
}.

(** A caller that moves without touching the tables of the snapshot. *)
Lemma snapshot_move_ok id c c' n w :
  snapshot_ok w → callers w !! id = Some c → (∀ key, owns c' key ↔ owns c key) →
  (∀ key answer, c ≠ Returned key answer) → (∀ key facts, c ≠ Settled key (Ok facts)) → (∀ key facts, c' ≠ Settled key (Ok facts)) →
  (∀ key call, c' = Waiting key call → inFlight (snapshot w) !! key = Some call) →
  (∀ input key, c' = Keyed input key ∨ c' = Acquiring input key ∨ c' = Probing input key →
    key = snapshot_key (snapshot w) input ∧ validateAdmissionInput url_Parse input = None) →
  (∀ key facts, c' = Returned (Some key) (Ok facts) → entries (snapshot w) !! key = Some facts) →
  n = Z.of_nat (size (probing (<[id := c']> (callers w)))) → n ≤ concurrency (snapshot w) →
  snapshot_ok (move id c' (with_taken n (snapshot w)) w).
Proof.
  intros [? ? Hf Ha Ho Hcl Hw Hi Hk He Hs Hn Hr] Hc Hown Hret Hset Hset' Hw' Hi' Hr' Hsz Hn'.
  split; cbn [move with_taken snapshot taken concurrency inFlight entries calls callers asked]; try done.
  - intros key j. rewrite Hf. split.
    + intros (x&Hx&?). destruct (decide (j = id)) as [->|]; [|exists x; by rewrite lookup_insert_ne].
      exists c'. rewrite lookup_insert_eq. rewrite Hc in Hx. injection Hx as <-. by rewrite Hown.
    + intros (x&[[<- <-]|[? Hx]]%lookup_insert_Some&?); [exists c; by rewrite <-Hown|by exists x].
  - intros j answer Hj. destruct (Hcl j answer Hj) as (key&Hkey). exists key. rewrite lookup_insert_ne; [done|].
    intros <-. rewrite Hc in Hkey. injection Hkey as ->. by eapply Hret.
  - intros j key call [[<- Hx]|[? Hx]]%lookup_insert_Some; [left; by apply Hw'|].
    destruct (Hw j key call Hx) as [?|(answer&?&Hq)]; [by left|right]. exists answer. split; [done|].
    rewrite lookup_insert_ne; [done|]. intros <-. rewrite Hc in Hq. injection Hq as ->. by eapply Hret.
  - intros j x input key [[<- <-]|[? Hx]]%lookup_insert_Some Hor; [by apply Hi'|by eapply Hi].
  - intros j key facts [[<- Hx]|[? Hx]]%lookup_insert_Some; [by destruct (Hset' key facts)|by eapply Hs].
  - intros key Hnone Hno. apply Hn; [done|]. intros j facts Hj. apply (Hno j facts). rewrite lookup_insert_ne; [done|].
    intros <-. rewrite Hc in Hj. injection Hj as ->. by eapply Hset.
  - intros j key facts [[<- Hx]|[? Hx]]%lookup_insert_Some; [by apply Hr'|by eapply Hr].
Qed.

(** The callers in the probe. *)
Lemma probing_insert id c c' callers : callers !! id = Some c →
  Z.of_nat (size (probing (<[id := c']> callers))) =
    Z.of_nat (size (probing callers)) + Z.b2z (probes c') - Z.b2z (probes c).
Proof.
  intros Hc. assert (H : ∀ m x, m !! id = None → Z.of_nat (size (probing (<[id := x]> m))) = Z.of_nat (size (probing m)) + Z.b2z (probes x)).
  { intros m x Hm. unfold probing. destruct (probes x) eqn:Hx.
    - rewrite map_filter_insert_True, map_size_insert_None by (done || by apply map_lookup_filter_None; left). cbn. lia.
    - rewrite map_filter_insert_False by (cbn; congruence). rewrite delete_id by done. cbn. lia. }
  rewrite <-insert_delete_eq, H by apply lookup_delete_eq.
  rewrite <-(insert_delete_id callers id c Hc) at 2. rewrite H by apply lookup_delete_eq. lia.
Qed.

Lemma owner_unique w key i j ci cj :
  snapshot_ok w → callers w !! i = Some ci → callers w !! j = Some cj → owns ci key → owns cj key → i = j.
Proof.
  intros Hok Hi Hj Oi Oj. assert (inFlight (snapshot w) !! key = Some i) by (apply (ok_flight _ Hok); eauto).
  assert (inFlight (snapshot w) !! key = Some j) by (apply (ok_flight _ Hok); eauto). congruence.
Qed.

(** A key whose owner has not settled was not answered. *)
Lemma owner_unanswered w id c key :
  snapshot_ok w → callers w !! id = Some c → owns c key → (∀ facts, c ≠ Settled key (Ok facts)) → answered key (asked w) = [].
Proof.
  intros Hok Hc Ho Hns. apply (ok_none _ Hok).
  - eapply (ok_absent _ Hok key id). apply (ok_flight _ Hok). by exists c.
  - intros j facts Hj. assert (j = id) as -> by (eapply (owner_unique w key); eauto; done). rewrite Hc in Hj. injection Hj as ->. by eapply Hns.
Qed.

Lemma snapshot_answer_ok id input key answer w :
  snapshot_ok w → callers w !! id = Some (Probing input key) → snapshot_ok (runProbe_answer id input key answer w).
Proof.
  intros Hok Hc. pose proof (owner_unanswered w id _ key Hok Hc eq_refl ltac:(done)) as Hun.
  assert (Hfl : inFlight (snapshot w) !! key = Some id) by (apply (ok_flight _ Hok); by exists (Probing input key)).
  assert (Hother : ∀ k, k ≠ key → answered k (asked w ++ [(key, input, answer)]) = answered k (asked w)).
  { intros k Hk. rewrite answered_snoc, decide_False by congruence. apply app_nil_r. }
  pose proof (probing_insert id _ (Settled key (settle_answer answer)) (callers w) Hc) as Hsz. cbn in Hsz.
  pose proof Hok as [? ? Hf Ha Ho Hcl Hw Hi Hk He Hs Hn Hr].
  split; cbn [runProbe_answer with_taken snapshot taken concurrency inFlight entries calls callers asked]; try done; try lia.
  - intros k j. rewrite Hf. split.
    + intros (x&Hx&?). destruct (decide (j = id)) as [->|]; [|exists x; by rewrite lookup_insert_ne].
      eexists. rewrite lookup_insert_eq. split; [done|]. rewrite Hc in Hx. by injection Hx as <-.
    + intros (x&[[<- <-]|[? Hx]]%lookup_insert_Some&Hown); [by exists (Probing input key)|by exists x].
  - intros j a Hj. destruct (Hcl j a Hj) as (k&Hkey). exists k. rewrite lookup_insert_ne; [done|]. congruence.
  - intros j k call [[<- [=]]|[? Hx]]%lookup_insert_Some. destruct (Hw j k call Hx) as [?|(a&?&Hq)]; [by left|right].
    exists a. rewrite lookup_insert_ne by congruence. done.
  - intros j x i k [[<- <-]|[? Hx]]%lookup_insert_Some Hor; [naive_solver|by eapply Hi].
  - intros k i a [Hin|Hin%list_elem_of_singleton]%elem_of_app; [by eapply Hk|]. injection Hin as -> -> ->. eapply Hi; eauto.
  - intros k facts Hk'. rewrite Hother; [by apply He|]. intros ->. by rewrite (Ha _ _ Hfl) in Hk'.
  - intros j k facts [[<- [= <- Hset]]|[? Hx]]%lookup_insert_Some.
    + by rewrite answered_snoc, Hun, decide_True, Hset.
    + rewrite Hother; [by eapply Hs|]. intros ->. apply (Hs j) in Hx. congruence.
  - intros k Hnone Hno. destruct (decide (k = key)) as [->|Hne].
    + rewrite answered_snoc, Hun, decide_True by done. destruct (settle_answer answer) as [facts|] eqn:Hset; [|done].
      by destruct (Hno id facts); rewrite lookup_insert_eq.
    + rewrite Hother by done. apply Hn; [done|]. intros j facts Hj. apply (Hno j facts). rewrite lookup_insert_ne; [done|congruence].
  - intros j k facts [[<- [=]]|[? Hx]]%lookup_insert_Some. by eapply Hr.
Qed.

Lemma snapshot_own_ok id input key w :
  snapshot_ok w → callers w !! id = Some (Keyed input key) → entries (snapshot w) !! key = None → inFlight (snapshot w) !! key = None →
  snapshot_ok (move id (Acquiring input key) (enter_locked id key (snapshot w)).2 w).
Proof.
  intros Hok Hc Hne Hnf. unfold enter_locked. rewrite Hne, Hnf. cbn [snd].
  pose proof (probing_insert id _ (Acquiring input key) (callers w) Hc) as Hsz. cbn in Hsz.
  pose proof Hok as [? ? Hf Ha Ho Hcl Hw Hi Hk He Hs Hn Hr].
  assert (Hid : ∀ k, inFlight (snapshot w) !! k ≠ Some id). { intros k (x&Hx&Hown)%Hf. rewrite Hc in Hx. by injection Hx as <-. }
  split; cbn [move snapshot taken concurrency inFlight entries calls callers asked]; try done; try lia.
  - intros k j. rewrite lookup_insert_Some, Hf. split.
    + intros [[<- <-]|[Hkk (x&Hx&?)]]; [exists (Acquiring input key); by rewrite lookup_insert_eq|]. exists x.
      rewrite lookup_insert_ne; [done|]. intros <-. apply (Hid k), Hf. by exists x.
    + intros (x&[[<- <-]|[? Hx]]%lookup_insert_Some&Hown); [by left|right]. split; [|by exists x].
      intros <-. assert (inFlight (snapshot w) !! key = Some j) by (apply Hf; eauto). congruence.
  - intros k j [[<- <-]|[? Hx]]%lookup_insert_Some; [done|by eapply Ha].
  - intros k j [[<- <-]|[? Hx]]%lookup_insert_Some; [by rewrite lookup_insert_eq|]. rewrite lookup_insert_ne; [by eapply Ho|].
    intros <-. by apply (Hid k).
  - intros j a [[<- [=]]|[? Hx]]%lookup_insert_Some. destruct (Hcl j a Hx) as (k&Hkey). exists k. by rewrite lookup_insert_ne.
  - intros j k call [[<- [=]]|[? Hx]]%lookup_insert_Some. destruct (Hw j k call Hx) as [Hq|(a&Hq&Hq')].
    + left. apply lookup_insert_Some. right. split; [congruence|done].
    + right. exists a. by rewrite !lookup_insert_ne by congruence.
  - intros j x i k [[<- <-]|[? Hx]]%lookup_insert_Some Hor; [|by eapply Hi]. eapply Hi; [exact Hc|]. naive_solver.
  - intros j k facts [[<- [=]]|[? Hx]]%lookup_insert_Some. by eapply Hs.
  - intros k Hnone Hno. apply Hn; [done|]. intros j facts Hj. apply (Hno j facts). rewrite lookup_insert_ne; [done|congruence].
  - intros j k facts [[<- [=]]|[? Hx]]%lookup_insert_Some. by eapply Hr.
Qed.

Lemma snapshot_finish_ok id key answer w :
  snapshot_ok w → callers w !! id = Some (Settled key answer) →
  snapshot_ok (move id (Returned (Some key) answer) (finish_locked id key answer (snapshot w)) w).
Proof.
  intros Hok Hc. assert (Hfl : inFlight (snapshot w) !! key = Some id) by (apply (ok_flight _ Hok); by exists (Settled key answer)).
  pose proof (probing_insert id _ (Returned (Some key) answer) (callers w) Hc) as Hsz. cbn in Hsz.
  pose proof Hok as [? ? Hf Ha Ho Hcl Hw Hi Hk He Hs Hn Hr].
  assert (Hent : ∀ k facts, entries (snapshot w) !! k = Some facts →
    entries (finish_locked id key answer (snapshot w)) !! k = Some facts).
  { intros k facts Hk'. cbn. destruct answer; [|done]. rewrite lookup_insert_ne; [done|]. intros <-. by rewrite (Ha _ _ Hfl) in Hk'. }
  assert (Hent' : ∀ k, k ≠ key → entries (finish_locked id key answer (snapshot w)) !! k = entries (snapshot w) !! k).
  { intros k Hne. cbn. destruct answer; [|done]. by rewrite lookup_insert_ne. }
  split; cbn [move finish_locked snapshot taken concurrency inFlight calls callers asked]; try done; try lia.
  - intros k j. rewrite lookup_delete_Some, Hf. split.
    + intros [Hne (x&Hx&Hown)]. exists x. rewrite lookup_insert_ne; [done|]. intros <-. rewrite Hc in Hx. injection Hx as <-. done.
    + intros (x&[[<- <-]|[Hj Hx]]%lookup_insert_Some&Hown); [done|]. split; [|by exists x]. intros <-.
      apply Hj. symmetry. eapply (owner_unique w key j id); eauto. done.
  - intros k j [Hne Hj]%lookup_delete_Some. rewrite Hent' by done. by eapply Ha.
  - intros k j [Hne Hj]%lookup_delete_Some. rewrite lookup_insert_ne; [by eapply Ho|]. intros <-. apply Hf in Hj as (x&Hx&Hown).
    rewrite Hc in Hx. injection Hx as <-. done.
  - intros j a [[<- [= <-]]|[Hne Hx]]%lookup_insert_Some; [exists key; by rewrite lookup_insert_eq|].
    destruct (Hcl j a Hx) as (k&Hkey). exists k. by rewrite lookup_insert_ne.
  - intros j k call [[<- [=]]|[? Hx]]%lookup_insert_Some. destruct (Hw j k call Hx) as [Hq|(a&Hq&Hq')].
    + destruct (decide (k = key)) as [->|Hne]; [|left; by rewrite lookup_delete_ne]. right. exists answer.
      assert (call = id) as -> by congruence. by rewrite !lookup_insert_eq.
    + right. exists a. by rewrite !lookup_insert_ne by congruence.
  - intros j x i k [[<- <-]|[? Hx]]%lookup_insert_Some Hor; [naive_solver|by eapply Hi].
  - intros k facts Hk'. destruct (decide (k = key)) as [->|Hne]; [|rewrite Hent' in Hk' by done; by apply He].
    destruct answer as [facts'|]; cbn in Hk'; [rewrite lookup_insert_eq in Hk'; injection Hk' as <-; by eapply Hs|by apply He].
  - intros j k facts [[<- [=]]|[? Hx]]%lookup_insert_Some. by eapply Hs.
  - intros k Hnone Hno. assert (entries (snapshot w) !! k = None) as Hold.
    { destruct (entries (snapshot w) !! k) eqn:E; [|done]. by rewrite (Hent _ _ E) in Hnone. }
    apply Hn; [done|]. intros j facts Hj. destruct (decide (j = id)) as [->|Hne]; [|by apply (Hno j facts); rewrite lookup_insert_ne].
    rewrite Hc in Hj. injection Hj as -> ->. cbn in Hnone. by rewrite lookup_insert_eq in Hnone.
  - intros j k facts [[<- [= <- ->]]|[? Hx]]%lookup_insert_Some; [cbn; by rewrite lookup_insert_eq|]. by eapply Hent, Hr.
Qed.

Lemma taken_self w : with_taken (taken (snapshot w)) (snapshot w) = snapshot w.
Proof. by destruct w as [[]]. Qed.

(** Moves that take no slot. *)
Lemma pure_move_ok id c c' w :
  snapshot_ok w → callers w !! id = Some c → (∀ key, owns c' key ↔ owns c key) → probes c = false → probes c' = false →
  (∀ key answer, c ≠ Returned key answer) → (∀ key facts, c ≠ Settled key (Ok facts)) → (∀ key facts, c' ≠ Settled key (Ok facts)) →
  (∀ key call, c' = Waiting key call → inFlight (snapshot w) !! key = Some call) →
  (∀ input key, c' = Keyed input key ∨ c' = Acquiring input key ∨ c' = Probing input key →
    key = snapshot_key (snapshot w) input ∧ validateAdmissionInput url_Parse input = None) →
  (∀ key facts, c' = Returned (Some key) (Ok facts) → entries (snapshot w) !! key = Some facts) →
  snapshot_ok (move id c' (snapshot w) w).
Proof.
  intros Hok Hc Hown Hp Hp' **. rewrite <-(taken_self w). eapply snapshot_move_ok; eauto; [|apply (ok_slots _ Hok)].
  rewrite (probing_insert id c) by done. rewrite Hp, Hp', (ok_taken _ Hok). cbn. lia.
Qed.

Lemma snapshot_perform_ok id a w w' : snapshot_ok w → perform url_Parse id a w = Some w' → snapshot_ok w'.
Proof.
  intros Hok. unfold perform. destruct (callers w !! id) as [c|] eqn:Hc; [|done].
  destruct c as [input|input key|key call|input key|input key|key answer|]; [| | | | | |done].
  - destruct a; try done. intros [= <-]. destruct (probe_checks _ _ _) eqn:Hv; (eapply pure_move_ok; [done|exact Hc|..]; try naive_solver).
    intros i k [[= -> ->]|[|]]; [|naive_solver..]. split; [done|]. destruct ctx; [|done]. by apply err_seq_None in Hv as [_ ?].
  - destruct a; try done. destruct (entries (snapshot w) !! key) as [facts|] eqn:He; [|destruct (inFlight (snapshot w) !! key) eqn:Hf].
    + unfold enter_locked. rewrite He. intros [= <-]. eapply pure_move_ok; [done|exact Hc|..]; naive_solver.
    + unfold enter_locked. rewrite He, Hf. intros [= <-]. eapply pure_move_ok; [done|exact Hc|..]; naive_solver.
    + pose proof (snapshot_own_ok id input key w Hok Hc He Hf) as H. unfold enter_locked in *. rewrite He, Hf in *. by intros [= <-].
  - destruct (waitForAdmissionSnapshotCall _ _ _) as [answer|] eqn:Hw; [|done]. intros [= <-]. eapply pure_move_ok; [done|exact Hc|..]; try naive_solver.
    intros k facts [= -> ->]. destruct a; try done; cbn in Hw; [|by destruct (context_error err)].
    destruct (ok_waiting _ Hok _ _ _ Hc) as [Hf|(answer&Hcall&Hret)].
    + by rewrite (ok_open _ Hok _ _ Hf) in Hw.
    + rewrite Hcall in Hw. injection Hw as ->. by apply (ok_returned _ Hok) in Hret.
  - destruct (runProbe_slot _ _) as [[s|err]|] eqn:Hs; [| |done]; intros [= <-].
    + destruct a; try done; cbn in Hs; [|by destruct (context_error err)]. destruct (Z.ltb_spec (taken (snapshot w)) (concurrency (snapshot w))); [|done].
      injection Hs as <-. eapply snapshot_move_ok; [done|exact Hc|..]; try naive_solver; [| |lia].
      { intros i k [|[|[= -> ->]]]; [done..|]. eapply (ok_input _ Hok); [exact Hc|]. auto. }
      rewrite (probing_insert id _ _ _ Hc). cbn. rewrite (ok_taken _ Hok). lia.
    + eapply pure_move_ok; [done|exact Hc|..]; naive_solver.
  - destruct a; try done. intros [= <-]. by apply snapshot_answer_ok.
  - destruct a; try done. intros [= <-]. by apply snapshot_finish_ok.
Qed.

Lemma new_snapshot options s : NewAdmissionSnapshot true options = Ok s →
  1 ≤ concurrency s ∧ taken s = 0 ∧ entries s = ∅ ∧ inFlight s = ∅ ∧ calls s = ∅.
Proof.
  unfold NewAdmissionSnapshot. cbv zeta. generalize (TrimSpace (SnapshotOptions.Schema options)). intros schema.
  intros H. do 3 apply lift_check_Ok in H as [_ H]. apply lift_check_Ok in H as [Hc [= <-]]. apply fail_if_None, Z.ltb_ge in Hc. done.
Qed.

Lemma snapshot_start_ok options inputs w : start options inputs = Ok w →
  snapshot_ok w ∧ 1 ≤ concurrency (snapshot w) ∧ callers w = Called <$> inputs ∧ asked w = [].
Proof.
  unfold start. destruct (NewAdmissionSnapshot true options) as [s|] eqn:Hs; cbn; [|done]. intros [= <-].
  apply new_snapshot in Hs as (Hc&Ht&He&Hf&Hcl). split; [|done].
  assert (Hlk : ∀ id c, (Called <$> inputs) !! id = Some c → ∃ input, c = Called input).
  { intros id c. rewrite lookup_fmap. intros (input&_&->)%fmap_Some. by exists input. }
  assert (probing (Called <$> inputs) = ∅) as Hp.
  { apply map_empty. intros i. apply map_lookup_filter_None. right. intros c Hc'. by apply Hlk in Hc' as (input&->). }
  split; cbn [snapshot callers asked]; rewrite ?He, ?Hf, ?Hcl, ?Hp, ?Ht; try done; try lia.
  - intros key id. rewrite lookup_empty. split; [done|]. by intros (c&(input&->)%Hlk&?).
  - by intros id key call [? [=]]%Hlk.
  - by intros id c input key (input'&->)%Hlk [|[|]].
  - intros key input answer. by rewrite elem_of_nil.
  - by intros id key facts [? [=]]%Hlk.
  - by intros id key facts [? [=]]%Hlk.
Qed.

Lemma snapshot_run_ok actions w w' : snapshot_ok w → run url_Parse actions w = Some w' → snapshot_ok w'.
Proof.
  revert w. induction actions as [|[id a] actions IH]; intros w Hok; cbn; [by intros [= <-]|].
  destruct (perform url_Parse id a w) as [w1|] eqn:Hp; [|done]. apply IH. by eapply snapshot_perform_ok.
Qed.

Lemma snapshot_reachable_ok options inputs w : reachable url_Parse options inputs w → snapshot_ok w.
Proof. intros (w0&actions&Hs&Hr). eapply snapshot_run_ok; [|done]. by apply snapshot_start_ok in Hs as [? _]. Qed.

(** ** One probe for a key *)

(** C12: The probe is asked once.  At any moment no more callers are in the probe than the snapshot has slots, and for one
    key never two; an answer that is valid is the last one of its key, and no caller asks again. *)
Theorem snapshot_asks_once options inputs w : reachable url_Parse options inputs w →
  Z.of_nat (size (probing (callers w))) ≤ concurrency (snapshot w) ∧
  (∀ i j input input' key, callers w !! i = Some (Probing input key) → callers w !! j = Some (Probing input' key) → i = j) ∧
  (∀ key, (length (answered key (asked w)) ≤ 1)%nat) ∧
  (∀ i input key, callers w !! i = Some (Probing input key) → answered key (asked w) = []).
Proof.
  intros Hok%snapshot_reachable_ok. split_and!.
  - rewrite <-(ok_taken _ Hok). apply (ok_slots _ Hok).
  - intros i j ? ? key Hi Hj. by eapply (owner_unique w key i j); [done|exact Hi|exact Hj|..].
  - intros key. destruct (entries (snapshot w) !! key) as [facts|] eqn:He; [by rewrite (ok_entries _ Hok _ _ He)|].
    destruct (inFlight (snapshot w) !! key) as [id|] eqn:Hf.
    + apply (ok_flight _ Hok) in Hf as (c&Hc&Hown). destruct c as [| | | | |k [facts|]|]; cbn in Hown; try done; subst;
        try (rewrite (owner_unanswered w id _ key Hok Hc) by done; cbn; lia). by rewrite (ok_settled _ Hok _ _ _ Hc).
    + rewrite (ok_none _ Hok key He); [cbn; lia|]. intros id facts Hc.
      assert (inFlight (snapshot w) !! key = Some id) by (apply (ok_flight _ Hok); eauto; by eexists). congruence.
  - intros i input key Hi. by eapply owner_unanswered.
Qed.

(** ** What the callers get *)

Lemma answered_elem key asked facts : answered key asked = [facts] →
  ∃ input, (key, input, Ok facts) ∈ asked ∧ validateAdmissionSnapshotResult facts = None.
Proof.
  intros H. assert (facts ∈ answered key asked) as Hin by (rewrite H; apply list_elem_of_here).
  apply list_elem_of_omap in Hin as ([[k input] answer]&Hin&Heq). destruct (decide (k = key)) as [->|]; [|done].
  destruct answer as [f|]; cbn in Heq; [|done]. destruct (validateAdmissionSnapshotResult f) eqn:Hv; [done|]. injection Heq as ->. by exists input.
Qed.

(** C13: The facts of a key are one answer of the probe.  A caller that gets facts gets valid facts which the probe answered for
    the key, on a valid input of that key; and two callers of one key, whoever asked, get the same facts. *)
Theorem snapshot_serves_answers options inputs w i key facts :
  reachable url_Parse options inputs w → callers w !! i = Some (Returned (Some key) (Ok facts)) →
  (∃ input, (key, input, Ok facts) ∈ asked w ∧ validateAdmissionSnapshotResult facts = None ∧
     key = snapshot_key (snapshot w) input ∧ validateAdmissionInput url_Parse input = None) ∧
  (∀ j facts', callers w !! j = Some (Returned (Some key) (Ok facts')) → facts' = facts).
Proof.
  intros Hok%snapshot_reachable_ok Hi. pose proof (ok_returned _ Hok _ _ _ Hi) as He. split.
  - destruct (answered_elem key (asked w) facts) as (input&Hin&Hv); [by apply (ok_entries _ Hok)|]. exists input.
    destruct (ok_asked _ Hok _ _ _ Hin). done.
  - intros j facts' Hj. apply (ok_returned _ Hok) in Hj. congruence.
Qed.

(** ** Every caller returns *)

(** The steps a caller still has before it. *)
Definition rank (c : caller) : nat :=
  match c with Called _ => 5 | Keyed _ _ => 4 | Waiting _ _ => 3 | Acquiring _ _ => 3 | Probing _ _ => 2 | Settled _ _ => 1 | Returned _ _ => 0 end.
Definition work (callers : gmap nat caller) : nat := map_fold (λ _ c n, (rank c + n)%nat) 0%nat callers.

Lemma work_insert id c m : m !! id = None → work (<[id := c]> m) = (rank c + work m)%nat.
Proof. intros Hm. unfold work. apply (map_fold_insert_L (λ (_ : nat) c n, (rank c + n)%nat) 0%nat id c m); [intros; lia|done]. Qed.
Lemma work_move id c c' m : m !! id = Some c → (rank c' < rank c)%nat → (work (<[id := c']> m) < work m)%nat.
Proof.
  intros Hc Hr. rewrite <-insert_delete_eq, work_insert by apply lookup_delete_eq.
  rewrite <-(insert_delete_id m id c Hc) at 2. rewrite work_insert by apply lookup_delete_eq. lia.
Qed.
Lemma work_start (inputs : gmap nat AdmissionInput) : work (Called <$> inputs) = (5 * size inputs)%nat.
Proof.
  induction inputs as [|i input inputs Hi IH] using map_ind; [done|].
  rewrite fmap_insert, work_insert, IH, map_size_insert_None by (done || by rewrite lookup_fmap, Hi). cbn. lia.
Qed.

Lemma snapshot_perform_works id a w w' : perform url_Parse id a w = Some w' →
  (work (callers w') < work (callers w))%nat ∧ concurrency (snapshot w') = concurrency (snapshot w).
Proof.
  unfold perform. destruct (callers w !! id) as [c|] eqn:Hc; [|done].
  destruct c as [input|input key|key call|input key|input key|key answer|]; [| | | | | |done].
  - destruct a; try done. intros [= <-]. split; [|done]. apply (work_move id (Called input)); [done|]. destruct (probe_checks _ _ _); cbn; lia.
  - destruct a; try done. unfold enter_locked. destruct (entries _ !! _); [|destruct (inFlight _ !! _)]; intros [= <-];
      (split; [|done]); apply (work_move id (Keyed input key)); cbn; (done || lia).
  - destruct (waitForAdmissionSnapshotCall _ _ _); [|done]. intros [= <-]. split; [|done]. apply (work_move id (Waiting key call)); cbn; (done || lia).
  - destruct (runProbe_slot _ _) as [[s|err]|] eqn:Hs; [| |done]; intros [= <-].
    + destruct a; try done; cbn in Hs; [|by destruct (context_error err)]. destruct (_ <? _); [|done]. injection Hs as <-.
      split; [|done]. apply (work_move id (Acquiring input key)); cbn; (done || lia).
    + split; [|done]. apply (work_move id (Acquiring input key)); cbn; (done || lia).
  - destruct a; try done. intros [= <-]. split; [|done]. apply (work_move id (Probing input key)); cbn; (done || lia).
  - destruct a; try done. intros [= <-]. split; [|done]. apply (work_move id (Settled key answer)); cbn; (done || lia).
Qed.

Lemma snapshot_run_works actions w w' : run url_Parse actions w = Some w' →
  (length actions + work (callers w') ≤ work (callers w))%nat ∧ concurrency (snapshot w') = concurrency (snapshot w).
Proof.
  revert w. induction actions as [|[id a] actions IH]; intros w; cbn; [intros [= <-]; lia|].
  destruct (perform url_Parse id a w) as [w1|] eqn:Hp; cbn; [|done]. intros H. apply IH in H as [H1 H2].
  apply snapshot_perform_works in Hp as [H3 H4]. split; [lia|congruence].
Qed.

Definition returned (c : caller) : Prop := match c with Returned _ _ => True | _ => False end.
Definition cancels (a : action) : Prop := match a with SlotCancelled _ | WaitCancelled _ => True | _ => False end.

(** A caller that is in the probe can be answered; one that waits for a slot can have it, or others are in the probe. *)
Lemma snapshot_owner_moves w id c key : snapshot_ok w → 1 ≤ concurrency (snapshot w) → callers w !! id = Some c → owns c key →
  ∃ j a, ¬ cancels a ∧ is_Some (perform url_Parse j a w).
Proof.
  intros Hok Hcap Hc Hown. destruct c as [| | |input k|input k|k answer|]; try done.
  - destruct (decide (taken (snapshot w) < concurrency (snapshot w))) as [Hlt|Hge].
    + exists id, Slot. split; [by intros []|]. unfold perform. rewrite Hc. cbn. apply Z.ltb_lt in Hlt. rewrite Hlt. by eexists.
    + assert (probing (callers w) ≠ ∅) as [j [x Hx]]%map_choose.
      { intros Hz. pose proof (ok_taken _ Hok) as Ht. rewrite Hz, map_size_empty in Ht. lia. }
      apply map_lookup_filter_Some in Hx as [Hx Hp]. destruct x; try done.
      exists j, (Answer (Err (ErrNew "unavailable"))). split; [by intros []|]. unfold perform. rewrite Hx. by eexists.
  - exists id, (Answer (Err (ErrNew "unavailable"))). split; [by intros []|]. unfold perform. rewrite Hc. by eexists.
  - exists id, Finish. split; [by intros []|]. unfold perform. rewrite Hc. by eexists.
Qed.

(** C14: No caller waits for ever.  However the callers interleave they take at most five steps each, and while one of them has
    not returned one of them can take a step that needs no cancellation: no slot is lost, no waiter forgotten. *)
Theorem snapshot_callers_return options inputs w0 actions w :
  start options inputs = Ok w0 → run url_Parse actions w0 = Some w →
  (length actions ≤ 5 * size inputs)%nat ∧
  (∀ i c, callers w !! i = Some c → ¬ returned c → ∃ j a, ¬ cancels a ∧ is_Some (perform url_Parse j a w)).
Proof.
  intros Hs Hr. destruct (snapshot_start_ok _ _ _ Hs) as (Hok0&Hcap&Hc0&_). pose proof (snapshot_run_ok _ _ _ Hok0 Hr) as Hok.
  apply snapshot_run_works in Hr as [Hlen Hcc]. rewrite Hc0, work_start in Hlen. split; [lia|]. rewrite <-Hcc in Hcap.
  intros i c Hc Hnr. destruct c as [input|input key|key call|input key|input key|key answer|]; try (by eapply snapshot_owner_moves; [done|done|exact Hc|reflexivity]); [| | |done].
  - exists i, (Begin (Some None)). split; [by intros []|]. unfold perform. rewrite Hc. by eexists.
  - exists i, Enter. split; [by intros []|]. unfold perform. rewrite Hc. destruct (enter_locked _ _ _). by eexists.
  - destruct (ok_waiting _ Hok _ _ _ Hc) as [(c&Hc'&Hown)%(ok_flight _ Hok)|(answer&Hcall&_)]; [by eapply snapshot_owner_moves|].
    exists i, Notified. split; [by intros []|]. unfold perform. rewrite Hc. cbn. rewrite Hcall. by eexists.
Qed.

(** ** The error of an owner *)

(** C15: The cancellation of one caller fails the others.  A caller that waits for the call of another gets the error of
    that caller's context, whatever its own context says: it never asks the probe itself. *)
Theorem owner_cancellation_shared w i owner input key err :
  callers w !! i = Some (Waiting key owner) → callers w !! owner = Some (Acquiring input key) →
  context_error err = true →
  ∃ w', run url_Parse [(owner, SlotCancelled err); (owner, Finish); (i, Notified)] w = Some w' ∧
    callers w' !! i = Some (Returned (Some key) (Err err)) ∧ asked w' = asked w.
Proof.
  intros Hi Ho He. assert (Hne : i ≠ owner) by congruence.
  set (w1 := move owner (Settled key (Err err)) (snapshot w) w).
  set (w2 := move owner (Returned (Some key) (Err err)) (finish_locked owner key (Err err) (snapshot w1)) w1).
  assert (perform url_Parse owner (SlotCancelled err) w = Some w1) as H1.
  { unfold perform. rewrite Ho. cbn. rewrite He. cbn. unfold safeAdmissionSnapshotError. by rewrite He. }
  assert (perform url_Parse owner Finish w1 = Some w2) as H2.
  { unfold perform. change (callers w1) with (<[owner := Settled key (Err err)]> (callers w)). by rewrite lookup_insert_eq. }
  assert (callers w2 !! i = Some (Waiting key owner)) as Hi2.
  { change (callers w2) with (<[owner := Returned (Some key) (Err err)]> (callers w1)).
    change (callers w1) with (<[owner := Settled key (Err err)]> (callers w)). by rewrite !lookup_insert_ne. }
  assert (perform url_Parse i Notified w2 = Some (move i (Returned (Some key) (Err err)) (snapshot w2) w2)) as H3.
  { unfold perform. rewrite Hi2. cbn. by rewrite lookup_insert_eq. }
  eexists. cbn [run]. rewrite H1. cbn [mbind option_bind]. rewrite H2. cbn [mbind option_bind]. rewrite H3. split; [done|].
  split; [|done]. cbn [move callers]. by rewrite lookup_insert_eq.
Qed.
End invariant.

(** ** Witnesses *)

Module SnapshotExample.
Definition url_Parse (v : string) : result url :=
  if decide (v = "s3://state/shop")
  then Ok {| Scheme := "s3"; HasUser := false; Fragment := ""; Host := "state"; Path := "/shop"; Opaque := "" |} else Err (ErrNew "invalid URL").

Definition input : AdmissionInput :=
  {| AdmissionInput.Provider := "aws"; AdmissionInput.AccountOrProjectRef := "123456789012"; AdmissionInput.Region := "eu-west-3";
     AdmissionInput.NetworkRef := "vpc-1"; AdmissionInput.StateBackendRef := "s3://state/shop"; AdmissionInput.FixtureID := "fixture-1";
     AdmissionInput.OwnershipMarker := "run-b"; AdmissionInput.CredentialRefs := []; AdmissionInput.RequireCredentials := false;
     AdmissionInput.RequiredQuota := {["stacks" := 2]}; AdmissionInput.AvailableQuota := ∅;
     AdmissionInput.RequiredLocalCPUMilli := 500; AdmissionInput.AvailableLocalCPUMilli := 0;
     AdmissionInput.RequiredLocalMemoryMB := 256; AdmissionInput.AvailableLocalMemoryMB := 0; AdmissionInput.MutationKeys := ["edge"] |}.

Definition facts : AdmissionProbeResult :=
  {| AdmissionProbeResult.CredentialsReady := true; AdmissionProbeResult.AccountOrProjectReady := true; AdmissionProbeResult.NetworkReady := true;
     AdmissionProbeResult.StateBackendReady := true; AdmissionProbeResult.FixtureReady := true; AdmissionProbeResult.OwnershipReady := true;
     AdmissionProbeResult.AvailableQuota := {["stacks" := 5]}; AdmissionProbeResult.AvailableLocalCPUMilli := 1000;
     AdmissionProbeResult.AvailableLocalMemoryMB := 512; AdmissionProbeResult.Reasons := ∅ |}.

Definition options : AdmissionSnapshotOptions := {| SnapshotOptions.Schema := " "; SnapshotOptions.MaxConcurrent := 1 |}.
Definition inputs : gmap nat AdmissionInput := {[1%nat := input; 2%nat := input]}.

(** Two callers of one key: the first asks, the second waits. *)
Definition shared : list (nat * action) :=
  [(1%nat, Begin (Some None)); (2%nat, Begin (Some None)); (1%nat, Enter); (2%nat, Enter)].
Definition answered_both : list (nat * action) :=
  shared ++ [(1%nat, Slot); (1%nat, Answer (Ok facts)); (1%nat, Finish); (2%nat, Notified)].

Definition world_after (actions : list (nat * action)) : option world :=
  match start options inputs with Ok w0 => run url_Parse actions w0 | Err _ => None end.
Definition no_world : world :=
  {| snapshot := {| schema := ""; concurrency := 0; taken := 0; entries := ∅; inFlight := ∅; calls := ∅ |}; callers := ∅; asked := [] |}.
Definition w0 : world := Eval vm_compute in match start options inputs with Ok w => w | Err _ => no_world end.
Definition w_shared : world := Eval vm_compute in default no_world (world_after shared).
Definition w_both : world := Eval vm_compute in default no_world (world_after answered_both).
Definition the_key : admissionSnapshotKey := Eval vm_compute in snapshot_key (snapshot w0) input.

Lemma both_reachable : reachable url_Parse options inputs w_both.
Proof.
  refine (ex_intro _ w0 (ex_intro _ answered_both (conj _ _))).
  - vm_cast_no_check (eq_refl (Ok w0 : result world)).
  - vm_cast_no_check (eq_refl (Some w_both)).
Defined.

Lemma snapshot_asks_once_witness : Z.of_nat (size (probing (callers w_both))) ≤ concurrency (snapshot w_both).
Proof. exact (proj1 (snapshot_asks_once url_Parse options inputs w_both both_reachable)). Defined.

Lemma snapshot_serves_answers_witness : ∃ input, (the_key, input, Ok facts) ∈ asked w_both.
Proof.
  destruct (snapshot_serves_answers url_Parse options inputs w_both 2 the_key facts both_reachable) as [(i&Hi&_) _].
  - vm_compute. reflexivity.
  - exists i. exact Hi.
Defined.

Lemma snapshot_callers_return_witness : (length answered_both ≤ 5 * size inputs)%nat.
Proof.
  refine (proj1 (snapshot_callers_return url_Parse options inputs w0 answered_both w_both _ _));
    [vm_cast_no_check (eq_refl (Ok w0 : result world))|vm_cast_no_check (eq_refl (Some w_both))].
Defined.

Lemma owner_cancellation_shared_witness : ∃ w',
  run url_Parse [(1%nat, SlotCancelled (ErrSentinel "context.Canceled")); (1%nat, Finish); (2%nat, Notified)] w_shared = Some w' ∧
  callers w' !! 2%nat = Some (Returned (Some the_key) (Err (ErrSentinel "context.Canceled"))) ∧ asked w' = asked w_shared.
Proof.
  apply (owner_cancellation_shared url_Parse w_shared 2 1 input the_key); vm_compute; reflexivity.
Defined.
End SnapshotExample.
