(* ===== verification/RunAdmission.v ===== *)
(** * The admission of a run (internal/certification/run_admission.go)

    The scopes one certification run declares, the probe that refuses every other
    one, and the pool of workers that asks the gate for each of them.  The workers
    and the loop that hands out the scopes interleave as steps. *)

From S2P Require Import Prelude GoStrings GoEncoding Secretsafe Sdk Sessions Admission AdmissionSnapshot.

Local Open Scope Z_scope.

(** ** Data *)

Module RunOptions.
(* internal/certification/run_admission.go, lines 14-21: CertificationRunAdmissionOptions *)
Record CertificationRunAdmissionOptions := { RequiredInputs : list AdmissionInput; Snapshot : AdmissionSnapshotOptions }.
End RunOptions.
Notation CertificationRunAdmissionOptions := RunOptions.CertificationRunAdmissionOptions.

(* internal/certification/run_admission.go, lines 31-36: CertificationRunAdmission *)
Record CertificationRunAdmission := {
  run_snapshot : AdmissionSnapshot;
  run_inputs : list AdmissionInput;
  run_scopes : gset admissionSnapshotKey;
  maxConcurrent : Z;
}.

Module ScopeReport.
(* internal/certification/run_admission.go, lines 41-47: CertificationRunAdmissionScopeReport *)
Record CertificationRunAdmissionScopeReport := {
  InputIndex : nat;
  Provider : string;
  AccountOrProjectRef : string;
  Region : string;
  Admission : AdmissionReport;
}.
End ScopeReport.
Notation CertificationRunAdmissionScopeReport := ScopeReport.CertificationRunAdmissionScopeReport.

Module RunReport.
(* internal/certification/run_admission.go, lines 53-56: CertificationRunAdmissionReport *)
Record CertificationRunAdmissionReport := { Ready : bool; Scopes : list CertificationRunAdmissionScopeReport }.
End RunReport.
Notation CertificationRunAdmissionReport := RunReport.CertificationRunAdmissionReport.

Implicit Types (run : CertificationRunAdmission) (input : AdmissionInput).

Section run_admission.
Context (url_Parse : string → result url) (Quote : string → string).

(* internal/certification/run_admission.go, lines 71-81: NewCertificationRunAdmission *)
Fixpoint check_inputs (index : nat) (inputs : list AdmissionInput) : gerror :=
  match inputs with
  | [] => None
  | input :: inputs =>
      fail_if (bool_decide (is_Some (validateAdmissionInput url_Parse input)))
        (errorf "certification run admission input %d is invalid" [GInt (Z.of_nat index)])
      ;;? check_inputs (S index) inputs
  end.

(** [probe] tells whether the probe is there. *)
(* internal/certification/run_admission.go, lines 63-116: NewCertificationRunAdmission *)
Definition NewCertificationRunAdmission (probe : bool) (options : CertificationRunAdmissionOptions) : result CertificationRunAdmission :=
  let inputs := RunOptions.RequiredInputs options in
  let workers := SnapshotOptions.MaxConcurrent (RunOptions.Snapshot options) in
  let workers := if workers =? 0 then DefaultAdmissionSnapshotMaxConcurrent else workers in
  fail_if (negb probe) (ErrNew "certification run admission probe is required") ;;!
  fail_if (bool_decide (inputs = [])) (ErrNew "certification run admission requires at least one full admission input") ;;!
  check_inputs 0 inputs ;;!
  fail_if (workers <? 1) (ErrNew "certification run admission max concurrency must be at least one") ;;!
  let workers := Z.min workers (Z.of_nat (length inputs)) in
  s ← map_err (wrapf "certification run admission snapshot: %w" [])
        (NewAdmissionSnapshot probe
           {| SnapshotOptions.Schema := SnapshotOptions.Schema (RunOptions.Snapshot options); SnapshotOptions.MaxConcurrent := workers |});
  Ok {| run_snapshot := s; run_inputs := inputs; run_scopes := list_to_set (snapshot_key s <$> inputs); maxConcurrent := workers |}.

(** ** The probe of a run *)

(* internal/certification/run_admission.go, lines 147-168: CertificationRunAdmission.Probe *)
Definition run_checks run (ctx : context) input : gerror :=
  match ctx with
  | None => Some (ErrNew "certification run admission context is required")
  | Some err =>
      err
      ;;? fail_if (bool_decide (is_Some (validateAdmissionInput url_Parse input))) (ErrNew "certification run admission input is invalid")
      ;;? fail_if (negb (bool_decide (snapshot_key (run_snapshot run) input ∈ run_scopes run)))
            (ErrNew "certification run admission input is not a declared scope")
  end.

(** [Probe] is the probe of the snapshot. *)
(* internal/certification/run_admission.go, lines 147-170: CertificationRunAdmission.Probe *)
Definition run_Probe {W} run (Probe : AdmissionProbe W) : AdmissionProbe W := λ ctx input w,
  match run_checks run ctx input with
  | Some err => (Err err, w)
  | None => Probe ctx input w
  end.

(** ** The workers *)

Definition zero_report : AdmissionReport := {| Ready := false; Checks := []; BlockingReasons := [] |}.

(* internal/certification/run_admission.go, lines 191-198: CertificationRunAdmission.Admit *)
Definition scope_of (index : nat) input : CertificationRunAdmissionScopeReport :=
  {| ScopeReport.InputIndex := index; ScopeReport.Provider := AdmissionInput.Provider input;
     ScopeReport.AccountOrProjectRef := AdmissionInput.AccountOrProjectRef input; ScopeReport.Region := AdmissionInput.Region input;
     ScopeReport.Admission := zero_report |}.

(* internal/certification/run_admission.go, lines 241-241: CertificationRunAdmission.Admit *)
Definition with_admission (admission : AdmissionReport) (scope : CertificationRunAdmissionScopeReport) : CertificationRunAdmissionScopeReport :=
  {| ScopeReport.InputIndex := ScopeReport.InputIndex scope; ScopeReport.Provider := ScopeReport.Provider scope;
     ScopeReport.AccountOrProjectRef := ScopeReport.AccountOrProjectRef scope; ScopeReport.Region := ScopeReport.Region scope;
     ScopeReport.Admission := admission |}.

(** [dispatching] until [jobs] is closed, with [next] the index offered; a worker is idle or has an index; [cancelled] is
    whether [workCtx] is done and [parent] what [ctx.Err()] answers. *)
Record pool := {
  scopes : list CertificationRunAdmissionScopeReport;
  next : nat;
  dispatching : bool;
  workers : gmap nat (option nat);
  cancelled : bool;
  parent : gerror;
  firstErr : gerror;
}.

(* internal/certification/run_admission.go, lines 176-224: CertificationRunAdmission.Admit *)
Definition Admit_begin run (ctx : context) : result pool :=
  fail_if (bool_decide (run_inputs run = []) || (maxConcurrent run <? 1)) (ErrNew "certification run admission is required") ;;!
  match ctx with
  | None => Err (ErrNew "certification run admission context is required")
  | Some err =>
      err ;;!
      let workerCount := Z.min (maxConcurrent run) (Z.of_nat (length (run_inputs run))) in
      Ok {| scopes := imap scope_of (run_inputs run); next := 0; dispatching := true;
            workers := gset_to_gmap None (set_seq 0 (Z.to_nat workerCount)); cancelled := false; parent := None; firstErr := None |}
  end.

(** What happens next: the loop hands its index to a worker, or ends; a worker is answered by the gate in world [w], or
    leaves; the context of the caller is cancelled. *)
Inductive pool_action (W : Type) :=
  | HandOut (worker : nat)
  | EndDispatch
  | Gate (worker : nat) (ctxErr : gerror) (w : W)
  | Leave (worker : nat)
  | Cancel (err : error).
Arguments HandOut {W} worker.
Arguments EndDispatch {W}.
Arguments Gate {W} worker ctxErr w.
Arguments Leave {W} worker.
Arguments Cancel {W} err.

(* internal/certification/run_admission.go, lines 212-222: CertificationRunAdmission.Admit *)
Definition setError (err : error) (p : pool) : pool :=
  match firstErr p with
  | Some _ => p
  | None => {| scopes := scopes p; next := next p; dispatching := dispatching p; workers := workers p; cancelled := true;
               parent := parent p; firstErr := Some err |}
  end.

Definition with_workers (ws : gmap nat (option nat)) (p : pool) : pool :=
  {| scopes := scopes p; next := next p; dispatching := dispatching p; workers := ws; cancelled := cancelled p;
     parent := parent p; firstErr := firstErr p |}.

(** The gate's answer for an index. *)
(* internal/certification/run_admission.go, lines 236-241: CertificationRunAdmission.Admit *)
Definition gate {W} run (Probe : AdmissionProbe W) (ctxErr : gerror) (input : AdmissionInput) (w : W) : result AdmissionReport :=
  (CheckAdmissionWithProbe url_Parse Quote (Some ctxErr) input (Some (run_Probe run Probe)) w).1.

(* internal/certification/run_admission.go, lines 236-241: CertificationRunAdmission.Admit *)
Definition settle_gate (worker index : nat) (answer : result AdmissionReport) (p : pool) : pool :=
  match answer with
  | Err err => setError err (with_workers (delete worker (workers p)) p)
  | Ok admission =>
      {| scopes := alter (with_admission admission) index (scopes p); next := next p; dispatching := dispatching p;
         workers := <[worker := None]> (workers p); cancelled := cancelled p; parent := parent p; firstErr := firstErr p |}
  end.

(** A select with more than one ready channel takes any of them.  The context a gate is called with may be done only
    when [workCtx] is. *)
(* internal/certification/run_admission.go, lines 225-255: CertificationRunAdmission.Admit *)
Definition pool_perform {W} run (Probe : AdmissionProbe W) (a : pool_action W) (p : pool) : option pool :=
  match a with
  | HandOut worker =>
      if dispatching p && bool_decide (workers p !! worker = Some None) && bool_decide (next p < length (run_inputs run))%nat
      then Some {| scopes := scopes p; next := S (next p); dispatching := true; workers := <[worker := Some (next p)]> (workers p);
                   cancelled := cancelled p; parent := parent p; firstErr := firstErr p |}
      else None
  | EndDispatch =>
      if dispatching p && (cancelled p || bool_decide (next p = length (run_inputs run)))
      then Some {| scopes := scopes p; next := next p; dispatching := false; workers := workers p; cancelled := cancelled p;
                   parent := parent p; firstErr := firstErr p |}
      else None
  | Gate worker ctxErr w =>
      index ← mjoin (workers p !! worker);
      input ← run_inputs run !! index;
      if cancelled p || bool_decide (ctxErr = None) then Some (settle_gate worker index (gate run Probe ctxErr input w) p) else None
  | Leave worker =>
      if bool_decide (workers p !! worker = Some None) && (cancelled p || negb (dispatching p))
      then Some (with_workers (delete worker (workers p)) p)
      else None
  | Cancel err =>
      match parent p with
      | Some _ => None
      | None => Some {| scopes := scopes p; next := next p; dispatching := dispatching p; workers := workers p; cancelled := true;
                        parent := Some err; firstErr := firstErr p |}
      end
  end.

Fixpoint pool_run {W} run (Probe : AdmissionProbe W) (actions : list (pool_action W)) (p : pool) : option pool :=
  match actions with
  | [] => Some p
  | a :: actions => pool_perform run Probe a p ≫= pool_run run Probe actions
  end.

(** Where [workers.Wait()] returns. *)
Definition pool_done (p : pool) : bool := negb (dispatching p) && bool_decide (workers p = ∅).

(** The report is returned beside an error too, as far as it is. *)
(* internal/certification/run_admission.go, lines 258-272: CertificationRunAdmission.Admit *)
Definition Admit_result (p : pool) : CertificationRunAdmissionReport * gerror :=
  match parent p ;;? firstErr p with
  | Some err => ({| RunReport.Ready := true; RunReport.Scopes := scopes p |}, Some err)
  | None => ({| RunReport.Ready := forallb (λ scope, Ready (ScopeReport.Admission scope)) (scopes p); RunReport.Scopes := scopes p |}, None)
  end.
End run_admission.
