(* ===== verification/RunAdmissionClaims.v ===== *)
(** * What the admission of a run promises

    Every declared scope is handed out once, to one worker, and its place in the
    report holds the gate's answer for it; a run is ready only on the facts of all
    its scopes; and the pool always drains. *)

From S2P Require Import Prelude GoStrings GoEncoding Secretsafe Sdk Sessions Admission AdmissionSnapshot SnapshotClaims RunAdmission.

Local Open Scope Z_scope.

Section claims.
Context (url_Parse : string → result url) (Quote : string → string).
Context {W : Type} (run : CertificationRunAdmission) (Probe : AdmissionProbe W).
Abbreviation inputs := (run_inputs run).
Abbreviation pool_perform := (pool_perform url_Parse Quote run Probe).
Abbreviation pool_run := (pool_run url_Parse Quote run Probe).

(** An answer of the gate for an input. *)
Definition gated (input : AdmissionInput) (report : AdmissionReport) : Prop :=
  ∃ ctxErr w, gate url_Parse Quote run Probe ctxErr input w = Ok report.

(** ** The invariant *)

Record pool_ok (p : pool) : Prop := {
  ok_next : (next p ≤ length inputs)%nat;
  ok_scopes : ∀ i input, inputs !! i = Some input → ∃ admission, scopes p !! i = Some (with_admission admission (scope_of i input));
  ok_length : length (scopes p) = length inputs;
  ok_busy : ∀ k i, workers p !! k = Some (Some i) → (i < next p)%nat;
  ok_alone : ∀ k l i, workers p !! k = Some (Some i) → workers p !! l = Some (Some i) → k = l;
  ok_filled : firstErr p = None → ∀ i input, inputs !! i = Some input → (i < next p)%nat →
    (∃ k, workers p !! k = Some (Some i)) ∨
    ∃ admission, scopes p !! i = Some (with_admission admission (scope_of i input)) ∧ gated input admission;
  ok_cancelled : cancelled p = true → is_Some (parent p) ∨ is_Some (firstErr p);
  ok_failed : is_Some (firstErr p) → cancelled p = true;
  ok_closed : dispatching p = false → next p = length inputs ∨ cancelled p = true;
  ok_alive : dispatching p = true → cancelled p = false → workers p ≠ ∅;
  ok_bound : Z.of_nat (size (workers p)) ≤ maxConcurrent run;
}.

Lemma lookup_seq_map (n k : nat) x : (gset_to_gmap (None : option nat) (set_seq 0 n) : gmap nat (option nat)) !! k = Some x → x = None.
Proof. by intros [_ ->]%lookup_gset_to_gmap_Some. Qed.

Lemma pool_begin_ok ctx p : Admit_begin run ctx = Ok p → pool_ok p ∧ workers p ≠ ∅ ∧ next p = 0%nat ∧ parent p = None ∧ dispatching p = true.
Proof.
  unfold Admit_begin. intros H. apply lift_check_Ok in H as [Hc H]. apply fail_if_None, orb_false_iff in Hc as [Hi Hm].
  apply bool_decide_eq_false in Hi. apply Z.ltb_ge in Hm. destruct ctx as [err|]; [|done]. apply lift_check_Ok in H as [_ [= <-]].
  assert (1 ≤ length inputs)%nat by (destruct inputs; [done|cbn; lia]).
  set (n := Z.to_nat _). assert (Hn : (1 ≤ n)%nat) by lia.
  assert (Hne : (gset_to_gmap (None : option nat) (set_seq 0 n) : gmap nat (option nat)) ≠ ∅).
  { intros H0. assert ((gset_to_gmap (None : option nat) (set_seq 0 n) : gmap nat (option nat)) !! 0%nat = Some None) as Hl.
    { apply lookup_gset_to_gmap_Some. split; [|done]. apply elem_of_set_seq. lia. } by rewrite H0 in Hl. }
  split; [|by split_and!]. split; cbn; try done; try lia.
  - intros i input Hin. exists zero_report. rewrite list_lookup_imap, Hin. done.
  - apply length_imap.
  - by intros k i Hk%lookup_seq_map.
  - by intros k l i Hk%lookup_seq_map.
  - rewrite <-(size_dom (D := gset nat)), dom_gset_to_gmap, size_set_seq. lia.
Qed.

Lemma with_admission_twice a b scope : with_admission a (with_admission b scope) = with_admission a scope.
Proof. done. Qed.

(** Workers that only leave, with what a step does to the rest. *)
Lemma size_insert_same (ws : gmap nat (option nat)) k x y : ws !! k = Some x → size (<[k := y]> ws) = size ws.
Proof. intros H. by apply map_size_insert_Some. Qed.

Lemma pool_perform_ok a p p' : pool_ok p → pool_perform a p = Some p' → pool_ok p'.
Proof.
  intros Hok. pose proof Hok as [Hn Hs Hl Hb Ha Hf Hc Hfl Hcl Hal Hbd]. destruct a as [worker| |worker ctxErr w|worker|err]; cbn.
  - (* HandOut *)
    destruct (dispatching p) eqn:Hd; cbn; [|done]. case_bool_decide as Hw; cbn; [|done]. case_bool_decide as Hlt; [|done]. intros [= <-].
    split; cbn; try done; try lia.
    + intros k i [[<- [= <-]]|[_ Hk]]%lookup_insert_Some; [lia|]. apply Hb in Hk. lia.
    + intros k l i [[<- [= <-]]|[? Hk]]%lookup_insert_Some [[<- Hl']|[? Hl']]%lookup_insert_Some; try done.
      * apply Hb in Hl'. lia.
      * injection Hl' as <-. apply Hb in Hk. lia.
      * by eapply Ha.
    + intros He i input Hi Hlt'. destruct (decide (i = next p)) as [->|]; [left; exists worker; by rewrite lookup_insert_eq|].
      destruct (Hf He i input Hi) as [[k Hk]|?]; [lia| |by right]. left. exists k. rewrite lookup_insert_ne; [done|]. congruence.
    + intros _ _ H0. apply (insert_non_empty (workers p) worker (Some (next p))). done.
    + by rewrite (size_insert_same _ _ None).
  - (* EndDispatch *)
    destruct (dispatching p && _) eqn:Hd; [|done]. intros [= <-]. apply andb_true_iff in Hd as [_ Hd].
    split; cbn; try done. intros _. apply orb_true_iff in Hd as [?|?%bool_decide_eq_true]; auto.
  - (* Gate *)
    destruct (workers p !! worker) as [[index|]|] eqn:Hw; cbn; [|done..]. destruct (inputs !! index) as [input|] eqn:Hi; cbn; [|done].
    destruct (cancelled p || _) eqn:Hctx; [|done]. intros <-%Some_inj. unfold settle_gate. destruct (gate _ _ _ _ _ _ _) as [admission|err] eqn:Hg.
    + destruct (Hs index input Hi) as [adm0 Hsc]. split; cbn; try done.
      * intros i input' Hi'. destruct (decide (i = index)) as [->|]; [|rewrite list_lookup_alter_ne by done; by apply Hs].
        rewrite list_lookup_alter_eq, Hsc. cbn. exists admission. by replace input' with input by congruence.
      * by rewrite length_alter.
      * intros k i [[<- [=]]|[_ Hk]]%lookup_insert_Some. by apply Hb in Hk.
      * intros k l i [[<- [=]]|[_ Hk]]%lookup_insert_Some [[<- [=]]|[_ Hl']]%lookup_insert_Some. by eapply Ha.
      * intros He i input' Hi' Hlt. destruct (decide (i = index)) as [->|Hne].
        { right. exists admission. rewrite list_lookup_alter_eq, Hsc. cbn. replace input' with input by congruence. split; [done|]. by exists ctxErr, w. }
        rewrite list_lookup_alter_ne by done. destruct (Hf He i input' Hi' Hlt) as [[k Hk]|?]; [left|by right].
        exists k. rewrite lookup_insert_ne; [done|]. congruence.
      * intros _ _ H0. by apply (insert_non_empty (workers p) worker None).
      * by rewrite (size_insert_same _ _ (Some index)).
    + assert (Hsz : Z.of_nat (size (delete worker (workers p))) ≤ maxConcurrent run).
      { rewrite map_size_delete_Some by by rewrite Hw. lia. }
      unfold setError. cbn. destruct (firstErr p) as [e|] eqn:He; (split; cbn; try done; rewrite ?He; try done);
        try (intros k i [_ Hk]%lookup_delete_Some; by apply Hb in Hk);
        try (intros k l i [_ Hk]%lookup_delete_Some [_ Hk']%lookup_delete_Some; by eapply Ha).
      all: try (intros; apply Hfl; by rewrite He). all: try (by right). all: try (intros; by eauto).
      intros _ Hcc. rewrite Hfl in Hcc; [done|by eexists].
  - (* Leave *)
    case_bool_decide as Hw; cbn; [|done]. destruct (cancelled p || _) eqn:Hcd; [|done]. intros [= <-].
    split; cbn; try done.
    + intros k i [_ Hk]%lookup_delete_Some. by apply Hb in Hk.
    + intros k l i [_ Hk]%lookup_delete_Some [_ Hk']%lookup_delete_Some. by eapply Ha.
    + intros He i input Hi Hlt. destruct (Hf He i input Hi Hlt) as [[k Hk]|?]; [left|by right]. exists k.
      rewrite lookup_delete_ne; [done|]. congruence.
    + intros Hd Hcc. by rewrite Hd, Hcc in Hcd.
    + rewrite map_size_delete_Some by by rewrite Hw. lia.
  - (* Cancel *)
    destruct (parent p) eqn:Hp; [done|]. intros [= <-]. split; cbn; try done; eauto.
Qed.

Lemma pool_run_ok actions p p' : pool_ok p → pool_run actions p = Some p' → pool_ok p'.
Proof.
  revert p. induction actions as [|a actions IH]; intros p Hok; cbn; [by intros [= <-]|].
  destruct (pool_perform a p) as [p1|] eqn:Hp; [|done]. apply IH. by eapply pool_perform_ok.
Qed.

(** ** What a report rests on *)

(** The facts of a scope. *)
Definition scope_proven (input : AdmissionInput) : Prop :=
  ∃ w facts, (run_Probe url_Parse run Probe (Some None) input w).1 = Ok facts ∧ proven input facts.

Lemma gated_ready input report : gated input report → Ready report = true → scope_proven input.
Proof.
  intros (ctxErr&w&Hg) Hr. unfold gate in Hg.
  pose proof (CheckAdmissionWithProbe_fails_closed url_Parse Quote (Some ctxErr) input (run_Probe url_Parse run Probe) w) as H.
  destruct (CheckAdmissionWithProbe _ _ _ _ _ _) as [answer w']. cbn [fst] in Hg. rewrite Hg in H. destruct H as (_&Hctx&_&Hiff).
  apply Hiff in Hr as (facts&Hf&_&Hp). injection Hctx as ->. by exists w, facts.
Qed.

(** C16: A run is admitted on all its scopes.  When the workers are done and no error is returned, the report has one scope for each
    declared input, in their order, and each holds an answer of the gate for its own input; and when it says ready, every
    declared input was proven by facts that the probe of the run gave under a live context. *)
Theorem run_admitted ctx actions p0 p report :
  Admit_begin run ctx = Ok p0 → pool_run actions p0 = Some p → pool_done p = true → Admit_result p = (report, None) →
  length (RunReport.Scopes report) = length inputs ∧
  (∀ i input, inputs !! i = Some input → ∃ admission,
     RunReport.Scopes report !! i = Some (with_admission admission (scope_of i input)) ∧ gated input admission) ∧
  (RunReport.Ready report = true → Forall scope_proven inputs).
Proof.
  intros Hb Hr Hd Hres. apply pool_begin_ok in Hb as (Hok0&_). pose proof (pool_run_ok _ _ _ Hok0 Hr) as Hok.
  apply andb_true_iff in Hd as [Hdisp%negb_true_iff Hw%bool_decide_eq_true].
  unfold Admit_result in Hres. destruct (parent p ;;? firstErr p) eqn:Herr; [done|]. injection Hres as <-. cbn.
  apply err_seq_None in Herr as [Hpar Hfirst].
  assert (next p = length inputs) as Hnext.
  { destruct (ok_closed _ Hok Hdisp) as [?|Hc]; [done|]. destruct (ok_cancelled _ Hok Hc) as [[? H]|[? H]]; congruence. }
  assert (Hall : ∀ i input, inputs !! i = Some input → ∃ admission,
     scopes p !! i = Some (with_admission admission (scope_of i input)) ∧ gated input admission).
  { intros i input Hi. destruct (ok_filled _ Hok Hfirst i input Hi) as [[k Hk]|?]; [|by rewrite Hw, lookup_empty in Hk|done].
    rewrite Hnext. by apply lookup_lt_Some in Hi. }
  split_and!; [apply (ok_length _ Hok)|done|]. intros Hready. apply Forall_lookup. intros i input Hi.
  destruct (Hall i input Hi) as (admission&Hs&Hg). eapply gated_ready; [done|].
  rewrite forallb_forall in Hready. apply (Hready (with_admission admission (scope_of i input))).
  apply list_elem_of_In. by eapply list_elem_of_lookup_2.
Qed.

(** ** The pool drains *)

Definition busy (o : option nat) : nat := match o with Some _ => 2 | None => 1 end.
Definition load (ws : gmap nat (option nat)) : nat := map_fold (λ _ o n, (busy o + n)%nat) 0%nat ws.
(** The steps left: two for a scope not handed out, one for each busy worker, one for each worker, one for the loop and one
    for the context. *)
Definition left_over (p : pool) : nat :=
  2 * (length inputs - next p) + load (workers p) + (if dispatching p then 1 else 0) + (if parent p then 0 else 1).

Lemma load_insert k o ws : ws !! k = None → load (<[k := o]> ws) = (busy o + load ws)%nat.
Proof. intros Hk. unfold load. apply (map_fold_insert_L (λ (_ : nat) o n, (busy o + n)%nat) 0%nat k o ws); [intros; lia|done]. Qed.
Lemma load_delete k o ws : ws !! k = Some o → load ws = (busy o + load (delete k ws))%nat.
Proof. intros Hk. rewrite <-(load_insert k o (delete k ws)) by apply lookup_delete_eq. by rewrite insert_delete_id. Qed.
Lemma load_move k o o' ws : ws !! k = Some o → (load (<[k := o']> ws) + busy o = load ws + busy o')%nat.
Proof.
  intros Hk. rewrite (load_delete k o ws Hk). rewrite <-insert_delete_eq, load_insert by apply lookup_delete_eq. lia.
Qed.

Lemma perform_left a p p' : pool_ok p → pool_perform a p = Some p' → (left_over p' < left_over p)%nat.
Proof.
  intros Hok. pose proof (ok_next _ Hok). unfold left_over. destruct a as [worker| |worker ctxErr w|worker|err]; cbn.
  - destruct (dispatching p); cbn; [|done]. case_bool_decide as Hw; cbn; [|done]. case_bool_decide as Hlt; [|done].
    intros [= <-]. cbn [next workers dispatching parent]. pose proof (load_move worker None (Some (next p)) _ Hw) as Hm. cbn in Hm. lia.
  - destruct (dispatching p); cbn; [|done]. destruct (cancelled p || _); [|done]. intros [= <-]. cbn. lia.
  - destruct (workers p !! worker) as [[index|]|] eqn:Hw; cbn; [|done..]. destruct (inputs !! index) as [input|]; cbn; [|done].
    destruct (cancelled p || _); [|done]. intros <-%Some_inj. unfold settle_gate. destruct (gate _ _ _ _ _ _ _).
    + cbn. pose proof (load_move worker _ None _ Hw) as Hm. cbn in Hm. lia.
    + pose proof (load_delete worker _ _ Hw) as Hm. cbn in Hm. unfold setError. cbn. destruct (firstErr p); cbn; lia.
  - case_bool_decide as Hw; cbn; [|done]. destruct (cancelled p || _); [|done]. intros [= <-]. cbn.
    pose proof (load_delete worker _ _ Hw) as Hm. cbn in Hm. lia.
  - destruct (parent p); [done|]. intros [= <-]. cbn. lia.
Qed.

Lemma run_left actions p p' : pool_ok p → pool_run actions p = Some p' → (length actions + left_over p' ≤ left_over p)%nat.
Proof.
  revert p. induction actions as [|a actions IH]; intros p Hok; cbn [RunAdmission.pool_run length]; [intros [= <-]; lia|].
  destruct (pool_perform a p) as [p1|] eqn:Hp; cbn [mbind option_bind]; [|done]. intros H. apply IH in H; [|by eapply pool_perform_ok].
  apply perform_left in Hp; [lia|done].
Qed.

(** C17: The admission of a run ends, within its pool.  It takes a bounded number of steps; at no moment are more scopes with the
    gate than the run allows; and until the workers are done some step needs no cancellation: the loop never waits for workers
    that have all left, nor a worker for a loop that has ended. *)
Theorem run_admission_ends ctx actions p0 p (w : W) :
  Admit_begin run ctx = Ok p0 → pool_run actions p0 = Some p →
  (length actions ≤ left_over p0)%nat ∧ Z.of_nat (size (workers p)) ≤ maxConcurrent run ∧
  (pool_done p = false → ∃ a, (∀ err, a ≠ Cancel W err) ∧ is_Some (pool_perform a p)).
Proof.
  intros Hb Hr. apply pool_begin_ok in Hb as (Hok0&_). pose proof (pool_run_ok _ _ _ Hok0 Hr) as Hok. split_and!.
  - apply run_left in Hr; [lia|done].
  - apply (ok_bound _ Hok).
  - intros Hnd. unfold pool_done in Hnd.
    assert (Hmoves : ∀ k o, workers p !! k = Some o → (dispatching p = true → (next p < length inputs)%nat) →
      ∃ a, (∀ err, a ≠ Cancel W err) ∧ is_Some (pool_perform a p)).
    { intros k o Hk Hd. destruct o as [i|].
      - exists (Gate W k None w). split; [done|]. cbn. rewrite Hk. cbn.
        assert (i < length inputs)%nat as [input Hi]%lookup_lt_is_Some. { pose proof (ok_busy _ Hok _ _ Hk). pose proof (ok_next _ Hok). lia. }
        rewrite Hi. cbn. rewrite orb_true_r. by eexists.
      - destruct (dispatching p) eqn:Hdisp.
        + exists (HandOut W k). split; [done|]. cbn. rewrite Hdisp, !bool_decide_true by auto. by eexists.
        + exists (Leave W k). split; [done|]. cbn. rewrite Hdisp, bool_decide_true, orb_true_r by done. by eexists. }
    destruct (dispatching p) eqn:Hd; cbn in Hnd.
    + destruct (cancelled p) eqn:Hc; [|destruct (decide (next p = length inputs)) as [Hn|Hn]].
      * exists (EndDispatch W). split; [done|]. cbn. rewrite Hd, Hc. by eexists.
      * exists (EndDispatch W). split; [done|]. cbn. rewrite Hd, Hc, bool_decide_true by done. by eexists.
      * destruct (map_choose _ (ok_alive _ Hok Hd Hc)) as (k&o&Hk). apply (Hmoves k o Hk). intros _. pose proof (ok_next _ Hok). lia.
    + apply bool_decide_eq_false in Hnd. destruct (map_choose _ Hnd) as (k&o&Hk). by apply (Hmoves k o Hk).
Qed.

(** ** The declared scopes *)

(** The admission of a run is closed.  A live call of its probe reaches the snapshot exactly for the valid inputs whose scope
    was declared; every input the run was made with is one; and any other is refused without a call. *)
Theorem run_scopes_closed options input w :
  NewCertificationRunAdmission url_Parse true options = Ok run →
  (input ∈ RunOptions.RequiredInputs options → run_Probe url_Parse run Probe (Some None) input w = Probe (Some None) input w) ∧
  ((∀ declared, declared ∈ RunOptions.RequiredInputs options →
      snapshot_key (run_snapshot run) declared ≠ snapshot_key (run_snapshot run) input) →
    ∃ err, run_Probe url_Parse run Probe (Some None) input w = (Err err, w)).
Proof.
  unfold NewCertificationRunAdmission. cbv zeta. intros H. do 2 apply lift_check_Ok in H as [_ H]. apply lift_check_Ok in H as [Hv H].
  apply lift_check_Ok in H as [_ H]. destruct (NewAdmissionSnapshot _ _) as [s|]; cbn in H; [|done]. injection H as Hrun.
  assert (Hvalid : ∀ l n input, check_inputs url_Parse n l = None → input ∈ l → validateAdmissionInput url_Parse input = None).
  { induction l as [|x l IH]; intros n y; cbn; [by intros _ ?%elem_of_nil|]. intros [Hx Hl]%err_seq_None [->|Hy]%elem_of_cons; [|by eapply IH].
    apply fail_if_None, bool_decide_eq_false in Hx. by apply eq_None_not_Some in Hx. }
  unfold run_Probe, run_checks. cbn. split.
  - intros Hin. rewrite (Hvalid _ _ _ Hv Hin). cbn. rewrite bool_decide_true; [done|]. rewrite <-Hrun. cbn.
    apply elem_of_list_to_set, list_elem_of_fmap. eauto.
  - intros Hno. assert (snapshot_key (run_snapshot run) input ∉ run_scopes run) as Hni.
    { intros Hin. rewrite <-Hrun in Hin. cbn in Hin. apply elem_of_list_to_set, list_elem_of_fmap in Hin as (x&Hk&Hx).
      apply (Hno x Hx). by rewrite <-Hrun. }
    rewrite (bool_decide_false (_ ∈ _)) by done. destruct (fail_if (bool_decide (is_Some _)) _); by eexists.
Qed.
End claims.

(** ** Witnesses *)

Module RunAdmissionExample.
Definition probe : AdmissionProbe nat := λ _ _ w, (Ok SnapshotExample.facts, S w).
Definition options : CertificationRunAdmissionOptions :=
  {| RunOptions.RequiredInputs := [SnapshotExample.input]; RunOptions.Snapshot := SnapshotExample.options |}.
Definition no_run : CertificationRunAdmission :=
  {| run_snapshot := snapshot SnapshotExample.no_world; run_inputs := []; run_scopes := ∅; maxConcurrent := 0 |}.
Definition made : result CertificationRunAdmission := NewCertificationRunAdmission SnapshotExample.url_Parse true options.
Definition admitted_run : CertificationRunAdmission := Eval vm_compute in match made with Ok run => run | Err _ => no_run end.

Definition actions : list (pool_action nat) := [HandOut nat 0; EndDispatch nat; Gate nat 0 None 7%nat; Leave nat 0].
Definition no_pool : pool :=
  {| scopes := []; next := 0; dispatching := false; workers := ∅; cancelled := false; parent := None; firstErr := None |}.
Definition p0 : pool := Eval vm_compute in match Admit_begin admitted_run (Some None) with Ok p => p | Err _ => no_pool end.
Definition drained : option pool := pool_run SnapshotExample.url_Parse id admitted_run probe actions p0.
Definition p_end : pool := Eval vm_compute in default no_pool drained.
Definition report : CertificationRunAdmissionReport := Eval vm_compute in (Admit_result p_end).1.

Lemma run_admitted_witness : Forall (scope_proven SnapshotExample.url_Parse admitted_run probe) (run_inputs admitted_run).
Proof.
  refine (proj2 (proj2 (run_admitted SnapshotExample.url_Parse id admitted_run probe (Some None) actions p0 p_end report _ _ _ _)) _).
  - vm_cast_no_check (eq_refl (Ok p0 : result pool)).
  - vm_cast_no_check (eq_refl (Some p_end)).
  - vm_compute. reflexivity.
  - vm_compute. reflexivity.
  - vm_compute. reflexivity.
Defined.

Lemma run_admission_ends_witness : (length actions ≤ left_over admitted_run p0)%nat.
Proof.
  refine (proj1 (run_admission_ends SnapshotExample.url_Parse id admitted_run probe (Some None) actions p0 p_end 0%nat _ _)).
  - vm_cast_no_check (eq_refl (Ok p0 : result pool)).
  - vm_cast_no_check (eq_refl (Some p_end)).
Defined.

Lemma run_scopes_closed_witness :
  run_Probe SnapshotExample.url_Parse admitted_run probe (Some None) SnapshotExample.input 0%nat = (Ok SnapshotExample.facts, 1%nat).
Proof.
  refine (proj1 (run_scopes_closed SnapshotExample.url_Parse admitted_run probe options SnapshotExample.input 0%nat _) _).
  - vm_cast_no_check (eq_refl made).
  - apply list_elem_of_here.
Defined.
End RunAdmissionExample.
