(* ===== verification/Architecture.v ===== *)
(** * Architecture intents (sdk/types.go, sdk/contracts.go)

    The provider-neutral description of an architecture: service boundaries,
    edge, observability and resilience intents, and their validators.  Where the
    sources range over a map literal the problems are listed in the order of the
    literal; a map of labels is walked in the order of [map_to_list]. *)

From Stdlib Require Import QArith.
From S2P Require Import Prelude GoStrings Regex GoEncoding Secretsafe Sdk Coverage Sessions Admission.

Local Open Scope Z_scope.

(** ** Floating point

    The validators only compare a [float64] with 0 and 1: a finite value is the
    rational it denotes, and every comparison with NaN is false. *)

Inductive float64 :=
  | NaN
  | Infinite (negative : bool)
  | Finite (q : Q).

Definition float_lt (a b : float64) : bool :=
  match a, b with
  | NaN, _ | _, NaN => false
  | Infinite n, Infinite m => n && negb m
  | Infinite n, Finite _ => n
  | Finite _, Infinite m => negb m
  | Finite p, Finite q => negb (Qle_bool q p)
  end.

Definition float_le (a b : float64) : bool :=
  match a, b with
  | Finite p, Finite q => Qle_bool p q
  | Infinite n, Infinite m => n || negb m
  | _, _ => float_lt a b
  end.

Definition zero64 : float64 := Finite 0.
Definition one64 : float64 := Finite 1.

(** ** Data *)

Module EdgeHealthIntent.
(* sdk/types.go, lines 77-85: EdgeHealthIntent *)
Record EdgeHealthIntent := {
  OriginURL : string;
  OriginHost : string;
  ExpectedRouteTarget : string;
  RoutePath : string;
  ExpectedStatus : Z;
  RouteTimeoutSeconds : Z;
  RoutePollSeconds : Z;
}.
End EdgeHealthIntent.
Notation EdgeHealthIntent := EdgeHealthIntent.EdgeHealthIntent.

Module EdgeIntent.
(* sdk/types.go, lines 89-110: EdgeIntent *)
Record EdgeIntent := {
  ExternalProvider : string;
  Lifecycle : string;
  Certification : string;
  Mode : string;
  NativeProvider : string;
  CredentialRefs : list string;
  ServiceReference : string;
  Domains : list string;
  TLS : bool;
  TLSMode : string;
  DNSMode : string;
  PurgeOnDeploy : bool;
  PolicyReference : string;
  OriginHealthRef : string;
  CachePolicyRef : string;
  PurgePolicyRef : string;
  WAFPolicyRef : string;
  FailoverPolicyRef : string;
  OwnershipMarker : string;
  Health : EdgeHealthIntent;
}.
End EdgeIntent.
Notation EdgeIntent := EdgeIntent.EdgeIntent.

Module AlertIntent.
(* sdk/types.go, lines 149-160: AlertIntent *)
Record AlertIntent := {
  ID : string;
  Signal : string;
  Severity : string;
  Operator : string;
  Threshold : float64;
  WindowSeconds : Z;
  Owner : string;
  RunbookURL : string;
  DeduplicationKey : string;
  MaintenancePolicyRef : string;
}.
End AlertIntent.
Notation AlertIntent := AlertIntent.AlertIntent.

Module DashboardIntent.
(* sdk/types.go, lines 165-169: DashboardIntent *)
Record DashboardIntent := {
  ID : string;
  Signals : list string;
  Owner : string;
}.
End DashboardIntent.
Notation DashboardIntent := DashboardIntent.DashboardIntent.

Module SLOIntent.
(* sdk/types.go, lines 173-181: SLOIntent *)
Record SLOIntent := {
  ID : string;
  Signal : string;
  Target : float64;
  WindowSeconds : Z;
  Owner : string;
  RunbookURL : string;
  ErrorBudgetPolicy : string;
}.
End SLOIntent.
Notation SLOIntent := SLOIntent.SLOIntent.

Module ObservabilityIntent.
(* sdk/types.go, lines 114-144: ObservabilityIntent *)
Record ObservabilityIntent := {
  Lifecycle : string;
  Certification : string;
  OwnershipMarker : string;
  NativeProvider : string;
  NativeReference : string;
  ExternalProvider : string;
  CredentialRefs : list string;
  Endpoint : string;
  ServiceName : string;
  Environment : string;
  Logs : bool;
  Metrics : bool;
  Traces : bool;
  Signals : list string;
  RetentionDays : Z;
  SamplingRatio : float64;
  RedactionPolicyRef : string;
  AlertRefs : list string;
  Labels : gmap string string;
  DataResidency : string;
  Alerts : list AlertIntent;
  Dashboards : list DashboardIntent;
  SLOs : list SLOIntent;
}.
End ObservabilityIntent.
Notation ObservabilityIntent := ObservabilityIntent.ObservabilityIntent.

Module ServiceBoundaryIntent.
(* sdk/contracts.go, lines 27-41: ServiceBoundaryIntent *)
Record ServiceBoundaryIntent := {
  Role : string;
  Family : string;
  Major : string;
  Ownership : string;
  ResourceReference : string;
  FailureDomains : list string;
  BackupProfile : string;
  RecoveryProfile : string;
  CapabilityID : string;
}.
End ServiceBoundaryIntent.
Notation ServiceBoundaryIntent := ServiceBoundaryIntent.ServiceBoundaryIntent.

(* sdk/contracts.go, lines 76-83: RecoveryDestination *)
Definition recovery_destinations : list string :=
  ["same-region"; "same-region-isolated"; "alternate-region"; "alternate-provider"].
(* sdk/contracts.go, lines 79-79: RecoverySameRegion *)
Definition RecoverySameRegion := "same-region".
(* sdk/contracts.go, lines 80-80: RecoverySameRegionIsolated *)
Definition RecoverySameRegionIsolated := "same-region-isolated".
(* sdk/contracts.go, lines 81-81: RecoveryAlternateRegion *)
Definition RecoveryAlternateRegion := "alternate-region".
(* sdk/contracts.go, lines 82-82: RecoveryAlternateProvider *)
Definition RecoveryAlternateProvider := "alternate-provider".

Module DataClassIntent.
(* sdk/contracts.go, lines 88-101: DataClassIntent *)
Record DataClassIntent := {
  Name : string;
  SourceOfTruth : string;
  FailureDomains : list string;
  BackupMethod : string;
  RestoreMethod : string;
  IntegrityMethod : string;
  LossSemantics : string;
  RetentionDays : Z;
  Encrypted : bool;
  Immutable : bool;
  DeletionProtection : bool;
  OwnershipMarker : string;
}.
End DataClassIntent.
Notation DataClassIntent := DataClassIntent.DataClassIntent.

Module ProjectionTarget.
(* sdk/contracts.go, lines 108-116: ProjectionTarget *)
Record ProjectionTarget := {
  Runtime : string;
  Cluster : string;
  Service : string;
  Task : string;
  Namespace : string;
  Workload : string;
  Container : string;
}.
End ProjectionTarget.
Notation ProjectionTarget := ProjectionTarget.ProjectionTarget.

Module ResilienceIntent.
(* sdk/contracts.go, lines 153-165: ResilienceIntent *)
Record ResilienceIntent := {
  ProfileID : string;
  AvailabilityTarget : string;
  RPOSeconds : Z;
  RTOSeconds : Z;
  RetentionDays : Z;
  RecoveryScope : string;
  FailoverOwner : string;
  FencingPolicy : string;
  RecoveryDestinations : list string;
  DataClasses : list DataClassIntent;
  Projection : option ProjectionTarget;
}.
End ResilienceIntent.
Notation ResilienceIntent := ResilienceIntent.ResilienceIntent.

Module ArchitectureIntent.
(* sdk/contracts.go, lines 46-74: ArchitectureIntent *)
Record ArchitectureIntent := {
  ProfileID : string;
  Provider : string;
  Runtime : string;
  AccountOrProjectRef : string;
  Region : string;
  Regions : list string;
  Zones : list string;
  ComputeMode : string;
  KubernetesMode : string;
  NetworkMode : string;
  NetworkProfile : string;
  IngressMode : string;
  Boundaries : list ServiceBoundaryIntent;
  Edge : EdgeIntent;
  Observability : ObservabilityIntent;
  Resilience : ResilienceIntent;
  ConfigurationFingerprint : string;
  ArtifactDigest : string;
  SchemaFingerprint : string;
  MigrationFingerprint : string;
  OwnershipMarker : string;
}.
End ArchitectureIntent.
Notation ArchitectureIntent := ArchitectureIntent.ArchitectureIntent.

(** ** Validators *)

(** The checks of a map literal of required fields. *)
Definition required_fields (message : string) (fields : list (string * string)) : list gerror :=
  (λ f : string * string, fail_if (blank f.2) (errorf message [GStr f.1])) <$> fields.

(* sdk/contracts.go, lines 272-276: ownershipWithin *)
Definition ownershipWithin (parent child : string) : bool :=
  let trimmed := TrimSpace parent in
  let parent := if HasSuffix trimmed "/" then of_bytes (take (length (go_bytes trimmed) - 1) (go_bytes trimmed)) else trimmed in
  let child := TrimSpace child in
  negb (bool_decide (parent = "")) && negb (bool_decide (child = ""))
  && (bool_decide (child = parent) || HasPrefix child (parent +:+ "/")).

(* sdk/contracts.go, lines 15-22: ServiceOwnership *)
Definition service_ownerships : list string := ["managed"; "self-hosted"; "existing"; "external"].

Section service.
Import ServiceBoundaryIntent.

(* sdk/contracts.go, lines 278-297: validateServiceBoundary *)
Definition validateServiceBoundary (boundary : ServiceBoundaryIntent) : gerror :=
  errors_Join (
    required_fields "service boundary %s is required"
      [("role", Role boundary); ("family", Family boundary); ("major", Major boundary);
       ("backup profile", BackupProfile boundary); ("recovery profile", RecoveryProfile boundary)]
    ++ [fail_if (negb (bool_decide (Ownership boundary ∈ service_ownerships)))
          (errorf "invalid service boundary ownership %q" [GStr (Ownership boundary)]);
        if bool_decide (CapabilityID boundary = "") then None
        else validateID "service boundary capability ID" (CapabilityID boundary);
        fail_if (multiline (ResourceReference boundary))
          (ErrNew "service boundary resource reference must be single-line and NUL-free")]).
End service.

Section projection.
Import ProjectionTarget.

(* sdk/contracts.go, lines 118-151: ProjectionTarget.Validate *)
Definition ProjectionTarget_Validate (p : ProjectionTarget) : gerror :=
  errors_Join (
    ((λ f : string * string,
        fail_if (multiline f.2) (errorf "projection %s must be single-line and NUL-free" [GStr f.1])) <$>
     [("runtime", Runtime p); ("cluster", Cluster p); ("service", Service p); ("task", Task p);
      ("namespace", Namespace p); ("workload", Workload p); ("container", Container p)])
    ++ (if bool_decide (Runtime p = "ecs") then
          [fail_if (blank (Cluster p) || blank (Container p)) (ErrNew "ECS projection requires cluster and container");
           fail_if (Bool.eqb (blank (Service p)) (blank (Task p)))
             (ErrNew "ECS projection requires exactly one of service or task");
           fail_if (negb (bool_decide (Namespace p = "")) || negb (bool_decide (Workload p = "")))
             (ErrNew "ECS projection cannot contain Kubernetes namespace or workload")]
        else if bool_decide (Runtime p = "kubernetes") then
          [fail_if (blank (Workload p)) (ErrNew "Kubernetes projection requires workload");
           fail_if (negb (bool_decide (Cluster p = "")) || negb (bool_decide (Service p = "")) || negb (bool_decide (Task p = "")))
             (ErrNew "Kubernetes projection cannot contain ECS cluster, service, or task")]
        else [Some (errorf "projection runtime must be ecs or kubernetes (got %q)" [GStr (Runtime p)])])).
End projection.

Section resilience.
Import ResilienceIntent.

(** A data class with its policies filled in. *)
Definition data_class_complete (d : DataClassIntent) : bool :=
  negb (existsb blank
    [DataClassIntent.Name d; DataClassIntent.SourceOfTruth d; DataClassIntent.BackupMethod d;
     DataClassIntent.RestoreMethod d; DataClassIntent.IntegrityMethod d; DataClassIntent.LossSemantics d;
     DataClassIntent.OwnershipMarker d]).

(* sdk/contracts.go, lines 222-270: ResilienceIntent.Validate *)
Definition ResilienceIntent_Validate (r : ResilienceIntent) : gerror :=
  errors_Join (
    required_fields "resilience %s is required"
      [("profile ID", ProfileID r); ("availability target", AvailabilityTarget r);
       ("recovery scope", RecoveryScope r); ("failover owner", FailoverOwner r); ("fencing policy", FencingPolicy r)]
    ++ [fail_if ((RPOSeconds r <=? 0) || (RTOSeconds r <=? 0)) (ErrNew "resilience RPO and RTO must be positive");
        fail_if (RetentionDays r <=? 0) (ErrNew "resilience retention must be positive");
        fail_if (bool_decide (RecoveryDestinations r = []))
          (ErrNew "resilience requires at least one recovery destination")]
    ++ with_seen (λ seen destination,
         [fail_if (negb (bool_decide (destination ∈ recovery_destinations)))
            (errorf "invalid resilience recovery destination %q" [GStr destination]);
          fail_if (bool_decide (destination ∈ seen))
            (errorf "duplicate resilience recovery destination %q" [GStr destination])]) [] (RecoveryDestinations r)
    ++ [fail_if (bool_decide (length (DataClasses r) = 0%nat)) (ErrNew "resilience requires data-class policies");
        match Projection r with Some p => ProjectionTarget_Validate p | None => None end]
    ++ with_seen (λ seen d,
         [fail_if (negb (data_class_complete d))
            (errorf "resilience data class %q is incomplete" [GStr (DataClassIntent.Name d)]);
          fail_if (DataClassIntent.RetentionDays d <=? 0)
            (errorf "resilience data class %q retention must be positive" [GStr (DataClassIntent.Name d)]);
          fail_if (bool_decide (DataClassIntent.Name d ∈ DataClassIntent.Name <$> seen))
            (errorf "duplicate resilience data class %q" [GStr (DataClassIntent.Name d)])]) [] (DataClasses r)).
End resilience.

(* sdk/contracts.go, lines 562-570: validateOwnershipMarker *)
Definition validateOwnershipMarker (name value : string) : gerror :=
  fail_if (blank value) (errorf "%s is required" [GStr name])
  ;;? fail_if ((256 <? Z.of_nat (String.length value)) || multiline value || MatchString sensitiveField value)
        (errorf "%s must be a non-secret marker without line breaks" [GStr name]).

(** A provider that is named and is not "none". *)
(* sdk/integrations.go, lines 550-553: activeProvider *)
Definition activeProvider (provider : string) : bool :=
  negb (bool_decide (TrimSpace provider = "")) && negb (bool_decide (TrimSpace provider = "none")).

Section urls.
Context (url_Parse : string → result url).

(* sdk/contracts.go, lines 554-560: validateHTTPSURL *)
Definition validateHTTPSURL (name value : string) : gerror :=
  fail_if (match url_Parse (TrimSpace value) with
           | Ok parsed => negb (bool_decide (Scheme parsed = "https")) || bool_decide (Host parsed = "")
           | Err _ => true
           end) (errorf "%s must be an HTTPS URL" [GStr name]).

(* sdk/validation.go, lines 63-88: ValidateExternalIntent *)
Definition ValidateExternalIntent (provider lifecycle certification : string) (credentialRefs : list string) : gerror :=
  if negb (activeProvider provider) then
    fail_if (negb (bool_decide (lifecycle = "")) || negb (bool_decide (certification = ""))
             || negb (bool_decide (credentialRefs = [])))
      (ErrNew "external intent metadata requires a provider")
  else
    errors_Join (
      [fail_if (negb (bool_decide (lifecycle ∈ ["managed"; "extension"; "observe-only"])))
         (errorf "invalid external lifecycle %q" [GStr lifecycle]);
       fail_if (negb (bool_decide (certification ∈ ["certified"; "experimental"; "unavailable"; "blocked"])))
         (errorf "invalid external certification status %q" [GStr certification])]
      ++ ((λ reference, err_wrap (wrapf "external credential reference: %w" [])
             (ValidateCredentialReference url_Parse reference)) <$> credentialRefs)).

Section edge.
Import EdgeIntent EdgeHealthIntent.

(* sdk/contracts.go, lines 389-391: healthString *)
Definition healthString (health : EdgeHealthIntent) : string :=
  OriginURL health +:+ OriginHost health +:+ ExpectedRouteTarget health +:+ RoutePath health.

Definition edge_mode (intent : EdgeIntent) : string :=
  let mode := TrimSpace (Mode intent) in
  if bool_decide (mode = "") then if activeProvider (ExternalProvider intent) then "external" else "none" else mode.

Definition edge_hostname_ok (domain : string) : bool :=
  negb (blank domain || ContainsAny domain (cr_lf +:+ " /:")).

(* sdk/contracts.go, lines 301-387: ValidateEdgeIntent *)
Definition ValidateEdgeIntent (intent : EdgeIntent) : gerror :=
  let hasNative := activeProvider (NativeProvider intent) in
  let hasExternal := activeProvider (ExternalProvider intent) in
  let mode := edge_mode intent in
  let health := Health intent in
  let status := ExpectedStatus health in
  ValidateExternalIntent (ExternalProvider intent) (Lifecycle intent) (Certification intent) (CredentialRefs intent)
  ;;? (if hasNative then validateID "native edge provider ID" (TrimSpace (NativeProvider intent)) else None)
  ;;? fail_if (negb (bool_decide (mode ∈ ["none"; "native"; "external"; "both"])))
        (errorf "invalid edge mode %q" [GStr (Mode intent)])
  ;;? fail_if (bool_decide (mode ∈ ["native"; "both"]) && negb hasNative)
        (ErrNew "native edge mode requires a native provider")
  ;;? fail_if (bool_decide (mode ∈ ["external"; "both"]) && negb hasExternal)
        (ErrNew "external edge mode requires a provider")
  ;;? fail_if (bool_decide (mode = "none") && (hasNative || hasExternal))
        (ErrNew "edge mode none cannot declare a provider")
  ;;? fail_if (bool_decide (mode = "native") && hasExternal)
        (ErrNew "native edge mode cannot declare an external provider")
  ;;? fail_if (bool_decide (mode = "external") && hasNative)
        (ErrNew "external edge mode cannot declare a native provider")
  ;;? fail_if (negb (bool_decide (mode = "none")) && blank (OriginHealthRef intent))
        (ErrNew "edge mode requires an origin health reference")
  ;;? fail_if (negb (bool_decide (mode = "none")) && blank (OwnershipMarker intent))
        (ErrNew "edge mode requires an ownership marker")
  ;;? (if TLS intent then
         fail_if (blank (TLSMode intent)) (ErrNew "edge TLS requires an explicit certificate ownership mode")
         ;;? fail_if (blank (DNSMode intent)) (ErrNew "edge TLS requires an explicit DNS ownership mode")
       else None)
  ;;? fail_if (negb (bool_decide (OriginURL health = ""))
               && match url_Parse (TrimSpace (OriginURL health)) with
                  | Ok parsed => bool_decide (Host parsed = "")
                                 || negb (bool_decide (Scheme parsed ∈ ["http"; "https"]))
                  | Err _ => true
                  end) (ErrNew "edge health origin URL must use http or https")
  ;;? fail_if (multiline (healthString health)) (ErrNew "edge health values must not contain control characters")
  ;;? fail_if (negb (bool_decide (RoutePath health = "")) && negb (HasPrefix (RoutePath health) "/"))
        (ErrNew "edge health route path must start with /")
  ;;? fail_if ((status <? 0) || (599 <? status) || (0 <? status) && (status <? 100))
        (ErrNew "edge health expected status must be between 100 and 599 when set")
  ;;? fail_if ((RouteTimeoutSeconds health <? 0) || (3600 <? RouteTimeoutSeconds health))
        (ErrNew "edge health route timeout must be between 1 and 3600 seconds when set")
  ;;? fail_if ((RoutePollSeconds health <? 0) || (300 <? RoutePollSeconds health))
        (ErrNew "edge health route poll interval must be between 1 and 300 seconds when set")
  ;;? first_error (λ domain, fail_if (negb (edge_hostname_ok domain))
        (errorf "edge domain %q is invalid" [GStr domain])) (Domains intent).
End edge.

Section observability.

(* sdk/contracts.go, lines 486-507: validateDashboardIntent *)
Definition validateDashboardIntent (d : DashboardIntent) : gerror :=
  let id := GStr (DashboardIntent.ID d) in
  validateID "observability dashboard ID" (DashboardIntent.ID d)
  ;;? fail_if (blank (DashboardIntent.Owner d)) (errorf "observability dashboard %q requires an owner" [id])
  ;;? fail_if (bool_decide (DashboardIntent.Signals d = []))
        (errorf "observability dashboard %q requires at least one signal" [id])
  ;;? first_error (λ check, check) (with_seen (λ seen signal,
        [validateID "observability dashboard signal" signal;
         fail_if (bool_decide (signal ∈ seen))
           (errorf "observability dashboard %q contains duplicate signal %q" [id; GStr signal])])
        [] (DashboardIntent.Signals d)).

Section alerts.
Import AlertIntent.

(* sdk/contracts.go, lines 509-536: validateAlertIntent *)
Definition validateAlertIntent (a : AlertIntent) : gerror :=
  validateID "observability alert ID" (ID a)
  ;;? validateID "observability alert signal" (Signal a)
  ;;? fail_if (negb (bool_decide (Severity a ∈ ["info"; "warning"; "critical"])))
        (errorf "observability alert %q has invalid severity %q" [GStr (ID a); GStr (Severity a)])
  ;;? fail_if (negb (bool_decide (Operator a ∈ ["gt"; "gte"; "lt"; "lte"; "eq"])))
        (errorf "observability alert %q has invalid operator %q" [GStr (ID a); GStr (Operator a)])
  ;;? fail_if (float_lt (Threshold a) zero64 || (WindowSeconds a <=? 0))
        (errorf "observability alert %q requires a non-negative threshold and positive window" [GStr (ID a)])
  ;;? fail_if (blank (Owner a) || blank (RunbookURL a) || blank (DeduplicationKey a))
        (errorf "observability alert %q requires an owner, runbook URL, and deduplication key" [GStr (ID a)])
  ;;? validateHTTPSURL "observability alert runbook URL" (RunbookURL a).
End alerts.

Section slos.
Import SLOIntent.

(* sdk/contracts.go, lines 538-552: validateSLOIntent *)
Definition validateSLOIntent (s : SLOIntent) : gerror :=
  validateID "observability SLO ID" (ID s)
  ;;? validateID "observability SLO signal" (Signal s)
  ;;? fail_if (float_le (Target s) zero64 || float_lt one64 (Target s) || (WindowSeconds s <=? 0))
        (errorf "observability SLO %q requires a target in (0,1] and a positive window" [GStr (ID s)])
  ;;? fail_if (blank (Owner s) || blank (RunbookURL s) || blank (ErrorBudgetPolicy s))
        (errorf "observability SLO %q requires an owner, runbook URL, and error-budget policy" [GStr (ID s)])
  ;;? validateHTTPSURL "observability SLO runbook URL" (RunbookURL s).
End slos.

Import ObservabilityIntent.

(** Every item valid and no identifier twice. *)
Definition unique_items {A} (kind : string) (id : A → string) (check : A → gerror) (l : list A) : list gerror :=
  with_seen (λ seen x,
    [check x; fail_if (bool_decide (id x ∈ id <$> seen)) (errorf kind [GStr (id x)])]) [] l.

(* sdk/contracts.go, lines 435-442: ValidateObservabilityIntent *)
Definition check_label (label : string * string) : gerror :=
  fail_if (blank label.1 || ContainsAny label.1 cr_lf || MatchString sensitiveField label.1)
    (errorf "observability label key %q is empty, unsafe, or sensitive" [GStr label.1])
  ;;? fail_if (ContainsAny label.2 cr_lf || Contains label.2 "://" || MatchString sensitiveField label.2)
        (errorf "observability label %q contains a secret-like or unsafe value" [GStr label.1]).

(* sdk/contracts.go, lines 395-484: ValidateObservabilityIntent *)
Definition ValidateObservabilityIntent (intent : ObservabilityIntent) : gerror :=
  let hasNative := activeProvider (NativeProvider intent) in
  let hasExternal := activeProvider (ExternalProvider intent) in
  ValidateExternalIntent (ExternalProvider intent) (Lifecycle intent) (Certification intent) (CredentialRefs intent)
  ;;? (if hasNative then validateID "native observability provider ID" (TrimSpace (NativeProvider intent)) else None)
  ;;? (if hasNative || hasExternal
       then validateOwnershipMarker "observability ownership marker" (OwnershipMarker intent) else None)
  ;;? fail_if ((RetentionDays intent <? 0) || (3650 <? RetentionDays intent))
        (ErrNew "observability retention must be between 0 and 3650 days")
  ;;? fail_if (float_lt (SamplingRatio intent) zero64 || float_lt one64 (SamplingRatio intent))
        (ErrNew "observability sampling ratio must be between 0 and 1")
  ;;? fail_if (bool_decide (Signals intent = []) && (Logs intent || Metrics intent || Traces intent))
        (ErrNew "observability signals must be named when telemetry is enabled")
  ;;? fail_if (negb (bool_decide (Signals intent = [])) && negb hasNative && negb hasExternal)
        (ErrNew "observability signals require a native or external destination")
  ;;? first_error (λ check, check) (with_seen (λ seen signal,
        [validateID "observability signal" signal;
         fail_if (bool_decide (signal ∈ seen)) (errorf "duplicate observability signal %q" [GStr signal])])
        [] (Signals intent))
  ;;? first_error check_label (map_to_list (Labels intent))
  ;;? fail_if (hasExternal && bool_decide (CredentialRefs intent = []) && blank (Endpoint intent))
        (ErrNew "external observability requires a credential reference or endpoint")
  ;;? fail_if (bool_decide (TrimSpace (ExternalProvider intent) = "newrelic") && bool_decide (CredentialRefs intent = []))
        (ErrNew "New Relic observability requires an opaque license-key credential reference")
  ;;? fail_if (ContainsAny (DataResidency intent) cr_lf)
        (ErrNew "observability data residency must not contain line breaks")
  ;;? fail_if (multiline (NativeReference intent))
        (ErrNew "observability native reference must be single-line and NUL-free")
  ;;? errors_Join (
        unique_items "duplicate observability alert %q" AlertIntent.ID validateAlertIntent (Alerts intent)
        ++ unique_items "duplicate observability dashboard %q" DashboardIntent.ID validateDashboardIntent (Dashboards intent)
        ++ unique_items "duplicate observability SLO %q" SLOIntent.ID validateSLOIntent (SLOs intent)).
End observability.

Section architecture.
Import ArchitectureIntent.

(** A list of regions or zones. *)
Definition check_places (name : string) (values : list string) : list gerror :=
  with_seen (λ seen value,
    [validateID name value;
     fail_if (bool_decide (value ∈ seen)) (errorf "duplicate %s %q" [GStr name; GStr value])]) [] values.

(* sdk/contracts.go, lines 169-220: ArchitectureIntent.Validate *)
Definition ArchitectureIntent_Validate (a : ArchitectureIntent) : gerror :=
  errors_Join (
    [validateID "architecture profile ID" (ProfileID a);
     validateID "provider ID" (Provider a);
     validateID "runtime ID" (Runtime a);
     fail_if (blank (AccountOrProjectRef a)) (ErrNew "architecture account or project reference is required");
     fail_if (blank (Region a)) (ErrNew "architecture region is required")]
    ++ check_places "architecture region list" (Regions a) ++ check_places "architecture zones" (Zones a)
    ++ required_fields "architecture %s is required"
         [("compute mode", ComputeMode a); ("network mode", NetworkMode a); ("ingress mode", IngressMode a);
          ("artifact digest", ArtifactDigest a); ("schema fingerprint", SchemaFingerprint a);
          ("migration fingerprint", MigrationFingerprint a); ("ownership marker", OwnershipMarker a)]
    ++ [fail_if (negb (blank (ConfigurationFingerprint a)) && multiline (ConfigurationFingerprint a))
          (ErrNew "architecture configuration fingerprint must be single-line and NUL-free");
        if blank (NetworkProfile a) then None else validateID "architecture network profile" (NetworkProfile a)]
    ++ with_seen (λ seen boundary,
         [validateServiceBoundary boundary;
          fail_if (bool_decide (ServiceBoundaryIntent.Role boundary ∈ ServiceBoundaryIntent.Role <$> seen))
            (errorf "duplicate architecture service role %q" [GStr (ServiceBoundaryIntent.Role boundary)])])
         [] (Boundaries a)
    ++ ((λ d, fail_if (negb (ownershipWithin (OwnershipMarker a) (DataClassIntent.OwnershipMarker d)))
           (errorf "resilience data class %q ownership marker must be scoped by architecture ownership"
              [GStr (DataClassIntent.Name d)])) <$> ResilienceIntent.DataClasses (Resilience a))
    ++ [ResilienceIntent_Validate (Resilience a); ValidateEdgeIntent (Edge a);
        ValidateObservabilityIntent (Observability a)]).

(* sdk/coverage.go, lines 279-284: valueOrNone *)
Definition valueOrNone (value : string) : string := if blank value then "none" else value.

(** The one ownership of the boundaries, or "mixed". *)
(* sdk/coverage.go, lines 197-208: CoverageBoundaryFromArchitecture *)
Definition boundary_ownership (boundaries : list ServiceBoundaryIntent) : string :=
  match dedup [] (ServiceBoundaryIntent.Ownership <$> boundaries) with
  | [ownership] => ownership
  | _ => "mixed"
  end.

(* sdk/coverage.go, lines 209-222: CoverageBoundaryFromArchitecture *)
Definition observability_destination (o : ObservabilityIntent) : string :=
  let native := if activeProvider (ObservabilityIntent.NativeProvider o)
                then ObservabilityIntent.NativeProvider o else "none" in
  if activeProvider (ObservabilityIntent.ExternalProvider o) then
    if bool_decide (native = "none") then ObservabilityIntent.ExternalProvider o
    else native +:+ "+" +:+ ObservabilityIntent.ExternalProvider o
  else native.

(* sdk/coverage.go, lines 190-238: CoverageBoundaryFromArchitecture *)
Definition CoverageBoundaryFromArchitecture (intent : ArchitectureIntent) (recoveryFixtureID : string)
    : result CoverageBoundary :=
  err_wrap (wrapf "validate architecture intent: %w" []) (ArchitectureIntent_Validate intent) ;;!
  let boundary :=
    {| CoverageBoundary.Provider := Provider intent;
       CoverageBoundary.Regions := if bool_decide (length (Regions intent) = 0%nat) then [Region intent] else Regions intent;
       CoverageBoundary.ComputeMode := ComputeMode intent;
       CoverageBoundary.KubernetesTopology := valueOrNone (KubernetesMode intent);
       CoverageBoundary.NetworkProfile := valueOrNone (NetworkProfile intent);
       CoverageBoundary.ManagedSelfHostedBoundary := boundary_ownership (Boundaries intent);
       CoverageBoundary.ServiceMajors :=
         fold_left (λ m b, <[ServiceBoundaryIntent.Role b := ServiceBoundaryIntent.Major b]> m) (Boundaries intent) ∅;
       CoverageBoundary.ResilienceProfileID := ResilienceIntent.ProfileID (Resilience intent);
       CoverageBoundary.ObservabilityDestination := observability_destination (Observability intent);
       CoverageBoundary.EdgePath := if bool_decide (EdgeIntent.Mode (Edge intent) = "") then "none" else EdgeIntent.Mode (Edge intent);
       CoverageBoundary.ArtifactDigest := ArtifactDigest intent;
       CoverageBoundary.SchemaFingerprint := SchemaFingerprint intent;
       CoverageBoundary.MigrationFingerprint := MigrationFingerprint intent;
       CoverageBoundary.RecoveryFixtureID := recoveryFixtureID;
       CoverageBoundary.RecoveryDestination := "none";
       CoverageBoundary.OwnershipMarker := OwnershipMarker intent;
       CoverageBoundary.ConfigurationFingerprint := valueOrNone (ConfigurationFingerprint intent) |} in
  CoverageBoundary_Validate boundary ;;! Ok boundary.
End architecture.
End urls.
