(* ===== verification/Resilience.v ===== *)
(** * Resilience plans (sdk/resilience.go)

    The semantic recovery operations of a provider adapter, the plan it returns
    and the request to execute one stage, with their validators.  Maps of
    references are walked in the order of [map_to_list]: Go leaves the order
    open, and only which of several errors is reported depends on it. *)

From S2P Require Import Prelude GoStrings Regex GoEncoding Secretsafe Dfs Sdk Coverage Sessions Admission Architecture.

Local Open Scope Z_scope.

(* sdk/resilience.go, lines 15-25: ResilienceAction *)
Definition resilience_actions : list string :=
  ["backup"; "restore"; "integrity-check"; "failover"; "failback"; "fence"; "cleanup"].
(* sdk/resilience.go, lines 18-18: ResilienceBackup *)
Definition ResilienceBackup := "backup".
(* sdk/resilience.go, lines 19-19: ResilienceRestore *)
Definition ResilienceRestore := "restore".
(* sdk/resilience.go, lines 20-20: ResilienceIntegrityCheck *)
Definition ResilienceIntegrityCheck := "integrity-check".
(* sdk/resilience.go, lines 21-21: ResilienceFailover *)
Definition ResilienceFailover := "failover".
(* sdk/resilience.go, lines 22-22: ResilienceFailback *)
Definition ResilienceFailback := "failback".
(* sdk/resilience.go, lines 23-23: ResilienceFence *)
Definition ResilienceFence := "fence".
(* sdk/resilience.go, lines 24-24: ResilienceCleanup *)
Definition ResilienceCleanup := "cleanup".

(** ** Data *)

Module ResilienceStage.
(* sdk/resilience.go, lines 30-50: ResilienceStage *)
Record ResilienceStage := {
  ID : string;
  Action : string;
  DataClasses : list string;
  Destination : string;
  DependsOn : list string;
  Idempotent : bool;
  RequiresApproval : bool;
  ApprovalReference : string;
  ReconciliationReference : string;
  RequiresSingleWriter : bool;
  RequiresSplitBrainCheck : bool;
  RequiresStaleOriginCheck : bool;
  RequiresReconciliation : bool;
}.

#[global] Instance eq_dec : EqDecision ResilienceStage.
Proof. solve_decision. Defined.

(** [omitempty] on a boolean. *)
Definition jb_opt (name : string) (b : bool) : list (string * json) := if b then jb name b else [].

Definition to_json (s : ResilienceStage) : json :=
  JObj (js "id" (ID s) ++ js "action" (Action s) ++ jl_opt "dataClasses" (DataClasses s)
    ++ js_opt "destination" (Destination s) ++ jl_opt "dependsOn" (DependsOn s) ++ jb "idempotent" (Idempotent s)
    ++ jb_opt "requiresApproval" (RequiresApproval s) ++ js_opt "approvalReference" (ApprovalReference s)
    ++ js_opt "reconciliationReference" (ReconciliationReference s)
    ++ jb_opt "requiresSingleWriter" (RequiresSingleWriter s)
    ++ jb_opt "requiresSplitBrainCheck" (RequiresSplitBrainCheck s)
    ++ jb_opt "requiresStaleOriginCheck" (RequiresStaleOriginCheck s)
    ++ jb_opt "requiresReconciliation" (RequiresReconciliation s)).
End ResilienceStage.
Notation ResilienceStage := ResilienceStage.ResilienceStage.

(* sdk/resilience.go, lines 55-64: ResilienceCapabilityStatus *)
Definition executable_statuses : list string := ["supported"; "certified"; "experimental"].
Definition refused_statuses : list string := ["unavailable"; "unsupported"; "blocked"].

Module Capability.
(* sdk/resilience.go, lines 69-86: ResilienceDataClassCapability *)
Record ResilienceDataClassCapability := {
  Name : string;
  Status : string;
  Actions : list string;
  Destinations : list string;
  Strategy : string;
  BackupMechanism : string;
  RestoreMechanism : string;
  IntegrityMethod : string;
  RetentionPolicy : string;
  EncryptionBoundary : string;
  ProtectionMechanism : string;
  PollingRequired : bool;
  RetentionRequired : bool;
  EncryptionRequired : bool;
  ProtectionRequired : bool;
  Reason : string;
}.

(** The capability of a data class the descriptor does not name. *)
Definition zero : ResilienceDataClassCapability :=
  {| Name := ""; Status := ""; Actions := []; Destinations := []; Strategy := ""; BackupMechanism := "";
     RestoreMechanism := ""; IntegrityMethod := ""; RetentionPolicy := ""; EncryptionBoundary := "";
     ProtectionMechanism := ""; PollingRequired := false; RetentionRequired := false; EncryptionRequired := false;
     ProtectionRequired := false; Reason := "" |}.
End Capability.
Notation ResilienceDataClassCapability := Capability.ResilienceDataClassCapability.

Module ResilienceAdapterDescriptor.
(* sdk/resilience.go, lines 148-155: ResilienceAdapterDescriptor *)
Record ResilienceAdapterDescriptor := {
  APIVersion : string;
  ID : string;
  Provider : string;
  Version : string;
  Capabilities : list string;
  DataClasses : list ResilienceDataClassCapability;
}.
End ResilienceAdapterDescriptor.
Notation ResilienceAdapterDescriptor := ResilienceAdapterDescriptor.ResilienceAdapterDescriptor.

Module ResiliencePlanRequest.
(* sdk/resilience.go, lines 159-168: ResiliencePlanRequest *)
Record ResiliencePlanRequest := {
  Architecture : ArchitectureIntent;
  FixtureID : string;
  OwnershipMarker : string;
  ApprovalReferences : gmap string string;
  ReconciliationReferences : gmap string string;
}.
End ResiliencePlanRequest.
Notation ResiliencePlanRequest := ResiliencePlanRequest.ResiliencePlanRequest.

Module ResiliencePlan.
(* sdk/resilience.go, lines 173-179: ResiliencePlan *)
Record ResiliencePlan := {
  AdapterID : string;
  FixtureID : string;
  OwnershipMarker : string;
  Stages : list ResilienceStage;
  RequiredProofs : list string;
}.

Definition to_json (p : ResiliencePlan) : json :=
  JObj (js "adapterId" (AdapterID p) ++ js "fixtureId" (FixtureID p) ++ js "ownershipMarker" (OwnershipMarker p)
    ++ [("stages", match Stages p with [] => JNull | _ => JArr (ResilienceStage.to_json <$> Stages p) end)] ++ jl "requiredProofs" (RequiredProofs p)).
End ResiliencePlan.
Notation ResiliencePlan := ResiliencePlan.ResiliencePlan.

Module ResilienceExecutionRequest.
(* sdk/resilience.go, lines 184-194: ResilienceExecutionRequest *)
Record ResilienceExecutionRequest := {
  Plan : ResiliencePlan;
  StageID : string;
  FixtureID : string;
  IdempotencyKey : string;
  OwnershipMarker : string;
  ResourceReferences : gmap string string;
  BackupReferences : gmap string string;
  ApprovalReference : string;
  ReconciliationReference : string;
}.
End ResilienceExecutionRequest.
Notation ResilienceExecutionRequest := ResilienceExecutionRequest.ResilienceExecutionRequest.

Module Evidence.
(* sdk/resilience_lifecycle.go, lines 27-55: ResilienceProofEvidence *)
Record ResilienceProofEvidence := {
  DataClass : string;
  Destination : string;
  BackupID : string;
  RestoreID : string;
  FixtureID : string;
  RetentionDays : Z;
  EncryptionVerified : bool;
  ProtectionVerified : bool;
  ManifestVerified : bool;
  CountsVerified : bool;
  ApplicationReadsVerified : bool;
  PermissionsVerified : bool;
  SecretReferencesVerified : bool;
  ServiceHealthVerified : bool;
  WriterIdentityRef : string;
  WriterEpoch : string;
  SingleWriterVerified : bool;
  SplitBrainAbsent : bool;
  StaleOriginRejected : bool;
  ReconciliationVerified : bool;
  ApprovalVerified : bool;
  MeasuredDurationSeconds : Z;
  MeasuredRPOSeconds : Z;
  MeasuredRTOSeconds : Z;
  Reason : string;
}.

#[global] Instance eq_dec : EqDecision ResilienceProofEvidence.
Proof. solve_decision. Defined.

Definition ji_opt (name : string) (z : Z) : list (string * json) := if z =? 0 then [] else ji name z.

Definition to_json (e : ResilienceProofEvidence) : json :=
  JObj (js "dataClass" (DataClass e) ++ js_opt "destination" (Destination e) ++ js_opt "backupId" (BackupID e)
    ++ js_opt "restoreId" (RestoreID e) ++ js_opt "fixtureId" (FixtureID e)
    ++ ji_opt "retentionDays" (RetentionDays e) ++ jb "encryptionVerified" (EncryptionVerified e)
    ++ jb "protectionVerified" (ProtectionVerified e) ++ jb "manifestVerified" (ManifestVerified e)
    ++ jb "countsVerified" (CountsVerified e) ++ jb "applicationReadsVerified" (ApplicationReadsVerified e)
    ++ jb "permissionsVerified" (PermissionsVerified e) ++ jb "secretReferencesVerified" (SecretReferencesVerified e)
    ++ jb "serviceHealthVerified" (ServiceHealthVerified e) ++ js_opt "writerIdentityRef" (WriterIdentityRef e)
    ++ js_opt "writerEpoch" (WriterEpoch e) ++ jb "singleWriterVerified" (SingleWriterVerified e)
    ++ jb "splitBrainAbsent" (SplitBrainAbsent e) ++ jb "staleOriginRejected" (StaleOriginRejected e)
    ++ jb "reconciliationVerified" (ReconciliationVerified e) ++ jb "approvalVerified" (ApprovalVerified e)
    ++ ji_opt "measuredDurationSeconds" (MeasuredDurationSeconds e)
    ++ ji_opt "measuredRpoSeconds" (MeasuredRPOSeconds e) ++ ji_opt "measuredRtoSeconds" (MeasuredRTOSeconds e)
    ++ js_opt "reason" (Reason e)).
End Evidence.
Notation ResilienceProofEvidence := Evidence.ResilienceProofEvidence.

Module ExecutionResult.
(* sdk/resilience.go, lines 196-205: ResilienceExecutionResult *)
Record ResilienceExecutionResult := {
  Action : string;
  OperationID : string;
  ResourceRefs : list string;
  ProofRefs : list string;
  Evidence : list ResilienceProofEvidence;
  OwnershipMarker : string;
  OwnershipVerified : bool;
  IdempotencyVerified : bool;
}.

(** A nil or empty slice is left out. *)
Definition jarr_opt (name : string) (l : list json) : list (string * json) :=
  match l with [] => [] | _ => [(name, JArr l)] end.

Definition to_json (r : ResilienceExecutionResult) : json :=
  JObj (js "action" (Action r) ++ js_opt "operationId" (OperationID r) ++ jl_opt "resourceRefs" (ResourceRefs r)
    ++ jl_opt "proofRefs" (ProofRefs r) ++ jarr_opt "evidence" (Evidence.to_json <$> Evidence r)
    ++ js "ownershipMarker" (OwnershipMarker r) ++ jb "ownershipVerified" (OwnershipVerified r)
    ++ jb "idempotencyVerified" (IdempotencyVerified r)).
End ExecutionResult.
Notation ResilienceExecutionResult := ExecutionResult.ResilienceExecutionResult.

(** ** Validators *)

(* sdk/resilience.go, lines 499-506: validResilienceAction *)
Definition validResilienceAction (action : string) : bool := bool_decide (action ∈ resilience_actions).

(* sdk/resilience.go, lines 508-515: validRecoveryDestination *)
Definition validRecoveryDestination (destination : string) : bool := bool_decide (destination ∈ recovery_destinations).

(* sdk/extensions.go, lines 13-13: extensionVersionPattern *)
Definition extensionVersionPattern : re :=
  Seq (Cls alnum) (Star (Cls (either alnum (oneof ".+_-")))).

(* sdk/extensions.go, lines 107-112: validateExtensionVersion *)
Definition validateExtensionVersion (version : string) : gerror :=
  fail_if (negb (MatchString extensionVersionPattern version))
    (errorf "extension version %q is not a stable version" [GStr version]).

(** A list of known values without repetition. *)
Definition known_values (valid : string → bool) (invalid duplicate : string) (l : list string) : list gerror :=
  with_seen (λ seen x,
    [fail_if (negb (valid x)) (errorf invalid [GStr x]);
     fail_if (bool_decide (x ∈ seen)) (errorf duplicate [GStr x])]) [] l.

Section capability.
Import Capability.

(* sdk/resilience.go, lines 240-296: ValidateResilienceAdapterDescriptor *)
Definition check_capability (seen : list ResilienceDataClassCapability) (c : ResilienceDataClassCapability) : list gerror :=
  let name := GStr (Name c) in
  [validateID "resilience adapter data-class capability name" (Name c)]
  ++ (if bool_decide (Status c ∈ executable_statuses) then
        [fail_if (bool_decide (Actions c = []))
           (errorf "resilience adapter data-class capability %q must declare at least one action for status %q"
              [name; GStr (Status c)])]
      else if bool_decide (Status c ∈ refused_statuses) then
        [fail_if (blank (Reason c))
           (errorf "resilience adapter data-class capability %q requires a reason for status %q" [name; GStr (Status c)]);
         fail_if (negb (bool_decide (Actions c = [])) || negb (bool_decide (Destinations c = [])))
           (errorf "resilience adapter data-class capability %q must not declare executable operations for status %q"
              [name; GStr (Status c)])]
      else [Some (errorf "invalid resilience adapter data-class status %q" [GStr (Status c)])])
  ++ [fail_if (bool_decide (Name c ∈ Name <$> seen))
        (errorf "duplicate resilience adapter data-class capability %q" [name]);
      fail_if (negb (bool_decide (Actions c = [])) && negb (PollingRequired c))
        (errorf "resilience adapter data-class capability %q must require polling for executable operations" [name]);
      fail_if (RetentionRequired c && blank (RetentionPolicy c))
        (errorf "resilience adapter data-class capability %q requires a retention policy" [name]);
      fail_if (EncryptionRequired c && blank (EncryptionBoundary c))
        (errorf "resilience adapter data-class capability %q requires an encryption boundary" [name]);
      fail_if (ProtectionRequired c && blank (ProtectionMechanism c))
        (errorf "resilience adapter data-class capability %q requires a protection mechanism" [name])]
  ++ known_values validResilienceAction "invalid resilience adapter data-class action %q"
       "duplicate resilience adapter data-class action %q" (Actions c)
  ++ [fail_if (bool_decide (ResilienceRestore ∈ Actions c) && bool_decide (length (Destinations c) = 0%nat))
        (errorf "resilience adapter data-class capability %q must declare restore destinations" [name])]
  ++ known_values validRecoveryDestination "invalid resilience adapter data-class destination %q"
       "duplicate resilience adapter data-class destination %q" (Destinations c).
End capability.

Section descriptor.
Import ResilienceAdapterDescriptor.

(* sdk/resilience.go, lines 216-298: ValidateResilienceAdapterDescriptor *)
Definition ValidateResilienceAdapterDescriptor (d : ResilienceAdapterDescriptor) : gerror :=
  errors_Join (
    [fail_if (negb (bool_decide (APIVersion d = "v1")))
       (errorf "resilience adapter API version %q is not supported" [GStr (APIVersion d)]);
     validateID "resilience adapter ID" (ID d);
     validateID "resilience adapter provider ID" (Provider d);
     validateExtensionVersion (Version d);
     fail_if (bool_decide (Capabilities d = [])) (ErrNew "resilience adapter must declare at least one capability")]
    ++ known_values validResilienceAction "invalid resilience adapter capability %q"
         "duplicate resilience adapter capability %q" (Capabilities d)
    ++ with_seen check_capability [] (DataClasses d)).
End descriptor.

(** A map of references keyed by stage or data class. *)
Definition bad_reference (reference : string) : bool := blank reference || multiline reference.

Section request.
Import ResiliencePlanRequest.
Context (url_Parse : string → result url).

Definition check_plan_references (id_name message : string) (m : gmap string string) : list gerror :=
  map_to_list m ≫= λ kv : string * string,
    [validateID id_name kv.1; fail_if (bad_reference kv.2) (errorf message [GStr kv.1])].

(* sdk/resilience.go, lines 300-329: ValidateResiliencePlanRequest *)
Definition ValidateResiliencePlanRequest (request : ResiliencePlanRequest) : gerror :=
  errors_Join (
    [ArchitectureIntent_Validate url_Parse (Architecture request);
     fail_if (blank (FixtureID request)) (ErrNew "resilience fixture ID is required");
     fail_if (blank (OwnershipMarker request)) (ErrNew "resilience ownership marker is required");
     fail_if (negb (bool_decide (OwnershipMarker request = ArchitectureIntent.OwnershipMarker (Architecture request))))
       (ErrNew "resilience ownership marker must match architecture ownership marker")]
    ++ check_plan_references "resilience approval stage ID"
         "resilience approval reference for stage %q must be non-empty and single-line" (ApprovalReferences request)
    ++ check_plan_references "resilience reconciliation stage ID"
         "resilience reconciliation reference for stage %q must be non-empty and single-line"
         (ReconciliationReferences request)).
End request.

(** ** The plan *)

Section plan.
Import ResilienceStage.

(** [known[id].DependsOn], the stages of the plan among them. *)
Definition stage_deps (stages : list ResilienceStage) (id : string) : list string :=
  match by_id ID stages !! id with
  | Some s => filter (λ d, is_Some (by_id ID stages !! d)) (DependsOn s)
  | None => []
  end.

(* sdk/resilience.go, lines 517-555: resiliencePlanCycles *)
Definition resiliencePlanCycles (stages : list ResilienceStage) : gerror :=
  match dfs (stage_deps stages) (length stages) (sort_strings (ID <$> stages)) with
  | Some (Cycle id) => Some (errorf "resilience stage dependency cycle at %q" [GStr id])
  | Some (Visited _) => None
  | None => Some (ErrNew "fuel")
  end.

Definition moves_writer (action : string) : bool :=
  bool_decide (action ∈ [ResilienceFence; ResilienceFailover; ResilienceFailback]).
Definition moves_traffic (action : string) : bool :=
  bool_decide (action ∈ [ResilienceFailover; ResilienceFailback]).

(* sdk/resilience.go, lines 350-407: ValidateResiliencePlan *)
Definition check_stage (knownClasses : list string) (seen : list ResilienceStage) (s : ResilienceStage) : list gerror :=
  let id := GStr (ID s) in let action := GStr (Action s) in
  [validateID "resilience stage ID" (ID s);
   fail_if (negb (validResilienceAction (Action s))) (errorf "resilience stage %q has invalid action %q" [id; action]);
   fail_if (negb (Idempotent s)) (errorf "resilience stage %q must be idempotent for interruption-safe resume" [id]);
   fail_if (bool_decide (DataClasses s = [])) (errorf "resilience stage %q must name at least one data class" [id])]
  ++ with_seen (λ seen c,
       [fail_if (negb (bool_decide (c ∈ knownClasses)))
          (errorf "resilience stage %q references unknown data class %q" [id; GStr c]);
        fail_if (bool_decide (c ∈ seen)) (errorf "resilience stage %q contains duplicate data class %q" [id; GStr c])])
       [] (DataClasses s)
  ++ [fail_if (negb (bool_decide (Destination s = "")) && negb (validRecoveryDestination (Destination s)))
        (errorf "resilience stage %q has invalid destination %q" [id; GStr (Destination s)]);
      fail_if (negb (bool_decide (ApprovalReference s = "")) && bad_reference (ApprovalReference s))
        (errorf "resilience stage %q approval reference must be non-empty and single-line" [id]);
      fail_if (negb (bool_decide (ReconciliationReference s = "")) && bad_reference (ReconciliationReference s))
        (errorf "resilience stage %q reconciliation reference must be non-empty and single-line" [id]);
      fail_if (negb (bool_decide (ApprovalReference s = "")) && negb (RequiresApproval s))
        (errorf "resilience stage %q cannot bind an approval reference without requiring approval" [id]);
      fail_if (negb (bool_decide (ReconciliationReference s = "")) && negb (RequiresReconciliation s))
        (errorf "resilience stage %q cannot bind a reconciliation reference without requiring reconciliation" [id]);
      fail_if (RequiresSingleWriter s && negb (moves_writer (Action s)))
        (errorf "resilience stage %q cannot require single-writer protection for action %q" [id; action]);
      fail_if (RequiresSplitBrainCheck s && negb (moves_writer (Action s)))
        (errorf "resilience stage %q cannot require split-brain verification for action %q" [id; action]);
      fail_if (RequiresStaleOriginCheck s && negb (moves_traffic (Action s)))
        (errorf "resilience stage %q cannot require stale-origin verification for action %q" [id; action]);
      fail_if (RequiresReconciliation s && negb (bool_decide (Action s = ResilienceFailback)))
        (errorf "resilience stage %q cannot require reconciliation for action %q" [id; action]);
      fail_if (bool_decide (Action s = ResilienceFailback)
               && negb (RequiresApproval s && RequiresSingleWriter s && RequiresSplitBrainCheck s
                        && RequiresStaleOriginCheck s && RequiresReconciliation s
                        && negb (bool_decide (ApprovalReference s = ""))
                        && negb (bool_decide (ReconciliationReference s = ""))))
        (errorf "resilience failback stage %q must require approval, single-writer, split-brain, stale-origin, and reconciliation checks with bound admission references" [id]);
      fail_if (bool_decide (ID s ∈ ID <$> seen)) (errorf "duplicate resilience stage %q" [id])].

(* sdk/resilience.go, lines 408-422: ValidateResiliencePlan *)
Definition check_stage_dependencies (stages : list ResilienceStage) (s : ResilienceStage) : list gerror :=
  let id := GStr (ID s) in
  with_seen (λ seen d,
    [fail_if (negb (bool_decide (d ∈ ID <$> stages)))
       (errorf "resilience stage %q depends on unknown stage %q" [id; GStr d]);
     fail_if (bool_decide (d = ID s)) (errorf "resilience stage %q cannot depend on itself" [id]);
     fail_if (bool_decide (d ∈ seen)) (errorf "resilience stage %q contains duplicate dependency %q" [id; GStr d])])
    [] (DependsOn s).

Import ResiliencePlan.

(* sdk/resilience.go, lines 331-428: ValidateResiliencePlan *)
Definition ValidateResiliencePlan (plan : ResiliencePlan) (resilience : ResilienceIntent) : gerror :=
  errors_Join (
    [fail_if (blank (AdapterID plan)) (ErrNew "resilience plan adapter ID is required");
     fail_if (bad_reference (FixtureID plan)) (ErrNew "resilience plan fixture ID is required and must be single-line");
     fail_if (bad_reference (OwnershipMarker plan))
       (ErrNew "resilience plan ownership marker is required and must be single-line");
     fail_if (bool_decide (Stages plan = [])) (ErrNew "resilience plan must contain at least one stage")]
    ++ with_seen (check_stage (DataClassIntent.Name <$> ResilienceIntent.DataClasses resilience)) [] (Stages plan)
    ++ (Stages plan ≫= check_stage_dependencies (Stages plan))
    ++ [resiliencePlanCycles (Stages plan);
        fail_if (bool_decide (RequiredProofs plan = [])) (ErrNew "resilience plan must declare required proofs")]).
End plan.

(** ** Execution requests *)

(* sdk/resilience_lifecycle.go, lines 423-430: findResilienceStage *)
Definition findResilienceStage (plan : ResiliencePlan) (id : string) : option ResilienceStage :=
  find (λ s, bool_decide (ResilienceStage.ID s = id)) (ResiliencePlan.Stages plan).

(* sdk/resilience.go, lines 104-109: ResilienceAdmissionError *)
Definition ResilienceAdmissionError (stage : ResilienceStage) (field reason : string) : error :=
  ErrTyped "ResilienceAdmissionError"
    [GStr (ResilienceStage.ID stage); GStr (ResilienceStage.Action stage); GStr field; GStr reason].

Section execution.
Import ResilienceExecutionRequest.

Definition check_execution_references (id_name message : string) (m : gmap string string) : gerror :=
  first_error (λ kv : string * string,
    validateID id_name kv.1 ;;? fail_if (bad_reference kv.2) (errorf message [GStr kv.1])) (map_to_list m).

(* sdk/resilience.go, lines 430-497: ValidateResilienceExecutionRequest *)
Definition ValidateResilienceExecutionRequest (request : ResilienceExecutionRequest) : gerror :=
  fail_if (blank (StageID request)) (ErrNew "resilience execution stage ID is required")
  ;;? fail_if (blank (IdempotencyKey request)) (ErrNew "resilience execution idempotency key is required")
  ;;? fail_if (blank (FixtureID request)) (ErrNew "resilience execution fixture ID is required")
  ;;? fail_if (blank (OwnershipMarker request)) (ErrNew "resilience execution ownership marker is required")
  ;;? fail_if (multiline (FixtureID request)) (ErrNew "resilience execution fixture ID must be single-line")
  ;;? fail_if (multiline (OwnershipMarker request)) (ErrNew "resilience execution ownership marker must be single-line")
  ;;? fail_if (multiline (ApprovalReference request +:+ ReconciliationReference request))
        (ErrNew "resilience execution approval and reconciliation references must be single-line")
  ;;? check_execution_references "resilience resource reference data class"
        "resilience resource reference for data class %q must be non-empty and single-line" (ResourceReferences request)
  ;;? check_execution_references "resilience backup reference data class"
        "resilience backup reference for data class %q must be non-empty and single-line" (BackupReferences request)
  ;;? match findResilienceStage (Plan request) (StageID request) with
      | None => Some (errorf "resilience execution references unknown stage %q" [GStr (StageID request)])
      | Some stage =>
          let plan := Plan request in
          let denied := ResilienceAdmissionError stage in
          let id := GStr (ResilienceStage.ID stage) in
          fail_if (bad_reference (ResiliencePlan.FixtureID plan))
            (denied "fixture" "compiled plan fixture identity is missing or unsafe")
          ;;? fail_if (negb (bool_decide (FixtureID request = ResiliencePlan.FixtureID plan)))
                (denied "fixture" "fixture identity does not match the compiled plan")
          ;;? fail_if (bad_reference (ResiliencePlan.OwnershipMarker plan))
                (denied "ownership" "compiled plan ownership marker is missing or unsafe")
          ;;? fail_if (negb (bool_decide (OwnershipMarker request = ResiliencePlan.OwnershipMarker plan)))
                (denied "ownership" "ownership marker does not match the compiled plan")
          ;;? fail_if (ResilienceStage.RequiresApproval stage && blank (ApprovalReference request))
                (errorf "resilience stage %q requires an approval reference" [id])
          ;;? fail_if (negb (bool_decide (ResilienceStage.ApprovalReference stage = ""))
                       && negb (bool_decide (ApprovalReference request = ResilienceStage.ApprovalReference stage)))
                (denied "approval" "approval reference does not match the compiled plan")
          ;;? fail_if (ResilienceStage.RequiresReconciliation stage && blank (ReconciliationReference request))
                (errorf "resilience stage %q requires a reconciliation reference" [id])
          ;;? fail_if (negb (bool_decide (ResilienceStage.ReconciliationReference stage = ""))
                       && negb (bool_decide (ReconciliationReference request = ResilienceStage.ReconciliationReference stage)))
                (denied "reconciliation" "reconciliation reference does not match the compiled plan")
      end.
End execution.
