(* ===== verification/ResiliencePlan.v ===== *)
(** * The recovery graph compiler (sdk/resilience_plan.go)

    [CompileResiliencePlan]: the stages of a recovery and what each one waits
    for, from the capabilities of an adapter and the data classes of an
    architecture.  [append] is list append; the two loops over the data classes
    are folds over what they build. *)

From S2P Require Import Prelude GoStrings Regex GoEncoding Dfs Sdk Admission Architecture Resilience.

Local Open Scope Z_scope.

(* sdk/resilience_plan.go, lines 307-312: resilienceCapabilityUnavailable *)
Definition resilienceCapabilityUnavailable (adapterID operation dataClass reason : string) : error :=
  ErrTyped "ResilienceCapabilityError"
    [GStr adapterID; GStr operation; GStr dataClass; GStr "unavailable";
     GStr (if blank reason then "provider adapter does not expose this operation" else reason)].

(* sdk/resilience_plan.go, lines 259-266: resilienceHasGlobalAction *)
Definition resilienceHasGlobalAction (d : ResilienceAdapterDescriptor) (action : string) : bool :=
  bool_decide (action ∈ ResilienceAdapterDescriptor.Capabilities d).

(* sdk/resilience_plan.go, lines 247-257: resilienceHasAction *)
Definition resilienceHasAction (d : ResilienceAdapterDescriptor) (c : ResilienceDataClassCapability) (action : string) : bool :=
  resilienceHasGlobalAction d action && bool_decide (action ∈ Capability.Actions c).

(* sdk/resilience_plan.go, lines 268-275: resilienceRebuildOnly *)
Definition resilienceRebuildOnly (method : string) : bool :=
  bool_decide (ToLower (TrimSpace method) ∈ ["none"; "rebuild"; "recreate"]).

(* sdk/resilience_plan.go, lines 281-283: resilienceRequiresFailover *)
Definition resilienceRequiresFailover (destination : string) : bool :=
  bool_decide (destination = RecoveryAlternateRegion) || bool_decide (destination = RecoveryAlternateProvider).

(* sdk/resilience_plan.go, lines 277-279: resilienceRequiresFence *)
Definition resilienceRequiresFence (destination : string) : bool :=
  bool_decide (destination = RecoverySameRegion) || resilienceRequiresFailover destination.

(** [ReplaceAllString] of [[^a-z0-9]+] by a dash: a run of other bytes is one
    dash.  A multi-byte rune is a run of such bytes. *)
Fixpoint dash_runs (in_run : bool) (l : list ascii) : list ascii :=
  match l with
  | [] => []
  | c :: l =>
      if alnum_lower c then c :: dash_runs false l
      else if in_run then dash_runs true l
      else "-"%char :: dash_runs true l
  end.

(** [strings.Trim(s, "-")]. *)
Fixpoint drop_dashes (l : list ascii) : list ascii :=
  match l with
  | c :: l1 => if bool_decide (c = "-"%char) then drop_dashes l1 else l
  | [] => []
  end.

(** The names that reach it are stable IDs, so [ToLower] only sees ASCII. *)
(* sdk/resilience_plan.go, lines 285-288: resilienceStageSuffix *)
Definition resilienceStageSuffix (name : string) : string :=
  of_bytes (reverse (drop_dashes (reverse (drop_dashes (dash_runs false (go_bytes (ToLower (TrimSpace name)))))))).

(* sdk/resilience_plan.go, lines 290-305: uniqueResilienceStrings *)
Definition uniqueResilienceStrings (values : list string) : list string :=
  sort_strings (dedup [] (filter (λ v, blank v = false) values)).

(** The first destination, safest first, that was requested and that every data
    class supports. *)
(* sdk/resilience_plan.go, lines 215-236: commonRecoveryDestination *)
Definition commonRecoveryDestination (requested : list string) (dataClasses : list DataClassIntent)
    (capabilities : gmap string ResilienceDataClassCapability) : result string :=
  let supported destination :=
    bool_decide (destination ∈ requested)
    && forallb (λ d, bool_decide (destination ∈
         Capability.Destinations (default Capability.zero (capabilities !! DataClassIntent.Name d)))) dataClasses in
  match find supported [RecoveryAlternateProvider; RecoveryAlternateRegion; RecoverySameRegionIsolated; RecoverySameRegion] with
  | Some destination => Ok destination
  | None => Err (resilienceCapabilityUnavailable "core" ResilienceRestore "runtime"
      "no requested recovery destination is supported by every selected data class")
  end.

(* sdk/resilience_plan.go, lines 197-204: resilienceReferenceKeys *)
Definition resilienceReferenceKeys (references : gmap string string) : list string :=
  sort_strings (map_to_list references).*1.

Section bind.
Import ResilienceStage.

Definition set_approval (reference : string) (s : ResilienceStage) : ResilienceStage :=
  {| ID := ID s; Action := Action s; DataClasses := DataClasses s; Destination := Destination s;
     DependsOn := DependsOn s; Idempotent := Idempotent s; RequiresApproval := RequiresApproval s;
     ApprovalReference := reference; ReconciliationReference := ReconciliationReference s;
     RequiresSingleWriter := RequiresSingleWriter s; RequiresSplitBrainCheck := RequiresSplitBrainCheck s;
     RequiresStaleOriginCheck := RequiresStaleOriginCheck s; RequiresReconciliation := RequiresReconciliation s |}.

Definition set_reconciliation (reference : string) (s : ResilienceStage) : ResilienceStage :=
  {| ID := ID s; Action := Action s; DataClasses := DataClasses s; Destination := Destination s;
     DependsOn := DependsOn s; Idempotent := Idempotent s; RequiresApproval := RequiresApproval s;
     ApprovalReference := ApprovalReference s; ReconciliationReference := reference;
     RequiresSingleWriter := RequiresSingleWriter s; RequiresSplitBrainCheck := RequiresSplitBrainCheck s;
     RequiresStaleOriginCheck := RequiresStaleOriginCheck s; RequiresReconciliation := RequiresReconciliation s |}.

(** [plan.Stages[resilienceStageIndex(plan, id)]] is the first stage with the
    identifier; [None] when the index is negative. *)
(* sdk/resilience_plan.go, lines 206-213: resilienceStageIndex *)
Fixpoint alter_stage (f : ResilienceStage → ResilienceStage) (id : string) (stages : list ResilienceStage)
    : option (list ResilienceStage) :=
  match stages with
  | [] => None
  | s :: stages =>
      if bool_decide (ID s = id) then Some (f s :: stages)
      else cons s <$> alter_stage f id stages
  end.

(** One of the two loops. *)
Fixpoint bind_references (set : string → ResilienceStage → ResilienceStage) (unknown : string)
    (references : gmap string string) (keys : list string) (stages : list ResilienceStage)
    : result (list ResilienceStage) :=
  match keys with
  | [] => Ok stages
  | id :: keys =>
      match alter_stage (set (default "" (references !! id))) id stages with
      | None => Err (errorf unknown [GStr id])
      | Some stages => bind_references set unknown references keys stages
      end
  end.

(* sdk/resilience_plan.go, lines 179-195: bindResilienceAdmissionReferences *)
Definition bindResilienceAdmissionReferences (stages : list ResilienceStage) (request : ResiliencePlanRequest)
    : result (list ResilienceStage) :=
  let approvals := ResiliencePlanRequest.ApprovalReferences request in
  let reconciliations := ResiliencePlanRequest.ReconciliationReferences request in
  stages ← bind_references set_approval "resilience approval reference targets unknown stage %q" approvals
             (resilienceReferenceKeys approvals) stages;
  bind_references set_reconciliation "resilience reconciliation reference targets unknown stage %q" reconciliations
    (resilienceReferenceKeys reconciliations) stages.
End bind.

(** ** The stages *)

Definition plan_stage (destination id action : string) (classes depends : list string) (approval : bool) : ResilienceStage :=
  {| ResilienceStage.ID := id; ResilienceStage.Action := action; ResilienceStage.DataClasses := classes;
     ResilienceStage.Destination := destination; ResilienceStage.DependsOn := depends;
     ResilienceStage.Idempotent := true; ResilienceStage.RequiresApproval := approval;
     ResilienceStage.ApprovalReference := ""; ResilienceStage.ReconciliationReference := "";
     ResilienceStage.RequiresSingleWriter := false; ResilienceStage.RequiresSplitBrainCheck := false;
     ResilienceStage.RequiresStaleOriginCheck := false; ResilienceStage.RequiresReconciliation := false |}.

(** A stage that moves the writer: its protections. *)
Definition guarded (staleOrigin reconciliation : bool) (s : ResilienceStage) : ResilienceStage :=
  {| ResilienceStage.ID := ResilienceStage.ID s; ResilienceStage.Action := ResilienceStage.Action s;
     ResilienceStage.DataClasses := ResilienceStage.DataClasses s;
     ResilienceStage.Destination := ResilienceStage.Destination s;
     ResilienceStage.DependsOn := ResilienceStage.DependsOn s;
     ResilienceStage.Idempotent := ResilienceStage.Idempotent s;
     ResilienceStage.RequiresApproval := ResilienceStage.RequiresApproval s;
     ResilienceStage.ApprovalReference := ResilienceStage.ApprovalReference s;
     ResilienceStage.ReconciliationReference := ResilienceStage.ReconciliationReference s;
     ResilienceStage.RequiresSingleWriter := true; ResilienceStage.RequiresSplitBrainCheck := true;
     ResilienceStage.RequiresStaleOriginCheck := staleOrigin;
     ResilienceStage.RequiresReconciliation := reconciliation |}.

(** What a loop appends to: the stages and the required proofs. *)
Record draft := { stages : list ResilienceStage; proofs : list string }.

Definition add_stage (d : draft) (s : ResilienceStage) (ps : list string) : draft :=
  {| stages := stages d ++ [s]; proofs := proofs d ++ ps |}.

Section compile.
Context (d : ResilienceAdapterDescriptor) (capabilities : gmap string ResilienceDataClassCapability).
Context (destination : string).

Abbreviation adapter := (ResilienceAdapterDescriptor.ID d).
Definition capability_of (c : DataClassIntent) : ResilienceDataClassCapability :=
  default Capability.zero (capabilities !! DataClassIntent.Name c).
Definition backup_id (c : DataClassIntent) : string := "backup-" +:+ resilienceStageSuffix (DataClassIntent.Name c).
Definition restore_id (c : DataClassIntent) : string := "restore-" +:+ resilienceStageSuffix (DataClassIntent.Name c).
Definition integrity_id (c : DataClassIntent) : string := "integrity-" +:+ resilienceStageSuffix (DataClassIntent.Name c).
Definition needs_backup (c : DataClassIntent) : bool := negb (resilienceRebuildOnly (DataClassIntent.BackupMethod c)).

(* sdk/resilience_plan.go, lines 55-75: CompileResiliencePlan *)
Fixpoint backup_stages (classes : list DataClassIntent) (plan : draft) : result draft :=
  match classes with
  | [] => Ok plan
  | c :: classes =>
      let name := DataClassIntent.Name c in
      fail_if (bool_decide (resilienceStageSuffix name = ""))
        (errorf "resilience data class %q cannot produce a stable stage ID" [GStr name]) ;;!
      if needs_backup c then
        fail_if (negb (resilienceHasAction d (capability_of c) ResilienceBackup))
          (resilienceCapabilityUnavailable adapter ResilienceBackup name
             "selected data class requires a backup operation") ;;!
        backup_stages classes
          (add_stage plan (plan_stage destination (backup_id c) ResilienceBackup [name] [] false) ["backup:" +:+ name])
      else backup_stages classes plan
  end.

(* sdk/resilience_plan.go, lines 92-123: CompileResiliencePlan *)
Fixpoint restore_stages (fenced : list string) (classes : list DataClassIntent) (plan : draft) : result draft :=
  match classes with
  | [] => Ok plan
  | c :: classes =>
      let name := DataClassIntent.Name c in
      fail_if (negb (resilienceHasAction d (capability_of c) ResilienceRestore))
        (resilienceCapabilityUnavailable adapter ResilienceRestore name
           "selected data class has no restore or reconstruction operation") ;;!
      let plan := add_stage plan
        (plan_stage destination (restore_id c) ResilienceRestore [name]
           ((if needs_backup c then [backup_id c] else []) ++ fenced)
           (bool_decide (destination = RecoverySameRegion) || bool_decide (name = "queue")))
        ["restore:" +:+ name] in
      fail_if (negb (resilienceHasAction d (capability_of c) ResilienceIntegrityCheck))
        (resilienceCapabilityUnavailable adapter ResilienceIntegrityCheck name
           "selected data class has no integrity verification operation") ;;!
      restore_stages fenced classes
        (add_stage plan (plan_stage destination (integrity_id c) ResilienceIntegrityCheck [name] [restore_id c] false)
           ["integrity:" +:+ name])
  end.

Definition backup_ids (classes : list DataClassIntent) : list string := backup_id <$> filter needs_backup classes.

(* sdk/resilience_plan.go, lines 77-90: CompileResiliencePlan *)
Definition fence_stage (classes : list DataClassIntent) (plan : draft) : result draft :=
  if resilienceRequiresFence destination then
    fail_if (negb (resilienceHasGlobalAction d ResilienceFence))
      (resilienceCapabilityUnavailable adapter ResilienceFence "runtime"
         "selected recovery destination requires fencing") ;;!
    Ok (add_stage plan
      (guarded false false (plan_stage destination "fence-runtime" ResilienceFence (DataClassIntent.Name <$> classes)
         (backup_ids classes) true))
      ["fencing"; "single-writer"; "split-brain"])
  else Ok plan.

(* sdk/resilience_plan.go, lines 125-137: CompileResiliencePlan *)
Definition failover_stage (classes : list DataClassIntent) (plan : draft) : result draft :=
  if resilienceRequiresFailover destination then
    fail_if (negb (resilienceHasGlobalAction d ResilienceFailover))
      (resilienceCapabilityUnavailable adapter ResilienceFailover "runtime"
         "selected recovery destination requires traffic failover") ;;!
    Ok (add_stage plan
      (guarded true false (plan_stage destination "failover-runtime" ResilienceFailover (DataClassIntent.Name <$> classes)
         (integrity_id <$> classes) true))
      ["failover"; "single-writer"; "split-brain"; "stale-origin"])
  else Ok plan.
(** What the last stages wait for so far. *)
Definition before_failback (classes : list DataClassIntent) : list string :=
  if resilienceRequiresFailover destination then ["failover-runtime"] else integrity_id <$> classes.

Context (request : ResiliencePlanRequest).

(** A requested failback. *)
Definition failback_requested : bool :=
  bool_decide (is_Some (ResiliencePlanRequest.ApprovalReferences request !! "failback-runtime")).

(* sdk/resilience_plan.go, lines 138-157: CompileResiliencePlan *)
Definition failback_stage (classes : list DataClassIntent) (plan : draft) : result draft :=
  if failback_requested then
    fail_if (negb (resilienceRequiresFailover destination))
      (resilienceCapabilityUnavailable adapter ResilienceFailback "runtime"
         "failback requires an alternate-region or alternate-provider recovery destination") ;;!
    fail_if (negb (resilienceHasGlobalAction d ResilienceFailback))
      (resilienceCapabilityUnavailable adapter ResilienceFailback "runtime"
         "provider adapter has not opted into controlled failback") ;;!
    fail_if (blank (default "" (ResiliencePlanRequest.ReconciliationReferences request !! "failback-runtime")))
      (ErrNew "resilience failback requires a reconciliation reference") ;;!
    Ok (add_stage plan
      (guarded true true (plan_stage destination "failback-runtime" ResilienceFailback (DataClassIntent.Name <$> classes)
         (before_failback classes) true))
      ["failback"; "reconciliation"; "single-writer"; "split-brain"; "stale-origin"])
  else Ok plan.

Definition final_stages (classes : list DataClassIntent) : list string :=
  if failback_requested then ["failback-runtime"] else before_failback classes.

(* sdk/resilience_plan.go, lines 158-165: CompileResiliencePlan *)
Definition cleanup_stage (classes : list DataClassIntent) (plan : draft) : result draft :=
  fail_if (negb (resilienceHasGlobalAction d ResilienceCleanup))
    (resilienceCapabilityUnavailable adapter ResilienceCleanup "runtime"
       "recovery cleanup is not implemented by the provider adapter") ;;!
  Ok (add_stage plan
    (plan_stage destination "cleanup-runtime" ResilienceCleanup (DataClassIntent.Name <$> classes)
       (final_stages classes) false) ["cleanup"]).

(* sdk/resilience_plan.go, lines 47-165: CompileResiliencePlan *)
Definition compile_stages (classes : list DataClassIntent) : result draft :=
  plan ← backup_stages classes {| stages := []; proofs := [] |};
  plan ← fence_stage classes plan;
  let fenced := if resilienceRequiresFence destination then ["fence-runtime"] else [] in
  plan ← restore_stages fenced classes plan;
  plan ← failover_stage classes plan;
  plan ← failback_stage classes plan;
  cleanup_stage classes plan.
End compile.

Definition data_class_le (a b : DataClassIntent) : Prop := String.le (DataClassIntent.Name a) (DataClassIntent.Name b).
#[export] Instance data_class_le_dec a b : base.Decision (data_class_le a b).
Proof. unfold data_class_le. apply _. Defined.

(** A data class the adapter cannot recover. *)
(* sdk/resilience_plan.go, lines 33-41: CompileResiliencePlan *)
Definition check_data_class (adapter : string) (capabilities : gmap string ResilienceDataClassCapability)
    (c : DataClassIntent) : gerror :=
  let name := DataClassIntent.Name c in
  match capabilities !! name with
  | None => Some (resilienceCapabilityUnavailable adapter ResilienceRestore name
                    "data class is not declared by the provider adapter")
  | Some capability =>
      fail_if (bool_decide (Capability.Status capability ∈ refused_statuses))
        (resilienceCapabilityUnavailable adapter ResilienceRestore name (Capability.Reason capability))
  end.

Section plan.
Context (url_Parse : string → result url).

(* sdk/resilience_plan.go, lines 16-174: CompileResiliencePlan *)
Definition CompileResiliencePlan (d : ResilienceAdapterDescriptor) (request : ResiliencePlanRequest)
    : result ResiliencePlan :=
  let architecture := ResiliencePlanRequest.Architecture request in
  let resilience := ArchitectureIntent.Resilience architecture in
  let classes := sort_by data_class_le (ResilienceIntent.DataClasses resilience) in
  let capabilities := by_id Capability.Name (ResilienceAdapterDescriptor.DataClasses d) in
  err_wrap (wrapf "validate resilience adapter descriptor: %w" []) (ValidateResilienceAdapterDescriptor d) ;;!
  err_wrap (wrapf "validate resilience plan request: %w" []) (ValidateResiliencePlanRequest url_Parse request) ;;!
  fail_if (negb (bool_decide (ResilienceAdapterDescriptor.Provider d = ArchitectureIntent.Provider architecture)))
    (errorf "resilience adapter provider %q does not match architecture provider %q"
       [GStr (ResilienceAdapterDescriptor.Provider d); GStr (ArchitectureIntent.Provider architecture)]) ;;!
  first_error (check_data_class (ResilienceAdapterDescriptor.ID d) capabilities) classes ;;!
  destination ← map_err (wrapf "select resilience recovery destination: %w" [])
    (commonRecoveryDestination (ResilienceIntent.RecoveryDestinations resilience) classes capabilities);
  built ← compile_stages d capabilities destination request classes;
  bound ← bindResilienceAdmissionReferences (stages built) request;
  let plan :=
    {| ResiliencePlan.AdapterID := ResilienceAdapterDescriptor.ID d;
       ResiliencePlan.FixtureID := ResiliencePlanRequest.FixtureID request;
       ResiliencePlan.OwnershipMarker := ResiliencePlanRequest.OwnershipMarker request;
       ResiliencePlan.Stages := bound;
       ResiliencePlan.RequiredProofs := uniqueResilienceStrings (proofs built) |} in
  err_wrap (wrapf "validate compiled resilience plan: %w" []) (ValidateResiliencePlan plan resilience) ;;!
  Ok plan.
End plan.
