(* ===== verification/ResilienceClaims.v ===== *)
(** * What a compiled recovery plan promises

    [CompileResiliencePlan] builds one fixed blueprint; only the admission
    references are bound afterwards.  The order of a recovery is read off it. *)

From S2P Require Import Prelude GoStrings Regex GoEncoding Dfs Sdk Admission Architecture Resilience ResiliencePlan.

Import ResilienceStage.

(** ** The blueprint *)

(** A stage before its references are bound. *)
Definition unbound (s : ResilienceStage) : ResilienceStage := set_reconciliation "" (set_approval "" s).

Section blueprint.
Context (destination : string) (failback : bool) (classes : list DataClassIntent).

Abbreviation plan_stage := (plan_stage destination).
Abbreviation name := DataClassIntent.Name.

Definition backup_of (c : DataClassIntent) := plan_stage (backup_id c) ResilienceBackup [name c] [] false.

Definition fenced : list string := if resilienceRequiresFence destination then ["fence-runtime"] else [].

Definition restore_of (c : DataClassIntent) :=
  plan_stage (restore_id c) ResilienceRestore [name c] ((if needs_backup c then [backup_id c] else []) ++ fenced)
    (bool_decide (destination = RecoverySameRegion) || bool_decide (name c = "queue")).

Definition integrity_of (c : DataClassIntent) :=
  plan_stage (integrity_id c) ResilienceIntegrityCheck [name c] [restore_id c] false.

Definition fence_of :=
  guarded false false (plan_stage "fence-runtime" ResilienceFence (name <$> classes) (backup_ids classes) true).
Definition failover_of :=
  guarded true false (plan_stage "failover-runtime" ResilienceFailover (name <$> classes) (integrity_id <$> classes) true).
Definition failback_of :=
  guarded true true (plan_stage "failback-runtime" ResilienceFailback (name <$> classes)
    (before_failback destination classes) true).
Definition cleanup_of :=
  plan_stage "cleanup-runtime" ResilienceCleanup (name <$> classes)
    (if failback then ["failback-runtime"] else before_failback destination classes) false.

Definition blueprint : list ResilienceStage :=
  (backup_of <$> filter needs_backup classes)
  ++ (if resilienceRequiresFence destination then [fence_of] else [])
  ++ (classes ≫= λ c, [restore_of c; integrity_of c])
  ++ (if resilienceRequiresFailover destination then [failover_of] else [])
  ++ (if failback then [failback_of] else [])
  ++ [cleanup_of].
End blueprint.

(** ** The compiler builds it *)

Section compile.
Context (d : ResilienceAdapterDescriptor) (capabilities : gmap string ResilienceDataClassCapability).
Context (destination : string) (request : ResiliencePlanRequest).

(** The operations a data class needs are there. *)
Definition recoverable (c : DataClassIntent) : Prop :=
  (needs_backup c = true → resilienceHasAction d (capability_of capabilities c) ResilienceBackup = true) ∧
  resilienceHasAction d (capability_of capabilities c) ResilienceRestore = true ∧
  resilienceHasAction d (capability_of capabilities c) ResilienceIntegrityCheck = true.

Lemma backup_stages_Ok classes plan plan' :
  backup_stages d capabilities destination classes plan = Ok plan' →
  stages plan' = stages plan ++ (backup_of destination <$> filter needs_backup classes) ∧
  Forall (λ c, needs_backup c = true → resilienceHasAction d (capability_of capabilities c) ResilienceBackup = true) classes.
Proof.
  revert plan. induction classes as [|c classes IH]; intros plan; cbn [backup_stages].
  { intros [= <-]. by rewrite app_nil_r. }
  intros [_ H]%lift_check_Ok. rewrite filter_cons. destruct (needs_backup c) eqn:Hn.
  - apply lift_check_Ok in H as [Hc H]. rewrite decide_True by done. apply IH in H as [-> Hall].
    cbn [stages add_stage]. rewrite <-app_assoc. split; [done|]. constructor; [|done].
    intros _. by apply fail_if_None, negb_false_iff in Hc.
  - rewrite decide_False by (by intros []). apply IH in H as [-> Hall]. split; [done|]. constructor; [congruence|done].
Qed.

Lemma restore_stages_Ok classes plan plan' :
  restore_stages d capabilities destination (fenced destination) classes plan = Ok plan' →
  stages plan' = stages plan ++ (classes ≫= λ c, [restore_of destination c; integrity_of destination c]) ∧
  Forall (λ c, resilienceHasAction d (capability_of capabilities c) ResilienceRestore = true ∧
               resilienceHasAction d (capability_of capabilities c) ResilienceIntegrityCheck = true) classes.
Proof.
  revert plan. induction classes as [|c classes IH]; intros plan; cbn [restore_stages].
  { intros [= <-]. by rewrite app_nil_r. }
  intros [Hr [Hi H]%lift_check_Ok]%lift_check_Ok. apply IH in H as [-> Hall]. cbn [stages add_stage]. rewrite <-!app_assoc.
  split; [done|]. constructor; [|done]. apply fail_if_None, negb_false_iff in Hr. by apply fail_if_None, negb_false_iff in Hi.
Qed.

(** One stage, or none when the condition does not hold. *)
Lemma add_stage_if (b : bool) plan (check : gerror) s ps plan' :
  (if b then check ;;! Ok (add_stage plan s ps) else Ok plan) = Ok plan' →
  stages plan' = stages plan ++ (if b then [s] else []).
Proof. destruct b; [intros [_ [= <-]]%lift_check_Ok; done|]. intros [= <-]. by rewrite app_nil_r. Qed.

Lemma failback_stage_Ok classes plan plan' :
  failback_stage d destination request classes plan = Ok plan' →
  stages plan' = stages plan ++ (if failback_requested request then [failback_of destination classes] else []) ∧
  (failback_requested request = true → resilienceRequiresFailover destination = true).
Proof.
  unfold failback_stage. destruct (failback_requested request).
  - intros [Hf [_ [_ [= <-]]%lift_check_Ok]%lift_check_Ok]%lift_check_Ok. split; [done|].
    intros _. apply fail_if_None in Hf. by apply negb_false_iff in Hf.
  - intros [= <-]. by rewrite app_nil_r.
Qed.

Lemma compile_stages_Ok classes plan :
  compile_stages d capabilities destination request classes = Ok plan →
  stages plan = blueprint destination (failback_requested request) classes ∧
  (failback_requested request = true → resilienceRequiresFailover destination = true) ∧ Forall recoverable classes.
Proof.
  unfold compile_stages. intros H.
  destruct (backup_stages _ _ _ _ _) as [p1|] eqn:H1; [|done]. apply backup_stages_Ok in H1 as [H1 Hbk]. cbn [mbind result_bind] in H.
  destruct (fence_stage _ _ _ _) as [p2|] eqn:H2; [|done]. apply add_stage_if in H2. cbn [mbind result_bind] in H.
  destruct (restore_stages _ _ _ _ _ _) as [p3|] eqn:H3; [|done]. apply restore_stages_Ok in H3 as [H3 Hrs]. cbn [mbind result_bind] in H.
  destruct (failover_stage _ _ _ _) as [p4|] eqn:H4; [|done]. apply add_stage_if in H4. cbn [mbind result_bind] in H.
  destruct (failback_stage _ _ _ _ _) as [p5|] eqn:H5; [|done]. apply failback_stage_Ok in H5 as [H5 Hfb]. cbn [mbind result_bind] in H.
  apply lift_check_Ok in H as [_ [= <-]]. split_and!; [|done|].
  - cbn [stages add_stage]. rewrite H5, H4, H3, H2, H1. unfold blueprint. simpl. by rewrite <-!app_assoc.
  - rewrite Forall_forall in *. intros c Hc. split; [by apply Hbk|by apply Hrs].
Qed.
End compile.

(** ** Binding keeps the blueprint *)

Lemma unbound_approval r s : unbound (set_approval r s) = unbound s.
Proof. done. Qed.
Lemma unbound_reconciliation r s : unbound (set_reconciliation r s) = unbound s.
Proof. done. Qed.

Lemma alter_stage_unbound f id l l' :
  (∀ s, unbound (f s) = unbound s) → alter_stage f id l = Some l' → unbound <$> l' = unbound <$> l.
Proof.
  intros Hf. revert l'. induction l as [|s l IH]; intros l'; cbn [alter_stage]; [done|].
  case_bool_decide; [intros [= <-]; by rewrite !fmap_cons, Hf|].
  destruct (alter_stage f id l) as [l1|]; [|done]. intros [= <-]. by rewrite !fmap_cons, (IH l1).
Qed.

Lemma bind_references_unbound set unknown references keys l l' :
  (∀ r s, unbound (set r s) = unbound s) →
  bind_references set unknown references keys l = Ok l' → unbound <$> l' = unbound <$> l.
Proof.
  intros Hset. revert l. induction keys as [|id keys IH]; intros l; simpl; [by intros [= <-]|].
  destruct (alter_stage _ id l) as [l1|] eqn:Ha; [|done]. intros H.
  rewrite (IH _ H). eapply alter_stage_unbound; [|exact Ha]. intros s. apply Hset.
Qed.

Lemma bind_unbound stages request bound :
  bindResilienceAdmissionReferences stages request = Ok bound → unbound <$> bound = unbound <$> stages.
Proof.
  unfold bindResilienceAdmissionReferences. destruct (bind_references set_approval _ _ _ _) as [l1|] eqn:H1; [|done].
  cbn [mbind result_bind]. intros H2.
  rewrite (bind_references_unbound _ _ _ _ _ _ unbound_reconciliation H2).
  exact (bind_references_unbound _ _ _ _ _ _ unbound_approval H1).
Qed.

Lemma unbound_blueprint destination failback classes :
  unbound <$> blueprint destination failback classes = blueprint destination failback classes.
Proof.
  unfold blueprint. rewrite !fmap_app. f_equal; [by rewrite <-list_fmap_compose|].
  f_equal; [by destruct (resilienceRequiresFence destination)|]. f_equal.
  { induction classes as [|c classes IH]; [done|]. by rewrite !bind_cons, fmap_app, IH. }
  f_equal; [by destruct (resilienceRequiresFailover destination)|]. f_equal. by destruct failback.
Qed.

(** ** What validation establishes *)

(** [a] depends on [b] in the plan. *)
Definition waits (l : list ResilienceStage) (a b : string) : Prop := ∃ s, s ∈ l ∧ ID s = a ∧ b ∈ DependsOn s.

Section valid.
Context (l : list ResilienceStage).

Lemma stage_deps_known k d : edge (stage_deps l) k d → k ∈ ID <$> l ∧ d ∈ ID <$> l.
Proof.
  unfold edge, stage_deps. destruct (by_id ID l !! k) as [s|] eqn:E; [|set_solver].
  intros [Hd _]%list_elem_of_filter. split; by apply by_id_is_Some.
Qed.

Lemma resiliencePlanCycles_fuel : dfs (stage_deps l) (length l) (sort_strings (ID <$> l)) ≠ None.
Proof.
  assert (Hlen : length l = length (sort_strings (ID <$> l))) by (unfold sort_strings; by rewrite length_sort_by, length_fmap).
  rewrite Hlen. apply dfs_fuel; [|done]. intros k d _ Hk. rewrite elem_of_sort_strings. by apply (stage_deps_known k d).
Qed.

Lemma resiliencePlanCycles_acyclic : resiliencePlanCycles l = None → ∀ k, ¬ tc (edge (stage_deps l)) k k.
Proof.
  unfold resiliencePlanCycles. pose proof resiliencePlanCycles_fuel as Hf.
  destruct (dfs _ _ _) as [[k|order]|] eqn:E; [done| |done]. intros _ k Hk.
  apply dfs_visited in E as [Ht Hr]. apply (topological_acyclic _ _ k Ht); [|done].
  apply Hr, elem_of_sort_strings. assert (∃ d, edge (stage_deps l) k d) as [d [? _]%stage_deps_known]; [|done].
  inversion Hk; eauto.
Qed.

Lemma waits_edge a b :
  NoDup (ID <$> l) → (∀ a b, waits l a b → b ∈ ID <$> l) → waits l a b → edge (stage_deps l) a b.
Proof.
  intros Hnd Hk (s&Hs&<-&Hb). unfold edge, stage_deps. rewrite (by_id_lookup ID l s Hnd Hs).
  apply list_elem_of_filter. split; [|done]. apply by_id_is_Some, (Hk (ID s)). by exists s.
Qed.
End valid.

Lemma ValidateResiliencePlan_None plan resilience :
  ValidateResiliencePlan plan resilience = None →
  let l := ResiliencePlan.Stages plan in
  NoDup (ID <$> l) ∧ (∀ a b, waits l a b → b ∈ ID <$> l) ∧ (∀ k, ¬ tc (waits l) k k) ∧
  (∀ s, s ∈ l → Idempotent s = true ∧ DataClasses s ≠ [] ∧ NoDup (DependsOn s)).
Proof.
  intros H l. unfold ValidateResiliencePlan in H. fold l in H. apply errors_Join_None in H. rewrite !Forall_app in H.
  destruct H as (_&Hs&Hd&Hc).
  apply Forall_cons in Hc as [Hc _].
  assert (Hnd : NoDup (ID <$> l)).
  { rewrite with_seen_None in Hs. apply seen_NoDup. intros l1 s l2 Heq Hin.
    specialize (Hs l1 s l2 Heq). rewrite app_nil_r in Hin, Hs. unfold check_stage in Hs. rewrite !Forall_app, !Forall_cons in Hs.
    destruct Hs as (_&_&(_&_&_&_&_&_&_&_&_&_&Hs&_)). by apply fail_if_None, bool_decide_eq_false in Hs. }
  assert (Hdep : ∀ s, s ∈ l → NoDup (DependsOn s) ∧ ∀ b, b ∈ DependsOn s → b ∈ ID <$> l).
  { intros s Hsl. rewrite Forall_forall in Hd.
    assert (Hall : Forall (λ p, p = None) (check_stage_dependencies l s)).
    { apply Forall_forall. intros p Hp. apply Hd. apply list_elem_of_bind. by exists s. }
    unfold check_stage_dependencies in Hall. rewrite with_seen_None in Hall. split.
    - apply seen_NoDup_id. intros l1 b l2 Heq. specialize (Hall l1 b l2 Heq). rewrite !Forall_cons in Hall.
      destruct Hall as (_&_&Hb&_). by apply fail_if_None, bool_decide_eq_false in Hb.
    - intros b (l1&l2&Heq)%list_elem_of_split. specialize (Hall l1 b l2 Heq). rewrite !Forall_cons in Hall.
      destruct Hall as (Hb&_). by apply fail_if_None, negb_false_iff, bool_decide_eq_true in Hb. }
  assert (Hk : ∀ a b, waits l a b → b ∈ ID <$> l) by (intros a b (s&Hsl&_&Hb); by eapply Hdep).
  split_and!; [done|done| |].
  - intros k Hcyc. apply (resiliencePlanCycles_acyclic l Hc k).
    assert (Hsub : ∀ a b, tc (waits l) a b → tc (edge (stage_deps l)) a b); [|by apply Hsub].
    clear -Hnd Hk. induction 1 as [x y Hxy|x y z Hxy _ IH]; [by apply tc_once, waits_edge|].
    eapply tc_l; [by apply waits_edge|exact IH].
  - intros s Hsl. destruct (with_seen_each _ _ _ Hs Hsl) as [seen Hs']. unfold check_stage in Hs'.
    rewrite !Forall_app, !Forall_cons in Hs'. destruct Hs' as ((_&_&Hi&Hc'&_)&_).
    split_and!; [by apply fail_if_None, negb_false_iff in Hi|by apply fail_if_None, bool_decide_eq_false in Hc'|by apply Hdep].
Qed.

(** ** The references are bound to their stages *)

Definition bind_stage (request : ResiliencePlanRequest) (s : ResilienceStage) : ResilienceStage :=
  set_reconciliation (default "" (ResiliencePlanRequest.ReconciliationReferences request !! ID s))
    (set_approval (default "" (ResiliencePlanRequest.ApprovalReferences request !! ID s)) s).

Lemma alter_stage_exact f id l l' :
  NoDup (ID <$> l) → alter_stage f id l = Some l' →
  l' = (λ s, if bool_decide (ID s = id) then f s else s) <$> l ∧ id ∈ ID <$> l.
Proof.
  revert l'. induction l as [|s l IH]; intros l'; cbn [alter_stage]; [done|]. rewrite !fmap_cons.
  intros [Hn Hnd]%NoDup_cons. case_bool_decide as He.
  - intros [= <-]. split; [|set_solver]. f_equal.
    rewrite <-(list_fmap_id l) at 1. apply list_fmap_ext. intros i s' Hs'.
    rewrite bool_decide_eq_false_2; [done|]. intros He'. apply Hn. rewrite He, <-He'.
    apply list_elem_of_fmap_2. by eapply list_elem_of_lookup_2.
  - destruct (alter_stage f id l) as [l1|]; [|done]. intros [= <-]. destruct (IH l1 Hnd eq_refl) as [-> Hin].
    split; [done|set_solver].
Qed.

Lemma bind_references_exact set unknown references keys l l' :
  (∀ r s, ID (set r s) = ID s) → NoDup (ID <$> l) → NoDup keys → bind_references set unknown references keys l = Ok l' →
  l' = (λ s, if bool_decide (ID s ∈ keys) then set (default "" (references !! ID s)) s else s) <$> l ∧
  ∀ k, k ∈ keys → k ∈ ID <$> l.
Proof.
  intros Hset. revert l. induction keys as [|id keys IH]; intros l Hl Hk; cbn [bind_references].
  { intros [= <-]. split; [|set_solver]. rewrite <-(list_fmap_id l) at 1. done. }
  apply NoDup_cons in Hk as [Hid Hk]. destruct (alter_stage _ id l) as [l1|] eqn:Ha; [|done].
  apply alter_stage_exact in Ha as [-> Hin]; [|done]. intros H.
  assert (Hsame : ID <$> ((λ s, if bool_decide (ID s = id) then set (default "" (references !! id)) s else s) <$> l) = ID <$> l).
  { rewrite <-list_fmap_compose. apply list_fmap_ext. intros i s _. simpl. by case_bool_decide; [apply Hset|]. }
  apply IH in H as [-> Hall]; [|by rewrite Hsame|done]. rewrite Hsame in Hall. split.
  - rewrite <-list_fmap_compose. apply list_fmap_ext. intros i s _. cbn [compose].
    destruct (bool_decide (ID s = id)) eqn:E.
    + apply bool_decide_eq_true in E. rewrite Hset, bool_decide_eq_false_2 by (by rewrite E).
      rewrite (bool_decide_eq_true_2 (ID s ∈ _)) by set_solver. by rewrite E.
    + apply bool_decide_eq_false in E. destruct (bool_decide (ID s ∈ keys)) eqn:E2.
      * apply bool_decide_eq_true in E2. by rewrite bool_decide_eq_true_2 by set_solver.
      * apply bool_decide_eq_false in E2. by rewrite bool_decide_eq_false_2 by set_solver.
  - intros k [->|?]%elem_of_cons; [done|by apply Hall].
Qed.

(** ** The compiled plan *)

Section compiled.
Context (url_Parse : string → result url) (d : ResilienceAdapterDescriptor) (request : ResiliencePlanRequest).
Context (plan : ResiliencePlan).
Hypothesis compiled : CompileResiliencePlan url_Parse d request = Ok plan.

Abbreviation architecture := (ResiliencePlanRequest.Architecture request).
Abbreviation resilience := (ArchitectureIntent.Resilience architecture).
Abbreviation classes := (sort_by data_class_le (ResilienceIntent.DataClasses resilience)).
Abbreviation capabilities := (by_id Capability.Name (ResilienceAdapterDescriptor.DataClasses d)).

(** The destination of the plan: requested, and supported for every class. *)
Definition chosen (destination : string) : Prop :=
  destination ∈ ResilienceIntent.RecoveryDestinations resilience ∧
  Forall (λ c, destination ∈ Capability.Destinations (capability_of capabilities c)) classes.

Lemma commonRecoveryDestination_Ok destination :
  commonRecoveryDestination (ResilienceIntent.RecoveryDestinations resilience) classes capabilities = Ok destination →
  chosen destination.
Proof.
  unfold commonRecoveryDestination. destruct (find _ _) as [x|] eqn:E; [|done]. intros [= ->].
  apply find_some in E as [_ [Hr Hall]%andb_true_iff]. apply bool_decide_eq_true in Hr. split; [done|].
  apply Forall_forall. intros c Hc. rewrite forallb_forall in Hall.
  by apply list_elem_of_In, Hall, bool_decide_eq_true in Hc.
Qed.

Lemma bind_blueprint destination failback l :
  bindResilienceAdmissionReferences (blueprint destination failback classes) request = Ok l → NoDup (ID <$> l) →
  l = bind_stage request <$> blueprint destination failback classes ∧
  ∀ id, is_Some (ResiliencePlanRequest.ApprovalReferences request !! id) ∨
        is_Some (ResiliencePlanRequest.ReconciliationReferences request !! id) → id ∈ ID <$> l.
Proof.
  intros H Hnd. pose proof (bind_unbound _ _ _ H) as Hu. rewrite unbound_blueprint in Hu.
  assert (Hids : ID <$> l = ID <$> blueprint destination failback classes).
  { rewrite <-Hu, <-list_fmap_compose. by apply list_fmap_ext. }
  unfold bindResilienceAdmissionReferences in H.
  destruct (bind_references set_approval _ _ _ _) as [l1|] eqn:H1; [|done]. cbn [mbind result_bind] in H.
  assert (Hkeys : ∀ m : gmap string string, NoDup (resilienceReferenceKeys m)).
  { intros m. unfold resilienceReferenceKeys, sort_strings. rewrite NoDup_sort_by. apply NoDup_fst_map_to_list. }
  assert (Hkey : ∀ (m : gmap string string) k, k ∈ resilienceReferenceKeys m ↔ is_Some (m !! k)).
  { intros m k. unfold resilienceReferenceKeys. by rewrite elem_of_sort_strings, map_keys_elem. }
  apply bind_references_exact in H1 as [-> Ha]; [|done|by rewrite <-Hids|done].
  set (f := λ s, if bool_decide (ID s ∈ _) then set_approval _ s else s) in H.
  assert (Hf : ID <$> (f <$> blueprint destination failback classes) = ID <$> blueprint destination failback classes).
  { rewrite <-list_fmap_compose. apply list_fmap_ext. intros i s _. unfold f. simpl. by case_bool_decide. }
  apply bind_references_exact in H as [-> Hr]; [|done|by rewrite Hf, <-Hids|done].
  split.
  - rewrite <-list_fmap_compose. apply list_fmap_ext. intros i s Hs. cbn [compose].
    assert (Hus : unbound s = s).
    { apply list_elem_of_lookup_2 in Hs. pose proof (unbound_blueprint destination failback classes) as Hb.
      rewrite <-Hb in Hs. by apply list_elem_of_fmap in Hs as (s'&->&_). }
    assert (Hid : ID (f s) = ID s) by (unfold f; by case_bool_decide). rewrite Hid. unfold bind_stage.
    assert (Hfs : f s = set_approval (default "" (ResiliencePlanRequest.ApprovalReferences request !! ID s)) s).
    { unfold f. case_bool_decide as Hx; [done|]. rewrite Hkey, <-eq_None_not_Some in Hx. rewrite Hx. simpl.
      rewrite <-Hus at 1. by rewrite <-Hus at 2. }
    rewrite <-Hfs. case_bool_decide as Hx; [done|]. rewrite Hkey, <-eq_None_not_Some in Hx. rewrite Hx. simpl.
    unfold f. rewrite <-Hus. by case_bool_decide.
  - intros id Hid. rewrite Hids. rewrite <-!Hkey in Hid. destruct Hid as [Hid|Hid]; [by apply Ha|]. rewrite <-Hf. by apply Hr.
Qed.

Lemma CompileResiliencePlan_Ok : ∃ destination,
  chosen destination ∧ Forall (recoverable d capabilities) classes ∧
  (failback_requested request = true → resilienceRequiresFailover destination = true) ∧
  ValidateResiliencePlan plan resilience = None ∧
  ResiliencePlan.FixtureID plan = ResiliencePlanRequest.FixtureID request ∧
  ResiliencePlan.OwnershipMarker plan = ResiliencePlanRequest.OwnershipMarker request ∧
  bindResilienceAdmissionReferences (blueprint destination (failback_requested request) classes) request
    = Ok (ResiliencePlan.Stages plan).
Proof.
  pose proof compiled as H. unfold CompileResiliencePlan in H.
  apply lift_check_Ok in H as [_ H]. apply lift_check_Ok in H as [_ H]. apply lift_check_Ok in H as [_ H].
  apply lift_check_Ok in H as [_ H].
  destruct (map_err _ _) as [destination|] eqn:E1; [|done]. apply map_err_Ok, commonRecoveryDestination_Ok in E1.
  cbn [mbind result_bind] in H. destruct (compile_stages _ _ _ _ _) as [built|] eqn:E2; [|done].
  apply compile_stages_Ok in E2 as (Hst&Hfb&Hrec). cbn [mbind result_bind] in H. rewrite Hst in H.
  destruct (bindResilienceAdmissionReferences _ _) as [bound|] eqn:E3; [|done]. cbn [mbind result_bind] in H.
  apply lift_check_Ok in H as [Hv [= <-]]. apply err_wrap_None in Hv. exists destination. by split_and!.
Qed.
End compiled.

(** ** The order of a blueprint *)

Lemma nonempty_elem {A} (l : list A) : l ≠ [] → ∃ x, x ∈ l.
Proof. destruct l as [|x l]; [done|]. exists x. apply list_elem_of_here. Qed.

Lemma bool_cases (b : bool) : b = true ∨ b = false.
Proof. destruct b; auto. Qed.

Section order.
Context (destination : string) (failback : bool) (classes : list DataClassIntent).
Hypothesis nonempty : classes ≠ [].
Hypothesis failback_ok : failback = true → resilienceRequiresFailover destination = true.
Context (l : list ResilienceStage).
Hypothesis built : (λ s, (ID s, DependsOn s)) <$> l = (λ s, (ID s, DependsOn s)) <$> blueprint destination failback classes.

Lemma waits_blueprint s b : s ∈ blueprint destination failback classes → b ∈ DependsOn s → waits l (ID s) b.
Proof.
  intros Hs Hb. apply (list_elem_of_fmap_2 (λ s, (ID s, DependsOn s))) in Hs. rewrite <-built in Hs.
  apply list_elem_of_fmap in Hs as (s'&[= He Hd]&Hs'). exists s'. by rewrite <-He, <-Hd.
Qed.

Lemma class_stages c : c ∈ classes →
  restore_of destination c ∈ blueprint destination failback classes ∧
  integrity_of destination c ∈ blueprint destination failback classes.
Proof.
  intros Hc. assert (Hb : ∀ s, s ∈ [restore_of destination c; integrity_of destination c] →
    s ∈ blueprint destination failback classes).
  { intros s Hs. unfold blueprint. rewrite !elem_of_app. right. right. left. apply list_elem_of_bind. by exists c. }
  split; apply Hb; [apply list_elem_of_here|apply list_elem_of_further, list_elem_of_here].
Qed.

Lemma integrity_waits c : c ∈ classes → waits l (integrity_id c) (restore_id c).
Proof. intros [_ Hi]%class_stages. eapply (waits_blueprint _ _ Hi). apply list_elem_of_here. Qed.

Lemma restore_waits_backup c : c ∈ classes → needs_backup c = true → waits l (restore_id c) (backup_id c).
Proof.
  intros [Hr _]%class_stages Hb. eapply (waits_blueprint _ _ Hr). cbn [DependsOn restore_of plan_stage]. rewrite Hb.
  apply list_elem_of_here.
Qed.

Lemma restore_waits_fence c :
  c ∈ classes → resilienceRequiresFence destination = true → waits l (restore_id c) "fence-runtime".
Proof.
  intros [Hr _]%class_stages Hf. eapply (waits_blueprint _ _ Hr). cbn [DependsOn restore_of plan_stage]. unfold fenced.
  rewrite Hf, elem_of_app. right. apply list_elem_of_here.
Qed.

Lemma fence_waits_backup c :
  c ∈ classes → needs_backup c = true → resilienceRequiresFence destination = true → waits l "fence-runtime" (backup_id c).
Proof.
  intros Hc Hb Hf. apply (waits_blueprint (fence_of destination classes)).
  - unfold blueprint. rewrite Hf, !elem_of_app. right. left. apply list_elem_of_here.
  - cbn [DependsOn fence_of guarded plan_stage]. apply list_elem_of_fmap_2, list_elem_of_filter. by rewrite Hb.
Qed.

Lemma failover_waits c :
  c ∈ classes → resilienceRequiresFailover destination = true → waits l "failover-runtime" (integrity_id c).
Proof.
  intros Hc Hf. apply (waits_blueprint (failover_of destination classes)).
  - unfold blueprint. rewrite Hf, !elem_of_app. right. right. right. left. apply list_elem_of_here.
  - cbn [DependsOn failover_of guarded plan_stage]. by apply list_elem_of_fmap_2.
Qed.

Lemma failback_waits x : failback = true → x ∈ before_failback destination classes → waits l "failback-runtime" x.
Proof.
  intros Hf Hx. apply (waits_blueprint (failback_of destination classes)); [|done].
  unfold blueprint. rewrite Hf, !elem_of_app. do 4 right. left. apply list_elem_of_here.
Qed.

Lemma cleanup_waits x :
  x ∈ (if failback then ["failback-runtime"] else before_failback destination classes) → waits l "cleanup-runtime" x.
Proof.
  intros Hx. apply (waits_blueprint (cleanup_of destination failback classes)); [|done].
  unfold blueprint. rewrite !elem_of_app. do 5 right. apply list_elem_of_here.
Qed.

Lemma cleanup_after_before x : x ∈ before_failback destination classes → tc (waits l) "cleanup-runtime" x.
Proof.
  intros Hx. destruct (bool_cases failback) as [Hf|Hf]; [|apply tc_once, cleanup_waits; by rewrite Hf].
  apply (tc_l _ _ "failback-runtime"); [|by apply tc_once, failback_waits].
  apply cleanup_waits. rewrite Hf. apply list_elem_of_here.
Qed.

Lemma cleanup_after_failback s :
  s ∈ (if failback then [failback_of destination classes] else []) → tc (waits l) "cleanup-runtime" (ID s).
Proof.
  intros Hs. apply tc_once, cleanup_waits. destruct (bool_cases failback) as [Hf|Hf]; rewrite Hf in Hs |- *; [|by apply elem_of_nil in Hs].
  apply list_elem_of_singleton in Hs as ->. apply list_elem_of_here.
Qed.

Lemma cleanup_after_integrity c : c ∈ classes → tc (waits l) "cleanup-runtime" (integrity_id c).
Proof.
  intros Hc. pose proof cleanup_after_before as Hb. unfold before_failback in Hb.
  destruct (resilienceRequiresFailover destination) eqn:Hf.
  - eapply tc_r; [apply (Hb "failover-runtime"), list_elem_of_here|]. by apply failover_waits.
  - apply Hb. by apply list_elem_of_fmap_2.
Qed.

Lemma cleanup_after_restore c : c ∈ classes → tc (waits l) "cleanup-runtime" (restore_id c).
Proof. intros Hc. eapply tc_r; [by apply cleanup_after_integrity|by apply integrity_waits]. Qed.

Lemma cleanup_after_all id : id ∈ ID <$> l → id ≠ "cleanup-runtime" → tc (waits l) "cleanup-runtime" id.
Proof.
  assert (He : ID <$> l = ID <$> blueprint destination failback classes).
  { pose proof (f_equal (fmap fst) built) as Hb. by rewrite <-!list_fmap_compose in Hb. }
  rewrite He. intros (s&->&Hs)%list_elem_of_fmap Hne. unfold blueprint in Hs. rewrite !elem_of_app in Hs.
  destruct Hs as [Hs|[Hs|[Hs|[Hs|[Hs|Hs]]]]].
  - apply list_elem_of_fmap in Hs as (c&->&[Hb Hc]%list_elem_of_filter). change (ID (backup_of destination c)) with (backup_id c).
    eapply tc_r; [by apply (cleanup_after_restore c)|]. apply restore_waits_backup; [done|]. by destruct (needs_backup c).
  - destruct (resilienceRequiresFence destination) eqn:Hf; [|by apply elem_of_nil in Hs].
    apply list_elem_of_singleton in Hs as ->. destruct (nonempty_elem _ nonempty) as [c Hc].
    eapply tc_r; [by apply (cleanup_after_restore c)|by apply restore_waits_fence].
  - apply list_elem_of_bind in Hs as (c&Hs&Hc). apply elem_of_cons in Hs as [->|[->|Hs]%elem_of_cons]; [..|by apply elem_of_nil in Hs].
    + by apply (cleanup_after_restore c).
    + by apply (cleanup_after_integrity c).
  - destruct (resilienceRequiresFailover destination) eqn:Hf; [|by apply elem_of_nil in Hs].
    apply list_elem_of_singleton in Hs as ->. apply cleanup_after_before. unfold before_failback. rewrite Hf. apply list_elem_of_here.
  - by apply cleanup_after_failback.
  - by apply list_elem_of_singleton in Hs as ->.
Qed.
End order.

(** ** Claims *)

Section claims.
Context (url_Parse : string → result url) (d : ResilienceAdapterDescriptor) (request : ResiliencePlanRequest).

Abbreviation resilience := (ArchitectureIntent.Resilience (ResiliencePlanRequest.Architecture request)).
Abbreviation sorted_classes := (sort_by data_class_le (ResilienceIntent.DataClasses resilience)).
Abbreviation capabilities := (by_id Capability.Name (ResilienceAdapterDescriptor.DataClasses d)).

(** What a compiled recovery plan is.  A plan that compiles is exactly the
    blueprint of its data classes in the order of their names, for a destination
    that was requested and that every class supports: each class has a restore
    and an integrity stage the adapter can run, and a backup stage unless it is
    only rebuilt; each stage carries exactly the approval and reconciliation
    references the request gives it, and no reference of the request is lost. *)
Theorem CompileResiliencePlan_blueprint plan :
  CompileResiliencePlan url_Parse d request = Ok plan → ∃ destination,
    chosen d request destination ∧ Forall (recoverable d capabilities) sorted_classes ∧
    ResiliencePlan.Stages plan
      = bind_stage request <$> blueprint destination (failback_requested request) sorted_classes ∧
    (∀ id, is_Some (ResiliencePlanRequest.ApprovalReferences request !! id) ∨
           is_Some (ResiliencePlanRequest.ReconciliationReferences request !! id) →
       id ∈ ID <$> ResiliencePlan.Stages plan) ∧
    ResiliencePlan.FixtureID plan = ResiliencePlanRequest.FixtureID request ∧
    ResiliencePlan.OwnershipMarker plan = ResiliencePlanRequest.OwnershipMarker request.
Proof.
  intros (destination&Hch&Hrec&_&Hv&Hfix&Hown&Hb)%CompileResiliencePlan_Ok.
  apply ValidateResiliencePlan_None in Hv as (Hnd&_). apply bind_blueprint in Hb as [He Hids]; [|done].
  exists destination. by split_and!.
Qed.

(** C23: the order of a recovery.  In a plan that compiles no stage waits for
    itself; a class is checked after it is restored and restored after it is
    backed up and, when the destination needs it, after the writer is fenced,
    which itself waits for the backups; traffic moves after every class is
    checked; failback comes after failover; and cleanup waits, directly or not,
    for every other stage. *)
Theorem CompileResiliencePlan_order plan :
  CompileResiliencePlan url_Parse d request = Ok plan →
  let l := ResiliencePlan.Stages plan in
  NoDup (ID <$> l) ∧ (∀ k, ¬ tc (waits l) k k) ∧
  ∃ destination, chosen d request destination ∧
    (∀ c, c ∈ ResilienceIntent.DataClasses resilience →
       waits l (integrity_id c) (restore_id c) ∧
       (needs_backup c = true → waits l (restore_id c) (backup_id c)) ∧
       (resilienceRequiresFence destination = true → waits l (restore_id c) "fence-runtime") ∧
       (needs_backup c = true → resilienceRequiresFence destination = true → waits l "fence-runtime" (backup_id c)) ∧
       (resilienceRequiresFailover destination = true → waits l "failover-runtime" (integrity_id c))) ∧
    (failback_requested request = true → waits l "failback-runtime" "failover-runtime") ∧
    (∀ id, id ∈ ID <$> l → id ≠ "cleanup-runtime" → tc (waits l) "cleanup-runtime" id).
Proof.
  intros (destination&Hch&_&Hfb&Hv&_&_&Hb)%CompileResiliencePlan_Ok l.
  apply ValidateResiliencePlan_None in Hv as (Hnd&_&Hac&Hst). fold l in Hnd, Hac, Hst, Hb.
  pose proof (bind_blueprint request destination _ _ Hb Hnd) as [He _].
  assert (Hbuilt : (λ s, (ID s, DependsOn s)) <$> l
                   = (λ s, (ID s, DependsOn s)) <$> blueprint destination (failback_requested request) sorted_classes).
  { rewrite He, <-list_fmap_compose. done. }
  assert (Hne : sorted_classes ≠ []).
  { intros Hs. rewrite Hs in He. assert (Hin : bind_stage request (cleanup_of destination (failback_requested request) []) ∈ l).
    { rewrite He. apply list_elem_of_fmap_2. unfold blueprint. rewrite !elem_of_app. do 5 right. apply list_elem_of_here. }
    by destruct (Hst _ Hin) as (_&Hx&_). }
  split_and!; [done|done|]. exists destination. split_and!; [done| | |].
  - intros c Hc. assert (Hc' : c ∈ sorted_classes) by by apply elem_of_sort_by.
    split_and!; intros; [by eapply integrity_waits|by eapply restore_waits_backup|by eapply restore_waits_fence
      |by eapply fence_waits_backup|by eapply failover_waits].
  - intros Hf. eapply failback_waits; [done|done|]. unfold before_failback. rewrite Hfb by done. apply list_elem_of_here.
  - intros id. by eapply cleanup_after_all.
Qed.
End claims.

(** ** Example *)

(** Two data classes recovered in another region, with a failback. *)
Module ResilienceExample.

Definition no_url (s : string) : result url := Err (ErrNew "parse").

Definition class_of (name backup : string) : DataClassIntent :=
  {| DataClassIntent.Name := name; DataClassIntent.SourceOfTruth := "primary"; DataClassIntent.FailureDomains := ["eu-1"];
     DataClassIntent.BackupMethod := backup; DataClassIntent.RestoreMethod := "restore";
     DataClassIntent.IntegrityMethod := "count"; DataClassIntent.LossSemantics := "none";
     DataClassIntent.RetentionDays := 7; DataClassIntent.Encrypted := true; DataClassIntent.Immutable := false;
     DataClassIntent.DeletionProtection := true; DataClassIntent.OwnershipMarker := "run-1/data" |}.

Definition intent : ResilienceIntent :=
  {| ResilienceIntent.ProfileID := "standard"; ResilienceIntent.AvailabilityTarget := "99.9";
     ResilienceIntent.RPOSeconds := 60; ResilienceIntent.RTOSeconds := 600; ResilienceIntent.RetentionDays := 7;
     ResilienceIntent.RecoveryScope := "shop"; ResilienceIntent.FailoverOwner := "ops";
     ResilienceIntent.FencingPolicy := "lease"; ResilienceIntent.RecoveryDestinations := ["alternate-region"];
     ResilienceIntent.DataClasses := [class_of "search" "rebuild"; class_of "database" "snapshot"];
     ResilienceIntent.Projection := None |}.

Definition health : EdgeHealthIntent :=
  {| EdgeHealthIntent.OriginURL := ""; EdgeHealthIntent.OriginHost := ""; EdgeHealthIntent.ExpectedRouteTarget := "";
     EdgeHealthIntent.RoutePath := ""; EdgeHealthIntent.ExpectedStatus := 0; EdgeHealthIntent.RouteTimeoutSeconds := 0;
     EdgeHealthIntent.RoutePollSeconds := 0 |}.

Definition edge : EdgeIntent :=
  {| EdgeIntent.ExternalProvider := ""; EdgeIntent.Lifecycle := ""; EdgeIntent.Certification := ""; EdgeIntent.Mode := "none";
     EdgeIntent.NativeProvider := ""; EdgeIntent.CredentialRefs := []; EdgeIntent.ServiceReference := "";
     EdgeIntent.Domains := []; EdgeIntent.TLS := false; EdgeIntent.TLSMode := ""; EdgeIntent.DNSMode := "";
     EdgeIntent.PurgeOnDeploy := false; EdgeIntent.PolicyReference := ""; EdgeIntent.OriginHealthRef := "";
     EdgeIntent.CachePolicyRef := ""; EdgeIntent.PurgePolicyRef := ""; EdgeIntent.WAFPolicyRef := "";
     EdgeIntent.FailoverPolicyRef := ""; EdgeIntent.OwnershipMarker := ""; EdgeIntent.Health := health |}.

Definition observability : ObservabilityIntent :=
  {| ObservabilityIntent.Lifecycle := ""; ObservabilityIntent.Certification := ""; ObservabilityIntent.OwnershipMarker := "";
     ObservabilityIntent.NativeProvider := ""; ObservabilityIntent.NativeReference := "";
     ObservabilityIntent.ExternalProvider := ""; ObservabilityIntent.CredentialRefs := []; ObservabilityIntent.Endpoint := "";
     ObservabilityIntent.ServiceName := ""; ObservabilityIntent.Environment := ""; ObservabilityIntent.Logs := false;
     ObservabilityIntent.Metrics := false; ObservabilityIntent.Traces := false; ObservabilityIntent.Signals := [];
     ObservabilityIntent.RetentionDays := 0; ObservabilityIntent.SamplingRatio := zero64;
     ObservabilityIntent.RedactionPolicyRef := ""; ObservabilityIntent.AlertRefs := []; ObservabilityIntent.Labels := ∅;
     ObservabilityIntent.DataResidency := ""; ObservabilityIntent.Alerts := []; ObservabilityIntent.Dashboards := [];
     ObservabilityIntent.SLOs := [] |}.

Definition architecture : ArchitectureIntent :=
  {| ArchitectureIntent.ProfileID := "shop"; ArchitectureIntent.Provider := "aws"; ArchitectureIntent.Runtime := "ecs-fargate";
     ArchitectureIntent.AccountOrProjectRef := "account-1"; ArchitectureIntent.Region := "eu-1";
     ArchitectureIntent.Regions := []; ArchitectureIntent.Zones := []; ArchitectureIntent.ComputeMode := "fargate";
     ArchitectureIntent.KubernetesMode := ""; ArchitectureIntent.NetworkMode := "private";
     ArchitectureIntent.NetworkProfile := ""; ArchitectureIntent.IngressMode := "alb"; ArchitectureIntent.Boundaries := [];
     ArchitectureIntent.Edge := edge; ArchitectureIntent.Observability := observability;
     ArchitectureIntent.Resilience := intent; ArchitectureIntent.ConfigurationFingerprint := "";
     ArchitectureIntent.ArtifactDigest := "image@sha256:aa"; ArchitectureIntent.SchemaFingerprint := "schema-1";
     ArchitectureIntent.MigrationFingerprint := "migration-1"; ArchitectureIntent.OwnershipMarker := "run-1" |}.

Definition request : ResiliencePlanRequest :=
  {| ResiliencePlanRequest.Architecture := architecture; ResiliencePlanRequest.FixtureID := "fixture-1";
     ResiliencePlanRequest.OwnershipMarker := "run-1";
     ResiliencePlanRequest.ApprovalReferences := {["failback-runtime" := "change-7"]};
     ResiliencePlanRequest.ReconciliationReferences := {["failback-runtime" := "merge-7"]} |}.

Definition capability_named (name : string) : ResilienceDataClassCapability :=
  {| Capability.Name := name; Capability.Status := "supported"; Capability.Actions := ["backup"; "restore"; "integrity-check"];
     Capability.Destinations := ["alternate-region"]; Capability.Strategy := ""; Capability.BackupMechanism := "";
     Capability.RestoreMechanism := ""; Capability.IntegrityMethod := ""; Capability.RetentionPolicy := "";
     Capability.EncryptionBoundary := ""; Capability.ProtectionMechanism := ""; Capability.PollingRequired := true;
     Capability.RetentionRequired := false; Capability.EncryptionRequired := false; Capability.ProtectionRequired := false;
     Capability.Reason := "" |}.

Definition descriptor : ResilienceAdapterDescriptor :=
  {| ResilienceAdapterDescriptor.APIVersion := "v1"; ResilienceAdapterDescriptor.ID := "aws.resilience";
     ResilienceAdapterDescriptor.Provider := "aws"; ResilienceAdapterDescriptor.Version := "1.0.0";
     ResilienceAdapterDescriptor.Capabilities := resilience_actions;
     ResilienceAdapterDescriptor.DataClasses := [capability_named "database"; capability_named "search"] |}.

Definition no_plan : ResiliencePlan :=
  {| ResiliencePlan.AdapterID := ""; ResiliencePlan.FixtureID := ""; ResiliencePlan.OwnershipMarker := "";
     ResiliencePlan.Stages := []; ResiliencePlan.RequiredProofs := [] |}.

Definition plan : ResiliencePlan := Eval vm_compute in
  from_option id no_plan (match CompileResiliencePlan no_url descriptor request with Ok p => Some p | Err _ => None end).

Lemma compiled : CompileResiliencePlan no_url descriptor request = Ok plan.
Proof. vm_cast_no_check (eq_refl (Ok (A:=ResiliencePlan) plan)). Qed.

Lemma CompileResiliencePlan_blueprint_witness : ∃ destination, chosen descriptor request destination ∧
  ResiliencePlan.Stages plan
  = bind_stage request <$> blueprint destination true [class_of "database" "snapshot"; class_of "search" "rebuild"].
Proof.
  destruct (CompileResiliencePlan_blueprint no_url descriptor request plan compiled) as (destination&Hc&_&Hp&_).
  exists destination. split; [exact Hc|exact Hp].
Defined.

Lemma CompileResiliencePlan_order_witness :
  waits (ResiliencePlan.Stages plan) "failback-runtime" "failover-runtime" ∧
  tc (waits (ResiliencePlan.Stages plan)) "cleanup-runtime" "backup-database".
Proof.
  destruct (CompileResiliencePlan_order no_url descriptor request plan compiled) as (_&_&_&_&_&Hf&Hc).
  split; [by apply Hf|apply Hc; [|done]]. apply list_elem_of_here.
Defined.
End ResilienceExample.
