(* ===== verification/Lifecycle.v ===== *)
(** * Lifecycles of provider operations
      (sdk/resilience_lifecycle.go, sdk/deletion_lifecycle.go)

    Bounded polling of an asynchronous operation and of a deletion, and the
    execution of one recovery stage with the evidence it has to bring.  The
    context, the timer and the clients are functions on a world [W]; every call
    is logged with its answer.  A timer that fires is [None], a context that is
    done is its error. *)

From S2P Require Import Prelude GoStrings GoEncoding Sdk Admission Architecture Resilience ResiliencePlan.

Local Open Scope Z_scope.

(* sdk/resilience_lifecycle.go, lines 14-21: ResilienceOperationStatus *)
Definition ResilienceOperationPending := "pending".
(* sdk/resilience_lifecycle.go, lines 18-18: ResilienceOperationRunning *)
Definition ResilienceOperationRunning := "running".
(* sdk/resilience_lifecycle.go, lines 19-19: ResilienceOperationSucceeded *)
Definition ResilienceOperationSucceeded := "succeeded".
(* sdk/resilience_lifecycle.go, lines 20-20: ResilienceOperationFailed *)
Definition ResilienceOperationFailed := "failed".

(** ** Data *)

Module OperationRequest.
(* sdk/resilience_lifecycle.go, lines 60-71: ResilienceOperationRequest *)
Record ResilienceOperationRequest := {
  Action : string;
  DataClasses : list string;
  Destination : string;
  FixtureID : string;
  OwnershipMarker : string;
  IdempotencyKey : string;
  ResourceReferences : gmap string string;
  BackupReferences : gmap string string;
  ApprovalReference : string;
  ReconciliationReference : string;
}.
End OperationRequest.
Notation ResilienceOperationRequest := OperationRequest.ResilienceOperationRequest.

Module Observation.
(* sdk/resilience_lifecycle.go, lines 76-87: ResilienceOperationObservation *)
Record ResilienceOperationObservation := {
  Status : string;
  Action : string;
  OperationID : string;
  ResourceRefs : list string;
  ProofRefs : list string;
  OwnershipMarker : string;
  OwnershipVerified : bool;
  IdempotencyVerified : bool;
  Evidence : list ResilienceProofEvidence;
  Detail : string;
}.

Definition zero : ResilienceOperationObservation :=
  {| Status := ""; Action := ""; OperationID := ""; ResourceRefs := []; ProofRefs := []; OwnershipMarker := "";
     OwnershipVerified := false; IdempotencyVerified := false; Evidence := []; Detail := "" |}.

Definition with_detail (detail : string) (o : ResilienceOperationObservation) : ResilienceOperationObservation :=
  {| Status := Status o; Action := Action o; OperationID := OperationID o; ResourceRefs := ResourceRefs o;
     ProofRefs := ProofRefs o; OwnershipMarker := OwnershipMarker o; OwnershipVerified := OwnershipVerified o;
     IdempotencyVerified := IdempotencyVerified o; Evidence := Evidence o; Detail := detail |}.
End Observation.
Notation ResilienceOperationObservation := Observation.ResilienceOperationObservation.

(* sdk/resilience_lifecycle.go, lines 92-96: ResilienceInventoryResource *)
Record ResilienceInventoryResource := {
  Identity : string;
  Owned : bool;
  Live : bool;
}.

(* sdk/resilience_lifecycle.go, lines 110-114: ResilienceOperationPolicy *)
Record ResilienceOperationPolicy := {
  Timeout : Z;
  PollInterval : Z;
  MaxAttempts : Z;
}.

Module Deletion.
(* sdk/deletion_lifecycle.go, lines 14-21: DeletionObservation *)
Record DeletionObservation := {
  Status : string;
  OperationID : string;
  ResourceRefs : list string;
  DelayedResourceRefs : list string;
  ProtectedResourceRefs : list string;
  Detail : string;
}.

Definition zero : DeletionObservation :=
  {| Status := ""; OperationID := ""; ResourceRefs := []; DelayedResourceRefs := []; ProtectedResourceRefs := [];
     Detail := "" |}.

Definition with_detail (detail : string) (o : DeletionObservation) : DeletionObservation :=
  {| Status := Status o; OperationID := OperationID o; ResourceRefs := ResourceRefs o;
     DelayedResourceRefs := DelayedResourceRefs o; ProtectedResourceRefs := ProtectedResourceRefs o; Detail := detail |}.

(** Nothing is left in the inventory of the owning service. *)
(* sdk/deletion_lifecycle.go, lines 65-65: WaitForDeletion *)
Definition gone (o : DeletionObservation) : bool :=
  bool_decide (ResourceRefs o = []) && bool_decide (DelayedResourceRefs o = [])
  && bool_decide (ProtectedResourceRefs o = []).
End Deletion.
Notation DeletionObservation := Deletion.DeletionObservation.

(* sdk/resilience_lifecycle.go, lines 187-192: validateResilienceOperationPolicy *)
Definition validateResilienceOperationPolicy (policy : ResilienceOperationPolicy) : gerror :=
  fail_if ((Timeout policy <=? 0) || (PollInterval policy <=? 0) || (MaxAttempts policy <=? 0))
    (ErrNew "resilience operation policy requires positive timeout, poll interval, and max attempts").

(** ** Clients *)

(** The context with its deadline, and the timer of one interval. *)
(* sdk/resilience_lifecycle.go, lines 137-145: WaitForResilienceOperation *)
Record waiter (W : Type) := {
  ctx_err : W → gerror * W;
  wait : Z → W → gerror * W;
}.
Arguments ctx_err {W} _.
Arguments wait {W} _.

(* sdk/resilience_lifecycle.go, lines 101-105: ResilienceOperationClient *)
Record ResilienceOperationClient (W : Type) := {
  Start : ResilienceOperationRequest → W → result ResilienceOperationObservation * W;
  Poll : string → W → result ResilienceOperationObservation * W;
  Inventory : string → W → result (list ResilienceInventoryResource) * W;
}.
Arguments Start {W} _.
Arguments Poll {W} _.
Arguments Inventory {W} _.

Inductive event :=
  | EvCtx (err : gerror)
  | EvWait (err : gerror)
  | EvStart (request : ResilienceOperationRequest) (answer : result ResilienceOperationObservation)
  | EvPoll (id : string) (answer : result ResilienceOperationObservation)
  | EvPollDeletion (marker : string) (answer : result DeletionObservation).

Definition is_poll (e : event) : bool :=
  match e with EvPoll _ _ | EvPollDeletion _ _ => true | _ => false end.
Definition polls (es : list event) : nat := length (filter is_poll es).

(** [errors.Is(err, context.DeadlineExceeded)]. *)
Definition deadline (err : error) : bool := errors_Is "context.DeadlineExceeded" err.

Section polling.
Context {W : Type} (env : waiter W).

(** ** Polling an operation *)

Section operation.
Context (client : ResilienceOperationClient W) (operationID : string) (policy : ResilienceOperationPolicy).
Abbreviation answer := (ResilienceOperationObservation * gerror)%type.
Abbreviation id := (GStr operationID).

Definition refused (err : error) : answer := (Observation.zero, Some err).

(** The error of a context that is done. *)
Definition interrupted (err : error) : error :=
  if deadline err then errorf "resilience operation %q timed out after %s" [id; GInt (Timeout policy)] else err.

(** [remaining] attempts, the current one included; [attempt] is its number. *)
(* sdk/resilience_lifecycle.go, lines 139-184: WaitForResilienceOperation *)
Fixpoint poll_operation (remaining : nat) (attempt : Z) : eff event W answer :=
  match remaining with
  | O => mret (refused (errorf "resilience operation %q did not complete" [id]))
  | S remaining =>
      let last := attempt =? MaxAttempts policy in
      let next :=
        if last then mret (refused (errorf "resilience operation %q did not complete after %d attempts" [id; GInt attempt]))
        else
          waited ← call EvWait (wait env (PollInterval policy));
          match waited with
          | Some err => mret (refused (interrupted err))
          | None => poll_operation remaining (attempt + 1)
          end in
      err ← call EvCtx (ctx_err env);
      match err with
      | Some err => mret (refused (interrupted err))
      | None =>
          polled ← call (EvPoll operationID) (Poll client operationID);
          match polled with
          | Err err =>
              if last then mret (refused (Errorf "poll resilience operation %q after %d attempts: %w" [id; GInt attempt] [err]))
              else next
          | Ok observation =>
              if negb (bool_decide (Observation.OperationID observation = operationID)) then
                mret (refused (errorf "resilience operation poll returned identity %q, want %q"
                                 [GStr (Observation.OperationID observation); id]))
              else if bool_decide (Observation.Status observation = ResilienceOperationSucceeded) then
                mret (observation, None)
              else if bool_decide (Observation.Status observation = ResilienceOperationFailed) then
                let observation :=
                  if blank (Observation.Detail observation)
                  then Observation.with_detail "provider reported resilience operation failure" observation
                  else observation in
                mret (observation, Some (errorf "resilience operation %q failed: %s"
                                           [id; GStr (Observation.Detail observation)]))
              else if bool_decide (Observation.Status observation ∈ [ResilienceOperationPending; ResilienceOperationRunning])
              then next
              else mret (refused (errorf "resilience operation %q returned unknown status %q"
                                    [id; GStr (Observation.Status observation)]))
          end
      end
  end.

(** The context and the client are there; nil ones are refused first. *)
(* sdk/resilience_lifecycle.go, lines 124-185: WaitForResilienceOperation *)
Definition WaitForResilienceOperation : eff event W answer :=
  match fail_if (blank operationID) (ErrNew "resilience operation ID is required")
        ;;? validateResilienceOperationPolicy policy with
  | Some err => mret (refused err)
  | None => poll_operation (Z.to_nat (MaxAttempts policy)) 1
  end.
End operation.

(** ** Polling a deletion *)

Section deletion.
Context (PollDeletion : string → W → result DeletionObservation * W) (ownershipMarker : string).
Context (policy : ResilienceOperationPolicy).
Abbreviation answer := (DeletionObservation * gerror)%type.

(* sdk/deletion_lifecycle.go, lines 87-90: WaitForDeletion *)
Definition deletion_interrupted (err : error) : error :=
  if deadline err then errorf "deletion timed out after %s" [GInt (Timeout policy)] else err.

(* sdk/deletion_lifecycle.go, lines 48-94: WaitForDeletion *)
Fixpoint poll_deletion (remaining : nat) (attempt : Z) (last : DeletionObservation) : eff event W answer :=
  match remaining with
  | O => mret (last, Some (ErrNew "deletion did not complete"))
  | S remaining =>
      let final := attempt =? MaxAttempts policy in
      let next last :=
        if final then mret (last, Some (errorf "deletion did not complete after %d attempts" [GInt attempt]))
        else
          waited ← call EvWait (wait env (PollInterval policy));
          match waited with
          | Some err => mret (last, Some (deletion_interrupted err))
          | None => poll_deletion remaining (attempt + 1) last
          end in
      err ← call EvCtx (ctx_err env);
      match err with
      | Some err => mret (last, Some (deletion_interrupted err))
      | None =>
          polled ← call (EvPollDeletion ownershipMarker) (PollDeletion ownershipMarker);
          match polled with
          | Err err =>
              if final then mret (last, Some (Errorf "poll deletion after %d attempts: %w" [GInt attempt] [err]))
              else next last
          | Ok observation =>
              let status := Deletion.Status observation in
              if bool_decide (status = ResilienceOperationSucceeded) then
                if Deletion.gone observation then mret (observation, None) else next observation
              else if bool_decide (status ∈ [ResilienceOperationPending; ResilienceOperationRunning]) then next observation
              else if bool_decide (status = ResilienceOperationFailed) then
                let observation :=
                  if bool_decide (Deletion.Detail observation = "")
                  then Deletion.with_detail "owning service reported deletion failure" observation else observation in
                mret (observation, Some (errorf "deletion failed: %s" [GStr (Deletion.Detail observation)]))
              else mret (Deletion.zero, Some (errorf "deletion returned unknown status %q" [GStr status]))
          end
      end
  end.

(* sdk/deletion_lifecycle.go, lines 33-95: WaitForDeletion *)
Definition WaitForDeletion : eff event W answer :=
  match fail_if (bad_reference ownershipMarker) (ErrNew "deletion ownership marker is required and must be single-line")
        ;;? validateResilienceOperationPolicy policy with
  | Some err => mret (Deletion.zero, Some err)
  | None => poll_deletion (Z.to_nat (MaxAttempts policy)) 1 Deletion.zero
  end.
End deletion.
End polling.

(** ** Evidence *)

(** The checks of a loop that returns at the first error. *)
Definition first_of (checks : list gerror) : gerror := first_error (λ e, e) checks.

Section evidence.
Import ResilienceStage Evidence.

(** The actions whose every data class needs evidence of its own. *)
(* sdk/resilience_lifecycle.go, lines 319-319: validateResilienceOperationEvidence *)
Definition needs_class_evidence (action : string) : bool :=
  bool_decide (action ∈ [ResilienceBackup; ResilienceRestore; ResilienceIntegrityCheck; ResilienceFence;
                         ResilienceFailover; ResilienceFailback]).

(* sdk/resilience_lifecycle.go, lines 340-340: validateResilienceOperationEvidence *)
Definition protected_stage (stage : ResilienceStage) : bool :=
  RequiresSingleWriter stage || RequiresSplitBrainCheck stage || RequiresStaleOriginCheck stage
  || RequiresReconciliation stage || RequiresApproval stage.

(** [what] is the subject of the messages: the runner of
    [internal/certification] makes the same checks. *)
(* sdk/resilience_lifecycle.go, lines 340-359: validateResilienceOperationEvidence *)
Definition check_writer (what : string) (stage : ResilienceStage) (e : ResilienceProofEvidence) : gerror :=
  let deny (missing : bool) reason := fail_if missing (errorf (what +:+ reason) [GStr (DataClass e)]) in
  if protected_stage stage then
    deny (blank (WriterIdentityRef e) || blank (WriterEpoch e))
      " for data class %q requires an opaque writer identity and epoch"
    ;;? deny (RequiresSingleWriter stage && negb (SingleWriterVerified e))
          " for data class %q did not verify single-writer ownership"
    ;;? deny (RequiresSplitBrainCheck stage && negb (SplitBrainAbsent e))
          " for data class %q did not verify split-brain absence"
    ;;? deny (RequiresStaleOriginCheck stage && negb (StaleOriginRejected e))
          " for data class %q did not reject the stale origin"
    ;;? deny (RequiresReconciliation stage && negb (Evidence.ReconciliationVerified e))
          " for data class %q did not verify reconciliation"
    ;;? deny (RequiresApproval stage && negb (ApprovalVerified e))
          " for data class %q did not verify the approved transition"
  else None.

(* sdk/resilience_lifecycle.go, lines 337-337: validateResilienceOperationEvidence *)
Definition negative_measurement (e : ResilienceProofEvidence) : bool :=
  (RetentionDays e <? 0) || (MeasuredDurationSeconds e <? 0) || (MeasuredRPOSeconds e <? 0) || (MeasuredRTOSeconds e <? 0).

(** Fixture, destination and measurements of one proof. *)
(* sdk/resilience_lifecycle.go, lines 331-339: validateResilienceOperationEvidence *)
Definition check_scope (what : string) (stage : ResilienceStage) (fixtureID : string) (e : ResilienceProofEvidence) : gerror :=
  fail_if (negb (bool_decide (FixtureID e = fixtureID)))
    (errorf (what +:+ " for data class %q has fixture %q, want %q") [GStr (DataClass e); GStr (FixtureID e); GStr fixtureID])
  ;;? fail_if (negb (bool_decide (ResilienceStage.Destination stage = ""))
               && negb (bool_decide (Destination e = ResilienceStage.Destination stage)))
        (errorf (what +:+ " for data class %q has destination %q, want %q")
           [GStr (DataClass e); GStr (Destination e); GStr (ResilienceStage.Destination stage)])
  ;;? fail_if (negative_measurement e)
        (errorf (what +:+ " for data class %q contains a negative measurement") [GStr (DataClass e)]).

(* sdk/resilience_lifecycle.go, lines 360-372: validateResilienceOperationEvidence *)
Definition check_declared (capabilities : gmap string ResilienceDataClassCapability) (e : ResilienceProofEvidence) : gerror :=
  let class := GStr (DataClass e) in
  match capabilities !! DataClass e with
  | None => Some (errorf "resilience proof references undeclared data class %q" [class])
  | Some capability =>
      fail_if (Capability.RetentionRequired capability && (RetentionDays e <=? 0))
        (errorf "resilience proof for durable data class %q must include positive retention" [class])
      ;;? fail_if (Capability.EncryptionRequired capability && negb (EncryptionVerified e))
            (errorf "resilience proof for durable data class %q did not verify encryption" [class])
      ;;? fail_if (Capability.ProtectionRequired capability && negb (ProtectionVerified e))
            (errorf "resilience proof for durable data class %q did not verify protection" [class])
  end.

(* sdk/resilience_lifecycle.go, lines 324-374: validateResilienceOperationEvidence *)
Definition check_proof (capabilities : gmap string ResilienceDataClassCapability) (stage : ResilienceStage)
    (fixtureID : string) (seen : list ResilienceProofEvidence) (e : ResilienceProofEvidence) : gerror :=
  validateID "resilience proof data class" (DataClass e)
  ;;? fail_if (bool_decide (DataClass e ∈ DataClass <$> seen))
        (errorf "duplicate resilience proof evidence for data class %q" [GStr (DataClass e)])
  ;;? check_scope "resilience proof" stage fixtureID e
  ;;? check_writer "resilience proof" stage e
  ;;? check_declared capabilities e.

(** What a proof of each action has to show. *)
(* sdk/resilience_lifecycle.go, lines 380-405: validateResilienceOperationEvidence *)
Definition check_action (action : string) (e : ResilienceProofEvidence) (dataClass : string) : gerror :=
  let class := GStr dataClass in
  if bool_decide (action = ResilienceBackup) then
    fail_if (blank (BackupID e)) (errorf "backup proof for data class %q is missing a backup identity" [class])
  else if bool_decide (action = ResilienceRestore) then
    fail_if (blank (RestoreID e) || negb (ServiceHealthVerified e))
      (errorf "restore proof for data class %q requires a restore identity and service-health verification" [class])
  else if bool_decide (action = ResilienceIntegrityCheck) then
    fail_if (negb (ManifestVerified e) && negb (CountsVerified e) && negb (ApplicationReadsVerified e))
      (errorf "integrity proof for data class %q must verify a manifest, count, or application read" [class])
    ;;? fail_if (negb (PermissionsVerified e) || negb (ServiceHealthVerified e))
          (errorf "integrity proof for data class %q requires permissions and service-health verification" [class])
    ;;? fail_if (Contains dataClass "secret" && negb (SecretReferencesVerified e))
          (errorf "integrity proof for data class %q requires secret-reference verification" [class])
  else if bool_decide (action = ResilienceFailover) then
    fail_if (negb (ServiceHealthVerified e))
      (errorf "failover proof for data class %q requires service-health verification" [class])
  else None.

(* sdk/resilience_lifecycle.go, lines 313-408: validateResilienceOperationEvidence *)
Definition validateResilienceOperationEvidence (descriptor : ResilienceAdapterDescriptor) (stage : ResilienceStage)
    (request : ResilienceOperationRequest) (observation : ResilienceOperationObservation) : gerror :=
  let capabilities := by_id Capability.Name (ResilienceAdapterDescriptor.DataClasses descriptor) in
  let action := ResilienceStage.Action stage in
  let byClass := by_id DataClass (Observation.Evidence observation) in
  if negb (needs_class_evidence action) then None
  else
    first_of (with_seen (λ seen e, [check_proof capabilities stage (OperationRequest.FixtureID request) seen e]) []
                (Observation.Evidence observation))
    ;;? first_error (λ dataClass,
          match byClass !! dataClass with
          | None => Some (errorf "resilience stage %q has no independent evidence for data class %q"
                            [GStr (ResilienceStage.ID stage); GStr dataClass])
          | Some e => check_action action e dataClass
          end) (ResilienceStage.DataClasses stage).
End evidence.

(** ** The adapter of an operation client *)

Module OperationBacked.
(* sdk/resilience_lifecycle.go, lines 197-201: OperationBackedResilienceAdapter *)
Record OperationBackedResilienceAdapter (W : Type) := {
  descriptor : ResilienceAdapterDescriptor;
  client : ResilienceOperationClient W;
  policy : ResilienceOperationPolicy;
}.
Arguments descriptor {W} _.
Arguments client {W} _.
Arguments policy {W} _.
End OperationBacked.
Notation OperationBackedResilienceAdapter := OperationBacked.OperationBackedResilienceAdapter.

Section adapter.
Context {W : Type} (env : waiter W) (url_Parse : string → result url).

(* sdk/resilience_lifecycle.go, lines 208-219: NewOperationBackedResilienceAdapter *)
Definition NewOperationBackedResilienceAdapter (descriptor : ResilienceAdapterDescriptor)
    (client : ResilienceOperationClient W) (policy : ResilienceOperationPolicy)
    : result (OperationBackedResilienceAdapter W) :=
  err_wrap (wrapf "validate operation-backed resilience adapter: %w" []) (ValidateResilienceAdapterDescriptor descriptor) ;;!
  validateResilienceOperationPolicy policy ;;!
  Ok {| OperationBacked.descriptor := descriptor; OperationBacked.client := client; OperationBacked.policy := policy |}.

Context (a : OperationBackedResilienceAdapter W).

(* sdk/resilience_lifecycle.go, lines 228-239: OperationBackedResilienceAdapter.PlanResilience *)
Definition PlanResilience (request : ResiliencePlanRequest) : eff event W (result ResiliencePlan) :=
  err ← call EvCtx (ctx_err env);
  mret (match err with
        | Some err => Err err
        | None => CompileResiliencePlan url_Parse (OperationBacked.descriptor a) request
        end).

(** The maps of the request are handed over as copies. *)
(* sdk/resilience_lifecycle.go, lines 258-269: OperationBackedResilienceAdapter.ExecuteResilience *)
Definition operation_request (stage : ResilienceStage) (request : ResilienceExecutionRequest) : ResilienceOperationRequest :=
  {| OperationRequest.Action := ResilienceStage.Action stage;
     OperationRequest.DataClasses := ResilienceStage.DataClasses stage;
     OperationRequest.Destination := ResilienceStage.Destination stage;
     OperationRequest.FixtureID := ResilienceExecutionRequest.FixtureID request;
     OperationRequest.OwnershipMarker := ResilienceExecutionRequest.OwnershipMarker request;
     OperationRequest.IdempotencyKey := ResilienceExecutionRequest.IdempotencyKey request;
     OperationRequest.ResourceReferences := ResilienceExecutionRequest.ResourceReferences request;
     OperationRequest.BackupReferences := ResilienceExecutionRequest.BackupReferences request;
     OperationRequest.ApprovalReference := ResilienceExecutionRequest.ApprovalReference request;
     OperationRequest.ReconciliationReference := ResilienceExecutionRequest.ReconciliationReference request |}.

(** The last observation, checked. *)
(* sdk/resilience_lifecycle.go, lines 283-310: OperationBackedResilienceAdapter.ExecuteResilience *)
Definition conclude_stage (stage : ResilienceStage) (operationRequest : ResilienceOperationRequest)
    (observation : ResilienceOperationObservation) : result ResilienceExecutionResult :=
  let id := GStr (ResilienceStage.ID stage) in
  fail_if (negb (bool_decide (Observation.Status observation = ResilienceOperationSucceeded)))
    (errorf "resilience stage %q returned non-success status %q" [id; GStr (Observation.Status observation)]) ;;!
  fail_if (negb (bool_decide (Observation.Action observation = ""))
           && negb (bool_decide (Observation.Action observation = ResilienceStage.Action stage)))
    (errorf "resilience stage %q returned action %q, want %q"
       [id; GStr (Observation.Action observation); GStr (ResilienceStage.Action stage)]) ;;!
  fail_if (negb (bool_decide (Observation.OwnershipMarker observation = OperationRequest.OwnershipMarker operationRequest))
           || negb (Observation.OwnershipVerified observation))
    (errorf "resilience stage %q did not verify ownership scope" [id]) ;;!
  fail_if (negb (Observation.IdempotencyVerified observation))
    (errorf "resilience stage %q did not verify idempotency" [id]) ;;!
  err_wrap (wrapf "validate resilience stage %q evidence: %w" [id])
    (validateResilienceOperationEvidence (OperationBacked.descriptor a) stage operationRequest observation) ;;!
  fail_if (bool_decide (Observation.OperationID observation = "") && bool_decide (Observation.ResourceRefs observation = [])
           && bool_decide (Observation.ProofRefs observation = []))
    (errorf "resilience stage %q returned no operation, resource, or proof identity" [id]) ;;!
  Ok {| ExecutionResult.Action := ResilienceStage.Action stage;
        ExecutionResult.OperationID := Observation.OperationID observation;
        ExecutionResult.ResourceRefs := Observation.ResourceRefs observation;
        ExecutionResult.ProofRefs := Observation.ProofRefs observation;
        ExecutionResult.Evidence := Observation.Evidence observation;
        ExecutionResult.OwnershipMarker := Observation.OwnershipMarker observation;
        ExecutionResult.OwnershipVerified := Observation.OwnershipVerified observation;
        ExecutionResult.IdempotencyVerified := Observation.IdempotencyVerified observation |}.

(* sdk/resilience_lifecycle.go, lines 241-311: OperationBackedResilienceAdapter.ExecuteResilience *)
Definition ExecuteResilience (request : ResilienceExecutionRequest) : eff event W (result ResilienceExecutionResult) :=
  match ValidateResilienceExecutionRequest request
        ;;? fail_if (blank (ResilienceExecutionRequest.FixtureID request))
              (ErrNew "operation-backed resilience execution fixture ID is required") with
  | Some err => mret (Err err)
  | None =>
      match findResilienceStage (ResilienceExecutionRequest.Plan request) (ResilienceExecutionRequest.StageID request) with
      | None => mret (Err (errorf "resilience stage %q is not present in the plan"
                             [GStr (ResilienceExecutionRequest.StageID request)]))
      | Some stage =>
          let id := GStr (ResilienceStage.ID stage) in
          let operationRequest := operation_request stage request in
          started ← call (EvStart operationRequest) (Start (OperationBacked.client a) operationRequest);
          match started with
          | Err err => mret (Err (wrapf "start resilience operation %q: %w" [id] err))
          | Ok observation =>
              let operationID := Observation.OperationID observation in
              let status := Observation.Status observation in
              if bool_decide (operationID = "") && negb (bool_decide (status = ResilienceOperationSucceeded)) then
                mret (Err (errorf "resilience stage %q returned no operation identity" [id]))
              else if bool_decide (status ∈ [ResilienceOperationPending; ResilienceOperationRunning]) then
                '(observation, err) ← WaitForResilienceOperation env (OperationBacked.client a) operationID
                                        (OperationBacked.policy a);
                mret (match err with
                      | Some err => Err (wrapf "wait for resilience stage %q: %w" [id] err)
                      | None => conclude_stage stage operationRequest observation
                      end)
              else mret (conclude_stage stage operationRequest observation)
          end
      end
  end.

(** The provider's inventory of what a marker owns. *)
(* sdk/resilience_lifecycle.go, lines 413-421: OperationBackedResilienceAdapter.Inventory *)
Definition AdapterInventory (ownershipMarker : string) : W → result (list ResilienceInventoryResource) * W :=
  if bad_reference ownershipMarker then
    λ w, (Err (ErrNew "resilience inventory ownership marker is required and must be single-line"), w)
  else Inventory (OperationBacked.client a) ownershipMarker.
End adapter.
