(* ===== verification/LifecycleClaims.v ===== *)
(** * What the lifecycles promise

    A wait is bounded and only passes on the final word of the owning service; a
    recovery stage only passes with its evidence. *)

From S2P Require Import Prelude GoStrings GoEncoding Sdk Admission Architecture Resilience ResiliencePlan ResilienceClaims Lifecycle.

Local Open Scope Z_scope.

Lemma polls_cons e es : polls (e :: es) = ((if is_poll e then 1 else 0) + polls es)%nat.
Proof. unfold polls. rewrite filter_cons. by destruct (is_poll e). Qed.

(** ** Deletion *)

(** The owning service reports the end and an empty inventory. *)
Definition deleted (o : DeletionObservation) : Prop :=
  Deletion.Status o = ResilienceOperationSucceeded ∧ Deletion.ResourceRefs o = [] ∧
  Deletion.DelayedResourceRefs o = [] ∧ Deletion.ProtectedResourceRefs o = [].

Lemma gone_true o : Deletion.gone o = true ↔
  Deletion.ResourceRefs o = [] ∧ Deletion.DelayedResourceRefs o = [] ∧ Deletion.ProtectedResourceRefs o = [].
Proof. unfold Deletion.gone. rewrite !andb_true_iff, !bool_decide_eq_true. tauto. Qed.

(** A poll after which the wait goes on: an error, an operation under way, or an
    inventory that is not empty. *)
Definition unsettled (answer : result DeletionObservation) : Prop :=
  match answer with
  | Err _ => True
  | Ok o => Deletion.Status o ∈ [ResilienceOperationPending; ResilienceOperationRunning]
            ∨ Deletion.Status o = ResilienceOperationSucceeded ∧ ¬ deleted o
  end.

(** A call of the wait that does not end it. *)
Definition goes_on (marker : string) (e : event) : Prop :=
  match e with
  | EvCtx err | EvWait err => err = None
  | EvPollDeletion m answer => m = marker ∧ unsettled answer
  | _ => False
  end.

Section deletion.
Context {W : Type} (env : waiter W) (PollDeletion : string → W → result DeletionObservation * W).
Context (marker : string) (policy : ResilienceOperationPolicy).

Abbreviation poll := (poll_deletion env PollDeletion marker policy).

(** What a wait with [n] attempts left is known to do: [n] polls at most, all
    but the last call inconclusive, and success on the last poll alone. *)
Definition deletion_trace (n : nat) (es : list event) (answer : DeletionObservation * gerror) : Prop :=
  (polls es ≤ n)%nat ∧
  (answer.2 = None → ∃ es', es = es' ++ [EvPollDeletion marker (Ok answer.1)] ∧ Forall (goes_on marker) es' ∧ deleted answer.1) ∧
  (∀ o, EvPollDeletion marker (Ok o) ∈ es → deleted o → answer = (o, None)).

Lemma trace_step n m es e a : goes_on marker e → ((if is_poll e then 1 else 0) + m ≤ n)%nat →
  deletion_trace m es a → deletion_trace n (e :: es) a.
Proof.
  intros He Hn (Hm&Hok&Hin). split_and!; [rewrite polls_cons; lia|..].
  - intros Hnone. destruct (Hok Hnone) as (es'&->&Hf&Hd). exists (e :: es'). split_and!; [done|by constructor|done].
  - intros o [<-|Ho]%elem_of_cons Hd; [|by apply Hin]. destruct He as [_ Hu]. simpl in Hu.
    destruct Hu as [Hu|[_ Hu]]; [|done]. destruct Hd as [Hd _]. rewrite Hd in Hu. by repeat apply elem_of_cons in Hu as [Hu|Hu]; try apply elem_of_nil in Hu.
Qed.

Lemma trace_over n o err : deletion_trace n [] (o, Some err).
Proof. split_and!; [apply Nat.le_0_l|done|]. by intros ? ?%elem_of_nil. Qed.

Lemma trace_interrupted n e o err : is_poll e = false → deletion_trace n [e] (o, Some err).
Proof.
  intros He. split_and!; [rewrite polls_cons, He; apply Nat.le_0_l|done|]. by intros ? <-%list_elem_of_singleton.
Qed.

(** The last poll: it ends the wait, or it was not the end. *)
Lemma trace_poll n answer a : (1 ≤ n)%nat → (∀ o, answer = Ok o → deleted o → a = (o, None)) →
  (a.2 = None → answer = Ok a.1 ∧ deleted a.1) → deletion_trace n [EvPollDeletion marker answer] a.
Proof.
  intros Hn Hin Hok. split_and!; [done|..].
  - intros Hnone. destruct (Hok Hnone) as [-> Hd]. exists []. by split_and!; [|constructor|].
  - intros o Ho Hd. apply list_elem_of_singleton in Ho as [= <-]. by apply Hin.
Qed.

Lemma poll_deletion_trace n attempt last : attempt + Z.of_nat n = MaxAttempts policy + 1 →
  yields (poll n attempt last) (deletion_trace n).
Proof.
  revert attempt last. induction n as [|n IH]; intros attempt last Hn; cbn [poll_deletion].
  { apply yields_ret, trace_over. }
  apply yields_call_bind. intros [err|].
  { by apply yields_ret, trace_interrupted. }
  assert (Hnext : ∀ answer o, unsettled answer →
    yields (if attempt =? MaxAttempts policy then mret (o, Some (errorf "deletion did not complete after %d attempts" [GInt attempt]))
            else waited ← call EvWait (wait env (PollInterval policy));
                 match waited with
                 | Some err => mret (o, Some (deletion_interrupted policy err))
                 | None => poll n (attempt + 1) o
                 end) (λ es, deletion_trace (S n) (EvPollDeletion marker answer :: es))).
  { intros answer o Hu.
    destruct (Z.eqb_spec attempt (MaxAttempts policy)).
    - apply yields_ret, (trace_step _ n); [done|simpl; lia|]. apply trace_over.
    - apply yields_call_bind. intros [err|].
      + apply yields_ret, (trace_step _ n); [done|simpl; lia|]. by apply trace_interrupted.
      + eapply yields_weaken; [apply IH; lia|]. intros es a Ha.
        apply (trace_step _ n); [done|simpl; lia|]. by apply (trace_step _ n). }
  apply yields_call_bind. intros [o|err].
  - eapply yields_weaken with (P := λ es, deletion_trace (S n) (EvPollDeletion marker (Ok o) :: es));
      [|intros es a Ha; by apply (trace_step _ (S n))].
    repeat case_bool_decide.
    + destruct (Deletion.gone o) eqn:Hg; [apply yields_ret, trace_poll; [lia|..]; simpl|].
      * intros o' [= <-] _. done.
      * intros _. apply gone_true in Hg. split; [done|]. by split.
      * apply (Hnext (Ok o) o). right. split; [done|]. intros Hd. apply not_true_iff_false in Hg. apply Hg, gone_true, Hd.
    + apply (Hnext (Ok o) o). by left.
    + apply yields_ret, trace_poll; [lia| |done]. by intros o' [= <-] [Hd _].
    + apply yields_ret, trace_poll; [lia| |done]. by intros o' [= <-] [Hd _].
    + apply yields_ret, trace_poll; [lia| |done]. by intros o' [= <-] [Hd _].
  - eapply yields_weaken with (P := λ es, deletion_trace (S n) (EvPollDeletion marker (Err err) :: es));
      [|intros es a Ha; by apply (trace_step _ (S n))].
    specialize (Hnext (Err err) last I).
    destruct (Z.eqb_spec attempt (MaxAttempts policy)) as [|Hne].
    + apply yields_ret, trace_poll; [lia|done|done].
    + exact Hnext.
Qed.

Lemma WaitForDeletion_trace :
  yields (WaitForDeletion env PollDeletion marker policy) (deletion_trace (Z.to_nat (MaxAttempts policy))).
Proof.
  unfold WaitForDeletion. destruct (_ ;;? _) as [err|] eqn:Hv; [apply yields_ret, trace_over|].
  unfold validateResilienceOperationPolicy in Hv. inv_checks. apply poll_deletion_trace.
  repeat match goal with H : _ || _ = false |- _ => apply orb_false_iff in H as [? ?] end. lia.
Qed.

(** ** When the service gets there *)

(** The [n]-th poll from here is the first conclusive one, and it finds nothing
    left; until then the context stays open and the timer fires. *)
Inductive settles : nat → DeletionObservation → W → Prop :=
  | settles_now w o :
      (ctx_err env w).1 = None → (PollDeletion marker (ctx_err env w).2).1 = Ok o → deleted o → settles 0 o w
  | settles_later n w o answer :
      (ctx_err env w).1 = None → (PollDeletion marker (ctx_err env w).2).1 = answer → unsettled answer →
      (wait env (PollInterval policy) (PollDeletion marker (ctx_err env w).2).2).1 = None →
      settles n o (wait env (PollInterval policy) (PollDeletion marker (ctx_err env w).2).2).2 → settles (S n) o w.

Lemma poll_deletion_settles k o w : settles k o w → ∀ n attempt last,
  (k < n)%nat → attempt + Z.of_nat n = MaxAttempts policy + 1 → outcome (poll n attempt last) w = (o, None).
Proof.
  induction 1 as [w o Hc Hp [Hd Hg]|k w o answer Hc Hp Hu Hw Hs IH]; intros [|n] attempt last Hk Hn; try lia;
    cbn [poll_deletion]; rewrite outcome_bind, outcome_call, final_call, Hc, outcome_bind, outcome_call, final_call, Hp.
  - rewrite Hd, (proj2 (gone_true o) Hg). done.
  - assert (Hne : attempt =? MaxAttempts policy = false) by lia. rewrite Hne.
    destruct answer as [o'|err]; simpl in Hu; [|rewrite outcome_bind, outcome_call, final_call, Hw; apply IH; lia].
    destruct (bool_decide (Deletion.Status o' = ResilienceOperationSucceeded)) eqn:Hst.
    + destruct (Deletion.gone o') eqn:Hg; [|rewrite outcome_bind, outcome_call, final_call, Hw; apply IH; lia].
      apply bool_decide_eq_true in Hst. apply gone_true in Hg. destruct Hu as [Hu|[_ []]]; [|by split].
      rewrite Hst in Hu. by repeat apply elem_of_cons in Hu as [Hu|Hu]; try apply elem_of_nil in Hu.
    + destruct Hu as [Hu|[Hu _]]; [|by rewrite Hu in Hst]. rewrite bool_decide_eq_true_2 by done.
      rewrite outcome_bind, outcome_call, final_call, Hw. apply IH; lia.
Qed.
End deletion.

(** ** Operations *)

Definition is_start (e : event) : bool := match e with EvStart _ _ => true | _ => false end.

Section operation.
Context {W : Type} (env : waiter W) (client : ResilienceOperationClient W) (operationID : string).
Context (policy : ResilienceOperationPolicy).
Abbreviation poll := (poll_operation env client operationID policy).

(** [n] polls at most and nothing else is called; success is the last answer of
    this very operation. *)
Definition operation_trace (n : nat) (es : list event) (a : ResilienceOperationObservation * gerror) : Prop :=
  (polls es ≤ n)%nat ∧ Forall (λ e, is_start e = false) es ∧
  (a.2 = None → last es = Some (EvPoll operationID (Ok a.1)) ∧ Observation.OperationID a.1 = operationID ∧
                Observation.Status a.1 = ResilienceOperationSucceeded).

Lemma operation_step n m es e a : is_start e = false → ((if is_poll e then 1 else 0) + m ≤ n)%nat →
  operation_trace m es a → operation_trace n (e :: es) a.
Proof.
  intros He Hn (Hm&Hf&Hok). split_and!; [rewrite polls_cons; lia|by constructor|].
  intros Hnone. destruct (Hok Hnone) as (Hl&Hid&Hst). split_and!; [|done|done]. destruct es; [done|]. exact Hl.
Qed.

Lemma operation_over n err : operation_trace n [] (refused err).
Proof. by split_and!; [apply Nat.le_0_l|constructor|]. Qed.

(** The polled operation failed, or the answer was not its own. *)
Lemma operation_end n answer a : (1 ≤ n)%nat →
  (a.2 = None → answer = Ok a.1 ∧ Observation.OperationID a.1 = operationID ∧ Observation.Status a.1 = ResilienceOperationSucceeded) →
  operation_trace n [EvPoll operationID answer] a.
Proof.
  intros Hn Ha. split_and!; [done|by repeat constructor|]. intros Hnone. by destruct (Ha Hnone) as (->&?&?).
Qed.

Lemma poll_operation_trace n attempt : attempt + Z.of_nat n = MaxAttempts policy + 1 →
  yields (poll n attempt) (operation_trace n).
Proof.
  revert attempt. induction n as [|n IH]; intros attempt Hn; cbn [poll_operation]; [apply yields_ret, operation_over|].
  apply yields_call_bind. intros [err|]; [apply yields_ret, (operation_step _ n); [done|simpl; lia|apply operation_over]|].
  assert (Hnext : ∀ answer,
    yields (if attempt =? MaxAttempts policy
            then mret (refused (errorf "resilience operation %q did not complete after %d attempts" [GStr operationID; GInt attempt]))
            else waited ← call EvWait (wait env (PollInterval policy));
                 match waited with
                 | Some err => mret (refused (interrupted operationID policy err))
                 | None => poll n (attempt + 1)
                 end) (λ es, operation_trace (S n) (EvPoll operationID answer :: es))).
  { intros answer. destruct (Z.eqb_spec attempt (MaxAttempts policy)).
    - apply yields_ret, (operation_step _ n); [done|simpl; lia|apply operation_over].
    - apply yields_call_bind. intros [err|].
      + apply yields_ret, (operation_step _ n); [done|simpl; lia|].
        apply (operation_step _ n); [done|simpl; lia|apply operation_over].
      + eapply yields_weaken; [apply IH; lia|]. intros es a Ha.
        apply (operation_step _ n); [done|simpl; lia|]. by apply (operation_step _ n). }
  assert (Hctx : ∀ e es a, is_start e = false → is_poll e = false → operation_trace (S n) es a → operation_trace (S n) (e :: es) a).
  { intros e es a He Hp Ha. apply (operation_step _ (S n)); [done| |done]. by rewrite Hp. }
  apply yields_call_bind. intros answer.
  apply yields_weaken with (P := λ es, operation_trace (S n) (EvPoll operationID answer :: es)); [|intros es a; by apply Hctx].
  specialize (Hnext answer). destruct answer as [o|err].
  - repeat case_bool_decide; simpl; try exact Hnext; try (apply yields_ret, operation_end; [lia|done]).
  - destruct (Z.eqb_spec attempt (MaxAttempts policy)); [|exact Hnext]. apply yields_ret, operation_end; [lia|done].
Qed.

Lemma WaitForResilienceOperation_trace :
  yields (WaitForResilienceOperation env client operationID policy) (operation_trace (Z.to_nat (MaxAttempts policy))).
Proof.
  unfold WaitForResilienceOperation. destruct (_ ;;? _) as [err|] eqn:Hv; [apply yields_ret, operation_over|].
  unfold validateResilienceOperationPolicy in Hv. inv_checks. apply poll_operation_trace.
  repeat match goal with H : _ || _ = false |- _ => apply orb_false_iff in H as [? ?] end. lia.
Qed.
End operation.

(** ** Evidence *)

Section evidence.
Import Evidence.

(** What one accepted proof shows. *)
Definition proof_holds (descriptor : ResilienceAdapterDescriptor) (stage : ResilienceStage) (fixtureID : string)
    (e : ResilienceProofEvidence) : Prop :=
  FixtureID e = fixtureID ∧
  (ResilienceStage.Destination stage ≠ "" → Destination e = ResilienceStage.Destination stage) ∧
  (protected_stage stage = true → blank (WriterIdentityRef e) = false ∧ blank (WriterEpoch e) = false) ∧
  (ResilienceStage.RequiresSingleWriter stage = true → SingleWriterVerified e = true) ∧
  (ResilienceStage.RequiresSplitBrainCheck stage = true → SplitBrainAbsent e = true) ∧
  (ResilienceStage.RequiresStaleOriginCheck stage = true → StaleOriginRejected e = true) ∧
  (ResilienceStage.RequiresReconciliation stage = true → ReconciliationVerified e = true) ∧
  (ResilienceStage.RequiresApproval stage = true → ApprovalVerified e = true) ∧
  ∃ capability, capability ∈ ResilienceAdapterDescriptor.DataClasses descriptor ∧ Capability.Name capability = DataClass e ∧
    (Capability.RetentionRequired capability = true → 0 < RetentionDays e) ∧
    (Capability.EncryptionRequired capability = true → EncryptionVerified e = true) ∧
    (Capability.ProtectionRequired capability = true → ProtectionVerified e = true).

Lemma check_scope_None what stage fixtureID e : check_scope what stage fixtureID e = None →
  FixtureID e = fixtureID ∧ (ResilienceStage.Destination stage ≠ "" → Destination e = ResilienceStage.Destination stage) ∧
  negative_measurement e = false.
Proof.
  unfold check_scope. intros H. inv_checks.
  repeat match goal with
  | H : negb _ = false |- _ => apply negb_false_iff, bool_decide_eq_true in H
  | H : _ && _ = false |- _ => apply andb_false_iff in H; rewrite !negb_false_iff, !bool_decide_eq_true in H
  end. by intuition.
Qed.

Lemma check_writer_None what stage e : check_writer what stage e = None →
  (protected_stage stage = true → blank (WriterIdentityRef e) = false ∧ blank (WriterEpoch e) = false) ∧
  (ResilienceStage.RequiresSingleWriter stage = true → SingleWriterVerified e = true) ∧
  (ResilienceStage.RequiresSplitBrainCheck stage = true → SplitBrainAbsent e = true) ∧
  (ResilienceStage.RequiresStaleOriginCheck stage = true → StaleOriginRejected e = true) ∧
  (ResilienceStage.RequiresReconciliation stage = true → ReconciliationVerified e = true) ∧
  (ResilienceStage.RequiresApproval stage = true → ApprovalVerified e = true).
Proof.
  unfold check_writer. destruct (protected_stage stage) eqn:Hp.
  - intros H. rewrite !err_seq_None, !fail_if_None in H. destruct H as (Hw&H1&H2&H3&H4&H5).
    apply orb_false_iff in Hw as [? ?]. split_and!; [done|..]; intros Hr;
      [rewrite Hr in H1|rewrite Hr in H2|rewrite Hr in H3|rewrite Hr in H4|rewrite Hr in H5]; by apply negb_false_iff.
  - intros _. unfold protected_stage in Hp. rewrite !orb_false_iff in Hp. destruct Hp as [[[[H1 H2] H3] H4] H5].
    rewrite H1, H2, H3, H4, H5. done.
Qed.

Lemma check_proof_None descriptor stage fixtureID seen e :
  check_proof (by_id Capability.Name (ResilienceAdapterDescriptor.DataClasses descriptor)) stage fixtureID seen e = None →
  proof_holds descriptor stage fixtureID e.
Proof.
  unfold check_proof. rewrite !err_seq_None. intros (_&_&Hs&Hw&Hd).
  apply check_scope_None in Hs as (?&?&_). apply check_writer_None in Hw as (?&?&?&?&?&?).
  unfold check_declared in Hd. destruct (by_id _ _ !! _) as [capability|] eqn:Hc; [|done].
  apply by_id_Some in Hc as [Hc Hn]. rewrite !err_seq_None, !fail_if_None, !andb_false_iff, !negb_false_iff in Hd.
  destruct Hd as (Hret&Henc&Hpro). split_and!; [done..|]. exists capability. split_and!; [done|done|..]; intros Hr.
  - destruct Hret as [Hret|Hret]; [congruence|lia].
  - by destruct Henc; [congruence|].
  - by destruct Hpro; [congruence|].
Qed.

Lemma first_of_None checks : first_of checks = None ↔ Forall (λ p, p = None) checks.
Proof. apply first_error_None. Qed.

Lemma validateResilienceOperationEvidence_None descriptor stage request observation :
  validateResilienceOperationEvidence descriptor stage request observation = None →
  needs_class_evidence (ResilienceStage.Action stage) = true →
  Forall (proof_holds descriptor stage (OperationRequest.FixtureID request)) (Observation.Evidence observation) ∧
  ∀ class, class ∈ ResilienceStage.DataClasses stage → ∃ e, e ∈ Observation.Evidence observation ∧ DataClass e = class ∧
    check_action (ResilienceStage.Action stage) e class = None.
Proof.
  unfold validateResilienceOperationEvidence. intros H Hn. rewrite Hn in H. cbn [negb] in H.
  rewrite err_seq_None, first_of_None, first_error_None in H. destruct H as [Hp Hc]. split.
  - apply Forall_forall. intros e He. destruct (with_seen_each _ _ _ Hp He) as [seen Hs].
    rewrite Forall_singleton in Hs. eapply check_proof_None, Hs.
  - intros class Hclass. rewrite Forall_forall in Hc. specialize (Hc _ Hclass). cbn beta in Hc.
    destruct (by_id _ _ !! class) as [e|] eqn:Hl; [|done]. apply by_id_Some in Hl as [Hin He]. by exists e.
Qed.
End evidence.

Section adapter.
Context {W : Type} (env : waiter W) (a : OperationBackedResilienceAdapter W) (request : ResilienceExecutionRequest).

Lemma conclude_stage_Ok stage op o r : conclude_stage a stage op o = Ok r →
  Observation.Status o = ResilienceOperationSucceeded ∧
  (Observation.Action o = "" ∨ Observation.Action o = ResilienceStage.Action stage) ∧
  Observation.OwnershipMarker o = OperationRequest.OwnershipMarker op ∧
  validateResilienceOperationEvidence (OperationBacked.descriptor a) stage op o = None ∧
  ¬ (Observation.OperationID o = "" ∧ Observation.ResourceRefs o = [] ∧ Observation.ProofRefs o = []) ∧
  Observation.OwnershipVerified o = true ∧ Observation.IdempotencyVerified o = true ∧
  r = {| ExecutionResult.Action := ResilienceStage.Action stage; ExecutionResult.OperationID := Observation.OperationID o;
         ExecutionResult.ResourceRefs := Observation.ResourceRefs o; ExecutionResult.ProofRefs := Observation.ProofRefs o;
         ExecutionResult.Evidence := Observation.Evidence o;
         ExecutionResult.OwnershipMarker := Observation.OwnershipMarker o;
         ExecutionResult.OwnershipVerified := true; ExecutionResult.IdempotencyVerified := true |}.
Proof.
  unfold conclude_stage. rewrite !lift_check_Ok, !fail_if_None, err_wrap_None.
  rewrite !andb_false_iff, !orb_false_iff, !negb_false_iff, !bool_decide_eq_true, !bool_decide_eq_false.
  intros (Hst&Hact&[Hown Hov]&Hiv&Hev&Hid&Hr). injection Hr as <-. rewrite Hov, Hiv. split_and!; try done. tauto.
Qed.

Abbreviation es_of := (events (ExecuteResilience env a request)).
Abbreviation max := (Z.to_nat (MaxAttempts (OperationBacked.policy a))).

(** What a passed stage has done and shown. *)
Definition stage_passed (es : list event) (r : ResilienceExecutionResult) : Prop :=
  ValidateResilienceExecutionRequest request = None ∧
  ∃ stage started final rest,
    findResilienceStage (ResilienceExecutionRequest.Plan request) (ResilienceExecutionRequest.StageID request) = Some stage ∧
    let op := operation_request stage request in
    es = EvStart op (Ok started) :: rest ∧ Forall (λ e, is_start e = false) rest ∧ (polls rest ≤ max)%nat ∧
    (rest = [] ∧ final = started ∨ last rest = Some (EvPoll (Observation.OperationID started) (Ok final))) ∧
    conclude_stage a stage op final = Ok r.

Lemma ExecuteResilience_yields :
  yields (ExecuteResilience env a request) (λ es r,
    match r with Ok r => stage_passed es r | Err _ => (length (filter is_start es) ≤ 1)%nat ∧ (polls es ≤ max)%nat end).
Proof.
  unfold ExecuteResilience. destruct (_ ;;? _) as [err|] eqn:Hv; [apply yields_ret; split; apply Nat.le_0_l|].
  apply err_seq_None in Hv as [Hv _].
  destruct (findResilienceStage _ _) as [stage|] eqn:Hs; [|apply yields_ret; split; apply Nat.le_0_l].
  apply yields_call_bind. intros [started|err]; [|apply yields_ret; split; [apply le_n|apply Nat.le_0_l]].
  set (op := operation_request stage request).
  assert (Hdirect : yields (mret (conclude_stage a stage op started) : eff event W _) (λ es r,
    match r with Ok r => stage_passed (EvStart op (Ok started) :: es) r
    | Err _ => (length (filter is_start (EvStart op (Ok started) :: es)) ≤ 1)%nat ∧ (polls (EvStart op (Ok started) :: es) ≤ max)%nat end)).
  { apply yields_ret. destruct (conclude_stage _ _ _ _) as [r|err] eqn:Hc; [|split; [apply le_n|apply Nat.le_0_l]].
    split; [done|]. exists stage, started, started, []. cbv zeta. split_and!; [done|done|constructor|apply Nat.le_0_l|by left|done]. }
  destruct (_ && _); [apply yields_ret; split; [apply le_n|apply Nat.le_0_l]|].
  case_bool_decide; [|exact Hdirect]. apply yields_bind.
  eapply yields_weaken; [apply WaitForResilienceOperation_trace|]. intros es [final err] (Hp&Hf&Hok). apply yields_ret.
  rewrite app_nil_r.
  assert (Hcount : (length (filter is_start (EvStart op (Ok started) :: es)) ≤ 1)%nat ∧ (polls (EvStart op (Ok started) :: es) ≤ max)%nat).
  { split; [|done]. rewrite filter_cons. simpl.
    assert (Hnil : filter is_start es = []) by (clear -Hf; induction Hf as [|e es He _ IH]; [done|]; rewrite filter_cons, He; exact IH).
    rewrite Hnil. done. }
  destruct err as [err|]; [exact Hcount|].
  destruct (conclude_stage a stage op final) as [r|err] eqn:Hc; [|exact Hcount]. split; [done|].
  exists stage, started, final, es. cbv zeta. split_and!; [done|done|done|done|right; by apply Hok|done].
Qed.
End adapter.

(** ** Claims *)

Section claims.
Context {W : Type} (env : waiter W).

(** A deletion is only reported done by the owning service.  The wait polls
    at most [MaxAttempts] times; it succeeds exactly when its last call is a poll
    that answers success with no resource left, delayed or protected, every call
    before it being inconclusive; and once such an answer is seen the wait does
    not go on to another one. *)
Theorem WaitForDeletion_gone (PollDeletion : string → W → result DeletionObservation * W) marker policy w :
  let m := WaitForDeletion env PollDeletion marker policy in
  (polls (events m w) ≤ Z.to_nat (MaxAttempts policy))%nat ∧
  ((outcome m w).2 = None ↔ ∃ es o, events m w = es ++ [EvPollDeletion marker (Ok o)] ∧
     Forall (goes_on marker) es ∧ deleted o ∧ (outcome m w).1 = o).
Proof.
  cbv zeta. destruct (WaitForDeletion_trace env PollDeletion marker policy w) as (Hp&Hok&Hin). split; [done|]. split.
  - intros Hnone. destruct (Hok Hnone) as (es&?&?&?). by eexists _, _.
  - intros (es&o&He&_&Hd&_). rewrite (Hin o); [done| |done]. rewrite He. set_solver.
Qed.

(** A deletion that ends in time is waited for.  When, with the context open
    and the timer firing, the service answers the end with an empty inventory at
    one of the first [MaxAttempts] polls and every earlier poll is inconclusive,
    a failed one included, the wait returns that answer without an error. *)
Theorem WaitForDeletion_settles (PollDeletion : string → W → result DeletionObservation * W) marker policy k o w :
  bad_reference marker = false → 0 < Timeout policy → 0 < PollInterval policy →
  settles env PollDeletion marker policy k o w → Z.of_nat k < MaxAttempts policy →
  outcome (WaitForDeletion env PollDeletion marker policy) w = (o, None).
Proof.
  intros Hm Ht Hi Hs Hk. unfold WaitForDeletion, validateResilienceOperationPolicy. rewrite Hm.
  rewrite (proj2 (Z.leb_gt _ _) Ht), (proj2 (Z.leb_gt _ _) Hi).
  assert (Hmax : MaxAttempts policy <=? 0 = false) by lia. rewrite Hmax. simpl.
  eapply poll_deletion_settles; [exact Hs|lia..].
Qed.

(** What a recovery stage has shown when it passes.  Executing a stage
    starts at most one operation and polls it at most [MaxAttempts] times.  When
    it passes, the operation was started with the stage's own action, scope and
    idempotency key, the last answer was a success for the same ownership marker
    with ownership and idempotency attested, an identity is returned, and for an
    action that touches data every data class of the stage has evidence, all of
    it for this fixture and destination, with the protections the stage requires
    and the durability the adapter declares. *)
Theorem ExecuteResilience_proved (a : OperationBackedResilienceAdapter W) request w :
  let m := ExecuteResilience env a request in
  (length (filter is_start (events m w)) ≤ 1)%nat ∧
  (polls (events m w) ≤ Z.to_nat (MaxAttempts (OperationBacked.policy a)))%nat ∧
  ∀ r, outcome m w = Ok r → ∃ stage started rest,
    findResilienceStage (ResilienceExecutionRequest.Plan request) (ResilienceExecutionRequest.StageID request) = Some stage ∧
    events m w = EvStart (operation_request stage request) (Ok started) :: rest ∧
    (rest = [] ∧ Observation.Status started = ResilienceOperationSucceeded ∨
     ∃ final, last rest = Some (EvPoll (Observation.OperationID started) (Ok final)) ∧
       Observation.Status final = ResilienceOperationSucceeded) ∧
    ExecutionResult.Action r = ResilienceStage.Action stage ∧
    ExecutionResult.OwnershipMarker r = ResilienceExecutionRequest.OwnershipMarker request ∧
    ExecutionResult.OwnershipVerified r = true ∧ ExecutionResult.IdempotencyVerified r = true ∧
    ¬ (ExecutionResult.OperationID r = "" ∧ ExecutionResult.ResourceRefs r = [] ∧ ExecutionResult.ProofRefs r = []) ∧
    (needs_class_evidence (ResilienceStage.Action stage) = true →
     Forall (proof_holds (OperationBacked.descriptor a) stage (ResilienceExecutionRequest.FixtureID request))
       (ExecutionResult.Evidence r) ∧
     ∀ class, class ∈ ResilienceStage.DataClasses stage → ∃ e, e ∈ ExecutionResult.Evidence r ∧
       Evidence.DataClass e = class ∧ check_action (ResilienceStage.Action stage) e class = None).
Proof.
  cbv zeta. pose proof (ExecuteResilience_yields env a request w) as H.
  destruct (outcome (ExecuteResilience env a request) w) as [r|err]; [|by destruct H].
  destruct H as (Hv&stage&started&final&rest&Hs&He&Hf&Hp&Hl&Hc). rewrite He.
  assert (Hnil : filter is_start rest = []).
  { clear -Hf. induction Hf as [|e es Hes _ IH]; [done|]. by rewrite filter_cons, Hes. }
  split_and!; [rewrite filter_cons; simpl; by rewrite Hnil|by rewrite polls_cons|]. intros ? [= <-].
  exists stage, started, rest. apply conclude_stage_Ok in Hc as (Hst&_&Hown&Hev&Hid&_&_&->).
  split_and!; [done|done| |done..|].
  { destruct Hl as [[-> ->]|Hl]; [by left|right; by exists final]. }
  intros Hneeds. exact (validateResilienceOperationEvidence_None _ _ _ _ Hev Hneeds).
Qed.
End claims.

(** ** Example *)

(** A world that counts the calls; the third poll is the last one. *)
Module LifecycleExample.
Import ResilienceExample.

Definition clock : waiter nat := {| ctx_err := λ w, (None, w); wait := λ _ w, (None, w) |}.

Definition policy : ResilienceOperationPolicy := {| Timeout := 60; PollInterval := 1; MaxAttempts := 5 |}.

Definition no_resource (status : string) (refs : list string) : DeletionObservation :=
  {| Deletion.Status := status; Deletion.OperationID := ""; Deletion.ResourceRefs := refs;
     Deletion.DelayedResourceRefs := []; Deletion.ProtectedResourceRefs := []; Deletion.Detail := "" |}.

(** Under way, then finished with a resource left, then empty. *)
Definition deletion (marker : string) (w : nat) : result DeletionObservation * nat :=
  (Ok (match w with
       | O => no_resource "running" ["vm-1"]
       | 1%nat => no_resource "succeeded" ["vm-1"]
       | _ => no_resource "succeeded" []
       end), S w).

Lemma WaitForDeletion_settles_witness :
  outcome (WaitForDeletion clock deletion "run-1" policy) 0%nat = (no_resource "succeeded" [], None).
Proof.
  apply (WaitForDeletion_settles clock deletion "run-1" policy 2 (no_resource "succeeded" []) 0%nat); [done..| |done].
  eapply settles_later; [done|reflexivity|left; apply list_elem_of_further, list_elem_of_here|done|].
  eapply settles_later; [done|reflexivity|right; split; [done|intros (_&?&_); done]|done|].
  by apply settles_now.
Defined.

Definition proof (class : string) : ResilienceProofEvidence :=
  {| Evidence.DataClass := class; Evidence.Destination := "alternate-region"; Evidence.BackupID := "snapshot-1";
     Evidence.RestoreID := ""; Evidence.FixtureID := "fixture-1"; Evidence.RetentionDays := 7;
     Evidence.EncryptionVerified := true; Evidence.ProtectionVerified := true; Evidence.ManifestVerified := false;
     Evidence.CountsVerified := false; Evidence.ApplicationReadsVerified := false; Evidence.PermissionsVerified := false;
     Evidence.SecretReferencesVerified := false; Evidence.ServiceHealthVerified := false; Evidence.WriterIdentityRef := "";
     Evidence.WriterEpoch := ""; Evidence.SingleWriterVerified := false; Evidence.SplitBrainAbsent := false;
     Evidence.StaleOriginRejected := false; Evidence.ReconciliationVerified := false; Evidence.ApprovalVerified := false;
     Evidence.MeasuredDurationSeconds := 0; Evidence.MeasuredRPOSeconds := 0; Evidence.MeasuredRTOSeconds := 0;
     Evidence.Reason := "" |}.

Definition observed (status : string) (evidence : list ResilienceProofEvidence) : ResilienceOperationObservation :=
  {| Observation.Status := status; Observation.Action := "backup"; Observation.OperationID := "op-1";
     Observation.ResourceRefs := []; Observation.ProofRefs := []; Observation.OwnershipMarker := "run-1";
     Observation.OwnershipVerified := true; Observation.IdempotencyVerified := true; Observation.Evidence := evidence;
     Observation.Detail := "" |}.

Definition client : ResilienceOperationClient nat :=
  {| Start := λ _ w, (Ok (observed "pending" []), w);
     Poll := λ _ w, (Ok (match w with O => observed "running" [] | _ => observed "succeeded" [proof "database"] end), S w);
     Inventory := λ _ w, (Ok [], w) |}.

Definition adapter : OperationBackedResilienceAdapter nat :=
  {| OperationBacked.descriptor := descriptor; OperationBacked.client := client; OperationBacked.policy := policy |}.

Definition execution : ResilienceExecutionRequest :=
  {| ResilienceExecutionRequest.Plan := plan; ResilienceExecutionRequest.StageID := "backup-database";
     ResilienceExecutionRequest.FixtureID := "fixture-1"; ResilienceExecutionRequest.IdempotencyKey := "key-1";
     ResilienceExecutionRequest.OwnershipMarker := "run-1"; ResilienceExecutionRequest.ResourceReferences := ∅;
     ResilienceExecutionRequest.BackupReferences := ∅; ResilienceExecutionRequest.ApprovalReference := "";
     ResilienceExecutionRequest.ReconciliationReference := "" |}.

Example execution_passes :
  ExecutionResult.Evidence <$> match outcome (ExecuteResilience clock adapter execution) 0%nat with Ok r => Some r | Err _ => None end
  = Some [proof "database"].
Proof. vm_compute. reflexivity. Qed.
End LifecycleExample.
