(* ===== verification/ProviderAdmission.v ===== *)
(** * The admission probe of a provider (internal/certification/provider_admission.go)

    Identity, credentials, network, state, fixture, ownership, quota and local
    resources of one admission input, with the identity and credential boundary of
    internal/provider.  Contexts are there; [ctx_err] is [ctx.Err()], a call like
    the others.  A loop over a literal map checks its entries in the order they are
    written. *)

From S2P Require Import Prelude GoStrings GoEncoding Sdk Admission Resilience Lifecycle.

Local Open Scope Z_scope.

(** ** Data *)

Module IdentityRequest.
(* internal/provider/identity.go, lines 15-20: IdentityCheckRequest *)
Record IdentityCheckRequest := {
  Provider : string;
  AccountOrProjectRef : string;
  Region : string;
  RequiredPermissions : list string;
}.
End IdentityRequest.
Notation IdentityCheckRequest := IdentityRequest.IdentityCheckRequest.

Module PermissionCheck.
(* internal/provider/identity.go, lines 24-27: PermissionCheck *)
Record PermissionCheck := { Name : string; Granted : bool }.
End PermissionCheck.
Notation PermissionCheck := PermissionCheck.PermissionCheck.

Module IdentityObservation.
(* internal/provider/identity.go, lines 32-39: IdentityObservation *)
Record IdentityObservation := {
  Provider : string;
  AccountOrProjectRef : string;
  Region : string;
  PrincipalRef : string;
  PermissionChecks : list PermissionCheck;
  LeastPrivilegeVerified : bool;
}.
End IdentityObservation.
Notation IdentityObservation := IdentityObservation.IdentityObservation.

Module AdmissionFact.
(* internal/certification/provider_admission.go, lines 14-17: AdmissionFact *)
Record AdmissionFact := { Ready : bool; Reason : string }.
End AdmissionFact.
Notation AdmissionFact := AdmissionFact.AdmissionFact.

(* internal/provider/identity.go, lines 44-46: IdentityClient *)
Definition IdentityClient (W : Type) : Type := IdentityCheckRequest → W → result IdentityObservation * W.

(** A resolver is given the consumer of the value; [None] is a nil value. *)
(* internal/provider/credentials.go, lines 16-18: CredentialResolver *)
Definition CredentialResolver (W : Type) : Type := string → (option string → gerror) → W → gerror * W.

(* internal/certification/provider_admission.go, lines 21-23: AdmissionFactChecker *)
Definition AdmissionFactChecker (W : Type) : Type := AdmissionInput → W → result AdmissionFact * W.

(* internal/certification/provider_admission.go, lines 28-30: AdmissionQuotaChecker *)
Definition AdmissionQuotaChecker (W : Type) : Type := AdmissionInput → W → result (gmap string Z) * W.

(* internal/certification/provider_admission.go, lines 35-37: AdmissionLocalResourceChecker *)
Definition AdmissionLocalResourceChecker (W : Type) : Type := AdmissionInput → W → result (Z * Z) * W.

(** A checker that is not configured is [None]. *)
(* internal/certification/provider_admission.go, lines 42-52: ProviderAdmissionProbe *)
Record ProviderAdmissionProbe (W : Type) := {
  Identity : option (IdentityClient W);
  RequiredPermissions : list string;
  Credentials : option (CredentialResolver W);
  Network : option (AdmissionFactChecker W);
  StateBackend : option (AdmissionFactChecker W);
  Fixture : option (AdmissionFactChecker W);
  Ownership : option (AdmissionFactChecker W);
  Quota : option (AdmissionQuotaChecker W);
  LocalResources : option (AdmissionLocalResourceChecker W);
}.
Arguments Identity {W} _.
Arguments RequiredPermissions {W} _.
Arguments Credentials {W} _.
Arguments Network {W} _.
Arguments StateBackend {W} _.
Arguments Fixture {W} _.
Arguments Ownership {W} _.
Arguments Quota {W} _.
Arguments LocalResources {W} _.

(** The calls of a probe, with their answers. *)
Inductive admission_event :=
  | EvAdmissionContext (err : gerror)
  | EvUseCredential (reference : string) (err : gerror)
  | EvCheckIdentity (request : IdentityCheckRequest) (answer : result IdentityObservation)
  | EvCheckFact (id : string) (answer : result AdmissionFact)
  | EvQuota (answer : result (gmap string Z))
  | EvLocalResources (answer : result (Z * Z)).

(** ** Identity *)

Section identity_checks.
Context (request : IdentityCheckRequest).
Import IdentityRequest.

(* internal/provider/identity.go, lines 85-107: validateIdentityRequest *)
Definition validateIdentityRequest : gerror :=
  errors_Join (
    [ValidateTargetDescriptor {| TargetID := "identity"; TargetProvider := Provider request; TargetRuntime := "identity" |}]
    ++ ((λ nv : string * string, fail_if (bad_reference nv.2) (errorf "identity %s is required and must be single-line" [GStr nv.1])) <$>
          [("account or project reference", AccountOrProjectRef request); ("region", Region request)])
    ++ with_seen (λ seen permission,
         [fail_if (bool_decide (permission = "") || multiline permission)
            (ErrNew "identity permission names must be non-empty and single-line");
          fail_if (bool_decide (permission ∈ seen)) (errorf "identity permission %q is duplicated" [GStr permission])])
         [] (TrimSpace <$> RequiredPermissions request)).

Definition granted (checks : list PermissionCheck) (permission : string) : bool :=
  match by_id PermissionCheck.Name checks !! permission with Some check => PermissionCheck.Granted check | None => false end.

(* internal/provider/identity.go, lines 109-146: validateIdentityObservation *)
Definition validateIdentityObservation (o : IdentityObservation) : gerror :=
  let checks := IdentityObservation.PermissionChecks o in
  let missing := sort_strings (filter (λ permission, granted checks permission = false) (RequiredPermissions request)) in
  fail_if (negb (bool_decide (IdentityObservation.Provider o = Provider request)))
    (errorf "provider identity %q does not match requested provider %q"
       [GStr (IdentityObservation.Provider o); GStr (Provider request)])
  ;;? fail_if (negb (bool_decide (IdentityObservation.AccountOrProjectRef o = AccountOrProjectRef request)))
        (ErrNew "provider identity does not match requested account or project")
  ;;? fail_if (negb (bool_decide (IdentityObservation.Region o = Region request)))
        (ErrNew "provider identity does not match requested region")
  ;;? fail_if (bad_reference (IdentityObservation.PrincipalRef o))
        (ErrNew "provider identity principal reference is required and must be single-line")
  ;;? fail_if (negb (IdentityObservation.LeastPrivilegeVerified o))
        (ErrNew "provider identity did not verify least-privilege scope")
  ;;? first_of (with_seen (λ seen name,
        [fail_if (bad_reference name) (ErrNew "provider identity permission check name is required and must be single-line");
         fail_if (bool_decide (name ∈ seen)) (errorf "provider identity permission %q is duplicated" [GStr name])])
        [] (PermissionCheck.Name <$> checks))
  ;;? fail_if (negb (bool_decide (missing = [])))
        (errorf "provider identity is missing required permissions: %s" [GStr (strings_Join missing ", ")]).
End identity_checks.

(* internal/certification/provider_admission.go, lines 162-167: nonEmptyAdmissionReason *)
Definition nonEmptyAdmissionReason (reason : string) : string :=
  if blank reason then "provider admission requirement is not verified" else reason.

Section probe.
Context {W : Type} (env : waiter W) (url_Parse : string → result url).
Abbreviation M := (eff admission_event W).

Definition admission_context : M gerror := call EvAdmissionContext (ctx_err env).

(* internal/provider/identity.go, lines 59-83: VerifyIdentity *)
Definition VerifyIdentity (client : IdentityClient W) (request : IdentityCheckRequest) : M (result IdentityObservation) :=
  match validateIdentityRequest request with
  | Some err => mret (Err err)
  | None =>
      err ← admission_context;
      match err with
      | Some err => mret (Err err)
      | None =>
          answer ← call (EvCheckIdentity request) (client request);
          match answer with
          | Err _ =>
              contextErr ← admission_context;
              mret (Err (default (ErrNew "provider identity check failed") contextErr))
          | Ok o => mret (validateIdentityObservation request o ;;! Ok o)
          end
      end
  end.

(** What the resolver does with a value: its consumer's error is not wrapped. *)
(* internal/provider/credentials.go, lines 57-68: UseCredential *)
Definition consume_value (consume : string → gerror) (value : option string) : gerror :=
  match value with
  | None => Some (ErrNew "credential resolver returned no value")
  | Some value => match consume value with Some _ => Some (ErrNew "credential consumer failed") | None => None end
  end.

(* internal/provider/credentials.go, lines 41-75: UseCredential *)
Definition UseCredential (resolver : CredentialResolver W) (reference : string) (consume : string → gerror) : M gerror :=
  match err_wrap (wrapf "validate credential reference: %w" []) (ValidateCredentialReference url_Parse reference) with
  | Some err => mret (Some err)
  | None =>
      err ← admission_context;
      match err with
      | Some err => mret (Some err)
      | None =>
          err ← call (EvUseCredential reference) (resolver reference (consume_value consume));
          match err with
          | None => mret None
          | Some _ =>
              contextErr ← admission_context;
              mret (Some (default (errorf "resolve credential reference %q: credential provider failed"
                                     [GStr (TrimSpace reference)]) contextErr))
          end
      end
  end.

(** ** The probe *)

Context (p : ProviderAdmissionProbe W) (input : AdmissionInput).
Import AdmissionInput.
Abbreviation reasons_map := (gmap string string).

(* internal/certification/provider_admission.go, lines 70-74: ProviderAdmissionProbe.Probe *)
Definition set_reason (id reason : string) (reasons : reasons_map) : reasons_map := <[id := nonEmptyAdmissionReason reason]> reasons.

(* internal/certification/provider_admission.go, lines 82-89: ProviderAdmissionProbe.Probe *)
Fixpoint use_references (resolver : CredentialResolver W) (references : list string) : M bool :=
  match references with
  | [] => mret true
  | reference :: references =>
      err ← UseCredential resolver reference (λ _, None);
      match err with Some _ => mret false | None => use_references resolver references end
  end.

(* internal/certification/provider_admission.go, lines 76-93: ProviderAdmissionProbe.Probe *)
Definition probe_credentials (reasons : reasons_map) : M (bool * reasons_map) :=
  if RequireCredentials input then
    match Credentials p with
    | None => mret (false, set_reason "provider.credentials" "provider credential resolver is not configured" reasons)
    | Some resolver =>
        resolved ← use_references resolver (CredentialRefs input);
        mret (resolved, if resolved : bool then reasons
                        else set_reason "provider.credentials" "provider credential reference could not be resolved" reasons)
    end
  else mret (true, reasons).

(* internal/certification/provider_admission.go, lines 98-103: ProviderAdmissionProbe.Probe *)
Definition identity_request : IdentityCheckRequest :=
  {| IdentityRequest.Provider := Provider input; IdentityRequest.AccountOrProjectRef := AccountOrProjectRef input;
     IdentityRequest.Region := Region input; IdentityRequest.RequiredPermissions := RequiredPermissions p |}.

(* internal/certification/provider_admission.go, lines 95-108: ProviderAdmissionProbe.Probe *)
Definition probe_identity (reasons : reasons_map) : M (bool * reasons_map) :=
  let unready := set_reason "provider.account-or-project" in
  match Identity p with
  | None => mret (false, unready "provider identity client is not configured" reasons)
  | Some client =>
      verified ← VerifyIdentity client identity_request;
      mret (match verified with
        | Ok _ => (true, reasons)
        | Err _ => (false, unready "provider account/project or permission scope is not verified" reasons)
        end)
  end.

(* internal/certification/provider_admission.go, lines 146-160: ProviderAdmissionProbe.runFact *)
Definition runFact (checker : option (AdmissionFactChecker W)) (id : string) (reasons : reasons_map) : M (bool * reasons_map) :=
  match checker with
  | None => mret (false, <[id := "provider admission checker is not configured"]> reasons)
  | Some check =>
      answer ← call (EvCheckFact id) (check input);
      mret (match answer with
        | Err _ => (false, <[id := "provider admission check is unavailable"]> reasons)
        | Ok fact =>
            (AdmissionFact.Ready fact,
             if AdmissionFact.Ready fact then reasons else <[id := nonEmptyAdmissionReason (AdmissionFact.Reason fact)]> reasons)
        end)
  end.

(* internal/certification/provider_admission.go, lines 115-126: ProviderAdmissionProbe.Probe *)
Definition probe_quota (reasons : reasons_map) : M (gmap string Z * reasons_map) :=
  let unready reason := (∅ : gmap string Z, set_reason "provider.quota" reason reasons) in
  if bool_decide (RequiredQuota input = ∅) then mret (∅, reasons)
  else match Quota p with
  | None => mret (unready "provider quota checker is not configured")
  | Some available =>
      answer ← call EvQuota (available input);
      mret (match answer with Err _ => unready "provider quota is unavailable" | Ok quota => (quota, reasons) end)
  end.

(* internal/certification/provider_admission.go, lines 127-139: ProviderAdmissionProbe.Probe *)
Definition probe_local (reasons : reasons_map) : M (Z * Z * reasons_map) :=
  let unready reason := (0, 0, set_reason "provider.local-resources" reason reasons) in
  if (0 <? RequiredLocalCPUMilli input) || (0 <? RequiredLocalMemoryMB input) then
    match LocalResources p with
    | None => mret (unready "local resource checker is not configured")
    | Some available =>
        answer ← call EvLocalResources (available input);
        mret (match answer with
          | Ok (cpuMilli, memoryMB) =>
              if (cpuMilli <? 0) || (memoryMB <? 0) then unready "local resource capacity is unavailable" else (cpuMilli, memoryMB, reasons)
          | Err _ => unready "local resource capacity is unavailable"
          end)
    end
  else mret (0, 0, reasons).

(* internal/certification/provider_admission.go, lines 59-144: ProviderAdmissionProbe.Probe *)
Definition provider_Probe : M (result AdmissionProbeResult) :=
  err ← admission_context;
  match err with
  | Some err => mret (Err err)
  | None =>
      '(credentials, reasons) ← probe_credentials ∅;
      '(account, reasons) ← probe_identity reasons;
      '(network, reasons) ← runFact (Network p) "provider.network" reasons;
      '(state, reasons) ← runFact (StateBackend p) "provider.state-backend" reasons;
      '(fixture, reasons) ← runFact (Fixture p) "provider.fixture" reasons;
      '(ownership, reasons) ← runFact (Ownership p) "provider.ownership" reasons;
      '(quota, reasons) ← probe_quota reasons;
      '(cpuMilli, memoryMB, reasons) ← probe_local reasons;
      err ← admission_context;
      mret (match err with
        | Some err => Err err
        | None => Ok
            {| AdmissionProbeResult.CredentialsReady := credentials; AdmissionProbeResult.AccountOrProjectReady := account;
               AdmissionProbeResult.NetworkReady := network; AdmissionProbeResult.StateBackendReady := state;
               AdmissionProbeResult.FixtureReady := fixture; AdmissionProbeResult.OwnershipReady := ownership;
               AdmissionProbeResult.AvailableQuota := quota; AdmissionProbeResult.AvailableLocalCPUMilli := cpuMilli;
               AdmissionProbeResult.AvailableLocalMemoryMB := memoryMB; AdmissionProbeResult.Reasons := reasons |}
        end)
  end.
End probe.

(** The probe as the gate sees it. *)
(* internal/certification/provider_admission.go, lines 59-144: ProviderAdmissionProbe.Probe *)
Definition provider_probe {W} (env : waiter W) (url_Parse : string → result url) (p : ProviderAdmissionProbe W) : AdmissionProbe W :=
  λ _ input w, (outcome (provider_Probe env url_Parse p input) w, final (provider_Probe env url_Parse p input) w).

(** ** Checkers that answer without a call *)

(* internal/certification/provider_admission.go, lines 182-187: StaticAdmissionFact.Check *)
Definition StaticAdmissionFact {W} (f : bool) : AdmissionFactChecker W := λ _ w,
  (Ok {| AdmissionFact.Ready := f; AdmissionFact.Reason := if f then "" else "static admission fact is false" |}, w).

(** [None] is a nil map. *)
(* internal/certification/provider_admission.go, lines 194-199: StaticAdmissionQuota.Available *)
Definition StaticAdmissionQuota {W} (q : option (gmap string Z)) : AdmissionQuotaChecker W := λ _ w,
  (match q with None => Err (errorf "static quota is unavailable" []) | Some q => Ok q end, w).

(* internal/certification/provider_admission.go, lines 208-213: StaticAdmissionLocalResources.Available *)
Definition StaticAdmissionLocalResources {W} (cpuMilli memoryMB : Z) : AdmissionLocalResourceChecker W := λ _ w,
  (if (cpuMilli <? 0) || (memoryMB <? 0) then Err (errorf "static local resources cannot be negative" []) else Ok (cpuMilli, memoryMB), w).
