(* ===== verification/AdmissionClaims.v ===== *)
(** * What the admission probe of a provider promises

    A report made with the composed probe is ready only when every prerequisite
    was asked of its own checker and answered; whatever is not configured, fails or
    is not answered blocks, with a reason. *)

From S2P Require Import Prelude GoStrings GoEncoding Sdk Admission Resilience Lifecycle ProviderAdmission.

Local Open Scope Z_scope.

Section probe.
Context {W : Type} (env : waiter W) (url_Parse : string → result url) (Quote : string → string).
Context (p : ProviderAdmissionProbe W) (input : AdmissionInput).
Abbreviation reasons_map := (gmap string string).

Lemma use_references_trace resolver references :
  yields (use_references env url_Parse resolver references) (λ es ok, ok = true →
    Forall (λ reference, EvUseCredential reference None ∈ es) references).
Proof.
  induction references as [|r references IH]; cbn [use_references]; [by apply yields_ret|]. apply yields_bind.
  assert (Hu : yields (UseCredential env url_Parse resolver r (λ _, None)) (λ es err, err = None → EvUseCredential r None ∈ es)).
  { unfold UseCredential. destruct (err_wrap _ _); [by apply yields_ret|]. unfold admission_context. apply yields_call_bind.
    intros [err|]; [by apply yields_ret|]. apply yields_call_bind. intros [err|]; [apply yields_call_bind; intros contextErr; by apply yields_ret|].
    apply yields_ret. intros _. apply list_elem_of_further, list_elem_of_here. }
  eapply yields_weaken; [exact Hu|]. intros es [err|] Hes; [by apply yields_ret|]. eapply yields_weaken; [exact IH|].
  intros es' ok Hok Ht. constructor; [apply elem_of_app; left; by apply Hes|]. eapply Forall_impl; [by apply Hok|].
  intros r' ?. apply elem_of_app. by right.
Qed.

(** What a fact found ready rests on. *)
Definition credentials_asked (es : list admission_event) : Prop :=
  AdmissionInput.RequireCredentials input = true → is_Some (Credentials p) ∧
  Forall (λ reference, EvUseCredential reference None ∈ es) (AdmissionInput.CredentialRefs input).
Definition identity_asked (es : list admission_event) : Prop :=
  ∃ o, EvCheckIdentity (identity_request p input) (Ok o) ∈ es ∧ validateIdentityObservation (identity_request p input) o = None.
Definition fact_asked (id : string) (es : list admission_event) : Prop :=
  ∃ fact, EvCheckFact id (Ok fact) ∈ es ∧ AdmissionFact.Ready fact = true.

Lemma probe_credentials_trace reasons : yields (probe_credentials env url_Parse p input reasons) (λ es r, r.1 = true → credentials_asked es).
Proof.
  unfold probe_credentials, credentials_asked. destruct (AdmissionInput.RequireCredentials input); [|by apply yields_ret].
  destruct (Credentials p) as [resolver|]; [|by apply yields_ret]. apply yields_bind. eapply yields_weaken; [apply use_references_trace|].
  intros es ok Hok. apply yields_ret. cbn [fst]. intros Ht _. rewrite app_nil_r. split; [by eexists|by apply Hok].
Qed.

Lemma probe_identity_trace reasons : yields (probe_identity env p input reasons) (λ es r, r.1 = true → identity_asked es).
Proof.
  unfold probe_identity, identity_asked. cbv zeta. destruct (Identity p) as [client|]; [|by apply yields_ret]. apply yields_bind.
  unfold VerifyIdentity. destruct (validateIdentityRequest _); [by apply yields_ret, yields_ret|]. unfold admission_context. apply yields_call_bind.
  intros [err|]; [by apply yields_ret, yields_ret|]. apply yields_call_bind. intros [o|err].
  - destruct (validateIdentityObservation _ o) eqn:Hv; [by apply yields_ret, yields_ret|]. apply yields_ret, yields_ret. intros _. exists o.
    split; [|done]. apply list_elem_of_further, list_elem_of_here.
  - apply yields_call_bind. intros contextErr. by apply yields_ret, yields_ret.
Qed.

Lemma runFact_trace checker id reasons : yields (runFact (W:=W) input checker id reasons) (λ es r, r.1 = true → fact_asked id es).
Proof.
  unfold runFact, fact_asked. destruct checker as [check|]; [|by apply yields_ret]. apply yields_call_bind.
  intros [fact|err]; apply yields_ret; [|done]. cbn [fst]. intros Hr. exists fact. split; [apply list_elem_of_here|done].
Qed.

Lemma probe_quota_trace reasons : yields (probe_quota (W:=W) p input reasons) (λ es r, r.1 = ∅ ∨ EvQuota (Ok r.1) ∈ es).
Proof.
  unfold probe_quota. cbv zeta. case_bool_decide; [apply yields_ret; by left|]. destruct (Quota p) as [available|]; [|apply yields_ret; by left].
  apply yields_call_bind. intros [quota|err]; apply yields_ret; [right; apply list_elem_of_here|by left].
Qed.

Lemma probe_local_trace reasons : yields (probe_local (W:=W) p input reasons) (λ es r, r.1 = (0, 0) ∨ EvLocalResources (Ok r.1) ∈ es).
Proof.
  unfold probe_local. cbv zeta. destruct (_ || _); [|apply yields_ret; by left]. destruct (LocalResources p) as [available|]; [|apply yields_ret; by left].
  apply yields_call_bind. intros [[cpu memory]|err]; apply yields_ret; [|by left]. destruct (_ || _); [by left|right; apply list_elem_of_here].
Qed.

(** The facts a probe returns, and the calls they come from. *)
Record sourced (es : list admission_event) (facts : AdmissionProbeResult) : Prop := {
  sourced_credentials : AdmissionProbeResult.CredentialsReady facts = true → credentials_asked es;
  sourced_identity : AdmissionProbeResult.AccountOrProjectReady facts = true → identity_asked es;
  sourced_network : AdmissionProbeResult.NetworkReady facts = true → fact_asked "provider.network" es;
  sourced_state : AdmissionProbeResult.StateBackendReady facts = true → fact_asked "provider.state-backend" es;
  sourced_fixture : AdmissionProbeResult.FixtureReady facts = true → fact_asked "provider.fixture" es;
  sourced_ownership : AdmissionProbeResult.OwnershipReady facts = true → fact_asked "provider.ownership" es;
  sourced_quota : AdmissionProbeResult.AvailableQuota facts = ∅ ∨ EvQuota (Ok (AdmissionProbeResult.AvailableQuota facts)) ∈ es;
  sourced_local : (AdmissionProbeResult.AvailableLocalCPUMilli facts = 0 ∧ AdmissionProbeResult.AvailableLocalMemoryMB facts = 0) ∨
    EvLocalResources (Ok (AdmissionProbeResult.AvailableLocalCPUMilli facts, AdmissionProbeResult.AvailableLocalMemoryMB facts)) ∈ es;
}.

Lemma credentials_more es es' : es ⊆ es' → credentials_asked es → credentials_asked es'.
Proof. intros Hsub H Hr. destruct (H Hr) as [Hs Hf]. split; [done|]. eapply Forall_impl; [exact Hf|]. intros r. apply Hsub. Qed.
Lemma identity_more es es' : es ⊆ es' → identity_asked es → identity_asked es'.
Proof. intros Hsub (o&Ho&Hv). exists o. split; [by apply Hsub|done]. Qed.
Lemma fact_more id es es' : es ⊆ es' → fact_asked id es → fact_asked id es'.
Proof. intros Hsub (f&Hf&Hv). exists f. split; [by apply Hsub|done]. Qed.

Lemma provider_Probe_sourced : yields (provider_Probe env url_Parse p input) (λ es res, ∀ facts, res = Ok facts → sourced es facts).
Proof.
  unfold provider_Probe, admission_context. apply yields_call_bind. intros [err|]; [by apply yields_ret|].
  apply yields_bind. eapply yields_weaken; [apply probe_credentials_trace|]. intros e1 [credentials r1] H1. cbn [fst] in H1.
  apply yields_bind. eapply yields_weaken; [apply probe_identity_trace|]. intros e2 [account r2] H2. cbn [fst] in H2.
  apply yields_bind. eapply yields_weaken; [apply runFact_trace|]. intros e3 [network r3] H3. cbn [fst] in H3.
  apply yields_bind. eapply yields_weaken; [apply runFact_trace|]. intros e4 [state r4] H4. cbn [fst] in H4.
  apply yields_bind. eapply yields_weaken; [apply runFact_trace|]. intros e5 [fixture r5] H5. cbn [fst] in H5.
  apply yields_bind. eapply yields_weaken; [apply runFact_trace|]. intros e6 [ownership r6] H6. cbn [fst] in H6.
  apply yields_bind. eapply yields_weaken; [apply probe_quota_trace|]. intros e7 [quota r7] H7. cbn [fst] in H7.
  apply yields_bind. eapply yields_weaken; [apply probe_local_trace|]. intros e8 [[cpu memory] r8] H8. cbn [fst] in H8.
  apply yields_call_bind. intros [err|]; apply yields_ret; [done|]. intros facts [= <-].
  split; cbn; intros;
    [eapply credentials_more; [|by apply H1]|eapply identity_more; [|by apply H2]|eapply fact_more; [|by apply H3]|eapply fact_more; [|by apply H4]
    |eapply fact_more; [|by apply H5]|eapply fact_more; [|by apply H6]|destruct H7 as [H7|H7]; [by left|right]
    |destruct H8 as [[= -> ->]|H8]; [by left|right]]; try (intros e He); rewrite !elem_of_cons, !elem_of_app; tauto.
Qed.

(** Every prerequisite was asked of its own checker, and answered. *)
Record prerequisites_checked (es : list admission_event) : Prop := {
  checked_credentials : AdmissionInput.RequireCredentials input = true → AdmissionInput.CredentialRefs input ≠ [] ∧
    Forall (λ reference, EvUseCredential reference None ∈ es) (AdmissionInput.CredentialRefs input);
  checked_identity : identity_asked es;
  checked_facts : Forall (λ id, fact_asked id es) ["provider.network"; "provider.state-backend"; "provider.fixture"; "provider.ownership"];
  checked_quota : ∀ key required, AdmissionInput.RequiredQuota input !! key = Some required →
    ∃ quota available, EvQuota (Ok quota) ∈ es ∧ quota !! key = Some available ∧ required ≤ available;
  checked_local : 0 < AdmissionInput.RequiredLocalCPUMilli input ∨ 0 < AdmissionInput.RequiredLocalMemoryMB input →
    ∃ cpuMilli memoryMB, EvLocalResources (Ok (cpuMilli, memoryMB)) ∈ es ∧
      AdmissionInput.RequiredLocalCPUMilli input ≤ cpuMilli ∧ AdmissionInput.RequiredLocalMemoryMB input ≤ memoryMB;
}.


(** ** Reasons *)

(** A step explains its own fact and leaves the other reasons alone. *)
Definition explains (id : string) (ready : bool) (before after : reasons_map) : Prop :=
  (ready = true ∨ ∃ reason, after !! id = Some reason ∧ blank reason = false) ∧ ∀ k, k ≠ id → after !! k = before !! k.

Lemma nonEmpty_explained reason : blank (nonEmptyAdmissionReason reason) = false.
Proof. unfold nonEmptyAdmissionReason. destruct (blank reason) eqn:H; [by vm_compute|done]. Qed.
Lemma explains_ready id before : explains id true before before.
Proof. split; [by left|done]. Qed.
Lemma explains_set id ready reason before : blank reason = false → explains id ready before (<[id := reason]> before).
Proof. intros H. split; [right; exists reason; by rewrite lookup_insert_eq|intros k Hk; by rewrite lookup_insert_ne]. Qed.
Lemma explains_set_reason id ready reason before : explains id ready before (set_reason id reason before).
Proof. apply explains_set, nonEmpty_explained. Qed.
Lemma set_reason_other id reason before k : k ≠ id → set_reason id reason before !! k = before !! k.
Proof. intros H. by apply lookup_insert_ne. Qed.
Local Hint Resolve explains_ready explains_set_reason explains_set nonEmpty_explained : core.

Lemma probe_credentials_explains reasons :
  yields (probe_credentials env url_Parse p input reasons) (λ _ r, explains "provider.credentials" r.1 reasons r.2).
Proof.
  unfold probe_credentials. destruct (AdmissionInput.RequireCredentials input); [|by apply yields_ret]. destruct (Credentials p); [|by apply yields_ret; cbn [fst snd]].
  apply yields_bind. apply (yields_weaken _ (λ _ _, True)); [done|]. intros _ [] _; apply yields_ret; cbn [fst snd]; auto.
Qed.
Lemma probe_identity_explains reasons :
  yields (probe_identity env p input reasons) (λ _ r, explains "provider.account-or-project" r.1 reasons r.2).
Proof.
  unfold probe_identity. cbv zeta. destruct (Identity p); [|by apply yields_ret; cbn [fst snd]].
  apply yields_bind. apply (yields_weaken _ (λ _ _, True)); [done|]. intros _ [] _; apply yields_ret; cbn [fst snd]; auto.
Qed.
Lemma runFact_explains checker id reasons : yields (runFact (W:=W) input checker id reasons) (λ _ r, explains id r.1 reasons r.2).
Proof.
  unfold runFact. destruct checker; [|apply yields_ret; cbn [fst snd]; apply explains_set; by vm_compute].
  apply yields_call_bind. intros [[[] reason]|err]; apply yields_ret; cbn [fst snd]; try apply explains_ready; apply explains_set;
    [apply nonEmpty_explained|by vm_compute].
Qed.
Lemma probe_quota_reasons reasons :
  yields (probe_quota (W:=W) p input reasons) (λ _ r, ∀ k, k ≠ "provider.quota" → r.2 !! k = reasons !! k).
Proof.
  unfold probe_quota. cbv zeta. case_bool_decide; [by apply yields_ret|]. destruct (Quota p); [|by apply yields_ret, set_reason_other].
  apply yields_call_bind. intros [?|?]; apply yields_ret; [done|by apply set_reason_other].
Qed.
Lemma probe_local_reasons reasons :
  yields (probe_local (W:=W) p input reasons) (λ _ r, ∀ k, k ≠ "provider.local-resources" → r.2 !! k = reasons !! k).
Proof.
  unfold probe_local. cbv zeta. destruct (_ || _); [|by apply yields_ret]. destruct (LocalResources p); [|by apply yields_ret, set_reason_other].
  apply yields_call_bind. intros [[??]|?]; [destruct (_ || _)|]; apply yields_ret; try done; by apply set_reason_other.
Qed.

(** What blocks says why.  A probe that answers gives a reason, and not a blank one, for each of the six facts it does not
    find ready; what a later check finds never hides the reason of an earlier one. *)
Theorem provider_facts_explained : yields (provider_Probe env url_Parse p input) (λ es res, ∀ facts, res = Ok facts →
  Forall (λ f : string * bool, f.2 = true ∨ ∃ reason, AdmissionProbeResult.Reasons facts !! f.1 = Some reason ∧ blank reason = false)
    [("provider.credentials", AdmissionProbeResult.CredentialsReady facts); ("provider.account-or-project", AdmissionProbeResult.AccountOrProjectReady facts);
     ("provider.network", AdmissionProbeResult.NetworkReady facts); ("provider.state-backend", AdmissionProbeResult.StateBackendReady facts);
     ("provider.fixture", AdmissionProbeResult.FixtureReady facts); ("provider.ownership", AdmissionProbeResult.OwnershipReady facts)]).
Proof.
  unfold provider_Probe, admission_context. apply yields_call_bind. intros [err|]; [by apply yields_ret|].
  apply yields_bind. eapply yields_weaken; [apply probe_credentials_explains|]. intros _ [credentials r1] [H1 K1].
  apply yields_bind. eapply yields_weaken; [apply probe_identity_explains|]. intros _ [account r2] [H2 K2].
  apply yields_bind. eapply yields_weaken; [apply runFact_explains|]. intros _ [network r3] [H3 K3].
  apply yields_bind. eapply yields_weaken; [apply runFact_explains|]. intros _ [state r4] [H4 K4].
  apply yields_bind. eapply yields_weaken; [apply runFact_explains|]. intros _ [fixture r5] [H5 K5].
  apply yields_bind. eapply yields_weaken; [apply runFact_explains|]. intros _ [ownership r6] [H6 K6].
  apply yields_bind. eapply yields_weaken; [apply probe_quota_reasons|]. intros _ [quota r7] K7.
  apply yields_bind. eapply yields_weaken; [apply probe_local_reasons|]. intros _ [[cpu memory] r8] K8.
  apply yields_call_bind. intros [err|]; apply yields_ret; [done|]. intros facts [= <-]. cbn [fst snd] in *.
  rewrite !Forall_cons, Forall_nil. cbn [fst snd AdmissionProbeResult.CredentialsReady AdmissionProbeResult.AccountOrProjectReady
    AdmissionProbeResult.NetworkReady AdmissionProbeResult.StateBackendReady AdmissionProbeResult.FixtureReady
    AdmissionProbeResult.OwnershipReady AdmissionProbeResult.Reasons].
  do 6 (rewrite K8, K7 by discriminate).
  split_and!; [|rewrite K6, K5, K4, K3 by discriminate|rewrite K6, K5, K4 by discriminate|rewrite K6, K5 by discriminate
    |rewrite K6 by discriminate| |]; try done. by rewrite K6, K5, K4, K3, K2 by discriminate.
Qed.
End probe.

(** ** A witness *)

Module AdmissionExample.
Definition url_Parse (v : string) : result url :=
  
  if decide (v = "s3://state/shop")
  then Ok {| Scheme := "s3"; HasUser := false; Fragment := ""; Host := "state"; Path := "/shop"; Opaque := "" |} else Err (ErrNew "invalid URL").

Definition input : AdmissionInput :=
  {| AdmissionInput.Provider := "aws"; AdmissionInput.AccountOrProjectRef := "123456789012"; AdmissionInput.Region := "eu-west-3";
     AdmissionInput.NetworkRef := "vpc-1"; AdmissionInput.StateBackendRef := "s3://state/shop"; AdmissionInput.FixtureID := "fixture-1";
     AdmissionInput.OwnershipMarker := "run-b"; AdmissionInput.CredentialRefs := []; AdmissionInput.RequireCredentials := false;
     AdmissionInput.RequiredQuota := {["stacks" := 2]}; AdmissionInput.AvailableQuota := ∅;
     AdmissionInput.RequiredLocalCPUMilli := 500; AdmissionInput.AvailableLocalCPUMilli := 0;
     AdmissionInput.RequiredLocalMemoryMB := 256; AdmissionInput.AvailableLocalMemoryMB := 0; AdmissionInput.MutationKeys := ["edge"] |}.

Definition env : waiter nat := {| ctx_err := λ w, (None, w); wait := λ _ w, (None, w) |}.

Definition observed : IdentityObservation :=
  {| IdentityObservation.Provider := "aws"; IdentityObservation.AccountOrProjectRef := "123456789012"; IdentityObservation.Region := "eu-west-3";
     IdentityObservation.PrincipalRef := "role/certifier"; IdentityObservation.LeastPrivilegeVerified := true;
     IdentityObservation.PermissionChecks := [{| PermissionCheck.Name := "ecs:RunTask"; PermissionCheck.Granted := true |}] |}.

Definition probe : ProviderAdmissionProbe nat :=
  {| Identity := Some (λ _ w, (Ok observed, S w)); RequiredPermissions := ["ecs:RunTask"]; Credentials := None;
     Network := Some (StaticAdmissionFact true); StateBackend := Some (StaticAdmissionFact true); Fixture := Some (StaticAdmissionFact true);
     Ownership := Some (StaticAdmissionFact true); Quota := Some (StaticAdmissionQuota (Some {["stacks" := 5]}));
     LocalResources := Some (StaticAdmissionLocalResources 1000 512) |}.

Definition gate : result AdmissionReport :=
  (CheckAdmissionWithProbe url_Parse id (Some None) input (Some (provider_probe env url_Parse probe)) 0%nat).1.
Definition report : AdmissionReport := Eval vm_compute in match gate with Ok report => report | Err _ => no_checks end.

End AdmissionExample.
