(* ===== verification/Artifact.v ===== *)
(** * Immutable artifacts (sdk/artifact.go, internal/certification/artifact_registry.go, artifact_build.go)

    The artifact a certification run builds once: its identity, the registries that
    coordinate the build, in memory and in a file, and the callers of
    [EnsureImmutableArtifact].  A caller is the place it has reached, so that callers
    can interleave over one registry.  The file registry works on the document the
    file holds; its JSON text, the rename and the lock are not modelled. *)

From S2P Require Import Prelude GoStrings Regex GoEncoding Secretsafe Sdk Sessions.

Local Open Scope Z_scope.

(** ** The contract *)

Module Contract.
(* sdk/artifact.go, lines 17-23: ImmutableArtifactContract *)
Record ImmutableArtifactContract := {
  ImageDigest : string;
  ManifestDigest : string;
  InputFingerprint : string;
  ProvenanceReference : string;
  SignatureReference : string;
}.

Definition to_json (a : ImmutableArtifactContract) : json :=
  JObj (js "imageDigest" (ImageDigest a) ++ js "manifestDigest" (ManifestDigest a) ++ js "inputFingerprint" (InputFingerprint a)
    ++ js "provenanceReference" (ProvenanceReference a) ++ js "signatureReference" (SignatureReference a)).

#[global] Instance eq_dec : EqDecision ImmutableArtifactContract.
Proof. solve_decision. Defined.
End Contract.
Notation ImmutableArtifactContract := Contract.ImmutableArtifactContract.

Definition sha256_digits : re := rep 64 (Cls (either (byte_in 97 102) digit)).
(* sdk/artifact.go, lines 25-25: artifactOCIReferencePattern *)
Definition artifactOCIReferencePattern : re := seqs [plus (Cls (none_of (either re_space (chr "@")))); lit "@sha256:"; sha256_digits].
(* sdk/artifact.go, lines 26-26: artifactDigestPattern *)
Definition artifactDigestPattern : re := seqs [lit "sha256:"; sha256_digits].
(* sdk/artifact.go, lines 27-27: artifactFingerprintPattern *)
Definition artifactFingerprintPattern : re := sha256_digits.

Section contract.
Import Contract.
(** The two references come from a map: their problems may be listed in either order. *)
(* sdk/artifact.go, lines 32-52: ImmutableArtifactContract.Validate *)
Definition ImmutableArtifactContract_Validate (a : ImmutableArtifactContract) : gerror :=
  errors_Join (
    [fail_if (negb (MatchString artifactOCIReferencePattern (ImageDigest a)))
       (ErrNew "artifact image digest must be a registry-qualified OCI SHA-256 reference");
     fail_if (negb (MatchString artifactDigestPattern (ManifestDigest a))) (ErrNew "artifact manifest digest must be a SHA-256 digest");
     fail_if (negb (MatchString artifactFingerprintPattern (InputFingerprint a))) (ErrNew "artifact input fingerprint must be a SHA-256 digest")]
    ++ ((λ nv : string * string,
          fail_if (blank nv.2 || multiline nv.2) (errorf "artifact %s is required and must be single-line" [GStr nv.1])) <$>
        [("provenance reference", ProvenanceReference a); ("signature reference", SignatureReference a)])).
End contract.

(** ** Requests and records *)

(* internal/certification/artifact_registry.go, lines 18-18: artifactCompatibilityFingerprintPattern *)
Definition artifactCompatibilityFingerprintPattern : re := sha256_digits.

Module BuildRequest.
(* internal/certification/artifact_registry.go, lines 23-26: ArtifactBuildRequest *)
Record ArtifactBuildRequest := { CompatibilityFingerprint : string; OwnershipMarker : string }.
End BuildRequest.
Notation ArtifactBuildRequest := BuildRequest.ArtifactBuildRequest.

(* internal/certification/artifact_registry.go, lines 411-416: validateArtifactFingerprint *)
Definition validateArtifactFingerprint (fingerprint : string) : gerror :=
  fail_if (negb (MatchString artifactCompatibilityFingerprintPattern fingerprint))
    (ErrNew "artifact compatibility fingerprint must be a lowercase SHA-256 digest").

(* internal/certification/artifact_registry.go, lines 418-423: validateArtifactClaimOwner *)
Definition validateArtifactClaimOwner (owner : string) : gerror :=
  fail_if (blank owner || multiline owner) (ErrNew "artifact claim owner is required and must be single-line").

(* internal/certification/artifact_registry.go, lines 28-39: ArtifactBuildRequest.Validate *)
Definition ArtifactBuildRequest_Validate (request : ArtifactBuildRequest) : gerror :=
  fail_if (negb (MatchString artifactCompatibilityFingerprintPattern (BuildRequest.CompatibilityFingerprint request)))
    (ErrNew "artifact compatibility fingerprint must be a lowercase SHA-256 digest")
  ;;? fail_if (blank (BuildRequest.OwnershipMarker request) || multiline (BuildRequest.OwnershipMarker request))
        (ErrNew "artifact ownership marker is required and must be single-line")
  ;;? fail_if (bool_decide (is_Some (ValidateSecretSafeText (BuildRequest.OwnershipMarker request))))
        (ErrNew "artifact ownership marker contains secret material").

Module ArtifactRecord.
(* internal/certification/artifact_registry.go, lines 44-47: ImmutableArtifactRecord *)
Record ImmutableArtifactRecord := { CompatibilityFingerprint : string; Artifact : ImmutableArtifactContract }.

Definition to_json (r : ImmutableArtifactRecord) : json :=
  JObj (js "compatibilityFingerprint" (CompatibilityFingerprint r) ++ [("artifact", Contract.to_json (Artifact r))]).

#[global] Instance eq_dec : EqDecision ImmutableArtifactRecord.
Proof. solve_decision. Defined.
End ArtifactRecord.
Notation ImmutableArtifactRecord := ArtifactRecord.ImmutableArtifactRecord.
Implicit Types (record : ImmutableArtifactRecord) (request : ArtifactBuildRequest) (fingerprint owner : string).

(* internal/certification/artifact_registry.go, lines 49-63: ImmutableArtifactRecord.Validate *)
Definition ImmutableArtifactRecord_Validate record : gerror :=
  fail_if (negb (MatchString artifactCompatibilityFingerprintPattern (ArtifactRecord.CompatibilityFingerprint record)))
    (ErrNew "artifact record compatibility fingerprint must be a lowercase SHA-256 digest")
  ;;? fail_if (bool_decide (is_Some (ValidateSecretSafeValue (ArtifactRecord.to_json record)))) (ErrNew "artifact record contains secret material")
  ;;? err_wrap (wrapf "artifact record contract: %w" []) (ImmutableArtifactContract_Validate (ArtifactRecord.Artifact record))
  ;;? fail_if (negb (bool_decide (Contract.InputFingerprint (ArtifactRecord.Artifact record) = ArtifactRecord.CompatibilityFingerprint record)))
        (ErrNew "artifact record input fingerprint does not match its compatibility boundary").

(* internal/certification/artifact_registry.go, lines 70-70: ArtifactReuseReady *)
Definition ArtifactReuseReady := "ready".
(* internal/certification/artifact_registry.go, lines 71-71: ArtifactReuseMiss *)
Definition ArtifactReuseMiss := "miss".
(* internal/certification/artifact_registry.go, lines 72-72: ArtifactReuseBlocked *)
Definition ArtifactReuseBlocked := "blocked".

Module ReuseLookup.
(* internal/certification/artifact_registry.go, lines 75-79: ArtifactReuseLookup *)
Record ArtifactReuseLookup := { Decision : string; Record : ImmutableArtifactRecord; Reason : string }.
End ReuseLookup.
Notation ArtifactReuseLookup := ReuseLookup.ArtifactReuseLookup.

Definition zero_record : ImmutableArtifactRecord :=
  {| ArtifactRecord.CompatibilityFingerprint := "";
     ArtifactRecord.Artifact := {| Contract.ImageDigest := ""; Contract.ManifestDigest := ""; Contract.InputFingerprint := "";
       Contract.ProvenanceReference := ""; Contract.SignatureReference := "" |} |}.
(** A composite literal of the lookup. *)
Definition lookup_of (decision : string) record (reason : string) : ArtifactReuseLookup :=
  {| ReuseLookup.Decision := decision; ReuseLookup.Record := record; ReuseLookup.Reason := reason |}.

(** ** The registry in memory *)

(* internal/certification/artifact_registry.go, lines 162-166: MemoryImmutableArtifactRegistry *)
Record registry := { claims : gmap string string; records : gmap string ImmutableArtifactRecord }.

(* internal/certification/artifact_registry.go, lines 425-427: NewMemoryImmutableArtifactRegistry *)
Definition NewMemoryImmutableArtifactRegistry : registry := {| claims := ∅; records := ∅ |}.

Definition context_live (ctx : context) : gerror :=
  match ctx with None => Some (ErrNew "artifact registry context is required") | Some err => err end.

(* internal/certification/artifact_registry.go, lines 429-443: MemoryImmutableArtifactRegistry.Lookup *)
Definition memory_Lookup (ctx : context) fingerprint (r : registry) : result (option ImmutableArtifactRecord) :=
  context_live ctx ;;! validateArtifactFingerprint fingerprint ;;! Ok (records r !! fingerprint).

(** The critical section of a claim. *)
(* internal/certification/artifact_registry.go, lines 458-470: MemoryImmutableArtifactRegistry.Claim *)
Definition claim_locked fingerprint owner (r : registry) : ArtifactReuseLookup * registry :=
  match records r !! fingerprint, claims r !! fingerprint with
  | Some record, _ => (lookup_of ArtifactReuseReady record "", r)
  | None, Some current =>
      (lookup_of ArtifactReuseBlocked zero_record
         (if bool_decide (current = owner) then "compatibility boundary is already claimed"
          else "compatibility boundary is claimed by another build"), r)
  | None, None => (lookup_of ArtifactReuseMiss zero_record "", {| claims := <[fingerprint := owner]> (claims r); records := records r |})
  end.

(* internal/certification/artifact_registry.go, lines 445-471: MemoryImmutableArtifactRegistry.Claim *)
Definition memory_Claim (ctx : context) fingerprint owner (r : registry) : result ArtifactReuseLookup * registry :=
  match context_live ctx ;;? validateArtifactFingerprint fingerprint ;;? validateArtifactClaimOwner owner with
  | Some err => (Err err, r)
  | None => let '(lookup, r) := claim_locked fingerprint owner r in (Ok lookup, r)
  end.

(* internal/certification/artifact_registry.go, lines 480-490: MemoryImmutableArtifactRegistry.ReleaseClaim *)
Definition release_locked fingerprint owner (r : registry) : gerror * registry :=
  match claims r !! fingerprint with
  | None => (None, r)
  | Some current =>
      if bool_decide (current = owner) then (None, {| claims := delete fingerprint (claims r); records := records r |})
      else (Some (ErrNew "artifact claim owner does not match"), r)
  end.

(* internal/certification/artifact_registry.go, lines 473-491: MemoryImmutableArtifactRegistry.ReleaseClaim *)
Definition memory_ReleaseClaim (ctx : context) fingerprint owner (r : registry) : gerror * registry :=
  match context_live ctx with Some err => (Some err, r) | None => release_locked fingerprint owner r end.

(* internal/certification/artifact_registry.go, lines 506-517: MemoryImmutableArtifactRegistry.Publish *)
Definition publish_locked fingerprint owner record (r : registry) : gerror * registry :=
  if negb (bool_decide (claims r !! fingerprint = Some owner)) then (Some (ErrNew "artifact publication requires the matching build claim"), r)
  else if match records r !! fingerprint with
          | Some existing => negb (bool_decide (ArtifactRecord.Artifact existing = ArtifactRecord.Artifact record))
          | None => false
          end
  then (Some (ErrNew "artifact registry rejects a conflicting immutable publication"), r)
  else (None, {| claims := delete fingerprint (claims r); records := <[fingerprint := record]> (records r) |}).

(* internal/certification/artifact_registry.go, lines 493-518: MemoryImmutableArtifactRegistry.Publish *)
Definition memory_Publish (ctx : context) fingerprint owner record (r : registry) : gerror * registry :=
  match context_live ctx
        ;;? fail_if (negb (bool_decide (ArtifactRecord.CompatibilityFingerprint record = fingerprint)))
              (ErrNew "artifact publication fingerprint does not match the registry key")
        ;;? ImmutableArtifactRecord_Validate record with
  | Some err => (Some err, r)
  | None => publish_locked fingerprint owner record r
  end.

(** ** The registry in a file *)

(* internal/certification/artifact_registry.go, lines 184-188: fileArtifactRegistryState *)
Record fileState := { Version : Z; state_claims : gmap string string; state_records : gmap string ImmutableArtifactRecord }.

(* internal/certification/artifact_registry.go, lines 182-182: fileArtifactRegistryVersion *)
Definition fileArtifactRegistryVersion : Z := 1.

(** [None] is no file. *)
(* internal/certification/artifact_registry.go, lines 332-376: FileImmutableArtifactRegistry.readState *)
Definition readState (disk : option fileState) : result registry :=
  match disk with
  | None => Ok NewMemoryImmutableArtifactRegistry
  | Some state =>
      fail_if (negb (Version state =? fileArtifactRegistryVersion))
        (errorf "unsupported file artifact registry version %d" [GInt (Version state)]) ;;!
      first_error (λ fo : string * string,
        err_wrap (wrapf "file artifact registry claim: %w" []) (validateArtifactFingerprint fo.1)
        ;;? err_wrap (wrapf "file artifact registry claim: %w" []) (validateArtifactClaimOwner fo.2)) (map_to_list (state_claims state)) ;;!
      first_error (λ fr : string * ImmutableArtifactRecord,
        err_wrap (wrapf "file artifact registry record: %w" []) (validateArtifactFingerprint fr.1)
        ;;? err_wrap (wrapf "file artifact registry record: %w" []) (ImmutableArtifactRecord_Validate fr.2)
        ;;? fail_if (negb (bool_decide (ArtifactRecord.CompatibilityFingerprint fr.2 = fr.1)))
              (ErrNew "file artifact registry record key does not match its compatibility fingerprint")) (map_to_list (state_records state)) ;;!
      Ok {| claims := state_claims state; records := state_records state |}
  end.

(* internal/certification/artifact_registry.go, lines 378-409: FileImmutableArtifactRegistry.writeState *)
Definition writeState (r : registry) : fileState :=
  {| Version := fileArtifactRegistryVersion; state_claims := claims r; state_records := records r |}.

(** An operation under the lock: what it answers, and what it leaves in the file when it does not fail. *)
(* internal/certification/artifact_registry.go, lines 304-330: FileImmutableArtifactRegistry.withState *)
Definition withState {A} (ctx : context) (write : bool) (operation : registry → result (A * registry)) (disk : option fileState)
    : result A * option fileState :=
  match context_live ctx ;;! (state ← readState disk; operation state) with
  | Err err => (Err err, disk)
  | Ok (answer, state) => (Ok answer, if write then Some (writeState state) else disk)
  end.

(* internal/certification/artifact_registry.go, lines 219-228: FileImmutableArtifactRegistry.Lookup *)
Definition file_Lookup (ctx : context) fingerprint (disk : option fileState) : result (option ImmutableArtifactRecord) * option fileState :=
  match validateArtifactFingerprint fingerprint with
  | Some err => (Err err, disk)
  | None => withState ctx false (λ r, Ok (records r !! fingerprint, r)) disk
  end.

(** The closure is the critical section of the registry in memory. *)
(* internal/certification/artifact_registry.go, lines 230-255: FileImmutableArtifactRegistry.Claim *)
Definition file_Claim (ctx : context) fingerprint owner (disk : option fileState) : result ArtifactReuseLookup * option fileState :=
  match validateArtifactFingerprint fingerprint ;;? validateArtifactClaimOwner owner with
  | Some err => (Err err, disk)
  | None => withState ctx true (λ r, Ok (claim_locked fingerprint owner r)) disk
  end.

Definition settle_operation (step : gerror * registry) : result (unit * registry) :=
  match step with (Some err, _) => Err err | (None, r) => Ok ((), r) end.
Definition file_error (answer : result unit * option fileState) : gerror * option fileState :=
  match answer with (Err err, disk) => (Some err, disk) | (Ok _, disk) => (None, disk) end.

(* internal/certification/artifact_registry.go, lines 257-275: FileImmutableArtifactRegistry.ReleaseClaim *)
Definition file_ReleaseClaim (ctx : context) fingerprint owner (disk : option fileState) : gerror * option fileState :=
  match validateArtifactFingerprint fingerprint ;;? validateArtifactClaimOwner owner with
  | Some err => (Some err, disk)
  | None => file_error (withState ctx true (λ r, settle_operation (release_locked fingerprint owner r)) disk)
  end.

(* internal/certification/artifact_registry.go, lines 277-302: FileImmutableArtifactRegistry.Publish *)
Definition file_Publish (ctx : context) fingerprint owner record (disk : option fileState) : gerror * option fileState :=
  match validateArtifactFingerprint fingerprint ;;? validateArtifactClaimOwner owner
        ;;? fail_if (negb (bool_decide (ArtifactRecord.CompatibilityFingerprint record = fingerprint)))
              (ErrNew "artifact publication fingerprint does not match the registry key")
        ;;? ImmutableArtifactRecord_Validate record with
  | Some err => (Some err, disk)
  | None => file_error (withState ctx true (λ r, settle_operation (publish_locked fingerprint owner record r)) disk)
  end.
