(* ===== verification/ArtifactBuild.v ===== *)
(** * Building an artifact once (internal/certification/artifact_registry.go, artifact_build.go, internal/build/pipeline)

    [EnsureImmutableArtifact] as the calls it makes, one after the other, with what
    follows from each answer; the builder that signs and verifies what the build
    pipeline produced; and the callers that share one registry in memory. *)

From S2P Require Import Prelude GoStrings Regex GoEncoding Secretsafe Sdk Sessions Artifact.

Local Open Scope Z_scope.
Implicit Types (record : ImmutableArtifactRecord) (request : ArtifactBuildRequest) (r : registry).

(** ** The result of the build pipeline *)

(** [strings.Cut]. *)
Fixpoint cut_bytes (c : ascii) (l : list ascii) : option (list ascii * list ascii) :=
  match l with
  | [] => None
  | a :: l => if bool_decide (a = c) then Some ([], l) else (λ ba, (a :: ba.1, ba.2)) <$> cut_bytes c l
  end.
Definition strings_Cut (s : string) (c : ascii) : option (string * string) :=
  (λ ba, (of_bytes ba.1, of_bytes ba.2)) <$> cut_bytes c (go_bytes s).

(** [strings.LastIndexByte]. *)
Fixpoint last_index (c : ascii) (l : list ascii) (i found : Z) : Z :=
  match l with [] => found | a :: l => last_index c l (i + 1) (if bool_decide (a = c) then i else found) end.
Definition LastIndexByte (s : string) (c : ascii) : Z := last_index c (go_bytes s) 0 (-1).

Module PipelineResult.
(** The fields of [Result] and of its image that the contract is made of. *)
(* internal/build/pipeline/pipeline.go, lines 68-73: Result *)
Record Result := { ImageReference : string; Digest : string; Pushed : bool; ManifestSHA256 : string }.
End PipelineResult.
Notation PipelineResult := PipelineResult.Result.

(* internal/build/pipeline/pipeline.go, lines 494-497: registryQualifiedReference *)
Definition registryQualifiedReference (reference : string) : bool :=
  match strings_Cut reference "/" with
  | None => false
  | Some (first, _) => bool_decide (first = "localhost") || ContainsAny first ".:"
  end.

(* internal/build/pipeline/pipeline.go, lines 79-111: Result.ImmutableArtifactContract *)
Definition pipeline_contract (result : PipelineResult) (inputFingerprint provenance signature : string) : Prelude.result ImmutableArtifactContract :=
  let reference := PipelineResult.ImageReference result in
  let baseReference := match strings_Cut reference "@" with Some (base, _) => base | None => reference end in
  let manifest := PipelineResult.ManifestSHA256 result in
  fail_if (negb (PipelineResult.Pushed result)) (ErrNew "immutable artifact contract requires a confirmed image push") ;;!
  fail_if (negb (registryQualifiedReference baseReference)) (ErrNew "immutable artifact contract requires a registry-qualified image reference") ;;!
  fail_if (negb (MatchString artifactDigestPattern (PipelineResult.Digest result)))
    (ErrNew "immutable artifact contract requires an image SHA-256 digest") ;;!
  fail_if (negb (HasPrefix manifest "sha256:") && negb (MatchString artifactFingerprintPattern manifest))
    (ErrNew "immutable artifact contract requires a manifest SHA-256 digest") ;;!
  let contract :=
    {| Contract.ImageDigest := baseReference +:+ "@" +:+ PipelineResult.Digest result;
       Contract.ManifestDigest := if HasPrefix manifest "sha256:" then manifest else "sha256:" +:+ manifest;
       Contract.InputFingerprint := inputFingerprint; Contract.ProvenanceReference := provenance;
       Contract.SignatureReference := signature |} in
  ImmutableArtifactContract_Validate contract ;;! Ok contract.

(* internal/certification/artifact_build.go, lines 143-146: canonicalizePipelineImageDigest *)
Definition without_tag (name : string) : string :=
  let lastColon := LastIndexByte name ":" in
  if LastIndexByte name "/" <? lastColon then of_bytes (take (Z.to_nat lastColon) (go_bytes name)) else name.

(* internal/certification/artifact_build.go, lines 138-152: canonicalizePipelineImageDigest *)
Definition canonicalizePipelineImageDigest (contract : ImmutableArtifactContract) : Prelude.result ImmutableArtifactContract :=
  match strings_Cut (Contract.ImageDigest contract) "@" with
  | None => Err (ErrNew "immutable certification artifact image digest is malformed")
  | Some (name, digest) =>
      let contract :=
        {| Contract.ImageDigest := without_tag name +:+ "@" +:+ digest; Contract.ManifestDigest := Contract.ManifestDigest contract;
           Contract.InputFingerprint := Contract.InputFingerprint contract;
           Contract.ProvenanceReference := Contract.ProvenanceReference contract;
           Contract.SignatureReference := Contract.SignatureReference contract |} in
      ImmutableArtifactContract_Validate contract ;;! Ok contract
  end.

(** ** Signing *)

(** A signer and a verifier that are not there are [None]. *)
Module SigningOptions.
(* internal/certification/artifact_build.go, lines 39-46: ArtifactSigningOptions *)
Record ArtifactSigningOptions (W : Type) := {
  ProvenanceReference : string;
  SignatureReference : string;
  CertificateIdentity : string;
  OIDCIssuer : string;
  Signer : option (string → W → gerror * W);
  Verifier : option (string → string → string → W → gerror * W);
}.
End SigningOptions.
Notation ArtifactSigningOptions := SigningOptions.ArtifactSigningOptions.
Arguments SigningOptions.ProvenanceReference {W} _.
Arguments SigningOptions.SignatureReference {W} _.
Arguments SigningOptions.CertificateIdentity {W} _.
Arguments SigningOptions.OIDCIssuer {W} _.
Arguments SigningOptions.Signer {W} _.
Arguments SigningOptions.Verifier {W} _.

Inductive build_event :=
  | EvPipelineBuild (answer : result PipelineResult)
  | EvSign (reference : string) (err : gerror)
  | EvVerify (reference identity issuer : string) (err : gerror).

Section signing.
Context {W : Type} (options : ArtifactSigningOptions W) (build : option (W → result PipelineResult * W)).
Abbreviation M := (eff build_event W).
Import SigningOptions.

Definition metadata : list (string * string) :=
  [("provenance reference", ProvenanceReference options); ("signature reference", SignatureReference options);
   ("certificate identity", CertificateIdentity options); ("certificate OIDC issuer", OIDCIssuer options)].

(* internal/certification/artifact_build.go, lines 61-92: ArtifactSigningOptions.validateMetadata *)
Definition validateMetadata (allowEmpty : bool) : gerror :=
  if allowEmpty && forallb (λ field, bool_decide (field.2 = "")) metadata then None
  else first_error (λ field : string * string,
    fail_if (blank field.2 || multiline field.2) (errorf "artifact %s is required and must be single-line" [GStr field.1])
    ;;? fail_if (bool_decide (is_Some (ValidateSecretSafeText field.2))) (errorf "artifact %s contains secret material" [GStr field.1])) metadata.

(* internal/certification/artifact_build.go, lines 48-59: ArtifactSigningOptions.Validate *)
Definition SigningOptions_Validate : gerror :=
  validateMetadata false
  ;;? fail_if (negb (bool_decide (is_Some (Signer options)))) (ErrNew "artifact signer is required")
  ;;? fail_if (negb (bool_decide (is_Some (Verifier options)))) (ErrNew "artifact verifier is required").

(** The text of the cause is redacted when it is read; the cause stays wrapped. *)
(* internal/certification/artifact_build.go, lines 127-132: safeArtifactFailure *)
Definition safeArtifactFailure (operation : string) (cause : error) : error := Errorf "%s: %s" [GStr operation] [cause].

(** The builder handed to the registry; [Validate] has found the signer and the verifier. *)
(* internal/certification/artifact_build.go, lines 162-191: EnsurePipelineArtifact *)
Definition pipeline_build request : M (result ImmutableArtifactContract) :=
  match build with
  | None => mret (Err (ErrNew "pipeline artifact builder is required"))
  | Some build =>
      match SigningOptions_Validate, Signer options, Verifier options with
      | Some err, _, _ => mret (Err err)
      | None, None, _ | None, _, None => mret (Err (ErrNew "artifact signer is required"))
      | None, Some sign, Some verify =>
          answer ← call EvPipelineBuild build;
          match
            (result ← map_err (safeArtifactFailure "build immutable certification artifact") answer;
             contract ← map_err (safeArtifactFailure "create immutable certification artifact contract")
               (pipeline_contract result (BuildRequest.CompatibilityFingerprint request) (ProvenanceReference options) (SignatureReference options));
             contract ← map_err (safeArtifactFailure "canonicalize immutable certification artifact digest") (canonicalizePipelineImageDigest contract);
             fail_if (bool_decide (is_Some (ValidateSecretSafeValue (Contract.to_json contract))))
               (ErrNew "immutable certification artifact contract contains secret material") ;;! Ok contract)
          with
          | Err err => mret (Err err)
          | Ok contract =>
              err ← call (EvSign (Contract.ImageDigest contract)) (sign (Contract.ImageDigest contract));
              match err with
              | Some err => mret (Err (safeArtifactFailure "sign immutable certification artifact" err))
              | None =>
                  err ← call (EvVerify (Contract.ImageDigest contract) (CertificateIdentity options) (OIDCIssuer options))
                          (verify (Contract.ImageDigest contract) (CertificateIdentity options) (OIDCIssuer options));
                  match err with
                  | Some err => mret (Err (safeArtifactFailure "verify immutable certification artifact" err))
                  | None => mret (Ok contract)
                  end
              end
          end
      end
  end.
End signing.

(** ** A caller of [EnsureImmutableArtifact] *)

(** What a caller has before it; [Built] is its answer with whether the artifact was reused. *)
Inductive caller :=
  | LookingUp
  | Claiming
  | Building
  | Publishing (record : ImmutableArtifactRecord)
  | Releasing (err : error)
  | Built (answer : result (ImmutableArtifactRecord * bool)).

Section caller.
Context (request : ArtifactBuildRequest).

Definition checked_record (invalid : string) record : caller :=
  Built (match ImmutableArtifactRecord_Validate record with Some _ => Err (ErrNew invalid) | None => Ok (record, true) end).

(** The registry and the builder are there. *)
(* internal/certification/artifact_registry.go, lines 96-110: EnsureImmutableArtifact *)
Definition ensure_begin (ctx : context) : caller :=
  match context_live (option_map (λ _, None) ctx) ;;? ArtifactBuildRequest_Validate request ;;? context_live ctx with
  | Some err => Built (Err err)
  | None => LookingUp
  end.

(* internal/certification/artifact_registry.go, lines 111-120: EnsureImmutableArtifact *)
Definition after_lookup (answer : result (option ImmutableArtifactRecord)) : caller :=
  match answer with
  | Err err => Built (Err err)
  | Ok (Some record) => checked_record "artifact registry returned an invalid published record" record
  | Ok None => Claiming
  end.

(* internal/certification/artifact_registry.go, lines 122-138: EnsureImmutableArtifact *)
Definition after_claim (answer : result ArtifactReuseLookup) : caller :=
  match answer with
  | Err err => Built (Err err)
  | Ok claim =>
      let decision := ReuseLookup.Decision claim in
      if bool_decide (decision = ArtifactReuseReady) then
        checked_record "artifact registry returned an invalid claimed record" (ReuseLookup.Record claim)
      else if bool_decide (decision = ArtifactReuseBlocked) then
        Built (Err (errorf "artifact build is blocked: %s" [GStr (ReuseLookup.Reason claim)]))
      else if bool_decide (decision = ArtifactReuseMiss) then Building
      else Built (Err (errorf "artifact registry returned unknown reuse decision %q" [GStr decision]))
  end.

(* internal/certification/artifact_registry.go, lines 139-146: EnsureImmutableArtifact *)
Definition after_build (answer : result ImmutableArtifactContract) : caller :=
  match answer with
  | Err err => Releasing err
  | Ok contract =>
      let record := {| ArtifactRecord.CompatibilityFingerprint := BuildRequest.CompatibilityFingerprint request; ArtifactRecord.Artifact := contract |} in
      match ImmutableArtifactRecord_Validate record with Some err => Releasing err | None => Publishing record end
  end.

(* internal/certification/artifact_registry.go, lines 147-151: EnsureImmutableArtifact *)
Definition after_publish record (err : gerror) : caller :=
  match err with Some err => Releasing err | None => Built (Ok (record, false)) end.

(* internal/certification/artifact_registry.go, lines 139-149: EnsureImmutableArtifact *)
Definition after_release (cause : error) (err : gerror) : caller :=
  Built (Err (default cause (errors_Join [Some cause; err]))).
End caller.

(** ** Callers of one registry *)

(** The next call of a caller: a call of the registry with what [ctx.Err()] answers there, or the builder's answer.  The
    release has a context of its own. *)
Inductive ensure_action :=
  | Begin (ctx : context)
  | Registry (ctxErr : gerror)
  | Builder (answer : result ImmutableArtifactContract).

Record build_world := {
  shared : registry;
  waiting : gmap nat ArtifactBuildRequest;
  running : gmap nat (ArtifactBuildRequest * caller);
}.

Definition advance (id : nat) request (c : caller) r (w : build_world) : build_world :=
  {| shared := r; waiting := delete id (waiting w); running := <[id := (request, c)]> (running w) |}.

(* internal/certification/artifact_registry.go, lines 95-151: EnsureImmutableArtifact *)
Definition ensure_perform (id : nat) (a : ensure_action) (w : build_world) : option build_world :=
  let r := shared w in
  match running w !! id, a with
  | None, Begin ctx => request ← waiting w !! id; Some (advance id request (ensure_begin request ctx) r w)
  | Some (request, c), a =>
      let fingerprint := BuildRequest.CompatibilityFingerprint request in
      let owner := BuildRequest.OwnershipMarker request in
      match c, a with
      | LookingUp, Registry err => Some (advance id request (after_lookup (memory_Lookup (Some err) fingerprint r)) r w)
      | Claiming, Registry err =>
          let '(answer, r) := memory_Claim (Some err) fingerprint owner r in Some (advance id request (after_claim answer) r w)
      | Building, Builder answer => Some (advance id request (after_build request answer) r w)
      | Publishing record, Registry err =>
          let '(answer, r) := memory_Publish (Some err) fingerprint owner record r in
          Some (advance id request (after_publish record answer) r w)
      | Releasing cause, Registry err =>
          let '(answer, r) := memory_ReleaseClaim (Some err) fingerprint owner r in Some (advance id request (after_release cause answer) r w)
      | _, _ => None
      end
  | _, _ => None
  end.

Fixpoint ensure_run (actions : list (nat * ensure_action)) (w : build_world) : option build_world :=
  match actions with
  | [] => Some w
  | (id, a) :: actions => ensure_perform id a w ≫= ensure_run actions
  end.

Definition ensure_start (requests : gmap nat ArtifactBuildRequest) : build_world :=
  {| shared := NewMemoryImmutableArtifactRegistry; waiting := requests; running := ∅ |}.
