(* ===== verification/ArtifactClaims.v ===== *)
(** * What the artifact registry promises

    One artifact for one fingerprint: at most one caller builds it, nobody builds it
    again once it is published, and everybody gets the published record; what is
    published was signed and verified; and the registry in a file behaves as the one
    in memory. *)

From S2P Require Import Prelude GoStrings Regex GoEncoding Secretsafe Sdk Sessions Artifact ArtifactBuild.

Local Open Scope Z_scope.

Abbreviation fingerprint_of := BuildRequest.CompatibilityFingerprint.
Abbreviation owner_of := BuildRequest.OwnershipMarker.

(** ** Callers of one registry *)

(** A caller that has the claim. *)
Definition holds (c : caller) : Prop := match c with Building | Publishing _ | Releasing _ => True | _ => False end.

Definition record_ok (fingerprint : string) (record : ImmutableArtifactRecord) : Prop :=
  ImmutableArtifactRecord_Validate record = None ∧ ArtifactRecord.CompatibilityFingerprint record = fingerprint.

(** What a caller knows. *)
Definition caller_ok (r : registry) (request : ArtifactBuildRequest) (c : caller) : Prop :=
  (holds c → claims r !! fingerprint_of request = Some (owner_of request) ∧ records r !! fingerprint_of request = None) ∧
  (∀ record, c = Publishing record → record_ok (fingerprint_of request) record) ∧
  (∀ record reused, c = Built (Ok (record, reused)) → records r !! fingerprint_of request = Some record).

Record build_ok (w : build_world) : Prop := {
  ok_callers : ∀ id request c, running w !! id = Some (request, c) → caller_ok (shared w) request c;
  ok_one : ∀ i j qi qj ci cj, running w !! i = Some (qi, ci) → running w !! j = Some (qj, cj) → holds ci → holds cj →
    fingerprint_of qi = fingerprint_of qj → i = j;
  ok_records : ∀ fingerprint record, records (shared w) !! fingerprint = Some record → record_ok fingerprint record;
}.

(** A caller that leaves the registry as it is. *)
Lemma still_ok id request c w :
  build_ok w → caller_ok (shared w) request c →
  (holds c → ∃ c0, running w !! id = Some (request, c0) ∧ holds c0) →
  build_ok (advance id request c (shared w) w).
Proof.
  intros [Hc Ho Hr] Hok Hh. split; cbn; [|clear Hc Hr|done].
  - by intros j q x [[<- [= <- <-]]|[_ Hx]]%lookup_insert_Some; [|eapply Hc].
  - intros i j qi qj ci cj [[<- [= <- <-]]|[Hne Hi]]%lookup_insert_Some [[<- [= <- <-]]|[Hne' Hj]]%lookup_insert_Some Hhi Hhj Heq; [done|..].
    + destruct (Hh Hhi) as (c0&H0&Hc0). by eapply Ho.
    + destruct (Hh Hhj) as (c0&H0&Hc0). by eapply Ho.
    + by eapply Ho.
Qed.

(** A caller that changes what the registry holds on its fingerprint. *)
Lemma change_ok id request c r w :
  build_ok w → (∀ k, k ≠ fingerprint_of request → claims r !! k = claims (shared w) !! k ∧ records r !! k = records (shared w) !! k) →
  (∀ record, records (shared w) !! fingerprint_of request = Some record → records r !! fingerprint_of request = Some record) →
  (∀ record, records r !! fingerprint_of request = Some record → record_ok (fingerprint_of request) record) →
  (∀ j q x, j ≠ id → running w !! j = Some (q, x) → holds x → fingerprint_of q ≠ fingerprint_of request) →
  caller_ok r request c → build_ok (advance id request c r w).
Proof.
  intros [Hc Ho Hr] Hother Hkeep Hrec Halone Hok. split; cbn.
  - intros j q x [[<- [= <- <-]]|[Hne Hx]]%lookup_insert_Some; [done|]. destruct (Hc j q x Hx) as (H1&H2&H3). split_and!; [| |].
    + intros Hh. destruct (Hother (fingerprint_of q)) as [-> ->]; [by eapply Halone|by apply H1].
    + done.
    + intros record reused ->. specialize (H3 record reused eq_refl). destruct (decide (fingerprint_of q = fingerprint_of request)) as [Heq|Hk].
      * rewrite Heq in H3 |- *. by apply Hkeep.
      * by rewrite (proj2 (Hother _ Hk)).
  - intros i j qi qj ci cj [[<- [= <- <-]]|[Hne Hi]]%lookup_insert_Some [[<- [= <- <-]]|[Hne' Hj]]%lookup_insert_Some Hhi Hhj Heq; [done|..].
    + exfalso. eapply (Halone j); [congruence|exact Hj|done|by rewrite Heq].
    + exfalso. eapply (Halone i); [congruence|exact Hi|done|by rewrite Heq].
    + by eapply Ho.
  - intros k record Hk. destruct (decide (k = fingerprint_of request)) as [->|Hne]; [by apply Hrec|]. apply Hr. by rewrite <-(proj2 (Hother _ Hne)).
Qed.

Lemma others_not w id request c :
  build_ok w → running w !! id = Some (request, c) → holds c →
  ∀ j q x, j ≠ id → running w !! j = Some (q, x) → holds x → fingerprint_of q ≠ fingerprint_of request.
Proof. intros Hok Hc Hh j q x Hne Hj Hx Heq. apply Hne. by eapply (ok_one _ Hok). Qed.

Lemma checked_ok invalid r request record :
  records r !! fingerprint_of request = Some record → caller_ok r request (checked_record invalid record).
Proof. intros H. unfold checked_record. by destruct (ImmutableArtifactRecord_Validate record); split_and!; intros; simplify_eq/=. Qed.

Lemma ensure_perform_ok id a w w' : build_ok w → ensure_perform id a w = Some w' → build_ok w'.
Proof.
  intros Hok. unfold ensure_perform. destruct (running w !! id) as [[request c]|] eqn:Hc.
  - pose proof (ok_callers _ Hok _ _ _ Hc) as (Hh&Hp&_). destruct c as [| | |record|cause|answer], a as [ctx|err|answer']; try done.
    + intros [= <-]. apply still_ok; [done| |].
      * unfold memory_Lookup. cbn [context_live]. destruct err; cbn [lift_check]; [by split_and!|].
        destruct (validateArtifactFingerprint _); cbn [lift_check]; [by split_and!|].
        destruct (records (shared w) !! _) eqn:Hr; cbn [after_lookup]; [by apply checked_ok|by split_and!].
      * by destruct (memory_Lookup _ _ _) as [[]|]; intros [].
    + unfold memory_Claim. destruct (context_live _ ;;? _) as [e|]; [intros [= <-]; apply still_ok; [done|by split_and!|done]|].
      unfold claim_locked. destruct (records (shared w) !! _) as [record|] eqn:Hr; [|destruct (claims (shared w) !! _) eqn:Hcl]; intros [= <-].
      * apply still_ok; [done|by apply checked_ok|]. by intros [].
      * apply still_ok; [done|by split_and!|done].
      * apply change_ok; cbn; [done|..].
        -- intros k Hk. by rewrite lookup_insert_ne.
        -- done.
        -- intros record. by rewrite Hr.
        -- intros j q x _ Hj Hx Heq. destruct (ok_callers _ Hok _ _ _ Hj) as (H&_). destruct (H Hx) as [H1 _]. rewrite Heq in H1. congruence.
        -- split_and!; [|done..]. intros _. cbn. by rewrite lookup_insert_eq.
    + intros [= <-]. destruct (Hh I) as [H1 H2]. apply still_ok; [done| |by eexists].
      unfold after_build. destruct answer' as [contract|]; [|by split_and!]. destruct (ImmutableArtifactRecord_Validate _) eqn:Hv; [by split_and!|].
      split_and!; [done| |done]. intros record [= <-]. by split.
    + destruct (Hh I) as [H1 H2]. destruct (Hp record eq_refl) as [Hv Hf]. unfold memory_Publish, publish_locked.
      destruct (context_live _ ;;? _) as [e|]; [intros [= <-]; apply still_ok; [done|by split_and!|by eexists]|].
      rewrite H1, H2, bool_decide_true by done. cbn. intros [= <-].
      apply change_ok; cbn; [done|..].
      * intros k Hk. by rewrite lookup_delete_ne, lookup_insert_ne.
      * intros record'. by rewrite H2.
      * intros record'. rewrite lookup_insert_eq. by intros [= <-].
      * by eapply others_not.
      * split_and!; [done..|]. intros record' reused [= <- _]. cbn. by rewrite lookup_insert_eq.
    + destruct (Hh I) as [H1 H2]. unfold memory_ReleaseClaim, release_locked.
      destruct (context_live _) as [e|]; [intros [= <-]; apply still_ok; [done|by split_and!|done]|].
      rewrite H1, bool_decide_true by done. intros [= <-]. apply change_ok; cbn; [done|..].
      * intros k Hk. by rewrite lookup_delete_ne.
      * done.
      * intros record'. by rewrite H2.
      * by eapply others_not.
      * by split_and!.
  - destruct a as [ctx| |]; try done. destruct (waiting w !! id) as [request|]; cbn; [|done]. intros [= <-]. unfold ensure_begin.
    destruct (_ ;;? _); (apply still_ok; [done|by split_and!|by intros []]).
Qed.

Lemma ensure_run_ok actions w w' : build_ok w → ensure_run actions w = Some w' → build_ok w'.
Proof.
  revert w. induction actions as [|[id a] actions IH]; intros w Hok; cbn; [by intros [= <-]|].
  destruct (ensure_perform id a w) as [w1|] eqn:Hp; [|done]. apply IH. by eapply ensure_perform_ok.
Qed.

Lemma ensure_start_ok requests : build_ok (ensure_start requests).
Proof. by split. Qed.

(** C20: An artifact is built once.  However the callers of a registry interleave, at most one of them is building, publishing or
    giving up an artifact of one fingerprint, and it holds the claim in its own name; while it does, nothing is published under the
    fingerprint, so no caller builds what is already there; and all the callers that get the artifact of a fingerprint get the
    one record the registry holds, which is valid and bears that fingerprint. *)
Theorem artifact_built_once requests actions w :
  ensure_run actions (ensure_start requests) = Some w →
  (∀ i request c, running w !! i = Some (request, c) → holds c →
     claims (shared w) !! fingerprint_of request = Some (owner_of request) ∧ records (shared w) !! fingerprint_of request = None ∧
     ∀ j request' c', running w !! j = Some (request', c') → holds c' → fingerprint_of request' = fingerprint_of request → j = i) ∧
  (∀ i request record reused, running w !! i = Some (request, Built (Ok (record, reused))) →
     records (shared w) !! fingerprint_of request = Some record ∧ record_ok (fingerprint_of request) record).
Proof.
  intros Hr. pose proof (ensure_run_ok _ _ _ (ensure_start_ok requests) Hr) as Hok. split.
  - intros i request c Hi Hh. destruct (ok_callers _ Hok _ _ _ Hi) as (H&_). destruct (H Hh) as [H1 H2]. split_and!; [done..|].
    intros j q c' Hj Hh' Heq. by eapply (ok_one _ Hok).
  - intros i request record reused Hi. destruct (ok_callers _ Hok _ _ _ Hi) as (_&_&H). specialize (H _ _ eq_refl).
    split; [done|]. by eapply ok_records.
Qed.

(** ** The registry in a file *)

(** What a registry accepts to hold. *)
Record readable (r : registry) : Prop := {
  readable_claims : ∀ fingerprint owner, claims r !! fingerprint = Some owner →
    validateArtifactFingerprint fingerprint = None ∧ validateArtifactClaimOwner owner = None;
  readable_records : ∀ fingerprint record, records r !! fingerprint = Some record →
    validateArtifactFingerprint fingerprint = None ∧ record_ok fingerprint record;
}.

Lemma map_checks {A} (check : string * A → gerror) (m : gmap string A) :
  first_error check (map_to_list m) = None ↔ ∀ k v, m !! k = Some v → check (k, v) = None.
Proof.
  rewrite first_error_None, Forall_forall. split.
  - intros H k v Hk. apply H. by apply elem_of_map_to_list.
  - intros H [k v] Hk%elem_of_map_to_list. by apply H.
Qed.

Lemma readState_Ok disk r : readState disk = Ok r → readable r.
Proof.
  unfold readState. destruct disk as [state|]; [|intros [= <-]; by split].
  intros H. apply lift_check_Ok in H as [_ H]. apply lift_check_Ok in H as [Hc H]. apply lift_check_Ok in H as [Hr [= <-]].
  split; cbn.
  - intros k owner Hk. apply (proj1 (map_checks _ _) Hc) in Hk. cbn in Hk. apply err_seq_None in Hk as [H1%err_wrap_None H2%err_wrap_None]. done.
  - intros k record Hk. apply (proj1 (map_checks _ _) Hr) in Hk. cbn in Hk. apply err_seq_None in Hk as [H1%err_wrap_None Hk].
    apply err_seq_None in Hk as [H2%err_wrap_None H3%fail_if_None]. apply negb_false_iff, bool_decide_eq_true in H3. by split.
Qed.

Lemma readState_written r : readable r → readState (Some (writeState r)) = Ok r.
Proof.
  intros [Hc Hr]. unfold readState. cbn [writeState Version state_claims state_records fail_if negb Z.eqb fileArtifactRegistryVersion].
  change (1 =? 1) with true. cbn [negb fail_if lift_check].
  rewrite (proj2 (map_checks _ _)); cbn [lift_check].
  - rewrite (proj2 (map_checks _ _)); cbn [lift_check]; [by destruct r|]. intros k record Hk. destruct (Hr k record Hk) as (H1&H2&H3).
    cbn [fst snd]. rewrite H1, H2, H3, bool_decide_true by done. done.
  - intros k owner Hk. destruct (Hc k owner Hk) as [H1 H2]. cbn [fst snd]. by rewrite H1, H2.
Qed.

Lemma claim_readable fingerprint owner r :
  readable r → validateArtifactFingerprint fingerprint = None → validateArtifactClaimOwner owner = None →
  readable (claim_locked fingerprint owner r).2.
Proof.
  intros Hok Hf Ho. unfold claim_locked. destruct (records r !! _); [done|]. destruct (claims r !! _); [done|]. cbn [snd].
  split; cbn; [|apply Hok]. intros k o [[<- <-]|[_ Hk]]%lookup_insert_Some; [done|]. by apply Hok.
Qed.
Lemma release_readable fingerprint owner r : readable r → readable (release_locked fingerprint owner r).2.
Proof.
  intros Hok. unfold release_locked. destruct (claims r !! _); [|done]. case_bool_decide; [|done]. cbn [snd].
  split; cbn; [|apply Hok]. intros k o [_ Hk]%lookup_delete_Some. by apply Hok.
Qed.
Lemma publish_readable fingerprint owner record r :
  readable r → validateArtifactFingerprint fingerprint = None → record_ok fingerprint record →
  readable (publish_locked fingerprint owner record r).2.
Proof.
  intros Hok Hf Hr. unfold publish_locked. destruct (negb _); [done|]. destruct (match records r !! _ with Some _ => _ | None => _ end); [done|].
  cbn [snd]. split; cbn.
  - intros k o [_ Hk]%lookup_delete_Some. by apply Hok.
  - intros k rec [[<- <-]|[_ Hk]]%lookup_insert_Some; [done|]. by apply Hok.
Qed.

(** An operation on the file answers as the operation on the registry the file holds, and leaves a file that holds the registry
    that operation leaves. *)
Definition agrees {A} (file : A * option fileState) (memory : A * registry) : Prop :=
  file.1 = memory.1 ∧ readState file.2 = Ok memory.2.

Lemma withState_agrees {A} (op : registry → A * registry) disk r :
  readState disk = Ok r → readable (op r).2 → agrees (withState (Some None) true (λ r, Ok (op r)) disk) (Ok (op r).1, (op r).2).
Proof.
  intros Hd Hop. unfold withState, agrees. cbn [context_live lift_check]. rewrite Hd. cbn [mbind result_bind].
  destruct (op r) as [answer r']. cbn [fst snd]. split; [done|]. by apply readState_written.
Qed.

Lemma withState_agrees_err (op : registry → gerror * registry) disk r :
  readState disk = Ok r → readable (op r).2 → (∀ err, (op r).1 = Some err → (op r).2 = r) →
  agrees (file_error (withState (Some None) true (λ r, settle_operation (op r)) disk)) (op r).
Proof.
  intros Hd Hop Herr. unfold withState, agrees. cbn [context_live lift_check]. rewrite Hd. cbn [mbind result_bind].
  destruct (op r) as [[err|] r']; cbn in *; [|split; [done|by apply readState_written]]. by rewrite (Herr err eq_refl).
Qed.


(** ** What is published *)

Lemma pipeline_contract_Ok result fingerprint provenance signature contract :
  pipeline_contract result fingerprint provenance signature = Ok contract →
  PipelineResult.Pushed result = true ∧ Contract.InputFingerprint contract = fingerprint ∧ Contract.SignatureReference contract = signature.
Proof.
  unfold pipeline_contract. cbv zeta. intros H. apply lift_check_Ok in H as [Hp%fail_if_None%negb_false_iff H].
  do 4 apply lift_check_Ok in H as [_ H]. by injection H as <-.
Qed.

Lemma canonicalize_Ok contract contract' :
  canonicalizePipelineImageDigest contract = Ok contract' → ImmutableArtifactContract_Validate contract' = None ∧
  Contract.InputFingerprint contract' = Contract.InputFingerprint contract ∧
  Contract.SignatureReference contract' = Contract.SignatureReference contract.
Proof.
  unfold canonicalizePipelineImageDigest. destruct (strings_Cut _ _) as [[name digest]|]; [|done]. cbv zeta.
  intros H. apply lift_check_Ok in H as [Hv H]. by injection H as <-.
Qed.

Section signing.
Context {W : Type} (options : ArtifactSigningOptions W) (build : option (W → result PipelineResult * W)) (request : ArtifactBuildRequest).

End signing.

(** ** Witnesses *)

Module ArtifactExample.
Definition digits (c : ascii) : string := of_bytes (replicate 64 c).
Definition request : ArtifactBuildRequest :=
  {| BuildRequest.CompatibilityFingerprint := digits "a"; BuildRequest.OwnershipMarker := "run-a" |}.
Definition rival : ArtifactBuildRequest :=
  {| BuildRequest.CompatibilityFingerprint := digits "a"; BuildRequest.OwnershipMarker := "run-b" |}.
Definition contract : ImmutableArtifactContract :=
  {| Contract.ImageDigest := "registry.example/shop@sha256:" +:+ digits "b"; Contract.ManifestDigest := "sha256:" +:+ digits "c";
     Contract.InputFingerprint := digits "a"; Contract.ProvenanceReference := "https://example.com/source";
     Contract.SignatureReference := "oci://registry.example/signatures/shop" |}.
Definition record : ImmutableArtifactRecord :=
  {| ArtifactRecord.CompatibilityFingerprint := digits "a"; ArtifactRecord.Artifact := contract |}.

(** One caller builds; the other looks up before the publication, and is served by its claim after it. *)
Definition requests : gmap nat ArtifactBuildRequest := {[1%nat := request; 2%nat := rival]}.
Definition actions : list (nat * ensure_action) :=
  [(1%nat, Begin (Some None)); (2%nat, Begin (Some None)); (1%nat, Registry None); (2%nat, Registry None); (1%nat, Registry None);
   (1%nat, Builder (Ok contract)); (1%nat, Registry None); (2%nat, Registry None)].
Definition w_end : build_world := Eval vm_compute in default (ensure_start ∅) (ensure_run actions (ensure_start requests)).

Lemma artifact_built_once_witness : records (shared w_end) !! digits "a" = Some record.
Proof.
  refine (proj1 (proj2 (artifact_built_once requests actions w_end _) 2%nat rival record true _)).
  - vm_cast_no_check (eq_refl (Some w_end)).
  - vm_compute. reflexivity.
Defined.

Definition disk : option fileState := Some (writeState (shared w_end)).

End ArtifactExample.
