(* ===== verification/Base64.v ===== *)
(** * Base64 for URLs, without padding

    [base64.RawURLEncoding] of the Go library, as the composite adapters of
    [internal/external] use it to carry the references of a destination inside
    references of their own. *)

From S2P Require Import Prelude GoStrings.

Local Open Scope N_scope.

(** ** The alphabet: letters, digits, [-] and [_] *)

Definition encode_digit (n : N) : ascii :=
  Ascii.ascii_of_N
    (if n <? 26 then n + 65 else if n <? 52 then n + 71 else if n <? 62 then n - 4 else if n =? 62 then 45 else 95).

Definition decode_digit (c : ascii) : option N :=
  let n := code c in
  if (65 <=? n) && (n <=? 90) then Some (n - 65)
  else if (97 <=? n) && (n <=? 122) then Some (n - 71)
  else if (48 <=? n) && (n <=? 57) then Some (n + 4)
  else if n =? 45 then Some 62 else if n =? 95 then Some 63 else None.

(** ** Groups of three bytes, four digits *)

Fixpoint digits (l : list N) : list N :=
  match l with
  | [] => []
  | [a] => [a / 4; a mod 4 * 16]
  | [a; b] => [a / 4; a mod 4 * 16 + b / 16; b mod 16 * 4]
  | a :: b :: c :: l => a / 4 :: a mod 4 * 16 + b / 16 :: b mod 16 * 4 + c / 64 :: c mod 64 :: digits l
  end.

(** The bits left over by the last digit are not looked at. *)
Fixpoint undigits (l : list N) : option (list N) :=
  match l with
  | [] => Some []
  | [_] => None
  | [x; y] => Some [x * 4 + y / 16]
  | [x; y; z] => Some [x * 4 + y / 16; y mod 16 * 16 + z / 4]
  | x :: y :: z :: w :: l =>
      rest ← undigits l; Some (x * 4 + y / 16 :: y mod 16 * 16 + z / 4 :: z mod 4 * 64 + w :: rest)
  end.

Definition EncodeToString (s : string) : string := of_bytes (encode_digit <$> digits (code <$> go_bytes s)).

(** Line breaks in the text are skipped. *)
Definition line_break (c : ascii) : bool := (code c =? 10) || (code c =? 13).

Definition DecodeString (s : string) : option string :=
  ds ← mapM decode_digit (filter (λ c, line_break c = false) (go_bytes s));
  bytes ← undigits ds;
  Some (of_bytes (Ascii.ascii_of_N <$> bytes)).

(** ** Round trip *)

(** Arithmetic with divisions by literals. *)
Ltac dm_lia := zify; Z.to_euclidean_division_equations; lia.

Definition table_ok (n : N) : bool :=
  bool_decide (decode_digit (encode_digit n) = Some n) && negb (line_break (encode_digit n))
  && bool_decide (code (encode_digit n) < 128).

Lemma table_all : forallb (λ n, table_ok (N.of_nat n)) (seq 0 64) = true.
Proof. vm_compute. reflexivity. Qed.

Lemma table_digit n : n < 64 → table_ok n = true.
Proof.
  intros Hn. pose proof table_all as H. rewrite forallb_forall in H.
  specialize (H (N.to_nat n)). rewrite N2Nat.id in H. apply H, in_seq. lia.
Qed.

Lemma decode_encode_digit n : n < 64 → decode_digit (encode_digit n) = Some n ∧ line_break (encode_digit n) = false.
Proof.
  intros Hn. pose proof (table_digit n Hn) as H. unfold table_ok in H. rewrite !andb_true_iff in H.
  destruct H as [[Hd Hl] _]. split; [by apply bool_decide_eq_true in Hd|by apply negb_true_iff in Hl].
Qed.

(** Induction three bytes at a time. *)
Lemma groups_ind (P : list N → Prop) :
  P [] → (∀ a, P [a]) → (∀ a b, P [a; b]) → (∀ a b c l, P l → P (a :: b :: c :: l)) → ∀ l, P l.
Proof.
  intros H0 H1 H2 H3. fix go 1. intros [|a [|b [|c l]]]; [done|apply H1|apply H2|apply H3, go].
Qed.

Lemma digit_bounds a b c : a < 256 → b < 256 → c < 256 →
  a / 4 < 64 ∧ a mod 4 * 16 + b / 16 < 64 ∧ b mod 16 * 4 + c / 64 < 64 ∧ c mod 64 < 64.
Proof. intros Ha Hb Hc. split_and!; dm_lia. Qed.

Lemma digits_bound l : Forall (λ a, a < 256) l → Forall (λ d, d < 64) (digits l).
Proof.
  induction l as [|a|a b|a b c l IH] using groups_ind; cbn [digits]; intros Hl; repeat apply Forall_cons in Hl as [? Hl].
  - constructor.
  - destruct (digit_bounds a 0 0) as (?&?&_); [done..|]. repeat constructor; dm_lia.
  - destruct (digit_bounds a b 0) as (?&?&?&_); [done..|]. repeat constructor; dm_lia.
  - destruct (digit_bounds a b c) as (?&?&?&?); [done..|]. repeat constructor; try done. by apply IH.
Qed.

Lemma undigits_digits l : Forall (λ a, a < 256) l → undigits (digits l) = Some l.
Proof.
  induction l as [|a|a b|a b c l IH] using groups_ind; cbn [digits undigits]; intros Hl; repeat apply Forall_cons in Hl as [? Hl].
  - done.
  - do 2 f_equal. dm_lia.
  - do 2 f_equal; [|f_equal]; dm_lia.
  - rewrite IH by done. cbn. do 2 f_equal; [|f_equal; [|f_equal]]; dm_lia.
Qed.

Lemma code_bound c : code c < 256.
Proof. apply Ascii.N_ascii_bounded. Qed.

Lemma digits_string s : Forall (λ d, d < 64) (digits (code <$> go_bytes s)).
Proof. apply digits_bound, Forall_fmap, Forall_true. intros c. apply code_bound. Qed.

Lemma decode_encode s : DecodeString (EncodeToString s) = Some s.
Proof.
  unfold DecodeString, EncodeToString. rewrite go_bytes_of_bytes.
  pose proof (digits_string s) as Hd.
  assert (Hf : filter (λ c, line_break c = false) (encode_digit <$> digits (code <$> go_bytes s))
               = encode_digit <$> digits (code <$> go_bytes s)).
  { induction Hd as [|d l Hd _ IH]; [done|]. rewrite fmap_cons, filter_cons_True, IH; [done|by apply decode_encode_digit]. }
  rewrite Hf.
  assert (Hm : mapM decode_digit (encode_digit <$> digits (code <$> go_bytes s)) = Some (digits (code <$> go_bytes s))).
  { apply mapM_fmap_Forall_Some. eapply Forall_impl; [exact Hd|]. intros d. apply decode_encode_digit. }
  rewrite Hm. cbn. rewrite undigits_digits by (apply Forall_fmap, Forall_true; intros c; apply code_bound). cbn.
  f_equal. rewrite <-list_fmap_compose. rewrite <-(of_bytes_go_bytes s) at 2. f_equal.
  rewrite <-(list_fmap_id (go_bytes s)) at 2. apply list_fmap_ext. intros i c _. apply Ascii.ascii_N_embedding.
Qed.

#[export] Instance EncodeToString_inj : Inj (=) (=) EncodeToString.
Proof. intros s t H. apply (inj Some). by rewrite <-(decode_encode s), H, decode_encode. Qed.

(** ** What an encoded text looks like *)

Definition base64_char (c : ascii) : Prop := ∃ n, n < 64 ∧ c = encode_digit n.

Lemma EncodeToString_chars s : Forall base64_char (go_bytes (EncodeToString s)).
Proof.
  unfold EncodeToString. rewrite go_bytes_of_bytes. apply Forall_fmap. eapply Forall_impl; [apply digits_string|].
  intros d Hd. by exists d.
Qed.

(** The number of digits is never one more than a multiple of four. *)
Lemma digits_length l : (length (digits l) mod 4 ≠ 1)%nat.
Proof.
  induction l as [|a|a b|a b c l IH] using groups_ind; cbn [digits length]; [done..|].
  replace (S (S (S (S (length (digits l)))))) with (length (digits l) + 1 * 4)%nat by lia. by rewrite Nat.Div0.mod_add.
Qed.

Lemma EncodeToString_length s : (length (go_bytes (EncodeToString s)) mod 4 ≠ 1)%nat.
Proof. unfold EncodeToString. rewrite go_bytes_of_bytes, length_fmap. apply digits_length. Qed.

Lemma EncodeToString_empty s : EncodeToString s = "" → s = "".
Proof. intros H. apply (inj EncodeToString). by rewrite H. Qed.

Lemma base64_char_none (c : ascii) : decode_digit c = None → ¬ base64_char c.
Proof. intros H (n&Hn&->). by rewrite (proj1 (decode_encode_digit n Hn)) in H. Qed.
