(* ===== verification/References.v ===== *)
(** * References inside references
      (internal/external/edge/composite.go, internal/external/observability/composite.go)

    A composite adapter hands out the references of its destinations as
    [composite:<destination>:<reference>], both parts in base64, and routes
    them back when they return.  Both composites do this the same way; [what]
    and [child] are their words in the messages. *)

From S2P Require Import Prelude GoStrings Base64 Admission Resilience.

Local Open Scope list_scope.

(** [strings.TrimPrefix] when the prefix is there, and [strings.Cut]. *)
(* internal/external/observability/composite.go, lines 302-302: unwrapReference *)
Definition cut_prefix (s prefix : string) : string := of_bytes (drop (length (go_bytes prefix)) (go_bytes s)).

Fixpoint cut_bytes (sep : ascii) (l : list ascii) : option (list ascii * list ascii) :=
  match l with
  | [] => None
  | c :: l => if bool_decide (c = sep) then Some ([], l) else '(before, after) ← cut_bytes sep l; Some (c :: before, after)
  end.
(* internal/external/observability/composite.go, lines 303-303: unwrapReference *)
Definition Cut (s : string) (sep : ascii) : option (string * string) :=
  '(before, after) ← cut_bytes sep (go_bytes s); Some (of_bytes before, of_bytes after).

Definition colon : ascii := ":"%char.

(* internal/external/edge/composite.go, lines 384-384: compositeReferencePrefix *)
Definition compositeReferencePrefix := "composite:".

(* internal/external/observability/composite.go, lines 282-284: wrapReference *)
Definition wrapReference (destination reference : string) : string :=
  compositeReferencePrefix +:+ EncodeToString destination +:+ ":" +:+ EncodeToString reference.

(* internal/external/edge/composite.go, lines 386-392: wrapReferences *)
Definition wrapReferences (destination : string) (references : list string) : list string :=
  wrapReference destination <$> references.

Section routing.
Context (what child : string).

(** A part that is not base64, or the base64 of nothing, is refused. *)
(* internal/external/observability/composite.go, lines 307-314: unwrapReference *)
Definition decode_part (message encoded reference : string) : result string :=
  match DecodeString encoded with
  | Some decoded => if bool_decide (decoded = "") then Err (errorf (what +:+ message) [GStr reference]) else Ok decoded
  | None => Err (errorf (what +:+ message) [GStr reference])
  end.

(* internal/external/observability/composite.go, lines 298-321: unwrapReference *)
Definition unwrapReference (reference : string) : result (string * string) :=
  if negb (HasPrefix reference compositeReferencePrefix) then
    Err (errorf (what +:+ " received an unscoped resource reference %q") [GStr reference])
  else match Cut (cut_prefix reference compositeReferencePrefix) colon with
  | None => Err (errorf (what +:+ " received an invalid resource reference %q") [GStr reference])
  | Some (encodedDestination, encodedReference) =>
      fail_if (bool_decide (encodedDestination = "") || bool_decide (encodedReference = ""))
        (errorf (what +:+ " received an invalid resource reference %q") [GStr reference]) ;;!
      (destination ← decode_part " received an invalid destination reference %q" encodedDestination reference;
       resource ← decode_part (" received an invalid " +:+ child +:+ " reference %q") encodedReference reference;
       fail_if (blank destination || multiline (destination +:+ resource))
         (errorf (what +:+ " received an unsafe resource reference %q") [GStr reference]) ;;!
       Ok (destination, resource))
  end.

(** The references of each destination, in the order they came. *)
(* internal/external/observability/composite.go, lines 293-293: routeCompositeReferences *)
Definition add_route (routed : gmap string (list string)) (route : string * string) : gmap string (list string) :=
  <[route.1 := default [] (routed !! route.1) ++ [route.2]]> routed.

(* internal/external/observability/composite.go, lines 286-296: routeCompositeReferences *)
Fixpoint route_from (routed : gmap string (list string)) (references : list string) : result (gmap string (list string)) :=
  match references with
  | [] => Ok routed
  | reference :: references => route ← unwrapReference reference; route_from (add_route routed route) references
  end.

(* internal/external/edge/composite.go, lines 394-420: routeReferences *)
Definition routeReferences (references : list string) : result (gmap string (list string)) := route_from ∅ references.
End routing.

(** ** Round trip *)

(** What the composites wrap: a destination that shows, text on one line. *)
Definition routable (destination reference : string) : Prop :=
  blank destination = false ∧ reference ≠ "" ∧ multiline (destination +:+ reference) = false.

Lemma cut_bytes_app sep a b : sep ∉ a → cut_bytes sep (a ++ sep :: b) = Some (a, b).
Proof.
  induction a as [|c a IH]; intros Hn; cbn [cut_bytes app].
  { by rewrite bool_decide_eq_true_2. }
  apply not_elem_of_cons in Hn as [Hc Hn]. rewrite bool_decide_eq_false_2 by done. by rewrite (IH Hn).
Qed.

Lemma cut_prefix_app a b : cut_prefix (a +:+ b) a = b.
Proof. unfold cut_prefix. rewrite go_bytes_app, drop_app_length. apply of_bytes_go_bytes. Qed.

Lemma HasPrefix_app a b : HasPrefix (a +:+ b) a = true.
Proof.
  unfold HasPrefix. induction a as [|c a IH]; [by destruct b|].
  change (String.prefix (String c a) (String c (a +:+ b)) = true). cbn [String.prefix].
  by destruct (ascii_dec c c).
Qed.

Lemma Cut_app a b sep : sep ∉ go_bytes a → Cut (a +:+ String sep "" +:+ b) sep = Some (a, b).
Proof.
  intros Hn. unfold Cut. rewrite go_bytes_app. change (go_bytes (String sep "" +:+ b)) with (sep :: go_bytes b).
  rewrite cut_bytes_app by done. cbn. by rewrite !of_bytes_go_bytes.
Qed.

Lemma encoded_no_colon s : colon ∉ go_bytes (EncodeToString s).
Proof.
  intros Hin. pose proof (EncodeToString_chars s) as Hf. rewrite Forall_forall in Hf.
  by apply (base64_char_none colon); [|apply Hf].
Qed.

Lemma unwrap_wrap what child destination reference : routable destination reference →
  unwrapReference what child (wrapReference destination reference) = Ok (destination, reference).
Proof.
  intros (Hd&Hr&Hm). unfold unwrapReference, wrapReference. rewrite HasPrefix_app, cut_prefix_app. cbn [negb].
  rewrite (Cut_app _ _ colon) by apply encoded_no_colon.
  assert (Hne : ∀ s, s ≠ "" → bool_decide (EncodeToString s = "") = false).
  { intros s Hs. apply bool_decide_eq_false_2. by intros ?%EncodeToString_empty. }
  assert (Hd' : destination ≠ "") by by apply blank_false_nonempty.
  rewrite !Hne by done. cbn [orb fail_if lift_check]. unfold decode_part. rewrite !decode_encode.
  rewrite !bool_decide_eq_false_2 by done. cbn. by rewrite Hd, Hm.
Qed.

(** Routing is one fold when every reference is one of ours. *)
Lemma route_wrapped what child routes routed : Forall (λ r, routable r.1 r.2) routes →
  route_from what child routed ((λ r : string * string, wrapReference r.1 r.2) <$> routes) = Ok (fold_left add_route routes routed).
Proof.
  intros Hf. revert routed. induction Hf as [|[d r] routes Hr _ IH]; intros routed; [done|].
  cbn [fmap list_fmap route_from fold_left fst snd]. rewrite (unwrap_wrap _ _ _ _ Hr). cbn. apply IH.
Qed.

Lemma fold_routes_lookup routes routed d :
  default [] (fold_left add_route routes routed !! d)
  = default [] (routed !! d) ++ (snd <$> filter (λ r, r.1 = d) routes).
Proof.
  revert routed. induction routes as [|[d' r] routes IH]; intros routed; [by rewrite app_nil_r|].
  cbn [fold_left]. rewrite IH. unfold add_route. cbn [fst snd]. destruct (decide (d' = d)) as [->|Hne].
  - rewrite lookup_insert_eq, filter_cons_True by done. cbn. by rewrite <-app_assoc.
  - by rewrite lookup_insert_ne, filter_cons_False by done.
Qed.

Lemma fold_routes_known routes routed d :
  is_Some (fold_left add_route routes routed !! d) ↔ is_Some (routed !! d) ∨ d ∈ routes.*1.
Proof.
  revert routed. induction routes as [|[d' r] routes IH]; intros routed; [by split; [left|intros [?|?%elem_of_nil]]|].
  cbn [fold_left fmap list_fmap fst]. rewrite IH, elem_of_cons. unfold add_route. cbn [fst snd].
  rewrite lookup_insert_is_Some. destruct (decide (d' = d)); naive_solver.
Qed.
