(* ===== verification/Edge.v ===== *)
(** * Edge adapters (sdk/integrations.go, sdk/integration_lifecycle.go, sdk/edge_lifecycle.go)

    The port of an edge adapter with its validators, the shared plan and execute
    gate [RunEdgeLifecycle], and the adapter over asynchronous operations with
    its two waits.  The [any] an adapter keeps in its plan is a type [O]; the
    world behind contexts, timers and clients is [W].  Contexts and clients are
    there: the nil ones are refused before anything else. *)

From S2P Require Import Prelude GoStrings GoEncoding Sdk Admission Architecture Resilience Lifecycle.

Local Open Scope Z_scope.

(* sdk/integrations.go, lines 15-22: EdgeAction *)
Definition edge_actions : list string := ["apply"; "verify"; "failover"; "rollback"; "destroy"; "purge"].
(* sdk/integrations.go, lines 16-16: EdgeApply *)
Definition EdgeApply := "apply".
(* sdk/integrations.go, lines 17-17: EdgeVerify *)
Definition EdgeVerify := "verify".
(* sdk/integrations.go, lines 18-18: EdgeFailover *)
Definition EdgeFailover := "failover".
(* sdk/integrations.go, lines 19-19: EdgeRollback *)
Definition EdgeRollback := "rollback".
(* sdk/integrations.go, lines 20-20: EdgeDestroy *)
Definition EdgeDestroy := "destroy".
(* sdk/integrations.go, lines 21-21: EdgePurge *)
Definition EdgePurge := "purge".

(* sdk/integrations.go, lines 29-29: EdgeProofOriginHealth *)
Definition EdgeProofOriginHealth := "origin-health".

(** ** Data *)

Module EdgeAdapterDescriptor.
(* sdk/integrations.go, lines 31-37: EdgeAdapterDescriptor *)
Record EdgeAdapterDescriptor := {
  APIVersion : string;
  ID : string;
  Provider : string;
  Version : string;
  Capabilities : list string;
}.
End EdgeAdapterDescriptor.
Notation EdgeAdapterDescriptor := EdgeAdapterDescriptor.EdgeAdapterDescriptor.

Module Output.
(* sdk/integrations.go, lines 39-42: AdapterOutput *)
Record AdapterOutput := {
  Key : string;
  Value : string;
}.
End Output.
Notation AdapterOutput := Output.AdapterOutput.

Module EdgePlanRequest.
(* sdk/integrations.go, lines 44-49: EdgePlanRequest *)
Record EdgePlanRequest := {
  TargetProvider : string;
  TargetRuntime : string;
  Intent : EdgeIntent;
  Configuration : gmap string json;
}.
End EdgePlanRequest.
Notation EdgePlanRequest := EdgePlanRequest.EdgePlanRequest.

Module EdgePlan.
(* sdk/integrations.go, lines 51-58: EdgePlan *)
Record EdgePlan (O : Type) := {
  AdapterID : string;
  TargetProvider : string;
  TargetRuntime : string;
  OwnershipMarker : string;
  Outputs : list AdapterOutput;
  Opaque : O;
}.
Arguments AdapterID {O} _.
Arguments TargetProvider {O} _.
Arguments TargetRuntime {O} _.
Arguments OwnershipMarker {O} _.
Arguments Outputs {O} _.
Arguments Opaque {O} _.
End EdgePlan.
Notation EdgePlan := EdgePlan.EdgePlan.

Module EdgeRequest.
(* sdk/integrations.go, lines 60-67: EdgeExecutionRequest *)
Record EdgeExecutionRequest (O : Type) := {
  Plan : EdgePlan O;
  Action : string;
  IdempotencyKey : string;
  OwnershipMarker : string;
  ApprovalReference : string;
  ResourceReferences : list string;
}.
Arguments Plan {O} _.
Arguments Action {O} _.
Arguments IdempotencyKey {O} _.
Arguments OwnershipMarker {O} _.
Arguments ApprovalReference {O} _.
Arguments ResourceReferences {O} _.
End EdgeRequest.
Notation EdgeExecutionRequest := EdgeRequest.EdgeExecutionRequest.

Module EdgeResult.
(* sdk/integrations.go, lines 69-78: EdgeExecutionResult *)
Record EdgeExecutionResult := {
  Action : string;
  OperationID : string;
  ResourceRefs : list string;
  ProofRefs : list string;
  Outputs : list AdapterOutput;
  OwnershipMarker : string;
  OwnershipVerified : bool;
  IdempotencyVerified : bool;
}.

Definition zero : EdgeExecutionResult :=
  {| Action := ""; OperationID := ""; ResourceRefs := []; ProofRefs := []; Outputs := []; OwnershipMarker := "";
     OwnershipVerified := false; IdempotencyVerified := false |}.
End EdgeResult.
Notation EdgeExecutionResult := EdgeResult.EdgeExecutionResult.

(** ** Validators *)

(* sdk/integrations.go, lines 193-200: validEdgeAction *)
Definition validEdgeAction (action : string) : bool := bool_decide (action ∈ edge_actions).

(* sdk/integrations.go, lines 574-586: validateOpaqueReferences *)
Definition validateOpaqueReferences (name : string) (values : list string) : gerror :=
  first_of (with_seen (λ seen value,
    [fail_if (bad_reference value) (errorf "%s must be non-empty and single-line" [GStr name]);
     fail_if (bool_decide (value ∈ seen)) (errorf "duplicate %s %q" [GStr name; GStr value])]) [] values).

Section descriptor.
Import EdgeAdapterDescriptor.

(* sdk/integrations.go, lines 119-143: ValidateEdgeAdapterDescriptor *)
Definition ValidateEdgeAdapterDescriptor (d : EdgeAdapterDescriptor) : gerror :=
  errors_Join (
    [fail_if (negb (bool_decide (APIVersion d = "v1")))
       (errorf "edge adapter API version %q is not supported" [GStr (APIVersion d)]);
     validateID "edge adapter ID" (ID d);
     validateID "edge adapter provider ID" (Provider d);
     validateExtensionVersion (Version d);
     fail_if (bool_decide (Capabilities d = [])) (ErrNew "edge adapter must declare at least one capability")]
    ++ known_values validEdgeAction "invalid edge adapter capability %q" "duplicate edge adapter capability %q" (Capabilities d)).
End descriptor.

Section validators.
Context (url_Parse : string → result url).

(* sdk/integrations.go, lines 145-153: ValidateEdgePlanRequest *)
Definition ValidateEdgePlanRequest (request : EdgePlanRequest) : gerror :=
  errors_Join
    [validateID "edge target provider" (EdgePlanRequest.TargetProvider request);
     validateID "edge target runtime" (EdgePlanRequest.TargetRuntime request);
     ValidateEdgeIntent url_Parse (EdgePlanRequest.Intent request)].

Context {O : Type}.

(* sdk/integrations.go, lines 155-172: ValidateEdgePlan *)
Definition ValidateEdgePlan (plan : EdgePlan O) (request : EdgePlanRequest) : gerror :=
  errors_Join (
    [fail_if (blank (EdgePlan.AdapterID plan)) (ErrNew "edge plan adapter ID is required");
     fail_if (negb (bool_decide (EdgePlan.TargetProvider plan = EdgePlanRequest.TargetProvider request))
              || negb (bool_decide (EdgePlan.TargetRuntime plan = EdgePlanRequest.TargetRuntime request)))
       (ErrNew "edge plan target does not match the plan request");
     fail_if (blank (EdgePlan.OwnershipMarker plan)
              && negb (bool_decide (EdgeIntent.Mode (EdgePlanRequest.Intent request) = "none")))
       (ErrNew "edge plan ownership marker is required for an active edge")]
    ++ ((λ output, fail_if (blank (Output.Key output) || multiline (Output.Key output +:+ Output.Value output))
           (ErrNew "edge plan outputs must be non-empty and single-line")) <$> EdgePlan.Outputs plan)).

Section execution.
Import EdgeRequest.

(* sdk/integrations.go, lines 174-191: ValidateEdgeExecutionRequest *)
Definition ValidateEdgeExecutionRequest (request : EdgeExecutionRequest O) : gerror :=
  fail_if (negb (validEdgeAction (Action request))) (errorf "invalid edge execution action %q" [GStr (Action request)])
  ;;? fail_if (bad_reference (IdempotencyKey request))
        (ErrNew "edge execution idempotency key is required and must be single-line")
  ;;? fail_if (negb (bool_decide (OwnershipMarker request = EdgePlan.OwnershipMarker (Plan request))))
        (ErrNew "edge execution ownership marker does not match the plan")
  ;;? fail_if (multiline (ApprovalReference request)) (ErrNew "edge execution approval reference must be single-line")
  ;;? validateOpaqueReferences "edge execution resource reference" (ResourceReferences request).
End execution.

(* sdk/integration_lifecycle.go, lines 85-99: containsEdgeProof *)
Definition containsEdgeProof (proofRefs : list string) (semantic : string) : bool :=
  let semantic := ToLower (TrimSpace semantic) in
  existsb (λ reference,
    let reference := ToLower (TrimSpace reference) in
    bool_decide (reference = semantic)
    || existsb (λ separator, HasSuffix reference (separator +:+ semantic)) ["."; ":"; "/"]) proofRefs.

(** The actions that carry traffic. *)
(* sdk/integration_lifecycle.go, lines 73-81: ValidateEdgeSafetyProofs *)
Definition traffic_actions : list string := [EdgeApply; EdgeVerify; EdgeFailover; EdgeRollback].

(* sdk/integration_lifecycle.go, lines 68-83: ValidateEdgeSafetyProofs *)
Definition ValidateEdgeSafetyProofs (action : string) (proofRefs : list string) : gerror :=
  validateOpaqueReferences "edge safety proof reference" proofRefs
  ;;? (if bool_decide (action ∈ traffic_actions) then
         fail_if (negb (containsEdgeProof proofRefs EdgeProofOriginHealth))
           (errorf "edge %q result must include an %q proof" [GStr action; GStr EdgeProofOriginHealth])
       else if bool_decide (action ∈ [EdgeDestroy; EdgePurge]) then None
       else Some (errorf "invalid edge action %q" [GStr action])).

(* sdk/integration_lifecycle.go, lines 47-61: ValidateEdgeExecutionResult *)
Definition ValidateEdgeExecutionResult (request : EdgeExecutionRequest O) (r : EdgeExecutionResult) : gerror :=
  fail_if (negb (bool_decide (EdgeResult.Action r = EdgeRequest.Action request)))
    (errorf "edge execution result action %q does not match request %q"
       [GStr (EdgeResult.Action r); GStr (EdgeRequest.Action request)])
  ;;? fail_if (negb (bool_decide (EdgeResult.OwnershipMarker r = EdgeRequest.OwnershipMarker request)))
        (ErrNew "edge execution result ownership marker does not match the request")
  ;;? fail_if (negb (EdgeResult.OwnershipVerified r) || negb (EdgeResult.IdempotencyVerified r))
        (ErrNew "edge execution result must verify ownership and idempotency")
  ;;? validateOpaqueReferences "edge execution result resource reference" (EdgeResult.ResourceRefs r ++ EdgeResult.ProofRefs r)
  ;;? ValidateEdgeSafetyProofs (EdgeRequest.Action request) (EdgeResult.ProofRefs r).
End validators.

(** ** The plan and execute gate *)

(* sdk/integrations.go, lines 113-117: EdgeAdapter *)
Record EdgeAdapter (O W : Type) := {
  EdgeDescriptor : EdgeAdapterDescriptor;
  PlanEdge : EdgePlanRequest → W → result (EdgePlan O) * W;
  ExecuteEdge : EdgeExecutionRequest O → W → result EdgeExecutionResult * W;
}.
Arguments EdgeDescriptor {O W} _.
Arguments PlanEdge {O W} _.
Arguments ExecuteEdge {O W} _.

(** The calls on an adapter, with their answers. *)
(* sdk/integrations.go, lines 113-117: EdgeAdapter *)
Inductive adapter_call (O : Type) :=
  | EvPlanEdge (request : EdgePlanRequest) (answer : result (EdgePlan O))
  | EvExecuteEdge (request : EdgeExecutionRequest O) (answer : result EdgeExecutionResult).
Arguments EvPlanEdge {O} _ _.
Arguments EvExecuteEdge {O} _ _.

Section lifecycle.
Context {O W : Type} (url_Parse : string → result url) (adapter : EdgeAdapter O W).
Context (action idempotencyKey : string) (resourceReferences : list string) (approvalReference : string).

(** No plan on an error before the execution, no result on any error. *)
Abbreviation answer := (option (EdgePlan O) * result EdgeExecutionResult)%type.

(* sdk/integration_lifecycle.go, lines 33-33: RunEdgeLifecycle *)
Definition edge_execution (plan : EdgePlan O) : EdgeExecutionRequest O :=
  {| EdgeRequest.Plan := plan; EdgeRequest.Action := action; EdgeRequest.IdempotencyKey := idempotencyKey;
     EdgeRequest.OwnershipMarker := EdgePlan.OwnershipMarker plan; EdgeRequest.ApprovalReference := approvalReference;
     EdgeRequest.ResourceReferences := resourceReferences |}.

(* sdk/integration_lifecycle.go, lines 13-45: RunEdgeLifecycle *)
Definition RunEdgeLifecycle (request : EdgePlanRequest) : eff (adapter_call O) W answer :=
  match err_wrap (wrapf "validate edge adapter descriptor: %w" []) (ValidateEdgeAdapterDescriptor (EdgeDescriptor adapter))
        ;;? ValidateEdgePlanRequest url_Parse request with
  | Some err => mret (None, Err err)
  | None =>
      planned ← call (EvPlanEdge request) (PlanEdge adapter request);
      match planned with
      | Err err => mret (None, Err (wrapf "plan edge lifecycle: %w" [] err))
      | Ok plan =>
          let executionRequest := edge_execution plan in
          match err_wrap (wrapf "validate edge plan: %w" []) (ValidateEdgePlan plan request)
                ;;? ValidateEdgeExecutionRequest executionRequest with
          | Some err => mret (None, Err err)
          | None =>
              executed ← call (EvExecuteEdge executionRequest) (ExecuteEdge adapter executionRequest);
              mret (Some plan,
                match executed with
                | Err err => Err (wrapf "execute edge lifecycle %q: %w" [GStr action] err)
                | Ok r => ValidateEdgeExecutionResult executionRequest r ;;! Ok r
                end)
          end
      end
  end.
End lifecycle.

(** ** Bounded attempts

    The loop of the waits below: the context is asked before each attempt, the
    last attempt gives up, and the timer runs between two attempts. *)

Section attempts.
Context {E W S A : Type} (max : Z) (ctx pause : eff E W gerror).
Context (stopped : error → A) (gave_up : Z → S → A) (exhausted : S → A).
Context (try : Z → S → eff E W (A + S)).

(* sdk/edge_lifecycle.go, lines 252-290: WaitForEdgeCleanup *)
Fixpoint attempts (remaining : nat) (attempt : Z) (s : S) : eff E W A :=
  match remaining with
  | O => mret (exhausted s)
  | Datatypes.S remaining =>
      err ← ctx;
      match err with
      | Some err => mret (stopped err)
      | None =>
          tried ← try attempt s;
          match tried with
          | inl answer => mret answer
          | inr s =>
              if attempt =? max then mret (gave_up attempt s)
              else
                waited ← pause;
                match waited with
                | Some err => mret (stopped err)
                | None => attempts remaining (attempt + 1) s
                end
          end
      end
  end.
End attempts.

(** ** Operations of a provider *)

(* sdk/edge_lifecycle.go, lines 17-17: EdgeOperationStatus *)
Definition EdgeOperationPending := "pending".
(* sdk/edge_lifecycle.go, lines 18-18: EdgeOperationRunning *)
Definition EdgeOperationRunning := "running".
(* sdk/edge_lifecycle.go, lines 19-19: EdgeOperationSucceeded *)
Definition EdgeOperationSucceeded := "succeeded".
(* sdk/edge_lifecycle.go, lines 20-20: EdgeOperationFailed *)
Definition EdgeOperationFailed := "failed".

Module EdgeOperation.
(* sdk/edge_lifecycle.go, lines 26-30: EdgeOperationRequest *)
Record EdgeOperationRequest (O : Type) := {
  Provider : string;
  Action : string;
  Request : EdgeExecutionRequest O;
}.
Arguments Provider {O} _.
Arguments Action {O} _.
Arguments Request {O} _.
End EdgeOperation.
Notation EdgeOperationRequest := EdgeOperation.EdgeOperationRequest.

Module EdgeObservation.
(* sdk/edge_lifecycle.go, lines 35-46: EdgeOperationObservation *)
Record EdgeOperationObservation := {
  Status : string;
  Action : string;
  OperationID : string;
  ResourceRefs : list string;
  ProofRefs : list string;
  Outputs : list AdapterOutput;
  OwnershipMarker : string;
  OwnershipVerified : bool;
  IdempotencyVerified : bool;
  Detail : string;
}.

Definition zero : EdgeOperationObservation :=
  {| Status := ""; Action := ""; OperationID := ""; ResourceRefs := []; ProofRefs := []; Outputs := [];
     OwnershipMarker := ""; OwnershipVerified := false; IdempotencyVerified := false; Detail := "" |}.

Definition with_detail (detail : string) (o : EdgeOperationObservation) : EdgeOperationObservation :=
  {| Status := Status o; Action := Action o; OperationID := OperationID o; ResourceRefs := ResourceRefs o;
     ProofRefs := ProofRefs o; Outputs := Outputs o; OwnershipMarker := OwnershipMarker o;
     OwnershipVerified := OwnershipVerified o; IdempotencyVerified := IdempotencyVerified o; Detail := detail |}.

(** A failure without a text gets one. *)
(* sdk/edge_lifecycle.go, lines 327-329: WaitForEdgeOperation *)
Definition failure (o : EdgeOperationObservation) : EdgeOperationObservation :=
  if blank (Detail o) then with_detail "provider reported edge operation failure" o else o.
End EdgeObservation.
Notation EdgeOperationObservation := EdgeObservation.EdgeOperationObservation.

Module EdgeInventory.
(* sdk/edge_lifecycle.go, lines 51-56: EdgeInventoryResource *)
Record EdgeInventoryResource := {
  Identity : string;
  OwnershipMarker : string;
  Owned : bool;
  Live : bool;
}.

(** Something of ours still runs. *)
(* sdk/edge_lifecycle.go, lines 265-269: WaitForEdgeCleanup *)
Definition ownedLive (resources : list EdgeInventoryResource) : bool :=
  existsb (λ r, Owned r && Live r) resources.
End EdgeInventory.
Notation EdgeInventoryResource := EdgeInventory.EdgeInventoryResource.

(* sdk/edge_lifecycle.go, lines 62-67: EdgeOperationAPI *)
Record EdgeOperationAPI (O W : Type) := {
  api_Plan : EdgePlanRequest → W → result (EdgePlan O) * W;
  api_Start : EdgeOperationRequest O → W → result EdgeOperationObservation * W;
  api_Poll : string → W → result EdgeOperationObservation * W;
  api_Inventory : string → W → result (list EdgeInventoryResource) * W;
}.
Arguments api_Plan {O W} _.
Arguments api_Start {O W} _.
Arguments api_Poll {O W} _.
Arguments api_Inventory {O W} _.

Module EdgePolicy.
(* sdk/edge_lifecycle.go, lines 71-75: EdgeOperationPolicy *)
Record EdgeOperationPolicy := {
  Timeout : Z;
  PollInterval : Z;
  MaxAttempts : Z;
}.
End EdgePolicy.
Notation EdgeOperationPolicy := EdgePolicy.EdgeOperationPolicy.

(* sdk/edge_lifecycle.go, lines 357-362: validateEdgeOperationPolicy *)
Definition validateEdgeOperationPolicy (policy : EdgeOperationPolicy) : gerror :=
  fail_if ((EdgePolicy.Timeout policy <=? 0) || (EdgePolicy.PollInterval policy <=? 0) || (EdgePolicy.MaxAttempts policy <=? 0))
    (ErrNew "edge operation policy requires positive timeout, poll interval, and max attempts").

(* sdk/edge_lifecycle.go, lines 371-378: containsEdgeAction *)
Definition containsEdgeAction (actions : list string) (candidate : string) : bool := bool_decide (candidate ∈ actions).

(* sdk/edge_lifecycle.go, lines 380-398: validateEdgeInventory *)
Definition validateEdgeInventory (resources : list EdgeInventoryResource) (marker : string) : gerror :=
  first_of (with_seen (λ seen r,
    let identity := EdgeInventory.Identity r in
    [fail_if (bad_reference identity) (ErrNew "edge inventory returned an invalid resource identity");
     fail_if (bool_decide (identity ∈ EdgeInventory.Identity <$> seen))
       (errorf "edge inventory returned duplicate resource %q" [GStr identity]);
     fail_if (EdgeInventory.Owned r && negb (bool_decide (EdgeInventory.OwnershipMarker r = marker)))
       (ErrNew "edge inventory returned an ownership mismatch");
     fail_if (bool_decide (EdgeInventory.OwnershipMarker r = marker) && negb (EdgeInventory.Owned r))
       (ErrNew "edge inventory contradicted ownership")]) [] resources).

Inductive api_event (O : Type) :=
  | EvContext (err : gerror)
  | EvTimer (err : gerror)
  | EvPlan (request : EdgePlanRequest) (answer : result (EdgePlan O))
  | EvStartEdge (request : EdgeOperationRequest O) (answer : result EdgeOperationObservation)
  | EvPollEdge (id : string) (answer : result EdgeOperationObservation)
  | EvInventory (marker : string) (answer : result (list EdgeInventoryResource)).
Arguments EvContext {O} _.
Arguments EvTimer {O} _.
Arguments EvPlan {O} _ _.
Arguments EvStartEdge {O} _ _.
Arguments EvPollEdge {O} _ _.
Arguments EvInventory {O} _ _.

Section operations.
Context {O W : Type} (env : waiter W) (api : EdgeOperationAPI O W).
Abbreviation M := (eff (api_event O) W).

Section waits.
Context (policy : EdgeOperationPolicy).

(** The context with its deadline, and one interval of the timer. *)
(* sdk/edge_lifecycle.go, lines 253-253: WaitForEdgeCleanup *)
Definition edge_context : M gerror := call EvContext (ctx_err env).
(* sdk/edge_lifecycle.go, lines 278-289: WaitForEdgeCleanup *)
Definition edge_pause : M gerror := call EvTimer (wait env (EdgePolicy.PollInterval policy)).

(** The error of a context that is done. *)
(* sdk/edge_lifecycle.go, lines 253-258: WaitForEdgeCleanup *)
Definition edge_stopped (what : string) (about : list garg) (err : error) : error :=
  if deadline err then errorf (what +:+ " timed out after %s") (about ++ [GInt (EdgePolicy.Timeout policy)]) else err.

Abbreviation loop stopped gave_up exhausted try s :=
  (attempts (EdgePolicy.MaxAttempts policy) edge_context edge_pause stopped gave_up exhausted try
     (Z.to_nat (EdgePolicy.MaxAttempts policy)) 1 s).

(** *** After a destroy: the inventory *)

Abbreviation inventory_answer := (list EdgeInventoryResource * gerror)%type.

(* sdk/edge_lifecycle.go, lines 259-277: WaitForEdgeCleanup *)
Definition try_cleanup (marker : string) (attempt : Z) (lastResources : list EdgeInventoryResource)
    : M (inventory_answer + list EdgeInventoryResource) :=
  listed ← call (EvInventory marker) (api_Inventory api marker);
  mret (match listed with
  | Err err =>
      if attempt =? EdgePolicy.MaxAttempts policy
      then inl ([], Some (Errorf "inventory edge cleanup for %q after %d attempts: %w" [GStr marker; GInt attempt] [err]))
      else inr lastResources
  | Ok resources =>
      match validateEdgeInventory resources marker with
      | Some err => inl ([], Some err)
      | None => if EdgeInventory.ownedLive resources then inr resources else inl (resources, None)
      end
  end).

(* sdk/edge_lifecycle.go, lines 236-292: WaitForEdgeCleanup *)
Definition WaitForEdgeCleanup (marker : string) : M inventory_answer :=
  match fail_if (bad_reference marker) (ErrNew "edge cleanup ownership marker is required and must be single-line")
        ;;? validateEdgeOperationPolicy policy with
  | Some err => mret ([], Some err)
  | None =>
      loop (λ err, ([], Some (edge_stopped "edge cleanup for %q" [GStr marker] err)))
        (λ attempt last, (last, Some (errorf "owned edge resources remain after %d cleanup attempts" [GInt attempt])))
        (λ last, (last, Some (errorf "edge cleanup for %q did not complete" [GStr marker])))
        (try_cleanup marker) []
  end.

(** *** After a start: the operation *)

Abbreviation operation_answer := (EdgeOperationObservation * gerror)%type.
Definition edge_refused (err : error) : operation_answer := (EdgeObservation.zero, Some err).

(* sdk/edge_lifecycle.go, lines 318-340: WaitForEdgeOperation *)
Definition try_operation (operationID : string) (attempt : Z) (_ : unit) : M (operation_answer + unit) :=
  let id := GStr operationID in
  polled ← call (EvPollEdge operationID) (api_Poll api operationID);
  mret (match polled with
  | Err err =>
      if attempt =? EdgePolicy.MaxAttempts policy
      then inl (edge_refused (Errorf "poll edge operation %q after %d attempts: %w" [id; GInt attempt] [err]))
      else inr tt
  | Ok o =>
      let status := EdgeObservation.Status o in
      if negb (bool_decide (EdgeObservation.OperationID o = operationID)) then
        inl (edge_refused (errorf "edge operation poll returned identity %q, want %q" [GStr (EdgeObservation.OperationID o); id]))
      else if bool_decide (status = EdgeOperationSucceeded) then inl (o, None)
      else if bool_decide (status = EdgeOperationFailed) then
        let o := EdgeObservation.failure o in
        inl (o, Some (errorf "edge operation %q failed: %s" [id; GStr (EdgeObservation.Detail o)]))
      else if bool_decide (status ∈ [EdgeOperationPending; EdgeOperationRunning]) then inr tt
      else inl (edge_refused (errorf "edge operation %q returned unknown status %q" [id; GStr status]))
  end).

(* sdk/edge_lifecycle.go, lines 296-355: WaitForEdgeOperation *)
Definition WaitForEdgeOperation (operationID : string) : M operation_answer :=
  match fail_if (bad_reference operationID) (ErrNew "edge operation ID is required and must be single-line")
        ;;? validateEdgeOperationPolicy policy with
  | Some err => mret (edge_refused err)
  | None =>
      loop (λ err, edge_refused (edge_stopped "edge operation %q" [GStr operationID] err))
        (λ attempt _, edge_refused (errorf "edge operation %q did not complete after %d attempts" [GStr operationID; GInt attempt]))
        (λ _, edge_refused (errorf "edge operation %q did not complete" [GStr operationID]))
        (try_operation operationID) tt
  end.
End waits.

(** ** The adapter of an operation API *)

(* sdk/edge_lifecycle.go, lines 87-91: OperationBackedEdgeAdapter *)
Record OperationBackedEdgeAdapter := {
  backed_descriptor : EdgeAdapterDescriptor;
  backed_policy : EdgeOperationPolicy;
}.

(** The API is the one of the section. *)
(* sdk/edge_lifecycle.go, lines 97-108: NewOperationBackedEdgeAdapter *)
Definition NewOperationBackedEdgeAdapter (descriptor : EdgeAdapterDescriptor) (policy : EdgeOperationPolicy)
    : result OperationBackedEdgeAdapter :=
  err_wrap (wrapf "validate operation-backed edge adapter: %w" []) (ValidateEdgeAdapterDescriptor descriptor) ;;!
  validateEdgeOperationPolicy policy ;;!
  Ok {| backed_descriptor := descriptor; backed_policy := policy |}.

Context (url_Parse : string → result url) (a : OperationBackedEdgeAdapter).
Abbreviation id := (EdgeAdapterDescriptor.ID (backed_descriptor a)).

(* sdk/edge_lifecycle.go, lines 117-141: OperationBackedEdgeAdapter.PlanEdge *)
Definition backed_PlanEdge (request : EdgePlanRequest) : M (result (EdgePlan O)) :=
  err ← edge_context;
  match err ;;? ValidateEdgePlanRequest url_Parse request with
  | Some err => mret (Err err)
  | None =>
      planned ← call (EvPlan request) (api_Plan api request);
      mret (match planned with
      | Err err => Err (wrapf "plan provider edge: %w" [] err)
      | Ok plan =>
          fail_if (negb (bool_decide (EdgePlan.AdapterID plan = id)))
            (errorf "provider edge plan adapter ID %q does not match %q" [GStr (EdgePlan.AdapterID plan); GStr id]) ;;!
          err_wrap (wrapf "validate provider edge plan: %w" []) (ValidateEdgePlan plan request) ;;!
          Ok plan
      end)
  end.

(** The last observation, checked and turned into a result. *)
(* sdk/edge_lifecycle.go, lines 169-199: OperationBackedEdgeAdapter.ExecuteEdge *)
Definition conclude_edge (request : EdgeExecutionRequest O) (o : EdgeOperationObservation) : result EdgeExecutionResult :=
  let action := EdgeRequest.Action request in
  let status := EdgeObservation.Status o in
  fail_if (negb (bool_decide (status = EdgeOperationSucceeded)))
    (errorf "edge operation returned non-success status %q: %s"
       [GStr status; GStr (EdgeObservation.Detail
          (if bool_decide (status = EdgeOperationFailed) then EdgeObservation.failure o else o))]) ;;!
  fail_if (negb (bool_decide (EdgeObservation.Action o = "")) && negb (bool_decide (EdgeObservation.Action o = action)))
    (errorf "edge operation returned action %q, want %q" [GStr (EdgeObservation.Action o); GStr action]) ;;!
  fail_if (negb (bool_decide (EdgeObservation.OwnershipMarker o = EdgeRequest.OwnershipMarker request))
           || negb (EdgeObservation.OwnershipVerified o))
    (ErrNew "edge operation did not verify ownership scope") ;;!
  fail_if (negb (EdgeObservation.IdempotencyVerified o)) (ErrNew "edge operation did not verify idempotency") ;;!
  fail_if (blank (EdgeObservation.OperationID o) && bool_decide (EdgeObservation.ResourceRefs o = [])
           && bool_decide (EdgeObservation.ProofRefs o = []))
    (ErrNew "successful edge operation returned no operation, resource, or proof identity") ;;!
  let r := {| EdgeResult.Action := action; EdgeResult.OperationID := EdgeObservation.OperationID o;
              EdgeResult.ResourceRefs := EdgeObservation.ResourceRefs o; EdgeResult.ProofRefs := EdgeObservation.ProofRefs o;
              EdgeResult.Outputs := EdgeObservation.Outputs o;
              EdgeResult.OwnershipMarker := EdgeObservation.OwnershipMarker o;
              EdgeResult.OwnershipVerified := EdgeObservation.OwnershipVerified o;
              EdgeResult.IdempotencyVerified := EdgeObservation.IdempotencyVerified o |} in
  err_wrap (wrapf "validate edge operation result: %w" []) (ValidateEdgeExecutionResult request r) ;;!
  Ok r.

(** A pending operation is waited for. *)
(* sdk/edge_lifecycle.go, lines 160-168: OperationBackedEdgeAdapter.ExecuteEdge *)
Definition settle_edge (o : EdgeOperationObservation) : M (result EdgeOperationObservation) :=
  if bool_decide (EdgeObservation.Status o ∈ [EdgeOperationPending; EdgeOperationRunning]) then
    if blank (EdgeObservation.OperationID o) then mret (Err (ErrNew "pending edge operation returned no operation identity"))
    else
      waited ← WaitForEdgeOperation (backed_policy a) (EdgeObservation.OperationID o);
      mret (match waited.2 with Some err => Err err | None => Ok waited.1 end)
  else mret (Ok o).

(* sdk/edge_lifecycle.go, lines 143-206: OperationBackedEdgeAdapter.ExecuteEdge *)
Definition backed_ExecuteEdge (request : EdgeExecutionRequest O) : M (result EdgeExecutionResult) :=
  let action := EdgeRequest.Action request in
  let operationRequest := {| EdgeOperation.Provider := EdgeAdapterDescriptor.Provider (backed_descriptor a);
                             EdgeOperation.Action := action; EdgeOperation.Request := request |} in
  match ValidateEdgeExecutionRequest request
        ;;? fail_if (negb (containsEdgeAction (EdgeAdapterDescriptor.Capabilities (backed_descriptor a)) action))
              (ErrTyped "EdgeCapabilityError" [GStr id; GStr action; GStr "unsupported";
                 GStr "the adapter descriptor does not declare this lifecycle action"]) with
  | Some err => mret (Err err)
  | None =>
      started ← call (EvStartEdge operationRequest) (api_Start api operationRequest);
      match started with
      | Err err => mret (Err (wrapf "start edge operation %q: %w" [GStr action] err))
      | Ok observation =>
          settled ← settle_edge observation;
          match settled ≫= conclude_edge request with
          | Err err => mret (Err err)
          | Ok r =>
              if bool_decide (action = EdgeDestroy) then
                cleaned ← WaitForEdgeCleanup (backed_policy a) (EdgeRequest.OwnershipMarker request);
                mret (match cleaned.2 with Some err => Err err | None => Ok r end)
              else mret (Ok r)
          end
      end
  end.

(* sdk/edge_lifecycle.go, lines 210-231: OperationBackedEdgeAdapter.Inventory *)
Definition backed_Inventory (marker : string) : M (result (list EdgeInventoryResource)) :=
  if bad_reference marker then mret (Err (ErrNew "edge inventory ownership marker is required and must be single-line"))
  else
    err ← edge_context;
    match err with
    | Some err => mret (Err err)
    | None =>
        listed ← call (EvInventory marker) (api_Inventory api marker);
        mret (match listed with
        | Err err => Err (wrapf "inventory provider edge resources: %w" [] err)
        | Ok resources => validateEdgeInventory resources marker ;;! Ok resources
        end)
    end.

(** The adapter as its callers see it. *)
Definition backed_adapter : EdgeAdapter O W :=
  {| EdgeDescriptor := backed_descriptor a;
     PlanEdge := λ request w, (outcome (backed_PlanEdge request) w, final (backed_PlanEdge request) w);
     ExecuteEdge := λ request w, (outcome (backed_ExecuteEdge request) w, final (backed_ExecuteEdge request) w) |}.
End operations.

(** ** Lists of references *)

(** A pass that checks each value and refuses repetitions. *)
Lemma unique_checks_None {A} `{!EqDecision A} (check : A → gerror) (duplicate : A → error) (l : list A) :
  first_of (with_seen (λ seen x, [check x; fail_if (bool_decide (x ∈ seen)) (duplicate x)]) [] l) = None
  ↔ Forall (λ x, check x = None) l ∧ NoDup l.
Proof.
  unfold first_of. rewrite (first_error_None (λ e : gerror, e)), with_seen_None, <-(seen_NoDup_id l), Forall_forall. split.
  - intros H. split.
    + intros x (l1&l2&->)%list_elem_of_split. specialize (H l1 x l2 eq_refl). by apply Forall_cons in H as [? _].
    + intros l1 x l2 Heq. specialize (H l1 x l2 Heq). apply Forall_cons in H as [_ H]. apply Forall_cons in H as [H _].
      by apply fail_if_None, bool_decide_eq_false in H.
  - intros [Hc Hs] l1 x l2 Heq. constructor; [|constructor; [|constructor]].
    + apply Hc. rewrite Heq. set_solver.
    + apply fail_if_None, bool_decide_eq_false, (Hs l1 x l2 Heq).
Qed.

Lemma validateOpaqueReferences_None name values :
  validateOpaqueReferences name values = None ↔ Forall (λ v, bad_reference v = false) values ∧ NoDup values.
Proof.
  unfold validateOpaqueReferences. rewrite (unique_checks_None (λ value, fail_if (bad_reference value) _) (λ value, errorf _ _)).
  split; (intros [Hb Hn]; split; [|exact Hn]); (eapply Forall_impl; [exact Hb|]); intros v; apply fail_if_None.
Qed.
