(* ===== verification/EdgeComposite.v ===== *)
(** * Composite edge adapters (internal/external/edge/composite.go)

    One portable edge intent fanned out to the adapters of its native and its
    external destination: the split of the intent, the routing of references
    and the joined result. *)

From S2P Require Import Prelude GoStrings GoEncoding Sdk Admission Architecture Resilience Lifecycle Base64 References Edge.

Local Open Scope list_scope.

(** ** Data *)

Module CompositePlan.
(* internal/external/edge/composite.go, lines 30-37: compositePlan *)
Record compositePlan (O : Type) := {
  children : gmap string (EdgePlan O);
  adapterID : string;
  targetProvider : string;
  targetRuntime : string;
  ownershipMarker : string;
  childRoutingDigest : string;
}.
Arguments children {O} _.
Arguments adapterID {O} _.
Arguments targetProvider {O} _.
Arguments targetRuntime {O} _.
Arguments ownershipMarker {O} _.
Arguments childRoutingDigest {O} _.
End CompositePlan.
Notation compositePlan := CompositePlan.compositePlan.

(** The [any] of a plan: nothing, a value of some adapter, or the plans of the
    children of a composite. *)
(* internal/external/edge/composite.go, lines 30-37: compositePlan *)
Inductive any :=
  | AnyNil
  | AnyValue (value : json)
  | AnyComposite (plan : compositePlan any).

(* internal/external/edge/composite.go, lines 25-28: CompositeAdapter *)
Record CompositeAdapter (W : Type) := {
  provider : string;
  clients : gmap string (EdgeAdapter any W);
}.
Arguments provider {W} _.
Arguments clients {W} _.

(** The calls on the context and on the children. *)
Inductive composite_event :=
  | EvCompositeContext (err : gerror)
  | EvChildPlan (destination : string) (request : EdgePlanRequest) (answer : result (EdgePlan any))
  | EvChildExecute (destination : string) (request : EdgeExecutionRequest any) (answer : result EdgeExecutionResult).

(** ** Construction *)

(** The keys of a map, sorted. *)
(* internal/external/edge/composite.go, lines 322-329: CompositeAdapter.destinations *)
Definition sorted_keys {A} (m : gmap string A) : list string := sort_strings (map_to_list m).*1.

Section construction.
Context {W : Type}.

(** One destination of the map handed in; the order of the map is left open. *)
(* internal/external/edge/composite.go, lines 50-70: NewCompositeAdapter *)
Definition add_client (copyClients : gmap string (EdgeAdapter any W)) (entry : string * option (EdgeAdapter any W))
    : result (gmap string (EdgeAdapter any W)) :=
  let destination := TrimSpace entry.1 in
  let about := [GStr destination] in
  fail_if (bool_decide (destination = "")) (ErrNew "composite edge destination is required") ;;!
  match entry.2 with
  | None => Err (errorf "composite edge adapter for %q is required" about)
  | Some client =>
      err_wrap (wrapf "validate composite edge child %q: %w" about) (ValidateEdgeAdapterDescriptor (EdgeDescriptor client)) ;;!
      first_error (λ required,
        fail_if (negb (bool_decide (required ∈ EdgeAdapterDescriptor.Capabilities (EdgeDescriptor client))))
          (errorf "composite edge child %q does not support %q" [GStr destination; GStr required]))
        [EdgeApply; EdgeVerify; EdgeDestroy] ;;!
      match copyClients !! destination with
      | Some _ => Err (errorf "composite edge destination %q is duplicated" about)
      | None => Ok (<[destination := client]> copyClients)
      end
  end.

(* internal/external/edge/composite.go, lines 50-70: NewCompositeAdapter *)
Fixpoint add_clients (copyClients : gmap string (EdgeAdapter any W)) (entries : list (string * option (EdgeAdapter any W)))
    : result (gmap string (EdgeAdapter any W)) :=
  match entries with
  | [] => Ok copyClients
  | entry :: entries => copyClients ← add_client copyClients entry; add_clients copyClients entries
  end.

(* internal/external/edge/composite.go, lines 42-72: NewCompositeAdapter *)
Definition NewCompositeAdapter (provider : string) (clients : gmap string (option (EdgeAdapter any W)))
    : result (CompositeAdapter W) :=
  fail_if (blank provider) (ErrNew "composite edge provider is required") ;;!
  fail_if (bool_decide (clients = ∅)) (ErrNew "composite edge requires at least one destination adapter") ;;!
  (copyClients ← add_clients ∅ (map_to_list clients);
   Ok {| provider := provider; clients := copyClients |}).
End construction.

(* internal/external/edge/composite.go, lines 77-88: ValidateAdapterProvider *)
Definition ValidateAdapterProvider {O W} (adapter : option (EdgeAdapter O W)) (expected : string) : gerror :=
  match adapter with
  | None => Some (ErrNew "edge SDK adapter is required")
  | Some adapter =>
      let actual := EdgeAdapterDescriptor.Provider (EdgeDescriptor adapter) in
      err_wrap (wrapf "validate edge SDK adapter: %w" []) (ValidateEdgeAdapterDescriptor (EdgeDescriptor adapter))
      ;;? fail_if (negb (bool_decide (expected = "")) && negb (bool_decide (actual = expected)))
            (errorf "edge SDK adapter provider %q does not match %q" [GStr actual; GStr expected])
  end.

(** ** Splitting an intent *)

Section split.
Import EdgeIntent.

(* internal/external/edge/composite.go, lines 307-312: childPlanRequest *)
Definition native_intent (i : EdgeIntent) : EdgeIntent :=
  {| ExternalProvider := ""; Lifecycle := ""; Certification := ""; Mode := "native"; NativeProvider := NativeProvider i;
     CredentialRefs := []; ServiceReference := ServiceReference i; Domains := Domains i; TLS := TLS i; TLSMode := TLSMode i;
     DNSMode := DNSMode i; PurgeOnDeploy := PurgeOnDeploy i; PolicyReference := PolicyReference i;
     OriginHealthRef := OriginHealthRef i; CachePolicyRef := CachePolicyRef i; PurgePolicyRef := PurgePolicyRef i;
     WAFPolicyRef := WAFPolicyRef i; FailoverPolicyRef := FailoverPolicyRef i; OwnershipMarker := OwnershipMarker i;
     Health := Health i |}.

(* internal/external/edge/composite.go, lines 314-316: childPlanRequest *)
Definition external_intent (i : EdgeIntent) : EdgeIntent :=
  {| ExternalProvider := ExternalProvider i; Lifecycle := Lifecycle i; Certification := Certification i; Mode := "external";
     NativeProvider := ""; CredentialRefs := CredentialRefs i; ServiceReference := ServiceReference i; Domains := Domains i;
     TLS := TLS i; TLSMode := TLSMode i; DNSMode := DNSMode i; PurgeOnDeploy := PurgeOnDeploy i;
     PolicyReference := PolicyReference i; OriginHealthRef := OriginHealthRef i; CachePolicyRef := CachePolicyRef i;
     PurgePolicyRef := PurgePolicyRef i; WAFPolicyRef := WAFPolicyRef i; FailoverPolicyRef := FailoverPolicyRef i;
     OwnershipMarker := OwnershipMarker i; Health := Health i |}.

(* internal/external/edge/composite.go, lines 312-312: childPlanRequest *)
Definition with_intent (request : EdgePlanRequest) (intent : EdgeIntent) : EdgePlanRequest :=
  {| EdgePlanRequest.TargetProvider := EdgePlanRequest.TargetProvider request;
     EdgePlanRequest.TargetRuntime := EdgePlanRequest.TargetRuntime request; EdgePlanRequest.Intent := intent;
     EdgePlanRequest.Configuration := EdgePlanRequest.Configuration request |}.

(* internal/external/edge/composite.go, lines 303-320: childPlanRequest *)
Definition childPlanRequest (request : EdgePlanRequest) (destination : string) : option EdgePlanRequest :=
  let i := EdgePlanRequest.Intent request in
  let mode := Mode i in
  if bool_decide (destination = TrimSpace (NativeProvider i)) && bool_decide (mode ∈ ["native"; "both"])
  then Some (with_intent request (native_intent i))
  else if bool_decide (destination = TrimSpace (ExternalProvider i))
          && (bool_decide (mode ∈ ["external"; "both"]) || bool_decide (mode = "") && negb (blank (ExternalProvider i)))
  then Some (with_intent request (external_intent i))
  else None.
End split.

(* internal/external/edge/composite.go, lines 331-350: compositeChildRoutingDigest *)
Definition compositeChildRoutingDigest {O} (children : gmap string (EdgePlan O)) : string :=
  sha256_hex (strings_Join
    (sorted_keys children ≫= λ destination,
       match children !! destination with
       | Some child => [destination; EdgePlan.AdapterID child; EdgePlan.TargetProvider child; EdgePlan.TargetRuntime child;
                        EdgePlan.OwnershipMarker child]
       | None => []
       end) (of_bytes [Ascii.ascii_of_N 0])).

(* internal/external/edge/composite.go, lines 363-371: joinOperationID *)
Definition joinOperationID (current destination operation : string) : string :=
  if blank operation then current
  else if bool_decide (current = "") then destination +:+ ":" +:+ operation
  else current +:+ "," +:+ destination +:+ ":" +:+ operation.

(* internal/external/edge/composite.go, lines 373-382: prefixOutputs *)
Definition prefixOutputs (destination : string) (outputs : list AdapterOutput) : list AdapterOutput :=
  (λ o, {| Output.Key := destination +:+ "." +:+ Output.Key o; Output.Value := Output.Value o |}) <$> outputs.

(** Sixteen hexadecimal digits: the first eight bytes of the hash. *)
(* internal/external/edge/composite.go, lines 422-425: markerDigest *)
Definition markerDigest (marker : string) : string := of_bytes (take 16 (go_bytes (sha256_hex marker))).

(** ** Planning *)

Section composite.
Context {W : Type} (env : waiter W) (url_Parse : string → result url) (adapter : CompositeAdapter W).
Abbreviation M := (eff composite_event W).

(* internal/external/edge/composite.go, lines 92-103: CompositeAdapter.EdgeDescriptor *)
Definition composite_descriptor : EdgeAdapterDescriptor :=
  {| EdgeAdapterDescriptor.APIVersion := "v1"; EdgeAdapterDescriptor.ID := provider adapter +:+ ".edge.composite";
     EdgeAdapterDescriptor.Provider := provider adapter; EdgeAdapterDescriptor.Version := "1.0.0";
     EdgeAdapterDescriptor.Capabilities := [EdgeApply; EdgeVerify; EdgeDestroy] |}.

(* internal/external/edge/composite.go, lines 322-329: CompositeAdapter.destinations *)
Definition destinations : list string := sorted_keys (clients adapter).

(** The plan of a child must be for the target and the owner of the request. *)
(* internal/external/edge/composite.go, lines 135-143: CompositeAdapter.PlanEdge *)
Definition check_child_plan (request childRequest : EdgePlanRequest) (destination : string) (childPlan : EdgePlan any) : gerror :=
  let about := [GStr destination] in
  fail_if (negb (bool_decide (EdgePlan.TargetProvider childPlan = EdgePlanRequest.TargetProvider request))
           || negb (bool_decide (EdgePlan.TargetRuntime childPlan = EdgePlanRequest.TargetRuntime request)))
    (errorf "edge destination %q returned a mismatched target" about)
  ;;? err_wrap (wrapf "validate edge destination %q plan: %w" about) (ValidateEdgePlan childPlan childRequest)
  ;;? fail_if (negb (bool_decide (EdgePlan.OwnershipMarker childPlan
                                  = EdgeIntent.OwnershipMarker (EdgePlanRequest.Intent request))))
        (errorf "edge destination %q returned a mismatched ownership marker" about).

(* internal/external/edge/composite.go, lines 122-145: CompositeAdapter.PlanEdge *)
Fixpoint plan_children (request : EdgePlanRequest) (ds : list string) (children : gmap string (EdgePlan any))
    : M (result (gmap string (EdgePlan any))) :=
  match ds with
  | [] => mret (Ok children)
  | destination :: ds =>
      match childPlanRequest request destination with
      | None => plan_children request ds children
      | Some childRequest =>
          match clients adapter !! destination with
          | None => mret (Err (errorf "composite edge has no adapter for destination %q" [GStr destination]))
          | Some child =>
              planned ← call (EvChildPlan destination childRequest) (PlanEdge child childRequest);
              match planned with
              | Err err => mret (Err (wrapf "plan edge destination %q: %w" [GStr destination] err))
              | Ok childPlan =>
                  match check_child_plan request childRequest destination childPlan with
                  | Some err => mret (Err err)
                  | None => plan_children request ds (<[destination := childPlan]> children)
                  end
              end
          end
      end
  end.

(** What the plan remembers of the planning, for the execution to check. *)
(* internal/external/edge/composite.go, lines 162-169: CompositeAdapter.PlanEdge *)
Definition planned_children (request : EdgePlanRequest) (children : gmap string (EdgePlan any)) : compositePlan any :=
  {| CompositePlan.children := children; CompositePlan.adapterID := EdgeAdapterDescriptor.ID composite_descriptor;
     CompositePlan.targetProvider := EdgePlanRequest.TargetProvider request;
     CompositePlan.targetRuntime := EdgePlanRequest.TargetRuntime request;
     CompositePlan.ownershipMarker := EdgeIntent.OwnershipMarker (EdgePlanRequest.Intent request);
     CompositePlan.childRoutingDigest := compositeChildRoutingDigest children |}.

(* internal/external/edge/composite.go, lines 146-170: CompositeAdapter.PlanEdge *)
Definition composite_plan (request : EdgePlanRequest) (children : gmap string (EdgePlan any)) : EdgePlan any :=
  {| EdgePlan.AdapterID := EdgeAdapterDescriptor.ID composite_descriptor;
     EdgePlan.TargetProvider := EdgePlanRequest.TargetProvider request;
     EdgePlan.TargetRuntime := EdgePlanRequest.TargetRuntime request;
     EdgePlan.OwnershipMarker := EdgeIntent.OwnershipMarker (EdgePlanRequest.Intent request);
     EdgePlan.Outputs := destinations ≫= (λ destination,
       match children !! destination with
       | Some childPlan => prefixOutputs destination (EdgePlan.Outputs childPlan)
       | None => []
       end);
     EdgePlan.Opaque := AnyComposite (planned_children request children) |}.

Definition composite_context : M gerror := call EvCompositeContext (ctx_err env).

(* internal/external/edge/composite.go, lines 105-175: CompositeAdapter.PlanEdge *)
Definition composite_PlanEdge (request : EdgePlanRequest) : M (result (EdgePlan any)) :=
  err ← composite_context;
  match err
        ;;? fail_if (negb (bool_decide (EdgePlanRequest.TargetProvider request = provider adapter)))
              (errorf "composite edge provider %q does not match target provider %q"
                 [GStr (provider adapter); GStr (EdgePlanRequest.TargetProvider request)])
        ;;? ValidateEdgePlanRequest url_Parse request with
  | Some err => mret (Err err)
  | None =>
      children ← plan_children request destinations ∅;
      mret (children ← children;
            let plan := composite_plan request children in
            err_wrap (wrapf "validate composite edge plan: %w" []) (ValidateEdgePlan plan request) ;;! Ok plan)
  end.

(** ** Execution *)

Section execute.
Context (request : EdgeExecutionRequest any).
Abbreviation plan := (EdgeRequest.Plan request).
Abbreviation action := (EdgeRequest.Action request).

(* internal/external/edge/composite.go, lines 277-299: validateCompositePlan *)
Definition check_planned_child (entry : string * EdgePlan any) : gerror :=
  let '(destination, childPlan) := entry in
  let about := [GStr destination] in
  match clients adapter !! destination with
  | None => Some (errorf "composite edge plan has no adapter for destination %q" about)
  | Some child =>
      err_wrap (wrapf "validate composite edge child %q: %w" about) (ValidateEdgeAdapterDescriptor (EdgeDescriptor child))
      ;;? fail_if (negb (bool_decide (EdgePlan.AdapterID childPlan = EdgeAdapterDescriptor.ID (EdgeDescriptor child))))
            (errorf "composite edge child %q adapter identity was changed after planning" about)
      ;;? fail_if (negb (bool_decide (EdgePlan.TargetProvider childPlan = EdgePlan.TargetProvider plan))
                   || negb (bool_decide (EdgePlan.TargetRuntime childPlan = EdgePlan.TargetRuntime plan)))
            (errorf "composite edge child %q target was changed after planning" about)
      ;;? fail_if (negb (bool_decide (EdgePlan.OwnershipMarker childPlan = EdgePlan.OwnershipMarker plan)))
            (errorf "composite edge child %q ownership was changed after planning" about)
  end.

(* internal/external/edge/composite.go, lines 252-301: validateCompositePlan *)
Definition validateCompositePlan (p : compositePlan any) : gerror :=
  let id := EdgeAdapterDescriptor.ID composite_descriptor in
  let same (a b : string) := bool_decide (a = b) in
  fail_if (negb (same (EdgePlan.AdapterID plan) id))
    (errorf "composite edge plan adapter %q does not match adapter %q" [GStr (EdgePlan.AdapterID plan); GStr id])
  ;;? fail_if (negb (same (EdgePlan.TargetProvider plan) (provider adapter)))
        (errorf "composite edge plan provider %q does not match adapter provider %q"
           [GStr (EdgePlan.TargetProvider plan); GStr (provider adapter)])
  ;;? fail_if (same (CompositePlan.adapterID p) "" || same (CompositePlan.targetProvider p) ""
               || same (CompositePlan.targetRuntime p) "" || same (CompositePlan.childRoutingDigest p) "")
        (ErrNew "composite edge plan integrity metadata is missing")
  ;;? fail_if (negb (same (CompositePlan.adapterID p) id) || negb (same (EdgePlan.AdapterID plan) (CompositePlan.adapterID p)))
        (ErrNew "composite edge plan adapter identity was changed after planning")
  ;;? fail_if (negb (same (CompositePlan.targetProvider p) (EdgePlan.TargetProvider plan))
               || negb (same (CompositePlan.targetProvider p) (provider adapter)))
        (ErrNew "composite edge plan target provider was changed after planning")
  ;;? fail_if (negb (same (CompositePlan.targetRuntime p) (EdgePlan.TargetRuntime plan)))
        (ErrNew "composite edge plan target runtime was changed after planning")
  ;;? fail_if (negb (same (CompositePlan.ownershipMarker p) (EdgePlan.OwnershipMarker plan))
               || negb (same (CompositePlan.ownershipMarker p) (EdgeRequest.OwnershipMarker request)))
        (ErrNew "composite edge plan ownership was changed after planning")
  ;;? fail_if (negb (same (CompositePlan.childRoutingDigest p) (compositeChildRoutingDigest (CompositePlan.children p))))
        (ErrNew "composite edge plan child routing was changed after planning")
  ;;? first_error check_planned_child (map_to_list (CompositePlan.children p)).

(* internal/external/edge/composite.go, lines 220-227: CompositeAdapter.ExecuteEdge *)
Definition child_request (destination : string) (childPlan : EdgePlan any) (references : list string)
    : EdgeExecutionRequest any :=
  {| EdgeRequest.Plan := childPlan; EdgeRequest.Action := action;
     EdgeRequest.IdempotencyKey := EdgeRequest.IdempotencyKey request +:+ ":" +:+ destination;
     EdgeRequest.OwnershipMarker := EdgeRequest.OwnershipMarker request;
     EdgeRequest.ApprovalReference := EdgeRequest.ApprovalReference request;
     EdgeRequest.ResourceReferences := references |}.

(* internal/external/edge/composite.go, lines 238-241: CompositeAdapter.ExecuteEdge *)
Definition join_result (destination : string) (r child : EdgeExecutionResult) : EdgeExecutionResult :=
  {| EdgeResult.Action := EdgeResult.Action r;
     EdgeResult.OperationID := joinOperationID (EdgeResult.OperationID r) destination (EdgeResult.OperationID child);
     EdgeResult.ResourceRefs := EdgeResult.ResourceRefs r ++ wrapReferences destination (EdgeResult.ResourceRefs child);
     EdgeResult.ProofRefs := EdgeResult.ProofRefs r ++ wrapReferences destination (EdgeResult.ProofRefs child);
     EdgeResult.Outputs := EdgeResult.Outputs r ++ prefixOutputs destination (EdgeResult.Outputs child);
     EdgeResult.OwnershipMarker := EdgeResult.OwnershipMarker r;
     EdgeResult.OwnershipVerified := EdgeResult.OwnershipVerified r;
     EdgeResult.IdempotencyVerified := EdgeResult.IdempotencyVerified r |}.

(** A planned destination always has a client by then. *)
(* internal/external/edge/composite.go, lines 212-242: CompositeAdapter.ExecuteEdge *)
Fixpoint execute_children (children : gmap string (EdgePlan any)) (routed : gmap string (list string)) (ds : list string)
    (r : EdgeExecutionResult) : M (result EdgeExecutionResult) :=
  match ds with
  | [] => mret (Ok r)
  | destination :: ds =>
      let about := [GStr destination] in
      let references := default [] (routed !! destination) in
      match children !! destination, clients adapter !! destination with
      | Some childPlan, Some child =>
          let childRequest := child_request destination childPlan references in
          executed ← call (EvChildExecute destination childRequest) (ExecuteEdge child childRequest);
          match executed with
          | Err err => mret (Err (wrapf "execute edge destination %q: %w" about err))
          | Ok childResult =>
              match err_wrap (wrapf "validate edge destination %q result: %w" about)
                      (ValidateEdgeExecutionResult childRequest childResult)
                    ;;? fail_if (multiline (EdgeResult.OperationID childResult))
                          (errorf "edge destination %q returned an unsafe operation identity" about) with
              | Some err => mret (Err err)
              | None => execute_children children routed ds (join_result destination r childResult)
              end
          end
      | _, _ =>
          if bool_decide (references = []) then execute_children children routed ds r
          else mret (Err (errorf "resource references exist for unplanned edge destination %q" about))
      end
  end.

(* internal/external/edge/composite.go, lines 248-248: CompositeAdapter.ExecuteEdge *)
Definition output_le (a b : AdapterOutput) : Prop := String.le (Output.Key a) (Output.Key b).

(** Go's sort leaves the order of outputs with the same key open; here it is the
    order they came in. *)
(* internal/external/edge/composite.go, lines 243-248: CompositeAdapter.ExecuteEdge *)
Definition finish_result (r : EdgeExecutionResult) : EdgeExecutionResult :=
  {| EdgeResult.Action := EdgeResult.Action r;
     EdgeResult.OperationID :=
       if bool_decide (EdgeResult.OperationID r = "")
       then action +:+ ":composite:" +:+ markerDigest (EdgeRequest.OwnershipMarker request) else EdgeResult.OperationID r;
     EdgeResult.ResourceRefs := sort_strings (EdgeResult.ResourceRefs r);
     EdgeResult.ProofRefs := sort_strings (EdgeResult.ProofRefs r);
     EdgeResult.Outputs := sort_by output_le (EdgeResult.Outputs r);
     EdgeResult.OwnershipMarker := EdgeResult.OwnershipMarker r;
     EdgeResult.OwnershipVerified := EdgeResult.OwnershipVerified r;
     EdgeResult.IdempotencyVerified := EdgeResult.IdempotencyVerified r |}.

(* internal/external/edge/composite.go, lines 206-211: CompositeAdapter.ExecuteEdge *)
Definition empty_result : EdgeExecutionResult :=
  {| EdgeResult.Action := action; EdgeResult.OperationID := ""; EdgeResult.ResourceRefs := []; EdgeResult.ProofRefs := [];
     EdgeResult.Outputs := []; EdgeResult.OwnershipMarker := EdgeRequest.OwnershipMarker request;
     EdgeResult.OwnershipVerified := true; EdgeResult.IdempotencyVerified := true |}.

(* internal/external/edge/composite.go, lines 194-205: CompositeAdapter.ExecuteEdge *)
Definition route_request (p : compositePlan any) : result (gmap string (list string)) :=
  validateCompositePlan p ;;!
  (routed ← routeReferences "composite edge" "child" (EdgeRequest.ResourceReferences request);
   first_error (λ entry : string * list string,
     match clients adapter !! entry.1 with
     | None => Some (errorf "composite edge has no adapter for destination %q" [GStr entry.1])
     | Some _ => None
     end) (map_to_list routed) ;;! Ok routed).

(* internal/external/edge/composite.go, lines 177-250: CompositeAdapter.ExecuteEdge *)
Definition composite_ExecuteEdge : M (result EdgeExecutionResult) :=
  err ← composite_context;
  match err ;;? ValidateEdgeExecutionRequest request with
  | Some err => mret (Err err)
  | None =>
      match EdgePlan.Opaque plan with
      | AnyComposite p =>
          match route_request p with
          | Err err => mret (Err err)
          | Ok routed =>
              executed ← execute_children (CompositePlan.children p) routed destinations empty_result;
              mret (r ← executed; Ok (finish_result r))
          end
      | _ => mret (Err (ErrNew "composite edge plan is missing child plans"))
      end
  end.
End execute.

(** The composite as an adapter: what its callers see of it. *)
(* internal/external/edge/composite.go, lines 25-28: CompositeAdapter *)
Definition composite_adapter : EdgeAdapter any W :=
  {| EdgeDescriptor := composite_descriptor;
     PlanEdge := λ request w, (outcome (composite_PlanEdge request) w, final (composite_PlanEdge request) w);
     ExecuteEdge := λ request w, (outcome (composite_ExecuteEdge request) w, final (composite_ExecuteEdge request) w) |}.
End composite.
