(* ===== verification/EdgeClaims.v ===== *)
(** * What the edge adapters promise

    The waits are bounded and end on the word of the owning service; a composite
    executes each planned destination once and its references find their way
    back. *)

From S2P Require Import Prelude GoStrings GoEncoding Sdk Admission Architecture Resilience Lifecycle LifecycleClaims Base64 References Edge EdgeComposite.

Local Open Scope Z_scope.

(** ** Bounded attempts *)

Section attempts.
Context {E W S A : Type} (max : Z) (ctx pause : eff E W gerror).
Context (stopped : error → A) (gave_up : Z → S → A) (exhausted : S → A).
Context (try : Z → S → eff E W (A + S)).
Abbreviation loop := (attempts max ctx pause stopped gave_up exhausted try).

(** An answer that is not one of the loop's refusals comes from the last try. *)
Lemma attempts_last (fails : A → Prop) (R : list E → A → Prop) :
  (∀ err, fails (stopped err)) → (∀ n s, fails (gave_up n s)) → (∀ s, fails (exhausted s)) →
  (∀ n s, yields (try n s) (λ es r, ∀ a, r = inl a → fails a ∨ R es a)) →
  ∀ n attempt s, yields (loop n attempt s) (λ es a, fails a ∨ ∃ pre es', es = pre ++ es' ∧ R es' a).
Proof.
  intros Hstop Hgave Hex Htry. induction n as [|n IH]; intros attempt s; cbn [attempts].
  { apply yields_ret. by left. }
  apply yields_bind. intros w1. case (outcome ctx w1) as [err|]; [apply yields_ret; by left|].
  apply yields_bind. intros w2. pose proof (Htry attempt s w2) as Ht. simpl in Ht.
  destruct (outcome (try attempt s) w2) as [a|s'].
  { apply yields_ret. destruct (Ht a eq_refl) as [Hf|HR]; [by left|right]. eexists _, _.
    split; [|exact HR]. by rewrite app_nil_r. }
  destruct (attempt =? max); [apply yields_ret; by left|].
  apply yields_bind. intros w3. case (outcome pause w3) as [err|]; [apply yields_ret; by left|].
  eapply yields_weaken; [apply IH|]. intros es a [Hf|(pre&es'&->&HR)]; [by left|right].
  exists (events ctx w1 ++ events (try attempt s) w2 ++ events pause w3 ++ pre), es'. by rewrite <-!app_assoc.
Qed.

Lemma attempts_emits (P : E → Prop) : emits P ctx → emits P pause → (∀ n s, emits P (try n s)) →
  ∀ n attempt s, emits P (loop n attempt s).
Proof.
  intros Hc Hp Ht n. induction n as [|n IH]; intros attempt s; cbn [attempts]; [apply emits_ret|].
  apply emits_bind; [done|]. intros [err|]; [apply emits_ret|]. apply emits_bind; [apply Ht|].
  intros [a|s']; [apply emits_ret|]. destruct (_ =? _); [apply emits_ret|].
  apply emits_bind; [done|]. intros [err|]; [apply emits_ret|apply IH].
Qed.

(** The calls [f] picks are made once per attempt. *)
Lemma attempts_bounded (f : E → bool) :
  emits (λ e, f e = false) ctx → emits (λ e, f e = false) pause →
  (∀ n s, yields (try n s) (λ es _, length (filter f es) ≤ 1)%nat) →
  ∀ n attempt s, yields (loop n attempt s) (λ es _, length (filter f es) ≤ n)%nat.
Proof.
  intros Hc Hp Htry.
  assert (Hnone : ∀ B (m : eff E W B), emits (λ e, f e = false) m → ∀ w, filter f (events m w) = []).
  { intros B m Hm w. induction (Hm w) as [|e es He _ IHes]; [done|]. by rewrite filter_cons_False, IHes by (by rewrite He; intros []). }
  induction n as [|n IH]; intros attempt s; cbn [attempts]; [by apply yields_ret|].
  apply yields_bind. intros w1. case (outcome ctx w1) as [err|].
  { apply yields_ret. rewrite app_nil_r, Hnone by done. simpl. lia. }
  apply yields_bind. intros w2. pose proof (Htry attempt s w2) as Ht. simpl in Ht.
  assert (Hone : (length (filter f (events ctx w1 ++ events (try attempt s) w2)) ≤ 1)%nat).
  { by rewrite filter_app, Hnone by done. }
  destruct (outcome (try attempt s) w2) as [a|s'].
  { apply yields_ret. rewrite app_nil_r. lia. }
  destruct (attempt =? max); [apply yields_ret; rewrite app_nil_r; lia|].
  apply yields_bind. intros w3. case (outcome pause w3) as [err|].
  { apply yields_ret. rewrite app_nil_r, app_assoc, filter_app, (Hnone _ pause), app_nil_r by done. lia. }
  eapply yields_weaken; [apply IH|]. intros es a Hes. simpl in Hes.
  rewrite !app_assoc, filter_app, length_app, filter_app, (Hnone _ pause), app_nil_r by done. lia.
Qed.
End attempts.

(** ** Operations of a provider *)

Section operations.
Context {O W : Type} (env : waiter W) (api : EdgeOperationAPI O W) (policy : EdgeOperationPolicy).

Definition is_inventory (e : api_event O) : bool := match e with EvInventory _ _ => true | _ => false end.
Definition is_edge_poll (e : api_event O) : bool := match e with EvPollEdge _ _ => true | _ => false end.
Definition is_edge_start (e : api_event O) : bool := match e with EvStartEdge _ _ => true | _ => false end.

(** Nothing that carries the marker runs any more. *)
Definition cleaned (marker : string) (resources : list EdgeInventoryResource) : Prop :=
  ∀ r, r ∈ resources → EdgeInventory.OwnershipMarker r = marker → EdgeInventory.Live r = false.

Lemma with_seen_Forall {A B} (f : list A → A → list B) (P : B → Prop) l : ∀ seen,
  Forall P (with_seen f seen l) → ∀ x, x ∈ l → ∃ seen', Forall P (f seen' x).
Proof.
  induction l as [|y l IH]; intros seen Hf x Hx; [by apply elem_of_nil in Hx|]. cbn [with_seen] in Hf.
  apply Forall_app in Hf as [Hy Hl]. apply elem_of_cons in Hx as [->|Hx]; [by exists seen|by eapply IH].
Qed.

Lemma validateEdgeInventory_owned resources marker r : validateEdgeInventory resources marker = None → r ∈ resources →
  EdgeInventory.OwnershipMarker r = marker → EdgeInventory.Owned r = true.
Proof.
  intros Hv Hr Hm. apply first_of_None, with_seen_Forall with (x := r) in Hv as [seen Hv]; [|done].
  repeat apply Forall_cons in Hv as [? Hv]. inv_checks. rewrite bool_decide_eq_true_2 in * by done.
  by destruct (EdgeInventory.Owned r).
Qed.

(** A wait: bounded calls of one kind, no start, and [R] of the last call on
    success. *)
Definition wait_trace {A} (f : api_event O → bool) (R : api_event O → A → Prop) (es : list (api_event O)) (a : A * gerror) : Prop :=
  (length (filter f es) ≤ Z.to_nat (EdgePolicy.MaxAttempts policy))%nat ∧
  Forall (λ e, is_edge_start e = false) es ∧
  (a.2 = None → ∃ es' e, es = es' ++ [e] ∧ R e a.1).

Lemma wait_refused {A} f R (a : A) err : wait_trace f R [] (a, Some err).
Proof. split_and!; [apply Nat.le_0_l|constructor|done]. Qed.

(** The loops of both waits: one logged call per attempt. *)
Lemma loop_trace {A S B} (f : api_event O → bool) (R : api_event O → A → Prop) stopped gave_up exhausted
    (log : B → api_event O) (client : W → B * W) (judge : Z → S → B → (A * gerror) + S) s :
  (∀ err, f (EvContext err) = false ∧ f (EvTimer err) = false) →
  (∀ b, is_edge_start (log b) = false) →
  (∀ err, (stopped err).2 ≠ None) → (∀ n s, (gave_up n s).2 ≠ None) → (∀ s, (exhausted s).2 ≠ None) →
  (∀ n s b a, judge n s b = inl (a, None) → R (log b) a) →
  yields (attempts (EdgePolicy.MaxAttempts policy) (edge_context env) (edge_pause env policy) stopped gave_up exhausted
            (λ n s, b ← call log client; mret (judge n s b)) (Z.to_nat (EdgePolicy.MaxAttempts policy)) 1 s) (wait_trace f R).
Proof.
  intros Hf Hlog Hstop Hgave Hex Hjudge w. split_and!.
  - apply attempts_bounded; [by apply emits_call; intros err; apply Hf|by apply emits_call; intros err; apply Hf|].
    intros n t. apply yields_call_bind. intros b. apply yields_ret. rewrite filter_cons. case_decide; simpl; lia.
  - revert w. apply attempts_emits; [by apply emits_call|by apply emits_call|].
    intros n t. apply emits_bind; [by apply emits_call|]. intros b. apply emits_ret.
  - intros Hnone.
    pose proof (attempts_last (EdgePolicy.MaxAttempts policy) (edge_context env) (edge_pause env policy) stopped gave_up exhausted
      (λ n s, b ← call log client; mret (judge n s b)) (λ a, a.2 ≠ None) (λ es a, ∃ e, es = [e] ∧ R e a.1) Hstop Hgave Hex) as Hl.
    destruct (Hl) with (n := Z.to_nat (EdgePolicy.MaxAttempts policy)) (attempt := 1) (s := s) (w := w) as [Hs|(pre&es'&He&(e&->&HR))].
    + intros n t. apply yields_call_bind. intros b. apply yields_ret. intros [a err] Ha. destruct err; [by left|right].
      eexists. split; [done|]. by eapply Hjudge.
    + done.
    + by exists pre, e.
Qed.

Lemma WaitForEdgeCleanup_trace marker : yields (WaitForEdgeCleanup env api policy marker)
  (wait_trace is_inventory (λ e resources, e = EvInventory marker (Ok resources) ∧ cleaned marker resources)).
Proof.
  unfold WaitForEdgeCleanup. destruct (_ ;;? _); [apply yields_ret, wait_refused|].
  unfold try_cleanup. apply loop_trace; try done.
  intros n last [resources|err] a; [|by destruct (_ =? _)]. destruct (validateEdgeInventory resources marker) eqn:Hv; [done|].
  destruct (EdgeInventory.ownedLive resources) eqn:Hl; [done|]. intros [= <-]. split; [done|].
  intros r Hr Hm. pose proof (validateEdgeInventory_owned _ _ _ Hv Hr Hm) as Ho.
  apply not_true_iff_false. intros Hlive. apply not_true_iff_false in Hl. apply Hl, existsb_exists.
  exists r. split; [by apply list_elem_of_In|by rewrite Ho, Hlive].
Qed.

Lemma WaitForEdgeOperation_trace id : yields (WaitForEdgeOperation env api policy id)
  (wait_trace is_edge_poll (λ e o, e = EvPollEdge id (Ok o) ∧ EdgeObservation.OperationID o = id ∧
                                   EdgeObservation.Status o = EdgeOperationSucceeded)).
Proof.
  unfold WaitForEdgeOperation. destruct (_ ;;? _); [apply yields_ret, wait_refused|].
  unfold try_operation. apply loop_trace; try done.
  intros n [] [o|err] a; [|by destruct (_ =? _)]. cbv zeta. repeat case_bool_decide; cbn [negb]; try done.
  intros [= <-]. done.
Qed.
End operations.

(** ** One action of an operation-backed adapter *)

Section backed.
Context {O W : Type} (env : waiter W) (api : EdgeOperationAPI O W) (a : OperationBackedEdgeAdapter).
Context (request : EdgeExecutionRequest O).
Abbreviation marker := (EdgeRequest.OwnershipMarker request).
Abbreviation attempts := (Z.to_nat (EdgePolicy.MaxAttempts (backed_policy a))).

(** What the provider reported last, and what it must have reported. *)
Definition edge_reported (started : EdgeOperationObservation) (es : list (api_event O)) (o : EdgeOperationObservation) : Prop :=
  o = started ∧ es = [] ∨
  ∃ es', es = es' ++ [EvPollEdge (EdgeObservation.OperationID started) (Ok o)] ∧
         EdgeObservation.OperationID o = EdgeObservation.OperationID started.

Lemma settle_edge_trace started : yields (settle_edge env api a started) (λ es s,
  (length (filter is_edge_poll es) ≤ attempts)%nat ∧ Forall (λ e, is_edge_start e = false) es ∧
  ∀ o, s = Ok o → edge_reported started es o).
Proof.
  unfold settle_edge. case_bool_decide.
  - destruct (blank _); [apply yields_ret; split_and!; [apply Nat.le_0_l|constructor|done]|].
    apply yields_bind. eapply yields_weaken; [apply WaitForEdgeOperation_trace|]. intros es [o err] (Hl&Hs&Hok).
    apply yields_ret. rewrite app_nil_r. split_and!; [done|done|]. intros o' Ho. destruct err; [done|]. injection Ho as <-.
    destruct (Hok eq_refl) as (es'&e&->&->&Hid&_). right. by exists es'.
  - apply yields_ret. split_and!; [apply Nat.le_0_l|constructor|]. intros o [= <-]. by left.
Qed.

(** A result stands for an observation that vouches for it. *)
Definition edge_vouched (o : EdgeOperationObservation) (r : EdgeExecutionResult) : Prop :=
  EdgeObservation.Status o = EdgeOperationSucceeded ∧ EdgeObservation.OwnershipMarker o = marker ∧
  EdgeObservation.OwnershipVerified o = true ∧ EdgeObservation.IdempotencyVerified o = true ∧
  EdgeResult.Action r = EdgeRequest.Action request ∧ EdgeResult.ResourceRefs r = EdgeObservation.ResourceRefs o ∧
  EdgeResult.ProofRefs r = EdgeObservation.ProofRefs o ∧
  (EdgeRequest.Action request ∈ traffic_actions → containsEdgeProof (EdgeObservation.ProofRefs o) EdgeProofOriginHealth = true).

Lemma conclude_edge_vouched o r : conclude_edge request o = Ok r → edge_vouched o r.
Proof.
  unfold conclude_edge, ValidateEdgeExecutionResult, ValidateEdgeSafetyProofs. cbv zeta. intros H. inv_checks.
  repeat match goal with
  | H : negb (bool_decide _) = false |- _ => apply negb_false_iff, bool_decide_eq_true in H
  | H : _ || _ = false |- _ => apply orb_false_iff in H as [? ?]
  | H : negb _ = false |- _ => apply negb_false_iff in H
  end.
  match goal with H : Ok _ = Ok r |- _ => injection H as <- end. split_and!; try done.
  intros Ht. simpl in *.
  match goal with H : (if bool_decide _ then _ else _) = None |- _ => rewrite bool_decide_eq_true_2 in H by done; inv_checks end.
  by apply negb_false_iff.
Qed.
End backed.

Section backed_claims.
Context {O W : Type} (env : waiter W) (api : EdgeOperationAPI O W).

(** C27: what an edge action that succeeds has behind it.  The provider was asked
    to start exactly once and first; the result repeats its last report, which
    succeeded, vouches for owner and idempotency and, when the action carries
    traffic, brings the proof of a healthy origin; and a destroy has as its last
    call an inventory in which nothing of this owner is live.  Polls and
    inventories stay within the attempts of the policy. *)
Theorem ExecuteEdge_verified (a : OperationBackedEdgeAdapter) request w r :
  outcome (backed_ExecuteEdge env api a request) w = Ok r →
  ∃ operation started polled waited o,
    events (backed_ExecuteEdge env api a request) w = EvStartEdge operation (Ok started) :: polled ++ waited ∧
    EdgeOperation.Request operation = request ∧
    Forall (λ e, is_edge_start e = false) (polled ++ waited) ∧
    (length (filter is_edge_poll polled) ≤ Z.to_nat (EdgePolicy.MaxAttempts (backed_policy a)))%nat ∧
    (length (filter is_inventory waited) ≤ Z.to_nat (EdgePolicy.MaxAttempts (backed_policy a)))%nat ∧
    edge_reported started polled o ∧ edge_vouched request o r ∧
    (if bool_decide (EdgeRequest.Action request = EdgeDestroy)
     then ∃ before resources, waited = before ++ [EvInventory (EdgeRequest.OwnershipMarker request) (Ok resources)] ∧
            cleaned (EdgeRequest.OwnershipMarker request) resources
     else waited = []).
Proof.
  unfold backed_ExecuteEdge. cbv zeta. destruct (_ ;;? _); [done|].
  set (operation := {| EdgeOperation.Provider := _ |}). rewrite outcome_bind, events_bind, outcome_call, events_call, final_call.
  destruct (api_Start api operation w) as [[started|err] w1]; cbn [fst snd]; [|done].
  rewrite outcome_bind, events_bind. pose proof (settle_edge_trace env api a started w1) as (Hl&Hs&Hrep).
  destruct (outcome (settle_edge env api a started) w1) as [o|err]; [|done]. simpl.
  destruct (conclude_edge request o) as [r'|err] eqn:Hc; [|done]. pose proof (conclude_edge_vouched _ _ _ Hc) as Hv.
  specialize (Hrep o eq_refl). destruct (bool_decide (EdgeRequest.Action request = EdgeDestroy)) eqn:Hd.
  - rewrite outcome_bind, events_bind. set (w2 := final _ w1).
    pose proof (WaitForEdgeCleanup_trace env api (backed_policy a) (EdgeRequest.OwnershipMarker request) w2) as (Hi&Hn&Hok).
    destruct (outcome (WaitForEdgeCleanup _ _ _ _) w2) as [resources [err|]]; [done|]. simpl in *. intros [= <-].
    destruct (Hok eq_refl) as (before&e&He&->&Hcl).
    exists operation, started, (events (settle_edge env api a started) w1), (events (WaitForEdgeCleanup env api (backed_policy a) (EdgeRequest.OwnershipMarker request)) w2), o.
    rewrite app_nil_r. split_and!; try done; [by apply Forall_app|]. by exists before, resources.
  - intros [= <-]. exists operation, started, (events (settle_edge env api a started) w1), [], o.
    rewrite !app_nil_r. split_and!; try done. simpl. lia.
Qed.
End backed_claims.

(** ** A wrapped reference is not a proof *)

(** Characters that trimming leaves and lower case does not turn into a
    separator. *)
Definition plain (c : ascii) : bool :=
  negb (ascii_space c) && (code c <? 128)%N && negb (bool_decide (lower_ascii c ∈ go_bytes ".:/")).

Lemma plain_all : forallb (λ n, plain (encode_digit (N.of_nat n))) (seq 0 64) = true.
Proof. vm_compute. reflexivity. Qed.

Lemma base64_plain c : base64_char c → plain c = true.
Proof.
  intros (n&Hn&->). pose proof plain_all as H. rewrite forallb_forall in H.
  specialize (H (N.to_nat n)). rewrite N2Nat.id in H. apply H, in_seq. lia.
Qed.

Lemma visible_trim_left l : Forall visible l → trim_left l = l.
Proof.
  intros Hl. destruct l as [|a l]; [done|]. apply Forall_cons in Hl as [[Ha Hc] Hl]. cbn [trim_left]. rewrite Ha.
  destruct l as [|b l]; [done|].
  destruct (space2 a b) eqn:H2; [apply space2_high in H2; lia|].
  destruct l as [|d l]; [done|]. destruct (space3 a b d) eqn:H3; [apply space3_high in H3; lia|done].
Qed.

Lemma visible_trim_right l : Forall visible l → trim_right_rev l = l.
Proof.
  intros Hl. destruct l as [|a l]; [done|]. apply Forall_cons in Hl as [[Ha Hc] Hl]. cbn [trim_right_rev]. rewrite Ha.
  destruct l as [|b l]; [done|].
  destruct (space2 b a) eqn:H2; [apply space2_high in H2; lia|].
  destruct l as [|d l]; [done|]. destruct (space3 d b a) eqn:H3; [apply space3_high in H3; lia|done].
Qed.

Lemma visible_TrimSpace s : Forall visible (go_bytes s) → TrimSpace s = s.
Proof.
  intros Hs. unfold TrimSpace. rewrite visible_trim_left by done.
  rewrite visible_trim_right by by apply Forall_reverse. by rewrite reverse_involutive, of_bytes_go_bytes.
Qed.

Lemma plain_visible c : plain c = true → visible c.
Proof.
  unfold plain. rewrite !andb_true_iff. intros [[Hs Hc] _]. split; [by apply negb_true_iff|by apply N.ltb_lt].
Qed.

(** The bytes of a wrapped reference: a head that ends in a colon, and a tail of
    plain characters whose number is not thirteen. *)
Lemma wrapReference_bytes destination reference : ∃ head tail,
  go_bytes (wrapReference destination reference) = head ++ colon :: tail ∧
  Forall visible (head ++ colon :: tail) ∧ Forall (λ c, plain c = true) tail ∧ length tail ≠ 13%nat.
Proof.
  exists (go_bytes "composite:" ++ go_bytes (EncodeToString destination)), (go_bytes (EncodeToString reference)).
  assert (Hp : ∀ s, Forall (λ c, plain c = true) (go_bytes (EncodeToString s))).
  { intros s. eapply Forall_impl; [apply EncodeToString_chars|]. intros c. apply base64_plain. }
  assert (Hv : ∀ s, Forall visible (go_bytes (EncodeToString s))).
  { intros s. eapply Forall_impl; [apply Hp|]. intros c. apply plain_visible. }
  split_and!.
  - unfold wrapReference, compositeReferencePrefix. by rewrite !go_bytes_app, <-app_assoc.
  - rewrite !Forall_app, Forall_cons. split_and!; [repeat constructor; vm_compute; done|apply Hv|split; vm_compute; done|apply Hv].
  - apply Hp.
  - intros He. pose proof (EncodeToString_length reference) as Hm. rewrite He in Hm. by apply Hm.
Qed.

(** A colon before the tail rules a suffix out, unless the tail is the suffix. *)
Lemma no_suffix (head tail rest : list ascii) (sep c : ascii) :
  drop (length (head ++ c :: tail) - length (sep :: rest)) (head ++ c :: tail) = sep :: rest →
  c ∉ rest → sep ∉ tail → length tail = length rest.
Proof.
  intros Hd Hc Hs. pose proof (f_equal length Hd) as Hl. rewrite length_drop, length_app in Hl. simpl in Hl.
  destruct (decide (length tail = length rest)) as [|Hne]; [done|]. exfalso.
  destruct (decide (length tail < length rest)%nat) as [Hlt|Hge].
  - rewrite drop_app_le in Hd by (rewrite length_app; simpl; lia).
    destruct (drop _ head) as [|x l] eqn:Hx.
    + apply (f_equal length) in Hd. simpl in Hd. lia.
    + injection Hd as -> <-. apply Hc. set_solver.
  - rewrite drop_app_ge in Hd by (rewrite length_app; simpl; lia).
    destruct (length (head ++ c :: tail) - length (sep :: rest) - length head)%nat as [|k] eqn:Hk.
    + rewrite length_app in Hk. simpl in Hk. lia.
    + apply Hs. cbn [drop] in Hd. rewrite <-(take_drop k tail), Hd. set_solver.
Qed.

Lemma wrapped_no_proof destination reference : containsEdgeProof [wrapReference destination reference] EdgeProofOriginHealth = false.
Proof.
  destruct (wrapReference_bytes destination reference) as (head&tail&Hb&Hv&Hp&Hlen).
  assert (Hlow : go_bytes (ToLower (TrimSpace (wrapReference destination reference)))
                 = (lower_ascii <$> head) ++ colon :: (lower_ascii <$> tail)).
  { rewrite visible_TrimSpace by by rewrite Hb. unfold ToLower. by rewrite go_bytes_of_bytes, Hb, fmap_app. }
  assert (Hcolon : colon ∉ go_bytes "origin-health") by (refine (bool_decide_unpack _ _); vm_compute; exact I).
  assert (Hsep : ∀ sep, sep ∈ go_bytes ".:/" → sep ∉ lower_ascii <$> tail).
  { intros sep Hsep (c&->&Hin)%list_elem_of_fmap. rewrite Forall_forall in Hp. specialize (Hp c Hin).
    unfold plain in Hp. apply andb_true_iff in Hp as [_ Hp]. by apply negb_true_iff, bool_decide_eq_false in Hp. }
  unfold containsEdgeProof. cbn [existsb]. rewrite orb_false_r.
  change (ToLower (TrimSpace EdgeProofOriginHealth)) with "origin-health".
  apply orb_false_iff. split.
  - apply bool_decide_eq_false. intros He. apply (f_equal go_bytes) in He. rewrite Hlow in He.
    apply Hcolon. rewrite <-He. apply elem_of_app. right. constructor.
  - assert (Hno : ∀ sep, sep ∈ go_bytes ".:/" →
        HasSuffix (ToLower (TrimSpace (wrapReference destination reference))) (String sep "origin-health") = false).
    { intros sep Hin. apply bool_decide_eq_false. rewrite Hlow. intros Hd. apply Hlen.
      rewrite <-(length_fmap lower_ascii tail). exact (no_suffix _ _ _ _ _ Hd Hcolon (Hsep sep Hin)). }
    assert (Hs : ∀ sep, String sep "" +:+ "origin-health" = String sep "origin-health") by done.
    cbn [existsb]. change "." with (String "." ""). change ":" with (String ":" ""). change "/" with (String "/" "").
    by rewrite !Hs, !Hno by repeat constructor.
Qed.

Lemma containsEdgeProof_one refs semantic : containsEdgeProof refs semantic = true →
  ∃ x, x ∈ refs ∧ containsEdgeProof [x] semantic = true.
Proof.
  unfold containsEdgeProof. cbv zeta. intros H. apply existsb_exists in H as (x&Hx&Hp). exists x.
  split; [by apply list_elem_of_In|]. apply existsb_exists. exists x. split; [by left|exact Hp].
Qed.

(** ** One action of a composite *)

Section composite.
Context {W : Type} (env : waiter W) (adapter : CompositeAdapter W) (request : EdgeExecutionRequest any).
Context (children : gmap string (EdgePlan any)) (routed : gmap string (list string)).
Abbreviation references d := (default [] (routed !! d)).

(** The destinations among [ds] with a plan and an adapter. *)
Definition planned (ds : list string) : list string :=
  filter (λ d, is_Some (children !! d) ∧ is_Some (clients adapter !! d)) ds.

Definition executed_at (e : composite_event) : list string :=
  match e with EvChildExecute d _ _ => [d] | _ => [] end.

(** The call that executes a destination, and its validated answer. *)
Definition child_executed (e : composite_event) (answer : string * EdgeExecutionResult) : Prop :=
  ∃ childPlan, children !! answer.1 = Some childPlan ∧
    e = EvChildExecute answer.1 (child_request request answer.1 childPlan (references answer.1)) (Ok answer.2) ∧
    ValidateEdgeExecutionResult (child_request request answer.1 childPlan (references answer.1)) answer.2 = None.

Definition join_all (answers : list (string * EdgeExecutionResult)) (r : EdgeExecutionResult) : EdgeExecutionResult :=
  fold_left (λ r answer, join_result answer.1 r answer.2) answers r.

Lemma execute_children_trace ds : ∀ r, yields (execute_children adapter request children routed ds r) (λ es res,
  (es ≫= executed_at) `prefix_of` planned ds ∧
  ∀ r', res = Ok r' → ∃ answers, answers.*1 = planned ds ∧ Forall2 child_executed es answers ∧ r' = join_all answers r ∧
    ∀ d, d ∈ ds → d ∉ planned ds → references d = []).
Proof.
  induction ds as [|d ds IH]; intros r; cbn [execute_children].
  { apply yields_ret. split; [apply prefix_nil|]. intros r' [= <-]. exists []. split_and!; [done|constructor|done|].
    by intros d ?%elem_of_nil. }
  assert (Hskip : ¬ (is_Some (children !! d) ∧ is_Some (clients adapter !! d)) →
    yields (if bool_decide (references d = []) then execute_children adapter request children routed ds r
            else mret (Err (errorf "resource references exist for unplanned edge destination %q" [GStr d]))) (λ es res,
      (es ≫= executed_at) `prefix_of` planned (d :: ds) ∧
      ∀ r', res = Ok r' → ∃ answers, answers.*1 = planned (d :: ds) ∧ Forall2 child_executed es answers ∧ r' = join_all answers r ∧
        ∀ d', d' ∈ d :: ds → d' ∉ planned (d :: ds) → references d' = [])).
  { intros Hno. unfold planned. rewrite filter_cons_False by done. case_bool_decide as Hrefs; [|apply yields_ret; by split; [apply prefix_nil|]].
    eapply yields_weaken; [apply IH|]. intros es res [Hp Hok]. split; [done|]. intros r' Hr.
    destruct (Hok r' Hr) as (answers&Ha&Hf&Hj&Hrest). exists answers. split_and!; [done..|].
    intros d' [->|Hd]%elem_of_cons Hn; [done|by apply Hrest]. }
  destruct (children !! d) as [childPlan|] eqn:Hc; [|apply Hskip; by intros [[]]].
  destruct (clients adapter !! d) as [child|] eqn:Ha; [|apply Hskip; by intros [_ []]]. clear Hskip.
  assert (Hplanned : planned (d :: ds) = d :: planned ds).
  { unfold planned. rewrite filter_cons_True; [done|]. rewrite Hc, Ha. by split; eexists. }
  apply yields_call_bind. intros [c|err]; [|apply yields_ret; rewrite Hplanned; split; [by apply prefix_cons, prefix_nil|done]].
  destruct (_ ;;? _) as [err|] eqn:Hv; [apply yields_ret; rewrite Hplanned; split; [by apply prefix_cons, prefix_nil|done]|].
  eapply yields_weaken; [apply IH|]. intros es res [Hp Hok]. rewrite Hplanned. split; [by apply prefix_cons|].
  intros r' Hr. destruct (Hok r' Hr) as (answers&Has&Hf&->&Hrest). exists ((d, c) :: answers). split_and!.
  - cbn. by rewrite Has.
  - constructor; [|done]. inv_checks. by exists childPlan.
  - done.
  - intros d' [->|Hd]%elem_of_cons Hn; [|apply Hrest; [done|]]; set_solver.
Qed.

(** What the joined result carries: the wrapped references of every answer. *)
Lemma join_all_refs answers r :
  EdgeResult.ResourceRefs (join_all answers r)
    = EdgeResult.ResourceRefs r ++ (answers ≫= λ a, wrapReferences a.1 (EdgeResult.ResourceRefs a.2)) ∧
  EdgeResult.ProofRefs (join_all answers r)
    = EdgeResult.ProofRefs r ++ (answers ≫= λ a, wrapReferences a.1 (EdgeResult.ProofRefs a.2)).
Proof.
  revert r. induction answers as [|[d c] answers IH]; intros r; [by rewrite !app_nil_r|].
  change (join_all ((d, c) :: answers) r) with (join_all answers (join_result d r c)).
  destruct (IH (join_result d r c)) as [-> ->]. cbn. by rewrite <-!app_assoc.
Qed.

Lemma join_all_scope answers r :
  EdgeResult.Action (join_all answers r) = EdgeResult.Action r ∧
  EdgeResult.OwnershipMarker (join_all answers r) = EdgeResult.OwnershipMarker r.
Proof. revert r. induction answers as [|a answers IH]; intros r; [done|]. apply (IH (join_result a.1 r a.2)). Qed.
End composite.

Section composite_run.
Context {W : Type} (env : waiter W) (adapter : CompositeAdapter W) (request : EdgeExecutionRequest any).

(** A composite action that succeeds: its plan, its routes, its answers. *)
Record composite_succeeds (es : list composite_event) (r : EdgeExecutionResult) (p : compositePlan any)
    (routed : gmap string (list string)) (answers : list (string * EdgeExecutionResult)) : Prop := {
  succeeds_plan : EdgePlan.Opaque (EdgeRequest.Plan request) = AnyComposite p;
  succeeds_routed : route_request adapter request p = Ok routed;
  succeeds_calls : ∃ calls, es = EvCompositeContext None :: calls ∧
    Forall2 (child_executed request (CompositePlan.children p) routed) calls answers;
  succeeds_planned : answers.*1 = planned adapter (CompositePlan.children p) (destinations adapter);
  succeeds_result : r = finish_result request (join_all answers (empty_result request));
  succeeds_rest : ∀ d, d ∈ destinations adapter → d ∉ answers.*1 → default [] (routed !! d) = [];
}.

Lemma composite_ExecuteEdge_trace : yields (composite_ExecuteEdge env adapter request) (λ es res,
  ∀ r, res = Ok r → ∃ p routed answers, composite_succeeds es r p routed answers).
Proof.
  unfold composite_ExecuteEdge, composite_context. apply yields_call_bind. intros err.
  destruct (err ;;? _) eqn:Hv; [by apply yields_ret|]. apply err_seq_None in Hv as [-> _].
  destruct (EdgePlan.Opaque (EdgeRequest.Plan request)) as [|v|p] eqn:Ho; [by apply yields_ret..|].
  destruct (route_request adapter request p) as [routed|err] eqn:Hr; [|by apply yields_ret].
  apply yields_bind. eapply yields_weaken; [apply execute_children_trace|]. intros es res [_ Hok]. apply yields_ret.
  rewrite app_nil_r. intros r Hres. destruct res as [r'|]; [|done]. injection Hres as <-.
  destruct (Hok r' eq_refl) as (answers&Ha&Hf&->&Hrest). exists p, routed, answers.
  split; try done; [by exists es|]. by rewrite Ha.
Qed.

Lemma route_request_Ok p routed : route_request adapter request p = Ok routed →
  routeReferences "composite edge" "child" (EdgeRequest.ResourceReferences request) = Ok routed ∧
  (∀ d, is_Some (CompositePlan.children p !! d) → is_Some (clients adapter !! d)) ∧
  ∀ d, is_Some (routed !! d) → is_Some (clients adapter !! d).
Proof.
  unfold route_request. intros H. apply lift_check_Ok in H as [Hv H].
  destruct (routeReferences _ _ _) as [m|]; [|done]. simpl in H. apply lift_check_Ok in H as [Hc [= ->]].
  apply first_error_None in Hc. rewrite Forall_forall in Hc.
  unfold validateCompositePlan in Hv. repeat apply err_seq_None in Hv as [_ Hv].
  apply first_error_None in Hv. rewrite Forall_forall in Hv. split_and!; [done|..].
  - intros d [c Hd]. apply elem_of_map_to_list in Hd. specialize (Hv _ Hd). simpl in Hv. by destruct (clients adapter !! d).
  - intros d [c Hd]. apply elem_of_map_to_list in Hd. specialize (Hc _ Hd). simpl in Hc. by destruct (clients adapter !! d).
Qed.

Lemma elem_of_sorted_keys {A} (m : gmap string A) d : d ∈ sorted_keys m ↔ is_Some (m !! d).
Proof.
  unfold sorted_keys. rewrite elem_of_sort_strings, list_elem_of_fmap. split.
  - intros ([k v]&->&Hin). apply elem_of_map_to_list in Hin. by exists v.
  - intros [v Hv]. exists (d, v). split; [done|]. by apply elem_of_map_to_list.
Qed.

Lemma NoDup_sorted_keys {A} (m : gmap string A) : NoDup (sorted_keys m).
Proof. unfold sorted_keys. rewrite sort_strings_perm. apply NoDup_fst_map_to_list. Qed.

(** The answers are those of the planned children. *)
Lemma succeeds_children es r p routed answers : composite_succeeds es r p routed answers →
  NoDup answers.*1 ∧ ∀ d, d ∈ answers.*1 ↔ is_Some (CompositePlan.children p !! d).
Proof.
  intros [_ Hr _ Ha _ _]. rewrite Ha. destruct (route_request_Ok _ _ Hr) as (_&Hc&_). split.
  - apply NoDup_filter, NoDup_sorted_keys.
  - intros d. unfold planned. rewrite list_elem_of_filter. unfold destinations. rewrite elem_of_sorted_keys.
    split; [by intros [[] _]|]. intros Hd. specialize (Hc d Hd). done.
Qed.
End composite_run.

(** ** The references of a composite find their way back *)

Lemma multiline_app a b : multiline (a +:+ b) = multiline a || multiline b.
Proof. unfold multiline, ContainsAny. by rewrite go_bytes_app, existsb_app. Qed.

Lemma validateOpaqueReferences_good name values v : validateOpaqueReferences name values = None → v ∈ values → bad_reference v = false.
Proof.
  intros Hv Hin. apply first_of_None, with_seen_Forall with (x := v) in Hv as [seen Hv]; [|done].
  repeat apply Forall_cons in Hv as [? Hv]. by inv_checks.
Qed.

(** The references a destination answered, over all the answers. *)
Definition answered (answers : list (string * EdgeExecutionResult)) (d : string) : list string :=
  answers ≫= λ a, if bool_decide (a.1 = d) then EdgeResult.ResourceRefs a.2 else [].

Definition routes (answers : list (string * EdgeExecutionResult)) : list (string * string) :=
  answers ≫= λ a, (pair a.1) <$> EdgeResult.ResourceRefs a.2.

Lemma routes_wrapped answers :
  (answers ≫= λ a, wrapReferences a.1 (EdgeResult.ResourceRefs a.2)) = (λ r, wrapReference r.1 r.2) <$> routes answers.
Proof.
  induction answers as [|[d c] answers IH]; [done|]. unfold routes in *. cbn. rewrite fmap_app, IH. f_equal.
  unfold wrapReferences. by rewrite <-list_fmap_compose.
Qed.

Lemma filter_pairs d d' (l : list string) :
  filter (λ r : string * string, r.1 = d) (pair d' <$> l) = if bool_decide (d' = d) then pair d' <$> l else [].
Proof.
  induction l as [|x l IH]; [by case_bool_decide|]. rewrite fmap_cons. case_bool_decide as Hd.
  - by rewrite filter_cons_True, IH.
  - by rewrite filter_cons_False, IH.
Qed.

Lemma routes_answered answers d : snd <$> filter (λ r, r.1 = d) (routes answers) = answered answers d.
Proof.
  induction answers as [|[d' c] answers IH]; [done|]. unfold routes, answered in *. rewrite !bind_cons, filter_app, fmap_app, IH. f_equal.
  cbn [fst snd]. rewrite filter_pairs. case_bool_decide; [|done]. rewrite <-list_fmap_compose. by apply list_fmap_id.
Qed.

Section returns.
Context {W : Type} (env : waiter W).

(** The references a composite hands out find their way back.  When an
    action succeeds and the destinations are names on one line, routing the
    references of the result succeeds, and it gives every destination exactly
    the references that destination answered. *)
Theorem composite_references_return (adapter : CompositeAdapter W) request w r :
  outcome (composite_ExecuteEdge env adapter request) w = Ok r →
  (∀ d, d ∈ destinations adapter → bad_reference d = false) →
  ∃ p sent answers routed,
    composite_succeeds adapter request (events (composite_ExecuteEdge env adapter request) w) r p sent answers ∧
    routeReferences "composite edge" "child" (EdgeResult.ResourceRefs r) = Ok routed ∧
    ∀ d, default [] (routed !! d) ≡ₚ answered answers d.
Proof.
  intros Hr Hds. destruct (composite_ExecuteEdge_trace env adapter request w r Hr) as (p&sent&answers&Hs).
  exists p, sent, answers. pose proof Hs as [_ _ (calls&_&Hcalls) Hplanned -> _].
  assert (Hroutes : Forall (λ r, routable r.1 r.2) (routes answers)).
  { apply Forall_forall. intros [d x] Hin. unfold routes in Hin. apply list_elem_of_bind in Hin as ([d' c]&Hin&Ha).
    apply list_elem_of_fmap in Hin as (y&[= -> ->]&Hy). simpl in *.
    assert (Hd : bad_reference d' = false).
    { apply Hds. assert (d' ∈ answers.*1) as Hin by (apply list_elem_of_fmap; by exists (d', c)).
      rewrite Hplanned in Hin. by apply list_elem_of_filter in Hin as [_ Hin]. }
    assert (Hbad : bad_reference y = false).
    { apply Forall2_Forall_r with (Q := λ a : string * EdgeExecutionResult, ∀ y, y ∈ EdgeResult.ResourceRefs a.2 → bad_reference y = false) in Hcalls.
      - rewrite Forall_forall in Hcalls. by apply (Hcalls _ Ha).
      - apply Forall_true. intros e a (plan&_&_&Hv) z Hz. unfold ValidateEdgeExecutionResult in Hv. inv_checks.
        eapply validateOpaqueReferences_good; [done|]. apply elem_of_app. by left. }
    unfold bad_reference in *. apply orb_false_iff in Hd as [Hd1 Hd2], Hbad as [Hb1 Hb2].
    split_and!; [done|by apply blank_false_nonempty|by rewrite multiline_app, Hd2]. }
  cbn [EdgeResult.ResourceRefs finish_result]. destruct (join_all_refs answers (empty_result request)) as [-> _]. cbn [app empty_result EdgeResult.ResourceRefs].
  rewrite routes_wrapped.
  pose proof (sort_strings_perm ((λ r, wrapReference r.1 r.2) <$> routes answers)) as Hperm.
  apply Permutation_map_inv in Hperm as (routes'&He&Hp). rewrite He.
  exists (fold_left add_route routes' ∅). split_and!; [done| |].
  - apply route_wrapped. by rewrite <-Hp.
  - intros d. rewrite fold_routes_lookup, lookup_empty. simpl. rewrite <-Hp. by rewrite routes_answered.
Qed.

(** C28: no composite passes the shared gate for traffic.  Whatever its children
    prove, an apply, a verify, a failover or a rollback of a composite through
    [RunEdgeLifecycle] ends in an error: the origin-health proof of a child is
    wrapped in base64, where the gate does not find it. *)
Theorem RunEdgeLifecycle_composite_refused (adapter : CompositeAdapter W) url_Parse action key references approval request w :
  action ∈ traffic_actions →
  let run := RunEdgeLifecycle url_Parse (composite_adapter env url_Parse adapter) action key references approval request in
  is_ok (outcome run w).2 = false.
Proof.
  intros Haction run. unfold run, RunEdgeLifecycle. destruct (_ ;;? _); [done|].
  rewrite outcome_bind, outcome_call, final_call. destruct (PlanEdge _ request w) as [[plan|err] w1]; cbn [fst snd]; [|done].
  cbv zeta. destruct (_ ;;? _); [done|]. rewrite outcome_bind, outcome_call, final_call.
  cbn [ExecuteEdge composite_adapter fst snd]. set (executionRequest := edge_execution _ _ _ _ plan).
  destruct (outcome (composite_ExecuteEdge env adapter executionRequest) w1) as [r|err] eqn:Hr; [|done]. cbn [outcome fst snd mret eff_ret].
  destruct (ValidateEdgeExecutionResult executionRequest r) eqn:Hv; [done|]. exfalso.
  destruct (composite_ExecuteEdge_trace env adapter executionRequest w1 r Hr) as (p&sent&answers&[_ _ _ _ -> _]).
  unfold ValidateEdgeExecutionResult, ValidateEdgeSafetyProofs in Hv. repeat apply err_seq_None in Hv as [_ Hv].
  change (EdgeRequest.Action executionRequest) with action in Hv. rewrite bool_decide_eq_true_2 in Hv by done.
  apply fail_if_None, negb_false_iff in Hv. cbn [EdgeResult.ProofRefs finish_result] in Hv.
  destruct (join_all_refs answers (empty_result executionRequest)) as [_ Hp]. rewrite Hp in Hv. clear Hp.
  cbn [app empty_result EdgeResult.ProofRefs] in Hv. apply containsEdgeProof_one in Hv as (x&Hx&Hproof).
  rewrite elem_of_sort_strings in Hx. apply list_elem_of_bind in Hx as ([d c]&Hx&_).
  apply list_elem_of_fmap in Hx as (y&->&_). by rewrite wrapped_no_proof in Hproof.
Qed.

(** What a composite action that succeeds has done.  Every planned child was
    executed exactly once, in the order of the destinations, with its own plan,
    a key of its own and the references of the request that name it, and no
    reference was dropped; each answer passed the checks of an edge result; and
    the joined result has the action and the owner of the request. *)
Theorem composite_executes_planned (adapter : CompositeAdapter W) request w r :
  outcome (composite_ExecuteEdge env adapter request) w = Ok r →
  ∃ p routed answers calls,
    EdgePlan.Opaque (EdgeRequest.Plan request) = AnyComposite p ∧
    routeReferences "composite edge" "child" (EdgeRequest.ResourceReferences request) = Ok routed ∧
    events (composite_ExecuteEdge env adapter request) w = EvCompositeContext None :: calls ∧
    Forall2 (child_executed request (CompositePlan.children p) routed) calls answers ∧
    NoDup answers.*1 ∧ answers.*1 `sublist_of` destinations adapter ∧
    (∀ d, d ∈ answers.*1 ↔ is_Some (CompositePlan.children p !! d)) ∧
    (∀ d, default [] (routed !! d) ≠ [] → d ∈ answers.*1) ∧
    EdgeResult.Action r = EdgeRequest.Action request ∧ EdgeResult.OwnershipMarker r = EdgeRequest.OwnershipMarker request.
Proof.
  intros Hr. destruct (composite_ExecuteEdge_trace env adapter request w r Hr) as (p&routed&answers&Hs).
  pose proof (succeeds_children _ _ _ _ _ _ _ Hs) as [Hnd Hin].
  destruct Hs as [Ho Hroute (calls&He&Hc) Hp -> Hrest]. destruct (route_request_Ok _ _ _ _ Hroute) as (Hm&_&Hknown).
  exists p, routed, answers, calls. destruct (join_all_scope answers (empty_result request)) as [Ha Hw].
  split_and!; try done; [rewrite Hp; apply sublist_filter|].
  intros d Hd. destruct (decide (d ∈ answers.*1)) as [|Hn]; [done|]. exfalso. apply Hd, Hrest; [|done].
  apply elem_of_sorted_keys, Hknown. destruct (routed !! d); [by eexists|done].
Qed.

Lemma plan_children_none adapter request ds children : (∀ d, d ∈ ds → childPlanRequest request d = None) →
  plan_children (W:=W) adapter request ds children = mret (Ok children).
Proof.
  induction ds as [|d ds IH]; intros Hn; [done|]. cbn [plan_children]. rewrite Hn by constructor. apply IH.
  intros d' Hd. apply Hn. by constructor.
Qed.

Lemma execute_children_none adapter request ds r :
  execute_children (W:=W) adapter request ∅ ∅ ds r = mret (Ok r).
Proof. induction ds as [|d ds IH]; [done|]. cbn [execute_children]. by rewrite !lookup_empty. Qed.

Lemma validateID_empty name : validateID name "" ≠ None.
Proof. by vm_compute. Qed.

Lemma fresh_plan_routes (adapter : CompositeAdapter W) request key :
  EdgePlanRequest.TargetProvider request = provider adapter → provider adapter ≠ "" →
  EdgePlanRequest.TargetRuntime request ≠ "" →
  route_request adapter (edge_execution EdgeDestroy key [] "" (composite_plan adapter request ∅))
    (planned_children adapter request ∅) = Ok ∅.
Proof.
  intros Hprov Hpr Hru. unfold route_request, validateCompositePlan.
  cbn [edge_execution EdgeRequest.Plan EdgeRequest.OwnershipMarker EdgeRequest.ResourceReferences composite_plan planned_children
       EdgePlan.AdapterID EdgePlan.TargetProvider EdgePlan.TargetRuntime EdgePlan.OwnershipMarker
       CompositePlan.adapterID CompositePlan.targetProvider CompositePlan.targetRuntime CompositePlan.ownershipMarker
       CompositePlan.childRoutingDigest CompositePlan.children].
  rewrite Hprov. repeat rewrite (bool_decide_eq_true_2 (_ = _)) by reflexivity.
  assert (Hid : EdgeAdapterDescriptor.ID (composite_descriptor adapter) ≠ "").
  { cbn. intros He. apply (f_equal go_bytes) in He. rewrite go_bytes_app in He. by apply app_eq_nil in He as [_ ?]. }
  assert (Hdg : compositeChildRoutingDigest (∅ : gmap string (EdgePlan any)) ≠ "") by (by vm_compute).
  rewrite !bool_decide_eq_false_2, map_to_list_empty by done. repeat rewrite (bool_decide_eq_true_2 (_ = _)) by reflexivity.
  unfold routeReferences. cbn. by rewrite map_to_list_empty.
Qed.

(** A destination nobody serves is planned and executed as nothing.  When no
    adapter of the composite matches the providers of the intent, planning
    succeeds without asking any adapter, and a destroy of that plan succeeds,
    ownership and idempotency declared verified, without any call either. *)
Theorem composite_unknown_destination (adapter : CompositeAdapter W) url_Parse request plan key w w' :
  outcome (composite_PlanEdge env url_Parse adapter request) w = Ok plan →
  (∀ d, d ∈ destinations adapter → childPlanRequest request d = None) →
  bad_reference key = false → (ctx_err env w').1 = None →
  let execution := edge_execution EdgeDestroy key [] "" plan in
  events (composite_PlanEdge env url_Parse adapter request) w = [EvCompositeContext None] ∧
  events (composite_ExecuteEdge env adapter execution) w' = [EvCompositeContext None] ∧
  ∃ r, outcome (composite_ExecuteEdge env adapter execution) w' = Ok r ∧
    EdgeResult.OwnershipVerified r = true ∧ EdgeResult.IdempotencyVerified r = true.
Proof.
  intros Hplan Hnone Hkey Hctx. unfold composite_PlanEdge, composite_context in *.
  rewrite outcome_bind, outcome_call, final_call in Hplan. rewrite events_bind, events_call, outcome_call, final_call.
  destruct ((ctx_err env w).1 ;;? _) as [err|] eqn:Hv; [done|].
  apply err_seq_None in Hv as [-> Hv]. apply err_seq_None in Hv as [Hprov Hv].
  apply fail_if_None, negb_false_iff, bool_decide_eq_true in Hprov.
  rewrite plan_children_none in Hplan |- * by done. rewrite outcome_bind, outcome_ret in Hplan. cbn in Hplan.
  apply lift_check_Ok in Hplan as [_ [= <-]]. split; [by rewrite events_bind|].
  apply errors_Join_None in Hv. apply Forall_cons in Hv as [Hp Hv]. apply Forall_cons in Hv as [Hrt _].
  unfold composite_ExecuteEdge, composite_context. rewrite events_bind, outcome_bind, events_call, outcome_call, final_call, Hctx.
  set (execution := edge_execution _ _ _ _ _).
  assert (Hreq : ValidateEdgeExecutionRequest execution = None).
  { unfold ValidateEdgeExecutionRequest. cbn [execution edge_execution EdgeRequest.IdempotencyKey EdgeRequest.OwnershipMarker EdgeRequest.Plan
      EdgeRequest.Action EdgeRequest.ResourceReferences EdgeRequest.ApprovalReference]. rewrite Hkey, (bool_decide_eq_true_2 (_ = _)) by done. done. }
  rewrite Hreq. cbn [err_seq].
  assert (Hroute : route_request adapter execution (planned_children adapter request ∅) = Ok ∅).
  { apply fresh_plan_routes; [done|..]; intros He.
    - rewrite Hprov, He in Hp. by apply validateID_empty in Hp.
    - rewrite He in Hrt. by apply validateID_empty in Hrt. }
  cbn [execution edge_execution EdgeRequest.Plan composite_plan EdgePlan.Opaque]. rewrite Hroute.
  rewrite execute_children_none by done. rewrite events_bind, outcome_bind, events_ret, outcome_ret. split; [done|].
  by eexists.
Qed.
End returns.

(** ** Examples *)

Module EdgeExample.

Definition open_context : waiter nat := {| ctx_err := λ w, (None, w); wait := λ _ w, (None, w) |}.
Definition no_url : string → result url := λ _, Err (ErrNew "no URL").

Definition descriptor : EdgeAdapterDescriptor :=
  {| EdgeAdapterDescriptor.APIVersion := "v1"; EdgeAdapterDescriptor.ID := "cdn"; EdgeAdapterDescriptor.Provider := "aws";
     EdgeAdapterDescriptor.Version := "1.0.0"; EdgeAdapterDescriptor.Capabilities := [EdgeApply; EdgeVerify; EdgeDestroy] |}.

Definition plan : EdgePlan any :=
  {| EdgePlan.AdapterID := "cdn"; EdgePlan.TargetProvider := "aws"; EdgePlan.TargetRuntime := "ecs";
     EdgePlan.OwnershipMarker := "shop"; EdgePlan.Outputs := []; EdgePlan.Opaque := AnyNil |}.

Definition observed (status : string) : EdgeOperationObservation :=
  {| EdgeObservation.Status := status; EdgeObservation.Action := ""; EdgeObservation.OperationID := "op-1";
     EdgeObservation.ResourceRefs := ["dist-1"]; EdgeObservation.ProofRefs := []; EdgeObservation.Outputs := [];
     EdgeObservation.OwnershipMarker := "shop"; EdgeObservation.OwnershipVerified := true;
     EdgeObservation.IdempotencyVerified := true; EdgeObservation.Detail := "" |}.

Definition listed (live : bool) : list EdgeInventoryResource :=
  [{| EdgeInventory.Identity := "dist-1"; EdgeInventory.OwnershipMarker := "shop"; EdgeInventory.Owned := true;
      EdgeInventory.Live := live |}].

(** The world counts the calls of the provider: it is done after two polls, and
    the inventory is clean the second time. *)
Definition api : EdgeOperationAPI any nat :=
  {| api_Plan := λ _ w, (Ok plan, w); api_Start := λ _ w, (Ok (observed EdgeOperationPending), w);
     api_Poll := λ _ w, (Ok (observed (if bool_decide (w < 1)%nat then EdgeOperationRunning else EdgeOperationSucceeded)), S w);
     api_Inventory := λ _ w, (Ok (listed (bool_decide (w < 3)%nat)), S w) |}.

Definition policy : EdgeOperationPolicy :=
  {| EdgePolicy.Timeout := 60; EdgePolicy.PollInterval := 1; EdgePolicy.MaxAttempts := 5 |}.

Definition destroy : EdgeExecutionRequest any := edge_execution EdgeDestroy "key-1" [] "" plan.

Definition destroyed : EdgeExecutionResult :=
  {| EdgeResult.Action := EdgeDestroy; EdgeResult.OperationID := "op-1"; EdgeResult.ResourceRefs := ["dist-1"];
     EdgeResult.ProofRefs := []; EdgeResult.Outputs := []; EdgeResult.OwnershipMarker := "shop";
     EdgeResult.OwnershipVerified := true; EdgeResult.IdempotencyVerified := true |}.

Definition backed : OperationBackedEdgeAdapter := {| backed_descriptor := descriptor; backed_policy := policy |}.

Lemma ExecuteEdge_verified_witness : ∃ es resources,
  events (backed_ExecuteEdge open_context api backed destroy) 0%nat = es ++ [EvInventory "shop" (Ok resources)] ∧
  cleaned "shop" resources.
Proof.
  destruct (ExecuteEdge_verified open_context api backed destroy 0%nat destroyed ltac:(reflexivity))
    as (operation&started&polled&waited&o&He&_&_&_&_&_&_&Hd).
  destruct Hd as (before&resources&->&Hc). exists (EvStartEdge operation (Ok started) :: polled ++ before), resources.
  split; [|exact Hc]. rewrite He. by rewrite <-app_comm_cons, <-app_assoc.
Defined.

(** A composite over one destination, whose adapter answers from its plan. *)
Definition healthy (request : EdgeExecutionRequest any) : EdgeExecutionResult :=
  {| EdgeResult.Action := EdgeRequest.Action request; EdgeResult.OperationID := "op-1"; EdgeResult.ResourceRefs := ["dist-1"; "dist-2"];
     EdgeResult.ProofRefs := ["aws.cdn.origin-health"]; EdgeResult.Outputs := []; EdgeResult.OwnershipMarker := "shop";
     EdgeResult.OwnershipVerified := true; EdgeResult.IdempotencyVerified := true |}.

Definition child : EdgeAdapter any nat :=
  {| EdgeDescriptor := descriptor; PlanEdge := λ _ w, (Ok plan, w); ExecuteEdge := λ request w, (Ok (healthy request), S w) |}.

Definition composite : CompositeAdapter nat := {| provider := "aws"; clients := {["cdn" := child]} |}.

Definition intent (native : string) : EdgeIntent :=
  {| EdgeIntent.ExternalProvider := ""; EdgeIntent.Lifecycle := ""; EdgeIntent.Certification := ""; EdgeIntent.Mode := "native";
     EdgeIntent.NativeProvider := native; EdgeIntent.CredentialRefs := []; EdgeIntent.ServiceReference := "";
     EdgeIntent.Domains := []; EdgeIntent.TLS := false; EdgeIntent.TLSMode := ""; EdgeIntent.DNSMode := "";
     EdgeIntent.PurgeOnDeploy := false; EdgeIntent.PolicyReference := ""; EdgeIntent.OriginHealthRef := "health";
     EdgeIntent.CachePolicyRef := ""; EdgeIntent.PurgePolicyRef := ""; EdgeIntent.WAFPolicyRef := "";
     EdgeIntent.FailoverPolicyRef := ""; EdgeIntent.OwnershipMarker := "shop";
     EdgeIntent.Health := {| EdgeHealthIntent.OriginURL := ""; EdgeHealthIntent.OriginHost := "";
       EdgeHealthIntent.ExpectedRouteTarget := ""; EdgeHealthIntent.RoutePath := ""; EdgeHealthIntent.ExpectedStatus := 0;
       EdgeHealthIntent.RouteTimeoutSeconds := 0; EdgeHealthIntent.RoutePollSeconds := 0 |} |}.

Definition plan_request (native : string) : EdgePlanRequest :=
  {| EdgePlanRequest.TargetProvider := "aws"; EdgePlanRequest.TargetRuntime := "ecs"; EdgePlanRequest.Intent := intent native;
     EdgePlanRequest.Configuration := ∅ |}.

Definition applying : EdgeExecutionRequest any :=
  edge_execution EdgeApply "key-1" [] "" (composite_plan composite (plan_request "cdn") {["cdn" := plan]}).

(** What the composite answers, computed once. *)
Definition applied : EdgeExecutionResult := Eval vm_compute in
  match outcome (composite_ExecuteEdge open_context composite applying) 0%nat with Ok r => r | Err _ => EdgeResult.zero end.

Lemma composite_references_return_witness : ∃ routed answers,
  routeReferences "composite edge" "child" (EdgeResult.ResourceRefs applied) = Ok routed ∧
  default [] (routed !! "cdn") ≡ₚ answered answers "cdn".
Proof.
  destruct (composite_references_return open_context composite applying 0%nat applied) as (p&sent&answers&routed&Hs&Hr&Hd).
  - vm_compute. reflexivity.
  - intros d Hd. vm_compute in Hd. apply list_elem_of_singleton in Hd as ->. reflexivity.
  - exists routed, answers. split; [exact Hr|exact (Hd "cdn")].
Defined.

Lemma RunEdgeLifecycle_composite_refused_witness :
  is_ok (outcome (RunEdgeLifecycle no_url (composite_adapter open_context no_url composite) EdgeApply "key-1" [] ""
                    (plan_request "cdn")) 0%nat).2 = false.
Proof.
  refine (RunEdgeLifecycle_composite_refused open_context composite no_url EdgeApply "key-1" [] "" (plan_request "cdn") 0%nat _).
  constructor.
Defined.

Lemma composite_executes_planned_witness : ∃ calls : list composite_event,
  events (composite_ExecuteEdge open_context composite applying) 0%nat = EvCompositeContext None :: calls ∧
  EdgeResult.Action applied = EdgeApply.
Proof.
  destruct (composite_executes_planned open_context composite applying 0%nat applied)
    as (p&routed&answers&calls&_&_&He&_&_&_&_&_&Ha&_).
  - vm_compute. reflexivity.
  - exists calls. split; [exact He|exact Ha].
Defined.

(** No adapter of the composite serves "akamai". *)
Definition unserved : EdgePlan any := composite_plan composite (plan_request "akamai") ∅.

Lemma composite_unknown_destination_witness :
  events (composite_PlanEdge open_context no_url composite (plan_request "akamai")) 0%nat = [EvCompositeContext None] ∧
  ∃ r, outcome (composite_ExecuteEdge open_context composite (edge_execution EdgeDestroy "key-1" [] "" unserved)) 0%nat = Ok r.
Proof.
  destruct (composite_unknown_destination open_context composite no_url (plan_request "akamai") unserved "key-1" 0%nat 0%nat)
    as (Hp&_&r&Hr&_).
  - vm_compute. reflexivity.
  - intros d Hd. vm_compute in Hd. apply list_elem_of_singleton in Hd as ->. reflexivity.
  - reflexivity.
  - reflexivity.
  - split; [exact Hp|]. exists r. exact Hr.
Defined.
End EdgeExample.
