(* ===== verification/Observability.v ===== *)
(** * Observability adapters (sdk/integrations.go, sdk/integration_lifecycle.go)

    The port of an observability adapter with its validators and the shared plan
    and execute gate [RunObservabilityLifecycle].  The [any] an adapter keeps in
    its plan is a type [O]; the world behind an adapter is [W].  Contexts and
    adapters are there: the nil ones are refused before anything else. *)

From Stdlib Require Import QArith.
From S2P Require Import Prelude GoStrings GoEncoding Sdk Admission Architecture Resilience Lifecycle Edge.

Local Open Scope Z_scope.

(* sdk/integrations.go, lines 207-211: ObservabilityAction *)
Definition observability_actions : list string := ["apply"; "verify"; "destroy"].
(* sdk/integrations.go, lines 208-208: ObservabilityApply *)
Definition ObservabilityApply := "apply".
(* sdk/integrations.go, lines 209-209: ObservabilityVerify *)
Definition ObservabilityVerify := "verify".
(* sdk/integrations.go, lines 210-210: ObservabilityDestroy *)
Definition ObservabilityDestroy := "destroy".

(** ** Data *)

Module ObservabilityAdapterDescriptor.
(* sdk/integrations.go, lines 213-219: ObservabilityAdapterDescriptor *)
Record ObservabilityAdapterDescriptor := {
  APIVersion : string;
  ID : string;
  Provider : string;
  Version : string;
  Capabilities : list string;
}.
End ObservabilityAdapterDescriptor.
Notation ObservabilityAdapterDescriptor := ObservabilityAdapterDescriptor.ObservabilityAdapterDescriptor.

Module ObservabilityPlanRequest.
(* sdk/integrations.go, lines 221-226: ObservabilityPlanRequest *)
Record ObservabilityPlanRequest := {
  TargetProvider : string;
  TargetRuntime : string;
  Intent : ObservabilityIntent;
  Configuration : gmap string json;
}.
End ObservabilityPlanRequest.
Notation ObservabilityPlanRequest := ObservabilityPlanRequest.ObservabilityPlanRequest.

Module ObservabilityBinding.
(* sdk/integrations.go, lines 228-236: ObservabilityBinding *)
Record ObservabilityBinding := {
  Signal : string;
  Destination : string;
  Mode : string;
  CredentialRef : string;
  Endpoint : string;
  RetentionDays : Z;
  RedactionPolicy : string;
}.
End ObservabilityBinding.
Notation ObservabilityBinding := ObservabilityBinding.ObservabilityBinding.

Module ObservabilityPlan.
(* sdk/integrations.go, lines 238-261: ObservabilityPlan *)
Record ObservabilityPlan (O : Type) := {
  AdapterID : string;
  TargetProvider : string;
  TargetRuntime : string;
  OwnershipMarker : string;
  NativeReference : string;
  Bindings : list ObservabilityBinding;
  Alerts : list AlertIntent;
  Dashboards : list DashboardIntent;
  SLOs : list SLOIntent;
  DataResidency : string;
  UnavailableSignals : list string;
  UnavailableOperations : list string;
  Outputs : list AdapterOutput;
  Opaque : O;
}.
Arguments AdapterID {O} _.
Arguments TargetProvider {O} _.
Arguments TargetRuntime {O} _.
Arguments OwnershipMarker {O} _.
Arguments NativeReference {O} _.
Arguments Bindings {O} _.
Arguments Alerts {O} _.
Arguments Dashboards {O} _.
Arguments SLOs {O} _.
Arguments DataResidency {O} _.
Arguments UnavailableSignals {O} _.
Arguments UnavailableOperations {O} _.
Arguments Outputs {O} _.
Arguments Opaque {O} _.
End ObservabilityPlan.
Notation ObservabilityPlan := ObservabilityPlan.ObservabilityPlan.

Module ObservabilityRequest.
(* sdk/integrations.go, lines 263-270: ObservabilityExecutionRequest *)
Record ObservabilityExecutionRequest (O : Type) := {
  Plan : ObservabilityPlan O;
  Action : string;
  IdempotencyKey : string;
  OwnershipMarker : string;
  ApprovalReference : string;
  ResourceReferences : list string;
}.
Arguments Plan {O} _.
Arguments Action {O} _.
Arguments IdempotencyKey {O} _.
Arguments OwnershipMarker {O} _.
Arguments ApprovalReference {O} _.
Arguments ResourceReferences {O} _.
End ObservabilityRequest.
Notation ObservabilityExecutionRequest := ObservabilityRequest.ObservabilityExecutionRequest.

Module ObservabilityResult.
(* sdk/integrations.go, lines 272-280: ObservabilityExecutionResult *)
Record ObservabilityExecutionResult := {
  Action : string;
  OperationID : string;
  ResourceRefs : list string;
  ProofRefs : list string;
  OwnershipMarker : string;
  OwnershipVerified : bool;
  IdempotencyVerified : bool;
}.
End ObservabilityResult.
Notation ObservabilityExecutionResult := ObservabilityResult.ObservabilityExecutionResult.

(** ** Equality of operational objects

    Go compares the structs field by field and a float with [==]: NaN differs
    from itself. *)

Definition float_eq (a b : float64) : bool :=
  match a, b with
  | Infinite n, Infinite m => Bool.eqb n m
  | Finite p, Finite q => Qeq_bool p q
  | _, _ => false
  end.

(* sdk/types.go, lines 149-160: AlertIntent *)
Definition alert_eq (a b : AlertIntent) : bool :=
  let same (field : AlertIntent → string) := bool_decide (field a = field b) in
  same AlertIntent.ID && same AlertIntent.Signal && same AlertIntent.Severity && same AlertIntent.Operator
  && float_eq (AlertIntent.Threshold a) (AlertIntent.Threshold b)
  && (AlertIntent.WindowSeconds a =? AlertIntent.WindowSeconds b)
  && same AlertIntent.Owner && same AlertIntent.RunbookURL && same AlertIntent.DeduplicationKey
  && same AlertIntent.MaintenancePolicyRef.

(* sdk/types.go, lines 173-181: SLOIntent *)
Definition slo_eq (a b : SLOIntent) : bool :=
  let same (field : SLOIntent → string) := bool_decide (field a = field b) in
  same SLOIntent.ID && same SLOIntent.Signal && float_eq (SLOIntent.Target a) (SLOIntent.Target b)
  && (SLOIntent.WindowSeconds a =? SLOIntent.WindowSeconds b)
  && same SLOIntent.Owner && same SLOIntent.RunbookURL && same SLOIntent.ErrorBudgetPolicy.

(** As many items as expected, each of them the expected one of its name. *)
Definition items_match {A} (id : A → string) (same : A → A → bool) (actual expected : list A) : bool :=
  bool_decide (length actual = length expected)
  && forallb (λ x, match by_id id expected !! id x with Some y => same x y | None => false end) actual.

(* sdk/integrations.go, lines 485-500: observabilityAlertsMatch *)
Definition observabilityAlertsMatch : list AlertIntent → list AlertIntent → bool := items_match AlertIntent.ID alert_eq.

(* sdk/integrations.go, lines 536-548: equalStringSet *)
Definition equalStringSet (actual expected : list string) : bool :=
  bool_decide (SortedStrings actual = SortedStrings expected).

(* sdk/integrations.go, lines 502-517: observabilityDashboardsMatch *)
Definition observabilityDashboardsMatch : list DashboardIntent → list DashboardIntent → bool :=
  items_match DashboardIntent.ID (λ d e,
    bool_decide (DashboardIntent.Owner d = DashboardIntent.Owner e)
    && equalStringSet (DashboardIntent.Signals d) (DashboardIntent.Signals e)).

(* sdk/integrations.go, lines 519-534: observabilitySLOsMatch *)
Definition observabilitySLOsMatch : list SLOIntent → list SLOIntent → bool := items_match SLOIntent.ID slo_eq.

(** ** Validators *)

Section descriptor.
Import ObservabilityAdapterDescriptor.

(* sdk/integrations.go, lines 341-365: ValidateObservabilityAdapterDescriptor *)
Definition ValidateObservabilityAdapterDescriptor (d : ObservabilityAdapterDescriptor) : gerror :=
  errors_Join (
    [fail_if (negb (bool_decide (APIVersion d = "v1")))
       (errorf "observability adapter API version %q is not supported" [GStr (APIVersion d)]);
     validateID "observability adapter ID" (ID d);
     validateID "observability adapter provider ID" (Provider d);
     validateExtensionVersion (Version d);
     fail_if (bool_decide (Capabilities d = [])) (ErrNew "observability adapter must declare at least one capability")]
    ++ known_values (λ c, bool_decide (c ∈ observability_actions)) "invalid observability adapter capability %q"
         "duplicate observability adapter capability %q" (Capabilities d)).
End descriptor.

(* sdk/integrations.go, lines 367-374: observabilityActionSupported *)
Definition observabilityActionSupported (capabilities : list string) (action : string) : bool :=
  bool_decide (action ∈ capabilities).

(* sdk/integrations.go, lines 312-330: ValidateObservabilityApplyPlan *)
Definition ValidateObservabilityApplyPlan {O} (plan : ObservabilityPlan O) : gerror :=
  first_error (validateID "unavailable observability signal") (ObservabilityPlan.UnavailableSignals plan)
  ;;? first_error (validateID "unavailable observability operation") (ObservabilityPlan.UnavailableOperations plan)
  ;;? match ObservabilityPlan.UnavailableSignals plan, ObservabilityPlan.UnavailableOperations plan with
      | signal :: _, _ => Some (ErrTyped "ObservabilityCapabilityError" [GStr signal; GStr ""; GStr ""])
      | [], operation :: _ => Some (ErrTyped "ObservabilityCapabilityError" [GStr ""; GStr operation; GStr ""])
      | [], [] => None
      end.

Section validators.
Context (url_Parse : string → result url).

(* sdk/integrations.go, lines 376-384: ValidateObservabilityPlanRequest *)
Definition ValidateObservabilityPlanRequest (request : ObservabilityPlanRequest) : gerror :=
  errors_Join
    [validateID "observability target provider" (ObservabilityPlanRequest.TargetProvider request);
     validateID "observability target runtime" (ObservabilityPlanRequest.TargetRuntime request);
     ValidateObservabilityIntent url_Parse (ObservabilityPlanRequest.Intent request)].

Context {O : Type}.

Section plan.
Import ObservabilityPlan.

(** Every requested signal is bound or declared unavailable, and nothing else. *)
(* sdk/integrations.go, lines 451-483: validateObservabilitySignalProjection *)
Definition validateObservabilitySignalProjection (plan : ObservabilityPlan O) (intent : ObservabilityIntent) : gerror :=
  let requested := ObservabilityIntent.Signals intent in
  let projected := ObservabilityBinding.Signal <$> Bindings plan in
  first_error (λ signal, fail_if (negb (bool_decide (signal ∈ requested)))
    (errorf "observability plan contains unrequested signal %q" [GStr signal])) projected
  ;;? first_of (with_seen (λ seen signal,
        [fail_if (negb (bool_decide (signal ∈ requested)))
           (errorf "observability plan marks unrequested signal %q unavailable" [GStr signal]);
         fail_if (bool_decide (signal ∈ seen)) (errorf "duplicate unavailable observability signal %q" [GStr signal])])
        [] (UnavailableSignals plan))
  ;;? first_error (λ signal,
        fail_if (negb (bool_decide (signal ∈ projected)) && negb (bool_decide (signal ∈ UnavailableSignals plan)))
          (errorf "observability plan dropped requested signal %q without an unavailable capability" [GStr signal])) requested.

(* sdk/integrations.go, lines 422-437: ValidateObservabilityPlan *)
Definition validate_binding (b : ObservabilityBinding) : list gerror :=
  let reference := ObservabilityBinding.CredentialRef b in
  [validateID "observability binding signal" (ObservabilityBinding.Signal b);
   validateID "observability binding destination" (ObservabilityBinding.Destination b);
   if bool_decide (reference = "") then None
   else err_wrap (wrapf "observability binding credential: %w" []) (ValidateCredentialReference url_Parse reference);
   fail_if (ObservabilityBinding.RetentionDays b <? 0)
     (errorf "observability binding %q retention cannot be negative" [GStr (ObservabilityBinding.Signal b)])].

(* sdk/integrations.go, lines 386-449: ValidateObservabilityPlan *)
Definition ValidateObservabilityPlan (plan : ObservabilityPlan O) (request : ObservabilityPlanRequest) : gerror :=
  let intent := ObservabilityPlanRequest.Intent request in
  errors_Join (
    [fail_if (blank (AdapterID plan)) (ErrNew "observability plan adapter ID is required");
     fail_if (negb (bool_decide (TargetProvider plan = ObservabilityPlanRequest.TargetProvider request))
              || negb (bool_decide (TargetRuntime plan = ObservabilityPlanRequest.TargetRuntime request)))
       (ErrNew "observability plan target does not match the plan request");
     fail_if (blank (OwnershipMarker plan)
              && (activeProvider (ObservabilityIntent.NativeProvider intent)
                  || activeProvider (ObservabilityIntent.ExternalProvider intent)))
       (ErrNew "observability plan ownership marker is required for an active destination");
     fail_if (multiline (DataResidency plan)) (ErrNew "observability plan data residency must be single-line and NUL-free");
     fail_if (multiline (NativeReference plan)) (ErrNew "observability plan native reference must be single-line and NUL-free");
     fail_if (negb (bool_decide (NativeReference plan = ObservabilityIntent.NativeReference intent)))
       (ErrNew "observability plan must preserve the native reference");
     fail_if (negb (bool_decide (DataResidency plan = ObservabilityIntent.DataResidency intent)))
       (ErrNew "observability plan must preserve data residency");
     fail_if (negb (observabilityAlertsMatch (Alerts plan) (ObservabilityIntent.Alerts intent))
              || negb (observabilityDashboardsMatch (Dashboards plan) (ObservabilityIntent.Dashboards intent))
              || negb (observabilitySLOsMatch (SLOs plan) (ObservabilityIntent.SLOs intent)))
       (ErrNew "observability plan must preserve all requested alerts, dashboards, and SLOs");
     validateObservabilitySignalProjection plan intent]
    ++ (validateAlertIntent url_Parse <$> Alerts plan)
    ++ (validateDashboardIntent <$> Dashboards plan)
    ++ (validateSLOIntent url_Parse <$> SLOs plan)
    ++ (Bindings plan ≫= validate_binding)
    ++ (validateID "unavailable observability signal" <$> UnavailableSignals plan)
    ++ (validateID "unavailable observability operation" <$> UnavailableOperations plan)).
End plan.

Section execution.
Import ObservabilityRequest.

(* sdk/integrations.go, lines 555-572: ValidateObservabilityExecutionRequest *)
Definition ValidateObservabilityExecutionRequest (request : ObservabilityExecutionRequest O) : gerror :=
  fail_if (negb (bool_decide (Action request ∈ observability_actions)))
    (errorf "invalid observability execution action %q" [GStr (Action request)])
  ;;? fail_if (bad_reference (IdempotencyKey request))
        (ErrNew "observability execution idempotency key is required and must be single-line")
  ;;? fail_if (negb (bool_decide (OwnershipMarker request = ObservabilityPlan.OwnershipMarker (Plan request))))
        (ErrNew "observability execution ownership marker does not match the plan")
  ;;? fail_if (multiline (ApprovalReference request)) (ErrNew "observability execution approval reference must be single-line")
  ;;? validateOpaqueReferences "observability execution resource reference" (ResourceReferences request).
End execution.

(* sdk/integration_lifecycle.go, lines 147-158: ValidateObservabilityExecutionResult *)
Definition ValidateObservabilityExecutionResult (request : ObservabilityExecutionRequest O)
    (r : ObservabilityExecutionResult) : gerror :=
  fail_if (negb (bool_decide (ObservabilityResult.Action r = ObservabilityRequest.Action request)))
    (errorf "observability execution result action %q does not match request %q"
       [GStr (ObservabilityResult.Action r); GStr (ObservabilityRequest.Action request)])
  ;;? fail_if (negb (bool_decide (ObservabilityResult.OwnershipMarker r = ObservabilityRequest.OwnershipMarker request)))
        (ErrNew "observability execution result ownership marker does not match the request")
  ;;? fail_if (negb (ObservabilityResult.OwnershipVerified r) || negb (ObservabilityResult.IdempotencyVerified r))
        (ErrNew "observability execution result must verify ownership and idempotency")
  ;;? validateOpaqueReferences "observability execution result resource reference"
        (ObservabilityResult.ResourceRefs r ++ ObservabilityResult.ProofRefs r).
End validators.

(** ** The plan and execute gate *)

(* sdk/integrations.go, lines 335-339: ObservabilityAdapter *)
Record ObservabilityAdapter (O W : Type) := {
  ObservabilityDescriptor : ObservabilityAdapterDescriptor;
  PlanObservability : ObservabilityPlanRequest → W → result (ObservabilityPlan O) * W;
  ExecuteObservability : ObservabilityExecutionRequest O → W → result ObservabilityExecutionResult * W;
}.
Arguments ObservabilityDescriptor {O W} _.
Arguments PlanObservability {O W} _.
Arguments ExecuteObservability {O W} _.

(** The calls on an adapter, with their answers. *)
(* sdk/integrations.go, lines 335-339: ObservabilityAdapter *)
Inductive observability_call (O : Type) :=
  | EvPlanObservability (request : ObservabilityPlanRequest) (answer : result (ObservabilityPlan O))
  | EvExecuteObservability (request : ObservabilityExecutionRequest O) (answer : result ObservabilityExecutionResult).
Arguments EvPlanObservability {O} _ _.
Arguments EvExecuteObservability {O} _ _.

Section lifecycle.
Context {O W : Type} (url_Parse : string → result url) (adapter : ObservabilityAdapter O W).
Context (action idempotencyKey : string) (resourceReferences : list string) (approvalReference : string).

(** No plan on an error before the gate of apply, no result on any error. *)
Abbreviation answer := (option (ObservabilityPlan O) * result ObservabilityExecutionResult)%type.

(* sdk/integration_lifecycle.go, lines 128-128: RunObservabilityLifecycle *)
Definition observability_execution (plan : ObservabilityPlan O) : ObservabilityExecutionRequest O :=
  {| ObservabilityRequest.Plan := plan; ObservabilityRequest.Action := action;
     ObservabilityRequest.IdempotencyKey := idempotencyKey;
     ObservabilityRequest.OwnershipMarker := ObservabilityPlan.OwnershipMarker plan;
     ObservabilityRequest.ApprovalReference := approvalReference;
     ObservabilityRequest.ResourceReferences := resourceReferences |}.

(* sdk/integration_lifecycle.go, lines 104-145: RunObservabilityLifecycle *)
Definition RunObservabilityLifecycle (request : ObservabilityPlanRequest) : eff (observability_call O) W answer :=
  let descriptor := ObservabilityDescriptor adapter in
  match err_wrap (wrapf "validate observability adapter descriptor: %w" []) (ValidateObservabilityAdapterDescriptor descriptor)
        ;;? fail_if (negb (observabilityActionSupported (ObservabilityAdapterDescriptor.Capabilities descriptor) action))
              (errorf "observability adapter %q does not declare capability %q"
                 [GStr (ObservabilityAdapterDescriptor.ID descriptor); GStr action])
        ;;? ValidateObservabilityPlanRequest url_Parse request with
  | Some err => mret (None, Err err)
  | None =>
      planned ← call (EvPlanObservability request) (PlanObservability adapter request);
      match planned with
      | Err err => mret (None, Err (wrapf "plan observability lifecycle: %w" [] err))
      | Ok plan =>
          let executionRequest := observability_execution plan in
          match err_wrap (wrapf "validate observability plan: %w" []) (ValidateObservabilityPlan url_Parse plan request)
                ;;? ValidateObservabilityExecutionRequest executionRequest with
          | Some err => mret (None, Err err)
          | None =>
              match (if bool_decide (action = ObservabilityApply)
                     then err_wrap (wrapf "observability apply blocked before mutation: %w" []) (ValidateObservabilityApplyPlan plan)
                     else None) with
              | Some err => mret (Some plan, Err err)
              | None =>
                  executed ← call (EvExecuteObservability executionRequest) (ExecuteObservability adapter executionRequest);
                  mret (Some plan,
                    match executed with
                    | Err err => Err (wrapf "execute observability lifecycle %q: %w" [GStr action] err)
                    | Ok r => ValidateObservabilityExecutionResult executionRequest r ;;! Ok r
                    end)
              end
          end
      end
  end.
End lifecycle.
