(* ===== verification/Telemetry.v ===== *)
(** * Telemetry plans and clients (internal/external/observability)

    The planner of [adapter.go] and its verification, the adapter of
    [sdk_adapter.go] that puts both behind the port of [Observability], and the
    client of [lifecycle.go] that a provider backend is managed by.  An opaque
    plan is [Some] of a [Plan], or [None] for a value of any other type.
    Contexts are there, and a managed client has its backend: the nil ones are
    refused before anything else.  Equal keys keep their order in a sort. *)

From stdpp Require Import pretty.
From S2P Require Import Prelude GoStrings GoEncoding Sdk Admission Architecture Resilience Lifecycle Edge Observability.

Local Open Scope Z_scope.

(** ** Data *)

Module TelemetryRequest.
(* internal/external/observability/adapter.go, lines 16-20: Request *)
Record Request := {
  TargetProvider : string;
  TargetRuntime : string;
  Intent : ObservabilityIntent;
}.
End TelemetryRequest.

Module SignalBinding.
(* internal/external/observability/adapter.go, lines 22-34: SignalBinding *)
Record SignalBinding := {
  Signal : string;
  Destination : string;
  Mode : string;
  OwnershipMarker : string;
  CredentialRef : string;
  Endpoint : string;
  RetentionDays : Z;
  RedactionPolicy : string;
}.
End SignalBinding.
Notation SignalBinding := SignalBinding.SignalBinding.

Module SignalStatus.
(* internal/external/observability/adapter.go, lines 36-41: SignalStatus *)
Record SignalStatus := {
  Signal : string;
  Destination : string;
  Status : string;
  Reason : string;
}.
End SignalStatus.
Notation SignalStatus := SignalStatus.SignalStatus.

Module PlanOutput.
(* internal/external/observability/adapter.go, lines 43-46: Output *)
Record Output := {
  Key : string;
  Value : string;
}.
End PlanOutput.

Module TelemetryPlan.
(* internal/external/observability/adapter.go, lines 48-64: Plan *)
Record Plan := {
  TargetProvider : string;
  TargetRuntime : string;
  OwnershipMarker : string;
  NativeReference : string;
  Bindings : list SignalBinding;
  SignalStatuses : list SignalStatus;
  UnavailableOperations : list string;
  Alerts : list AlertIntent;
  Dashboards : list DashboardIntent;
  SLOs : list SLOIntent;
  DataResidency : string;
  Outputs : list PlanOutput.Output;
}.
End TelemetryPlan.
Notation Plan := TelemetryPlan.Plan.

Module SignalObservation.
(* internal/external/observability/adapter.go, lines 69-77: SignalObservation *)
Record SignalObservation := {
  Signal : string;
  Destination : string;
  Delivered : bool;
  LabelsVerified : bool;
  RetentionVerified : bool;
  RedactionVerified : bool;
  Reason : string;
}.
End SignalObservation.
Notation SignalObservation := SignalObservation.SignalObservation.

Module Operational.
(* internal/external/observability/adapter.go, lines 79-84: OperationalObservation *)
Record OperationalObservation := {
  AlertsVerified : bool;
  DashboardsVerified : bool;
  SLOsVerified : bool;
  Reason : string;
}.
End Operational.
Notation OperationalObservation := Operational.OperationalObservation.

Module Cleanup.
(* internal/external/observability/adapter.go, lines 86-91: CleanupObservation *)
Record CleanupObservation := {
  Complete : bool;
  UnownedPreserved : bool;
  ResourceRefs : list string;
  Reason : string;
}.
End Cleanup.
Notation CleanupObservation := Cleanup.CleanupObservation.

Module Verification.
(* internal/external/observability/adapter.go, lines 93-99: Verification *)
Record Verification := {
  Complete : bool;
  Signals : list SignalObservation;
  Operations : OperationalObservation;
  Cleanup : CleanupObservation;
  Failures : list string;
}.
End Verification.
Notation Verification := Verification.Verification.

Module LifecycleResult.
(* internal/external/observability/sdk_adapter.go, lines 17-23: LifecycleResult *)
Record LifecycleResult := {
  OperationID : string;
  ResourceRefs : list string;
  ProofRefs : list string;
  OwnershipVerified : bool;
  IdempotencyVerified : bool;
}.
End LifecycleResult.
Notation LifecycleResult := LifecycleResult.LifecycleResult.

(** The probes of a verification are the first three operations of a client. *)
(* internal/external/observability/sdk_adapter.go, lines 27-31: LifecycleClient *)
Record LifecycleClient (W : Type) := {
  client_VerifySignal : SignalBinding → W → result SignalObservation * W;
  client_VerifyOperations : Plan → W → result OperationalObservation * W;
  client_VerifyCleanup : Plan → W → result CleanupObservation * W;
  client_Apply : Plan → W → result LifecycleResult * W;
  client_Destroy : Plan → list string → W → result CleanupObservation * W;
}.
Arguments client_VerifySignal {W} _.
Arguments client_VerifyOperations {W} _.
Arguments client_VerifyCleanup {W} _.
Arguments client_Apply {W} _.
Arguments client_Destroy {W} _.

(* internal/external/observability/sdk_adapter.go, lines 27-31: LifecycleClient *)
Inductive client_event :=
  | EvTelemetryContext (err : gerror)
  | EvVerifySignal (binding : SignalBinding) (answer : result SignalObservation)
  | EvVerifyOperations (plan : Plan) (answer : result OperationalObservation)
  | EvVerifyCleanup (plan : Plan) (answer : result CleanupObservation)
  | EvApplyPlan (plan : Plan) (answer : result LifecycleResult)
  | EvDestroyPlan (plan : Plan) (references : list string) (answer : result CleanupObservation).

(** ** Planning *)

(* internal/external/observability/adapter.go, lines 295-308: nativeMatchesTarget *)
Definition nativeMatchesTarget (provider target : string) : bool :=
  if bool_decide (target = "aws") then bool_decide (provider = "cloudwatch")
  else if bool_decide (target = "gcp") then bool_decide (provider = "google-cloud-operations")
  else if bool_decide (target = "scaleway") then bool_decide (provider = "scaleway-cockpit")
  else if bool_decide (target = "ovh") then bool_decide (provider = "ovh-logs-data-platform")
  else false.

(* internal/external/observability/adapter.go, lines 310-315: externalModeEndpoint *)
Definition externalModeEndpoint (provider configured : string) : string * string :=
  (if bool_decide (provider = "newrelic") then "otlp" else "exporter", configured).

Definition configured (signal destination : string) : SignalStatus :=
  {| SignalStatus.Signal := signal; SignalStatus.Destination := destination; SignalStatus.Status := "configured";
     SignalStatus.Reason := "" |}.
Definition unavailable_because (reason signal destination : string) : SignalStatus :=
  {| SignalStatus.Signal := signal; SignalStatus.Destination := destination; SignalStatus.Status := "unavailable";
     SignalStatus.Reason := reason |}.

(* internal/external/observability/adapter.go, lines 317-358: nativeSignalStatus *)
Definition nativeSignalStatus (provider signal nativeReference : string) : SignalStatus :=
  let among (signals : list string) reason :=
    if bool_decide (signal ∈ signals) then configured signal provider else unavailable_because reason signal provider in
  if bool_decide (provider = "cloudwatch") then
    among ["logs"; "metrics"]
      "the CloudWatch lifecycle adapter currently owns only log-group and custom-metric probes; use the provider-specific integration or an external OTLP destination for this signal"
  else if bool_decide (provider = "google-cloud-operations") then
    among ["logs"; "metrics"]
      "the Google Cloud lifecycle adapter currently owns only Logging probes and custom Monitoring metrics; use the GKE/provider integration or an external OTLP destination for this signal"
  else if bool_decide (provider = "scaleway-cockpit") then
    among ["logs"; "metrics"; "traces"]
      "the Scaleway Cockpit lifecycle adapter currently owns only data-source lifecycle; provider health, audit, and alert semantics need an official adapter-backed integration or an external destination"
  else if bool_decide (provider = "ovh-logs-data-platform") then
    if blank nativeReference then
      unavailable_because "OVH native audit delivery requires an opaque Logs Data Platform stream reference" signal provider
    else among ["audit-events"; "provider-operations"]
      "OVH's first-party adapter currently provisions Kubernetes audit delivery only; workload logs, metrics, traces, and recovery signals require another adapter"
  else unavailable_because "native provider is not registered by the observability adapter" signal provider.

Section operations.
Import ObservabilityIntent.

(* internal/external/observability/adapter.go, lines 362-366: unavailableOperations *)
Definition operation_names (kind : string) (ids : list string) : list string :=
  (λ id, kind +:+ "." +:+ id) <$> filter (λ id, blank id = false) ids.

(* internal/external/observability/adapter.go, lines 360-403: unavailableOperations *)
Definition unavailableOperations (native : string) (intent : ObservabilityIntent) : list string :=
  let slos := operation_names "slo" (SLOIntent.ID <$> SLOs intent) in
  sort_strings (
    (if bool_decide (native = "cloudwatch") then slos else [])
    ++ (if bool_decide (native = "google-cloud-operations") then if blank (NativeReference intent) then slos else [] else [])
    ++ (if bool_decide (native = "scaleway-cockpit") || bool_decide (native = "ovh-logs-data-platform") then
          operation_names "alert" (AlertIntent.ID <$> Alerts intent)
          ++ operation_names "dashboard" (DashboardIntent.ID <$> Dashboards intent) ++ slos
        else [])).

(** What is bound for one signal: the native destination when it takes the
    signal, and the external one. *)
(* internal/external/observability/adapter.go, lines 161-161: Plan *)
Definition native_binding (native : string) (intent : ObservabilityIntent) (signal : string) : SignalBinding :=
  {| SignalBinding.Signal := signal; SignalBinding.Destination := native; SignalBinding.Mode := "native";
     SignalBinding.OwnershipMarker := OwnershipMarker intent; SignalBinding.CredentialRef := "";
     SignalBinding.Endpoint := ""; SignalBinding.RetentionDays := RetentionDays intent;
     SignalBinding.RedactionPolicy := RedactionPolicyRef intent |}.

(* internal/external/observability/adapter.go, lines 165-169: Plan *)
Definition external_binding (external : string) (intent : ObservabilityIntent) (signal : string) : SignalBinding :=
  let '(mode, endpoint) := externalModeEndpoint external (Endpoint intent) in
  {| SignalBinding.Signal := signal; SignalBinding.Destination := external; SignalBinding.Mode := mode;
     SignalBinding.OwnershipMarker := OwnershipMarker intent;
     SignalBinding.CredentialRef := default "" (head (CredentialRefs intent));
     SignalBinding.Endpoint := endpoint; SignalBinding.RetentionDays := RetentionDays intent;
     SignalBinding.RedactionPolicy := RedactionPolicyRef intent |}.

(* internal/external/observability/adapter.go, lines 157-171: Plan *)
Definition signal_bindings (native external : string) (intent : ObservabilityIntent) (signal : string) : list SignalBinding :=
  (if bool_decide (native = "") then []
   else if bool_decide (SignalStatus.Status (nativeSignalStatus native signal (NativeReference intent)) = "configured")
        then [native_binding native intent signal] else [])
  ++ (if bool_decide (external = "") then [] else [external_binding external intent signal]).

(* internal/external/observability/adapter.go, lines 157-172: Plan *)
Definition signal_statuses (native external : string) (intent : ObservabilityIntent) (signal : string) : list SignalStatus :=
  (if bool_decide (native = "") then [] else [nativeSignalStatus native signal (NativeReference intent)])
  ++ (if bool_decide (external = "") then [] else [configured signal external]).
End operations.

(** Sorted by signal, then by destination. *)
(* internal/external/observability/adapter.go, lines 174-179: Plan *)
Definition keyed_le {A} (signal destination : A → string) (a b : A) : Prop :=
  if bool_decide (signal a = signal b) then String.le (destination a) (destination b) else String.le (signal a) (signal b).
#[export] Instance keyed_le_dec {A} (signal destination : A → string) : RelDecision (keyed_le signal destination).
Proof. intros a b. unfold keyed_le. destruct (bool_decide _); apply _. Defined.

(* internal/external/observability/adapter.go, lines 174-179: Plan *)
Definition sort_bindings : list SignalBinding → list SignalBinding :=
  sort_by (keyed_le SignalBinding.Signal SignalBinding.Destination).
(* internal/external/observability/adapter.go, lines 180-185: Plan *)
Definition sort_statuses : list SignalStatus → list SignalStatus :=
  sort_by (keyed_le SignalStatus.Signal SignalStatus.Destination).

(** The outputs of one kind, numbered. *)
(* internal/external/observability/adapter.go, lines 273-275: observabilityOutputs *)
Definition numbered {A} (kind : string) (value : A → string) (l : list A) : list PlanOutput.Output :=
  imap (λ index x, {| PlanOutput.Key := "observability." +:+ kind +:+ "." +:+ pretty index; PlanOutput.Value := value x |}) l.

(* internal/external/observability/adapter.go, lines 271-293: observabilityOutputs *)
Definition observabilityOutputs (targetProvider targetRuntime : string) (bindings : list SignalBinding)
    (statuses : list SignalStatus) (alerts : list AlertIntent) (dashboards : list DashboardIntent) (slos : list SLOIntent)
    : list PlanOutput.Output :=
  [{| PlanOutput.Key := "observability.target_provider"; PlanOutput.Value := targetProvider |};
   {| PlanOutput.Key := "observability.target_runtime"; PlanOutput.Value := targetRuntime |}]
  ++ numbered "binding" (λ b, SignalBinding.Destination b +:+ ":" +:+ SignalBinding.Signal b +:+ ":" +:+ SignalBinding.Mode b) bindings
  ++ numbered "signal" (λ s,
       SignalStatus.Destination s +:+ ":" +:+ SignalStatus.Signal s +:+ ":" +:+ SignalStatus.Status s
       +:+ (if bool_decide (SignalStatus.Reason s = "") then "" else ":" +:+ SignalStatus.Reason s)) statuses
  ++ numbered "alert" (λ a, AlertIntent.ID a +:+ ":" +:+ AlertIntent.Signal a +:+ ":" +:+ AlertIntent.Severity a) alerts
  ++ numbered "dashboard" (λ d, DashboardIntent.ID d +:+ ":" +:+ strings_Join (SortedStrings (DashboardIntent.Signals d)) ",") dashboards
  ++ numbered "slo" (λ s, SLOIntent.ID s +:+ ":" +:+ SLOIntent.Signal s) slos.

Section plan.
Context (url_Parse : string → result url).
Import ObservabilityIntent.

(** The lifecycle and the certification an external destination defaults to. *)
(* internal/external/observability/adapter.go, lines 122-128: Plan *)
Definition with_external_defaults (i : ObservabilityIntent) : ObservabilityIntent :=
  let named := negb (bool_decide (ExternalProvider i = "")) in
  {| Lifecycle := if named && bool_decide (Lifecycle i = "") then "extension" else Lifecycle i;
     Certification := if named && bool_decide (Certification i = "") then "experimental" else Certification i;
     OwnershipMarker := OwnershipMarker i; NativeProvider := NativeProvider i; NativeReference := NativeReference i;
     ExternalProvider := ExternalProvider i; CredentialRefs := CredentialRefs i; Endpoint := Endpoint i;
     ServiceName := ServiceName i; Environment := Environment i; Logs := Logs i; Metrics := Metrics i; Traces := Traces i;
     Signals := Signals i; RetentionDays := RetentionDays i; SamplingRatio := SamplingRatio i;
     RedactionPolicyRef := RedactionPolicyRef i; AlertRefs := AlertRefs i; Labels := Labels i;
     DataResidency := DataResidency i; Alerts := Alerts i; Dashboards := Dashboards i; SLOs := SLOs i |}.

(* internal/external/observability/adapter.go, lines 132-139: Plan *)
Definition destination_of (provider : string) : string := if bool_decide (provider = "none") then "" else provider.

(* internal/external/observability/adapter.go, lines 154-187: Plan *)
Definition telemetry_plan (request : TelemetryRequest.Request) (intent : ObservabilityIntent) (native external : string)
    (bindings : list SignalBinding) (statuses : list SignalStatus) (operations : list string) : Plan :=
  let provider := TelemetryRequest.TargetProvider request in
  let runtime := TelemetryRequest.TargetRuntime request in
  {| TelemetryPlan.TargetProvider := provider; TelemetryPlan.TargetRuntime := runtime;
     TelemetryPlan.OwnershipMarker := OwnershipMarker intent; TelemetryPlan.NativeReference := NativeReference intent;
     TelemetryPlan.Bindings := bindings; TelemetryPlan.SignalStatuses := statuses;
     TelemetryPlan.UnavailableOperations := operations; TelemetryPlan.Alerts := Alerts intent;
     TelemetryPlan.Dashboards := Dashboards intent; TelemetryPlan.SLOs := SLOs intent;
     TelemetryPlan.DataResidency := DataResidency intent;
     TelemetryPlan.Outputs := observabilityOutputs provider runtime bindings statuses (Alerts intent) (Dashboards intent) (SLOs intent) |}.

(* internal/external/observability/adapter.go, lines 118-188: Adapter.Plan *)
Definition Adapter_Plan (request : TelemetryRequest.Request) : result Plan :=
  fail_if (blank (TelemetryRequest.TargetProvider request) || blank (TelemetryRequest.TargetRuntime request))
    (ErrNew "observability target provider and runtime are required") ;;!
  let intent := with_external_defaults (TelemetryRequest.Intent request) in
  err_wrap (wrapf "validate observability intent: %w" []) (ValidateObservabilityIntent url_Parse intent) ;;!
  let native := destination_of (NativeProvider intent) in
  let external := destination_of (ExternalProvider intent) in
  fail_if (negb (bool_decide (native = "")) && negb (nativeMatchesTarget native (TelemetryRequest.TargetProvider request)))
    (errorf "native observability provider %q does not match target provider %q"
       [GStr native; GStr (TelemetryRequest.TargetProvider request)]) ;;!
  if bool_decide (Signals intent = []) && bool_decide (native = "") && bool_decide (external = "")
  then Ok (telemetry_plan request intent native external [] [] [])
  else
    fail_if (bool_decide (external = "") && bool_decide (native = ""))
      (ErrNew "observability requires a native or external destination") ;;!
    let signals := SortedStrings (Signals intent) in
    Ok (telemetry_plan request intent native external
          (sort_bindings (signals ≫= signal_bindings native external intent))
          (sort_statuses (signals ≫= signal_statuses native external intent))
          (unavailableOperations native intent)).
End plan.
