(* ===== verification/TelemetryClient.v ===== *)
(** * Telemetry clients (internal/external/observability)

    The verification of a plan, the client that manages a provider backend, and
    the adapter that puts planner and client behind the port of
    [Observability]. *)

From S2P Require Import Prelude GoStrings GoEncoding Sdk Admission Architecture Resilience Lifecycle Edge Observability Telemetry.

Local Open Scope Z_scope.

(** ** Verification *)

Section verify.
Context {W : Type} (client : LifecycleClient W) (plan : Plan).
Abbreviation M := (eff client_event W).
Import TelemetryPlan.

(* internal/external/observability/adapter.go, lines 226-237: Adapter.Verify *)
Definition signal_failures (b : SignalBinding) (o : SignalObservation) : list string :=
  let about := "signal " +:+ SignalBinding.Signal b +:+ " at " +:+ SignalBinding.Destination b in
  let lacking (ok : bool) text := if ok then [] else [about +:+ text] in
  lacking (SignalObservation.Delivered o) " was not delivered"
  ++ lacking (SignalObservation.LabelsVerified o) " did not retain required labels"
  ++ lacking (SignalObservation.RetentionVerified o) " did not prove retention"
  ++ lacking (SignalObservation.RedactionVerified o) " did not prove redaction".

(** The answer of a probe is about the binding it was asked about. *)
(* internal/external/observability/adapter.go, lines 222-224: Adapter.Verify *)
Definition same_signal (b : SignalBinding) (o : SignalObservation) : bool :=
  bool_decide (SignalObservation.Signal o = SignalBinding.Signal b)
  && bool_decide (SignalObservation.Destination o = SignalBinding.Destination b).

(* internal/external/observability/adapter.go, lines 217-238: Adapter.Verify *)
Fixpoint verify_signals (bs : list SignalBinding) : M (result (list SignalObservation * list string)) :=
  match bs with
  | [] => mret (Ok ([], []))
  | b :: bs =>
      let about := [GStr (SignalBinding.Signal b); GStr (SignalBinding.Destination b)] in
      probed ← call (EvVerifySignal b) (client_VerifySignal client b);
      match probed with
      | Err err => mret (Err (wrapf "verify observability signal %s at %s: %w" about err))
      | Ok o =>
          if negb (same_signal b o) then
            mret (Err (errorf "observability probe returned %s at %s for %s at %s"
                         (GStr (SignalObservation.Signal o) :: GStr (SignalObservation.Destination o) :: about)))
          else
            rest ← verify_signals bs;
            mret ('(observations, failures) ← rest; Ok (o :: observations, signal_failures b o ++ failures))
      end
  end.

(* internal/external/observability/adapter.go, lines 239-239: Adapter.Verify *)
Definition has_operations : bool :=
  negb (bool_decide (Alerts plan = []) && bool_decide (Dashboards plan = []) && bool_decide (SLOs plan = [])).

(* internal/external/observability/adapter.go, lines 245-253: Adapter.Verify *)
Definition operation_failures (o : OperationalObservation) : list string :=
  let lacking (absent verified : bool) text := if absent || verified then [] else [text] in
  lacking (bool_decide (Alerts plan = [])) (Operational.AlertsVerified o) "declared observability alerts were not verified"
  ++ lacking (bool_decide (Dashboards plan = [])) (Operational.DashboardsVerified o) "declared observability dashboards were not verified"
  ++ lacking (bool_decide (SLOs plan = [])) (Operational.SLOsVerified o) "declared observability SLOs were not verified".

(** Without operational objects there is nothing to ask: what is absent is
    verified. *)
(* internal/external/observability/adapter.go, lines 203-207: Adapter.Verify *)
Definition no_operations : OperationalObservation :=
  {| Operational.AlertsVerified := bool_decide (Alerts plan = []);
     Operational.DashboardsVerified := bool_decide (Dashboards plan = []);
     Operational.SLOsVerified := bool_decide (SLOs plan = []); Operational.Reason := "" |}.

(* internal/external/observability/adapter.go, lines 239-254: Adapter.Verify *)
Definition verify_operations : M (result (OperationalObservation * list string)) :=
  if has_operations then
    probed ← call (EvVerifyOperations plan) (client_VerifyOperations client plan);
    mret (match probed with
      | Err err => Err (wrapf "verify observability operational objects: %w" [] err)
      | Ok o => Ok (o, operation_failures o)
      end)
  else mret (Ok (no_operations, [])).

(* internal/external/observability/adapter.go, lines 260-265: Adapter.Verify *)
Definition cleanup_failures (c : CleanupObservation) : list string :=
  (if Cleanup.Complete c then [] else ["owned observability resources remain"])
  ++ (if Cleanup.UnownedPreserved c then [] else ["unowned observability resources were not proven preserved"]).

(** What the plan itself declares missing. *)
(* internal/external/observability/adapter.go, lines 209-216: Adapter.Verify *)
Definition planned_failures : list string :=
  (SignalStatuses plan ≫= λ s,
     if bool_decide (SignalStatus.Status s = "unavailable")
     then ["signal " +:+ SignalStatus.Signal s +:+ " at " +:+ SignalStatus.Destination s +:+ " is unavailable: "
           +:+ SignalStatus.Reason s] else [])
  ++ ((λ operation, "observability operation " +:+ operation +:+ " is unavailable") <$> UnavailableOperations plan).

(* internal/external/observability/adapter.go, lines 259-268: Adapter.Verify *)
Definition conclude_verification (observations : list SignalObservation) (operations : OperationalObservation)
    (cleanup : CleanupObservation) (failures : list string) : Verification :=
  let failures := sort_strings (failures ++ cleanup_failures cleanup) in
  {| Verification.Complete := bool_decide (failures = []); Verification.Signals := observations;
     Verification.Operations := operations; Verification.Cleanup := cleanup; Verification.Failures := failures |}.

(* internal/external/observability/adapter.go, lines 194-269: Adapter.Verify *)
Definition Adapter_Verify : M (result Verification) :=
  signals ← verify_signals (Bindings plan);
  match signals with
  | Err err => mret (Err err)
  | Ok (observations, signalFailures) =>
      verified ← verify_operations;
      match verified with
      | Err err => mret (Err err)
      | Ok (operations, operationFailures) =>
          cleaned ← call (EvVerifyCleanup plan) (client_VerifyCleanup client plan);
          mret (match cleaned with
            | Err err => Err (wrapf "verify observability cleanup: %w" [] err)
            | Ok cleanup => Ok (conclude_verification observations operations cleanup
                                  (planned_failures ++ signalFailures ++ operationFailures))
            end)
      end
  end.
End verify.

(** ** The managed client *)

Module TelemetryInventory.
(* internal/external/observability/lifecycle.go, lines 14-19: InventoryResource *)
Record InventoryResource := {
  Identity : string;
  OwnershipMarker : string;
  Owned : bool;
  Live : bool;
}.
End TelemetryInventory.
Notation InventoryResource := TelemetryInventory.InventoryResource.

(** The last two operations are optional: a type assertion asks for them. *)
(* internal/external/observability/lifecycle.go, lines 24-48: Backend, ScopedInventoryBackend *)
Record Backend (W : Type) := {
  backend_Apply : Plan → W → result LifecycleResult * W;
  backend_VerifySignal : SignalBinding → W → result SignalObservation * W;
  backend_VerifyOperations : Plan → W → result OperationalObservation * W;
  backend_Destroy : Plan → list string → W → gerror * W;
  backend_Inventory : string → W → result (list InventoryResource) * W;
  backend_InventoryForPlan : option (Plan → W → result (list InventoryResource) * W);
  backend_PublishSignalProbe : option (SignalBinding → W → gerror * W);
}.
Arguments backend_Apply {W} _.
Arguments backend_VerifySignal {W} _.
Arguments backend_VerifyOperations {W} _.
Arguments backend_Destroy {W} _.
Arguments backend_Inventory {W} _.
Arguments backend_InventoryForPlan {W} _.
Arguments backend_PublishSignalProbe {W} _.

(* internal/external/observability/lifecycle.go, lines 24-48: Backend, ScopedInventoryBackend *)
Inductive backend_event :=
  | EvBackendContext (err : gerror)
  | EvBackendApply (plan : Plan) (answer : result LifecycleResult)
  | EvBackendSignal (binding : SignalBinding) (answer : result SignalObservation)
  | EvBackendOperations (plan : Plan) (answer : result OperationalObservation)
  | EvBackendDestroy (plan : Plan) (references : list string) (answer : gerror)
  | EvBackendInventory (plan : Plan) (answer : result (list InventoryResource))
  | EvBackendPublish (binding : SignalBinding) (answer : gerror).

(* internal/external/observability/lifecycle.go, lines 224-236: validateReferences *)
Definition validateReferences (values : list string) : gerror :=
  first_of (with_seen (λ seen value,
    [fail_if (bad_reference value) (ErrNew "observability lifecycle resource references must be non-empty and single-line");
     fail_if (bool_decide (value ∈ seen)) (errorf "duplicate observability lifecycle resource reference %q" [GStr value])]) [] values).

(* internal/external/observability/lifecycle.go, lines 214-222: validateLifecycleResult *)
Definition validateLifecycleResult (r : LifecycleResult) : gerror :=
  fail_if (bad_reference (LifecycleResult.OperationID r)) (ErrNew "observability lifecycle operation identity is required")
  ;;? fail_if (negb (LifecycleResult.OwnershipVerified r) || negb (LifecycleResult.IdempotencyVerified r))
        (ErrNew "observability lifecycle result must verify ownership and idempotency")
  ;;? validateReferences (LifecycleResult.ResourceRefs r ++ LifecycleResult.ProofRefs r).

(* internal/external/observability/lifecycle.go, lines 238-247: cleanupReason *)
Definition cleanupReason (ownedLive unownedPreserved : bool) : string :=
  if ownedLive then "owned observability resources remain"
  else if negb unownedPreserved then "unowned observability resources were not preserved" else "".

(* internal/external/observability/lifecycle.go, lines 208-211: validateLifecycleContext *)
Definition check_marker (plan : Plan) : gerror :=
  fail_if (bad_reference (TelemetryPlan.OwnershipMarker plan)) (ErrNew "observability lifecycle ownership marker is required").

Section managed.
Context {W : Type} (env : waiter W) (backend : Backend W).
Abbreviation M := (eff backend_event W).

Definition backend_context : M gerror := call EvBackendContext (ctx_err env).

(** The context, the owner of the plan, and then the work. *)
(* internal/external/observability/lifecycle.go, lines 201-212: validateLifecycleContext *)
Definition with_valid_context {A} (plan : Plan) (work : M (result A)) : M (result A) :=
  err ← backend_context;
  match err ;;? check_marker plan with
  | Some err => mret (Err err)
  | None => work
  end.

(* internal/external/observability/lifecycle.go, lines 66-78: ManagedLifecycleClient.Apply *)
Definition managed_Apply (plan : Plan) : M (result LifecycleResult) :=
  with_valid_context plan (
    applied ← call (EvBackendApply plan) (backend_Apply backend plan);
    mret (r ← applied; validateLifecycleResult r ;;! Ok r)).

(* internal/external/observability/lifecycle.go, lines 80-101: ManagedLifecycleClient.VerifySignal *)
Definition managed_VerifySignal (b : SignalBinding) : M (result SignalObservation) :=
  err ← backend_context;
  match err
        ;;? fail_if (blank (SignalBinding.Signal b) || blank (SignalBinding.Destination b))
              (ErrNew "observability signal binding identity is required") with
  | Some err => mret (Err err)
  | None =>
      observed ← call (EvBackendSignal b) (backend_VerifySignal backend b);
      mret (o ← observed;
            fail_if (negb (same_signal b o))
              (errorf "observability backend returned %s at %s for %s at %s"
                 [GStr (SignalObservation.Signal o); GStr (SignalObservation.Destination o);
                  GStr (SignalBinding.Signal b); GStr (SignalBinding.Destination b)]) ;;! Ok o)
  end.

(* internal/external/observability/lifecycle.go, lines 106-127: ManagedLifecycleClient.PublishSignalProbe *)
Definition managed_PublishSignalProbe (b : SignalBinding) : M gerror :=
  err ← backend_context;
  match err
        ;;? fail_if (blank (SignalBinding.Signal b) || blank (SignalBinding.Destination b)
                     || blank (SignalBinding.OwnershipMarker b))
              (ErrNew "observability signal publication identity is required") with
  | Some err => mret (Some err)
  | None =>
      match backend_PublishSignalProbe backend with
      | None => mret (Some (ErrNew "observability backend does not support signal probe publication"))
      | Some publish =>
          err ← call (EvBackendPublish b) (publish b);
          mret (err_wrap (wrapf "publish observability signal probe: %w" []) err)
      end
  end.

(* internal/external/observability/lifecycle.go, lines 129-134: ManagedLifecycleClient.VerifyOperations *)
Definition managed_VerifyOperations (plan : Plan) : M (result OperationalObservation) :=
  with_valid_context plan (call (EvBackendOperations plan) (backend_VerifyOperations backend plan)).

(* internal/external/observability/lifecycle.go, lines 194-199: ManagedLifecycleClient.inventory *)
Definition managed_inventory (plan : Plan) : M (result (list InventoryResource)) :=
  call (EvBackendInventory plan)
    (match backend_InventoryForPlan backend with
     | Some scoped => scoped plan
     | None => backend_Inventory backend (TelemetryPlan.OwnershipMarker plan)
     end).

Section inventory.
Import TelemetryInventory.

(* internal/external/observability/lifecycle.go, lines 166-174: ManagedLifecycleClient.cleanup *)
Definition check_resource (marker : string) (r : InventoryResource) : gerror :=
  let mine := bool_decide (OwnershipMarker r = marker) in
  fail_if (bad_reference (Identity r)) (ErrNew "observability inventory returned an invalid resource identity")
  ;;? fail_if (mine && negb (Owned r)) (ErrNew "observability inventory contradicted ownership")
  ;;? fail_if (Owned r && negb mine) (ErrNew "observability inventory returned an ownership mismatch").

(** The last test of the loop repeats one that has already returned: whatever is
    listed without an error is preserved. *)
(* internal/external/observability/lifecycle.go, lines 162-191: ManagedLifecycleClient.cleanup *)
Definition observe_cleanup (marker : string) (resources : list InventoryResource) : CleanupObservation :=
  let ownedLive := existsb (λ r, Owned r && Live r) resources in
  let unownedPreserved := negb (existsb (λ r, Owned r && negb (bool_decide (OwnershipMarker r = marker))) resources) in
  {| Cleanup.Complete := negb ownedLive; Cleanup.UnownedPreserved := unownedPreserved;
     Cleanup.ResourceRefs := sort_strings (Identity <$> filter (λ r, Live r = true) resources);
     Cleanup.Reason := cleanupReason ownedLive unownedPreserved |}.
End inventory.

(* internal/external/observability/lifecycle.go, lines 156-192: ManagedLifecycleClient.cleanup *)
Definition managed_cleanup (plan : Plan) : M (result CleanupObservation) :=
  let marker := TelemetryPlan.OwnershipMarker plan in
  listed ← managed_inventory plan;
  mret (resources ← listed; first_error (check_resource marker) resources ;;! Ok (observe_cleanup marker resources)).

(* internal/external/observability/lifecycle.go, lines 136-147: ManagedLifecycleClient.Destroy *)
Definition managed_Destroy (plan : Plan) (references : list string) : M (result CleanupObservation) :=
  with_valid_context plan (
    match validateReferences references with
    | Some err => mret (Err err)
    | None =>
        err ← call (EvBackendDestroy plan references) (backend_Destroy backend plan references);
        match err with
        | Some err => mret (Err err)
        | None => managed_cleanup plan
        end
    end).

(* internal/external/observability/lifecycle.go, lines 149-154: ManagedLifecycleClient.VerifyCleanup *)
Definition managed_VerifyCleanup (plan : Plan) : M (result CleanupObservation) := with_valid_context plan (managed_cleanup plan).

(** The client as its callers see it. *)
(* internal/external/observability/lifecycle.go, lines 53-55: ManagedLifecycleClient *)
Definition managed_client : LifecycleClient W :=
  let run {A} (m : M A) w := (outcome m w, final m w) in
  {| client_VerifySignal := λ b, run (managed_VerifySignal b);
     client_VerifyOperations := λ plan, run (managed_VerifyOperations plan);
     client_VerifyCleanup := λ plan, run (managed_VerifyCleanup plan);
     client_Apply := λ plan, run (managed_Apply plan);
     client_Destroy := λ plan references, run (managed_Destroy plan references) |}.
End managed.

(** ** The adapter behind the port *)

#[export] Instance ObservabilityBinding_eq_dec : EqDecision ObservabilityBinding.
Proof. solve_decision. Defined.
#[export] Instance DashboardIntent_eq_dec : EqDecision DashboardIntent.
Proof. solve_decision. Defined.
#[export] Instance AdapterOutput_eq_dec : EqDecision AdapterOutput.
Proof. solve_decision. Defined.

(** Both lists in step. *)
Fixpoint all2 {A B} (same : A → B → bool) (l : list A) (k : list B) : bool :=
  match l, k with
  | [], [] => true
  | a :: l, b :: k => same a b && all2 same l k
  | _, _ => false
  end.

(* internal/external/observability/sdk_adapter.go, lines 70-70: SDKAdapter.PlanObservability *)
Definition public_binding (b : SignalBinding) : ObservabilityBinding :=
  {| ObservabilityBinding.Signal := SignalBinding.Signal b; ObservabilityBinding.Destination := SignalBinding.Destination b;
     ObservabilityBinding.Mode := SignalBinding.Mode b; ObservabilityBinding.CredentialRef := SignalBinding.CredentialRef b;
     ObservabilityBinding.Endpoint := SignalBinding.Endpoint b;
     ObservabilityBinding.RetentionDays := SignalBinding.RetentionDays b;
     ObservabilityBinding.RedactionPolicy := SignalBinding.RedactionPolicy b |}.

(* internal/external/observability/sdk_adapter.go, lines 80-80: SDKAdapter.PlanObservability *)
Definition public_output (o : PlanOutput.Output) : AdapterOutput :=
  {| Output.Key := PlanOutput.Key o; Output.Value := PlanOutput.Value o |}.

(* internal/external/observability/sdk_adapter.go, lines 72-77: SDKAdapter.PlanObservability *)
Definition unavailable_signals (statuses : list SignalStatus) : list string :=
  SignalStatus.Signal <$> filter (λ s, SignalStatus.Status s = "unavailable") statuses.

(* internal/external/observability/sdk_adapter.go, lines 207-224: observabilityProofRefs *)
Definition observabilityProofRefs (v : Verification) : list string :=
  let proved (ok : bool) name := if ok then [name] else [] in
  let o := Verification.Operations v in
  (Verification.Signals v ≫= λ s,
     proved (SignalObservation.Delivered s && SignalObservation.LabelsVerified s
             && SignalObservation.RetentionVerified s && SignalObservation.RedactionVerified s)
       ("observability:" +:+ SignalObservation.Destination s +:+ ":" +:+ SignalObservation.Signal s))
  ++ proved (Operational.AlertsVerified o) "observability:alerts"
  ++ proved (Operational.DashboardsVerified o) "observability:dashboards"
  ++ proved (Operational.SLOsVerified o) "observability:slos".

Section adapter.
Context {W : Type} (env : waiter W) (url_Parse : string → result url).
Abbreviation M := (eff client_event W).

(** Without a client an adapter still plans. *)
(* internal/external/observability/sdk_adapter.go, lines 37-41: SDKAdapter *)
Record SDKAdapter := {
  adapter_provider : string;
  adapter_client : option (LifecycleClient W);
}.

Context (adapter : SDKAdapter).

(* internal/external/observability/sdk_adapter.go, lines 47-52: SDKAdapter.ObservabilityDescriptor *)
Definition sdk_descriptor : ObservabilityAdapterDescriptor :=
  {| ObservabilityAdapterDescriptor.APIVersion := "v1";
     ObservabilityAdapterDescriptor.ID := adapter_provider adapter +:+ ".observability";
     ObservabilityAdapterDescriptor.Provider := adapter_provider adapter;
     ObservabilityAdapterDescriptor.Version := "1.0.0";
     ObservabilityAdapterDescriptor.Capabilities := [ObservabilityApply; ObservabilityVerify; ObservabilityDestroy] |}.

(* internal/external/observability/sdk_adapter.go, lines 68-97: SDKAdapter.PlanObservability *)
Definition public_plan (request : ObservabilityPlanRequest) (plan : Plan) : ObservabilityPlan (option Plan) :=
  {| ObservabilityPlan.AdapterID := ObservabilityAdapterDescriptor.ID sdk_descriptor;
     ObservabilityPlan.TargetProvider := ObservabilityPlanRequest.TargetProvider request;
     ObservabilityPlan.TargetRuntime := ObservabilityPlanRequest.TargetRuntime request;
     ObservabilityPlan.OwnershipMarker := TelemetryPlan.OwnershipMarker plan;
     ObservabilityPlan.NativeReference := TelemetryPlan.NativeReference plan;
     ObservabilityPlan.Bindings := public_binding <$> TelemetryPlan.Bindings plan;
     ObservabilityPlan.Alerts := TelemetryPlan.Alerts plan; ObservabilityPlan.Dashboards := TelemetryPlan.Dashboards plan;
     ObservabilityPlan.SLOs := TelemetryPlan.SLOs plan; ObservabilityPlan.DataResidency := TelemetryPlan.DataResidency plan;
     ObservabilityPlan.UnavailableSignals := SortedStrings (unavailable_signals (TelemetryPlan.SignalStatuses plan));
     ObservabilityPlan.UnavailableOperations := TelemetryPlan.UnavailableOperations plan;
     ObservabilityPlan.Outputs := public_output <$> TelemetryPlan.Outputs plan;
     ObservabilityPlan.Opaque := Some plan |}.

(** Planning once the context is known to be open. *)
(* internal/external/observability/sdk_adapter.go, lines 61-101: SDKAdapter.PlanObservability *)
Definition plan_request (request : ObservabilityPlanRequest) : result (ObservabilityPlan (option Plan)) :=
  ValidateObservabilityPlanRequest url_Parse request ;;!
  (plan ← Adapter_Plan url_Parse
     {| TelemetryRequest.TargetProvider := ObservabilityPlanRequest.TargetProvider request;
        TelemetryRequest.TargetRuntime := ObservabilityPlanRequest.TargetRuntime request;
        TelemetryRequest.Intent := ObservabilityPlanRequest.Intent request |};
   let publicPlan := public_plan request plan in
   err_wrap (wrapf "validate observability SDK plan: %w" []) (ValidateObservabilityPlan url_Parse publicPlan request) ;;!
   Ok publicPlan).

(* internal/external/observability/sdk_adapter.go, lines 54-102: SDKAdapter.PlanObservability *)
Definition sdk_PlanObservability (request : ObservabilityPlanRequest) : M (result (ObservabilityPlan (option Plan))) :=
  err ← call EvTelemetryContext (ctx_err env);
  mret (match err with Some err => Err err | None => plan_request request end).

(* internal/external/observability/sdk_adapter.go, lines 149-193: SDKAdapter.validateExecutionPlan *)
Definition validateExecutionPlan (request : ObservabilityExecutionRequest (option Plan)) (plan : Plan) : gerror :=
  let public := ObservabilityRequest.Plan request in
  let provider := adapter_provider adapter in
  let same (a b : string) := bool_decide (a = b) in
  err_wrap (wrapf "validate observability SDK adapter descriptor: %w" []) (ValidateObservabilityAdapterDescriptor sdk_descriptor)
  ;;? fail_if (negb (same (ObservabilityPlan.AdapterID public) (ObservabilityAdapterDescriptor.ID sdk_descriptor))
               || negb (same (ObservabilityPlan.TargetProvider public) provider)
               || negb (same (TelemetryPlan.TargetProvider plan) provider))
        (ErrNew "observability plan does not match the executing provider boundary")
  ;;? fail_if (negb (same (ObservabilityPlan.TargetRuntime public) (TelemetryPlan.TargetRuntime plan))
               || negb (same (TelemetryPlan.OwnershipMarker plan) (ObservabilityPlan.OwnershipMarker public))
               || negb (same (TelemetryPlan.NativeReference plan) (ObservabilityPlan.NativeReference public)))
        (ErrNew "observability plan does not match its adapter-owned target or ownership boundary")
  ;;? fail_if (negb (bool_decide (public_binding <$> TelemetryPlan.Bindings plan = ObservabilityPlan.Bindings public)))
        (ErrNew "observability plan bindings do not match its adapter-owned plan")
  ;;? fail_if (negb (all2 alert_eq (TelemetryPlan.Alerts plan) (ObservabilityPlan.Alerts public))
               || negb (bool_decide (TelemetryPlan.Dashboards plan = ObservabilityPlan.Dashboards public))
               || negb (all2 slo_eq (TelemetryPlan.SLOs plan) (ObservabilityPlan.SLOs public))
               || negb (same (TelemetryPlan.DataResidency plan) (ObservabilityPlan.DataResidency public))
               || negb (bool_decide (TelemetryPlan.UnavailableOperations plan = ObservabilityPlan.UnavailableOperations public)))
        (ErrNew "observability plan intent does not match its adapter-owned plan")
  ;;? fail_if (negb (bool_decide (sort_strings (unavailable_signals (TelemetryPlan.SignalStatuses plan))
                                  = SortedStrings (ObservabilityPlan.UnavailableSignals public))))
        (ErrNew "observability plan signal availability does not match its adapter-owned plan")
  ;;? fail_if (negb (bool_decide (public_output <$> TelemetryPlan.Outputs plan = ObservabilityPlan.Outputs public)))
        (ErrNew "observability plan outputs do not match its adapter-owned plan").

(** The client's part of an action. *)
Section actions.
Context (client : LifecycleClient W) (request : ObservabilityExecutionRequest (option Plan)) (plan : Plan).
Abbreviation target kind := (kind +:+ TelemetryPlan.TargetProvider plan +:+ ":" +:+ TelemetryPlan.TargetRuntime plan).

(* internal/external/observability/sdk_adapter.go, lines 125-128: SDKAdapter.ExecuteObservability *)
Definition execute_apply : M (result LifecycleResult) :=
  match ValidateObservabilityApplyPlan (ObservabilityRequest.Plan request) with
  | Some err => mret (Err err)
  | None => call (EvApplyPlan plan) (client_Apply client plan)
  end.

(* internal/external/observability/sdk_adapter.go, lines 130-135: SDKAdapter.ExecuteObservability *)
Definition execute_verify : M (result LifecycleResult) :=
  verified ← Adapter_Verify client plan;
  mret (v ← verified;
        fail_if (negb (Verification.Complete v))
          (errorf "observability verification incomplete: %v" (GStr <$> Verification.Failures v)) ;;!
        Ok {| LifecycleResult.OperationID := target "verify:";
              LifecycleResult.ResourceRefs := Cleanup.ResourceRefs (Verification.Cleanup v);
              LifecycleResult.ProofRefs := observabilityProofRefs v;
              LifecycleResult.OwnershipVerified := Cleanup.UnownedPreserved (Verification.Cleanup v);
              LifecycleResult.IdempotencyVerified := true |}).

(* internal/external/observability/sdk_adapter.go, lines 137-139: SDKAdapter.ExecuteObservability *)
Definition execute_destroy : M (result LifecycleResult) :=
  let references := ObservabilityRequest.ResourceReferences request in
  destroyed ← call (EvDestroyPlan plan references) (client_Destroy client plan references);
  mret (c ← destroyed;
        Ok {| LifecycleResult.OperationID := target "destroy:"; LifecycleResult.ResourceRefs := Cleanup.ResourceRefs c;
              LifecycleResult.ProofRefs := ["observability:owning-service-inventory"];
              LifecycleResult.OwnershipVerified := Cleanup.UnownedPreserved c;
              LifecycleResult.IdempotencyVerified := Cleanup.Complete c |}).

(* internal/external/observability/sdk_adapter.go, lines 123-145: SDKAdapter.ExecuteObservability *)
Definition execute_action : M (result LifecycleResult) :=
  let action := ObservabilityRequest.Action request in
  if bool_decide (action = ObservabilityApply) then execute_apply
  else if bool_decide (action = ObservabilityVerify) then execute_verify
  else if bool_decide (action = ObservabilityDestroy) then execute_destroy
  else mret (Err (errorf "unsupported observability SDK action %q" [GStr action])).
End actions.

(* internal/external/observability/sdk_adapter.go, lines 146-146: SDKAdapter.ExecuteObservability *)
Definition public_result (request : ObservabilityExecutionRequest (option Plan)) (r : LifecycleResult) : ObservabilityExecutionResult :=
  {| ObservabilityResult.Action := ObservabilityRequest.Action request;
     ObservabilityResult.OperationID := LifecycleResult.OperationID r;
     ObservabilityResult.ResourceRefs := LifecycleResult.ResourceRefs r;
     ObservabilityResult.ProofRefs := LifecycleResult.ProofRefs r;
     ObservabilityResult.OwnershipMarker := ObservabilityRequest.OwnershipMarker request;
     ObservabilityResult.OwnershipVerified := LifecycleResult.OwnershipVerified r;
     ObservabilityResult.IdempotencyVerified := LifecycleResult.IdempotencyVerified r |}.

(* internal/external/observability/sdk_adapter.go, lines 104-147: SDKAdapter.ExecuteObservability *)
Definition sdk_ExecuteObservability (request : ObservabilityExecutionRequest (option Plan)) : M (result ObservabilityExecutionResult) :=
  match adapter_client adapter with
  | None => mret (Err (ErrNew "observability SDK lifecycle client is required"))
  | Some client =>
      match ValidateObservabilityExecutionRequest request with
      | Some err => mret (Err err)
      | None =>
          match ObservabilityPlan.Opaque (ObservabilityRequest.Plan request) with
          | None => mret (Err (ErrNew "observability SDK plan is missing its adapter-owned plan"))
          | Some plan =>
              match validateExecutionPlan request plan with
              | Some err => mret (Err err)
              | None =>
                  executed ← execute_action client request plan;
                  mret (r ← executed; Ok (public_result request r))
              end
          end
      end
  end.

(** The adapter as its callers see it. *)
(* internal/external/observability/sdk_adapter.go, lines 37-41: SDKAdapter *)
Definition sdk_adapter : ObservabilityAdapter (option Plan) W :=
  let run {A} (m : M A) w := (outcome m w, final m w) in
  {| ObservabilityDescriptor := sdk_descriptor;
     PlanObservability := λ request, run (sdk_PlanObservability request);
     ExecuteObservability := λ request, run (sdk_ExecuteObservability request) |}.
End adapter.
