(* ===== verification/TelemetryComposite.v ===== *)
(** * Composite telemetry clients (internal/external/observability/composite.go)

    One plan fanned out to the clients of its destinations.  The bindings the
    source groups beforehand are those its filter selects, so a child plan is
    always made by the filter. *)

From S2P Require Import Prelude GoStrings GoEncoding Sdk Coverage Admission Architecture Resilience Lifecycle Base64 References Edge EdgeComposite Observability Telemetry TelemetryClient.

Local Open Scope list_scope.

(* internal/external/observability/composite.go, lines 22-25: CompositeLifecycleClient *)
Record CompositeLifecycleClient (W : Type) := {
  fan_clients : gmap string (LifecycleClient W);
  operationOwner : string;
}.
Arguments fan_clients {W} _.
Arguments operationOwner {W} _.

(** The calls on the context, and on the client of a destination. *)
Inductive fan_event :=
  | EvFanContext (err : gerror)
  | EvAt (destination : string) (event : client_event).

(** ** Construction *)

Section construction.
Context {W : Type}.

(* internal/external/observability/composite.go, lines 40-52: NewCompositeLifecycleClient *)
Definition add_destination (copyClients : gmap string (LifecycleClient W)) (entry : string * option (LifecycleClient W))
    : result (gmap string (LifecycleClient W)) :=
  let destination := TrimSpace entry.1 in
  let about := [GStr destination] in
  fail_if (bool_decide (destination = "")) (ErrNew "observability composite destination is required") ;;!
  match entry.2 with
  | None => Err (errorf "observability composite client for %q is required" about)
  | Some client =>
      match copyClients !! destination with
      | Some _ => Err (errorf "observability composite destination %q is duplicated" about)
      | None => Ok (<[destination := client]> copyClients)
      end
  end.

(* internal/external/observability/composite.go, lines 40-52: NewCompositeLifecycleClient *)
Fixpoint add_destinations (copyClients : gmap string (LifecycleClient W)) (entries : list (string * option (LifecycleClient W)))
    : result (gmap string (LifecycleClient W)) :=
  match entries with
  | [] => Ok copyClients
  | entry :: entries => copyClients ← add_destination copyClients entry; add_destinations copyClients entries
  end.

(** The first destination by name owns the operations when none is named. *)
(* internal/external/observability/composite.go, lines 53-61: NewCompositeLifecycleClient *)
Definition choose_owner (clients : gmap string (LifecycleClient W)) (operationOwner : string) : string :=
  if blank operationOwner then default "" (head (sorted_keys clients)) else TrimSpace operationOwner.

(* internal/external/observability/composite.go, lines 35-66: NewCompositeLifecycleClient *)
Definition NewCompositeLifecycleClient (clients : gmap string (option (LifecycleClient W))) (operationOwner : string)
    : result (CompositeLifecycleClient W) :=
  fail_if (bool_decide (clients = ∅)) (ErrNew "observability composite requires at least one destination client") ;;!
  (copyClients ← add_destinations ∅ (map_to_list clients);
   let owner := choose_owner copyClients operationOwner in
   match copyClients !! owner with
   | None => Err (errorf "observability composite operation owner %q has no client" [GStr owner])
   | Some _ => Ok {| fan_clients := copyClients; operationOwner := owner |}
   end).

(* internal/external/observability/composite.go, lines 71-77: NewCompositeSDKAdapter *)
Definition NewCompositeSDKAdapter (fan_client : CompositeLifecycleClient W → LifecycleClient W) (provider : string)
    (clients : gmap string (option (LifecycleClient W))) (operationOwner : string) : result (SDKAdapter (W:=W)) :=
  composite ← NewCompositeLifecycleClient clients operationOwner;
  Ok {| adapter_provider := provider; adapter_client := Some (fan_client composite) |}.
End construction.

(** ** The parts of a plan *)

Section child_plans.
Import TelemetryPlan.

(* internal/external/observability/composite.go, lines 213-231: CompositeLifecycleClient.childPlanForDestination *)
Definition childPlanForDestination (owner : string) (plan : Plan) (destination : string) : Plan :=
  let mine := bool_decide (destination = owner) in
  {| TargetProvider := TargetProvider plan; TargetRuntime := TargetRuntime plan; OwnershipMarker := OwnershipMarker plan;
     NativeReference := NativeReference plan;
     Bindings := filter (λ b, TrimSpace (SignalBinding.Destination b) = destination) (Bindings plan);
     SignalStatuses := SignalStatuses plan;
     UnavailableOperations := if mine then UnavailableOperations plan else [];
     Alerts := if mine then Alerts plan else []; Dashboards := if mine then Dashboards plan else [];
     SLOs := if mine then SLOs plan else []; DataResidency := DataResidency plan; Outputs := Outputs plan |}.

(* internal/external/observability/composite.go, lines 233-235: ownsOperations *)
Definition ownsOperations (destination owner : string) (plan : Plan) : bool :=
  bool_decide (destination = owner) && has_operations plan.

(** Nothing of the plan concerns the destination. *)
(* internal/external/observability/composite.go, lines 86-86: CompositeLifecycleClient.Apply *)
Definition idle (destination owner : string) (childPlan : Plan) : bool :=
  bool_decide (Bindings childPlan = []) && negb (ownsOperations destination owner childPlan).
End child_plans.

(** The references of all results, wrapped, each once. *)
(* internal/external/observability/composite.go, lines 237-260: combineLifecycleResults *)
Definition combineLifecycleResults (operationID : string) (results : list (string * LifecycleResult)) : LifecycleResult :=
  {| LifecycleResult.OperationID := operationID;
     LifecycleResult.ResourceRefs := sort_strings (dedup [] (results ≫= λ r, wrapReferences r.1 (LifecycleResult.ResourceRefs r.2)));
     LifecycleResult.ProofRefs := sort_strings (dedup [] (results ≫= λ r, LifecycleResult.ProofRefs r.2));
     LifecycleResult.OwnershipVerified := forallb (λ r, LifecycleResult.OwnershipVerified r.2) results;
     LifecycleResult.IdempotencyVerified := forallb (λ r, LifecycleResult.IdempotencyVerified r.2) results |}.

(* internal/external/observability/composite.go, lines 165-177: CompositeLifecycleClient.VerifyCleanup *)
Definition combine_cleanup (results : list (string * LifecycleResult)) : CleanupObservation :=
  let complete := forallb (λ r, LifecycleResult.IdempotencyVerified r.2) results in
  let preserved := forallb (λ r, LifecycleResult.OwnershipVerified r.2) results in
  {| Cleanup.Complete := complete; Cleanup.UnownedPreserved := preserved;
     Cleanup.ResourceRefs := sort_strings (results ≫= λ r, LifecycleResult.ResourceRefs r.2);
     Cleanup.Reason := cleanupReason (negb complete) preserved |}.

(* internal/external/observability/composite.go, lines 155-160: CompositeLifecycleClient.VerifyCleanup *)
Definition cleanup_result (destination : string) (cleanup : CleanupObservation) : LifecycleResult :=
  {| LifecycleResult.OperationID := "cleanup"; LifecycleResult.ResourceRefs := wrapReferences destination (Cleanup.ResourceRefs cleanup);
     LifecycleResult.ProofRefs := []; LifecycleResult.OwnershipVerified := Cleanup.UnownedPreserved cleanup;
     LifecycleResult.IdempotencyVerified := Cleanup.Complete cleanup |}.

Definition no_result : LifecycleResult :=
  {| LifecycleResult.OperationID := ""; LifecycleResult.ResourceRefs := []; LifecycleResult.ProofRefs := [];
     LifecycleResult.OwnershipVerified := false; LifecycleResult.IdempotencyVerified := false |}.

(** ** Operations *)

Section fan.
Context {W : Type} (env : waiter W) (client : CompositeLifecycleClient W).
Abbreviation M := (eff fan_event W).

(* internal/external/observability/composite.go, lines 204-211: CompositeLifecycleClient.destinations *)
Definition fan_destinations : list string := sorted_keys (fan_clients client).

Definition child_plan (plan : Plan) (destination : string) : Plan :=
  childPlanForDestination (operationOwner client) plan destination.

(* internal/external/observability/composite.go, lines 82-84: CompositeLifecycleClient.Apply *)
Definition fan_valid {A} (plan : Plan) (work : M (result A)) : M (result A) :=
  err ← call EvFanContext (ctx_err env);
  match err ;;? check_marker plan with
  | Some err => mret (Err err)
  | None => work
  end.

(** A destination is always one of the clients. *)
(* internal/external/observability/composite.go, lines 191-200: CompositeLifecycleClient.forEachDestination *)
Fixpoint for_destinations (run : string → LifecycleClient W → Plan → M (result LifecycleResult)) (plan : Plan)
    (ds : list string) : M (result (list (string * LifecycleResult))) :=
  match ds with
  | [] => mret (Ok [])
  | destination :: ds =>
      match fan_clients client !! destination with
      | None => for_destinations run plan ds
      | Some child =>
          ran ← run destination child (child_plan plan destination);
          match ran with
          | Err err => mret (Err (wrapf "observability destination %q: %w" [GStr destination] err))
          | Ok r =>
              rest ← for_destinations run plan ds;
              mret (results ← rest;
                    Ok (if blank (LifecycleResult.OperationID r) then results else (destination, r) :: results))
          end
      end
  end.

(* internal/external/observability/composite.go, lines 183-189: CompositeLifecycleClient.forEachDestination *)
Definition check_bindings (bs : list SignalBinding) : gerror :=
  first_error (λ b, match fan_clients client !! TrimSpace (SignalBinding.Destination b) with
    | None => Some (errorf "observability composite has no client for destination %q" [GStr (SignalBinding.Destination b)])
    | Some _ => None
    end) bs.

(* internal/external/observability/composite.go, lines 180-202: CompositeLifecycleClient.forEachDestination *)
Definition forEachDestination (plan : Plan) (run : string → LifecycleClient W → Plan → M (result LifecycleResult))
    : M (result (list (string * LifecycleResult))) :=
  match check_bindings (TelemetryPlan.Bindings plan) with
  | Some err => mret (Err err)
  | None => for_destinations run plan fan_destinations
  end.

(* internal/external/observability/composite.go, lines 85-90: CompositeLifecycleClient.Apply *)
Definition apply_child (destination : string) (child : LifecycleClient W) (childPlan : Plan) : M (result LifecycleResult) :=
  if idle destination (operationOwner client) childPlan then mret (Ok no_result)
  else call (λ answer, EvAt destination (EvApplyPlan childPlan answer)) (client_Apply child childPlan).

(* internal/external/observability/composite.go, lines 81-95: CompositeLifecycleClient.Apply *)
Definition fan_Apply (plan : Plan) : M (result LifecycleResult) :=
  fan_valid plan (
    ran ← forEachDestination plan apply_child;
    mret (results ← ran;
          Ok (combineLifecycleResults
                ("composite:observability:apply:" +:+ markerDigest (TelemetryPlan.OwnershipMarker plan)) results))).

(* internal/external/observability/composite.go, lines 97-106: CompositeLifecycleClient.VerifySignal *)
Definition fan_VerifySignal (b : SignalBinding) : M (result SignalObservation) :=
  let destination := TrimSpace (SignalBinding.Destination b) in
  match fan_clients client !! destination with
  | None => mret (Err (errorf "observability composite has no client for destination %q" [GStr (SignalBinding.Destination b)]))
  | Some child => call (λ answer, EvAt destination (EvVerifySignal b answer)) (client_VerifySignal child b)
  end.

(** The owner has a client: construction sees to it. *)
(* internal/external/observability/composite.go, lines 108-114: CompositeLifecycleClient.VerifyOperations *)
Definition fan_VerifyOperations (plan : Plan) : M (result OperationalObservation) :=
  fan_valid plan (
    let owner := operationOwner client in
    let childPlan := child_plan plan owner in
    match fan_clients client !! owner with
    | None => mret (Err (errorf "observability composite operation owner %q has no client" [GStr owner]))
    | Some child => call (λ answer, EvAt owner (EvVerifyOperations childPlan answer)) (client_VerifyOperations child childPlan)
    end).

(* internal/external/observability/composite.go, lines 150-161: CompositeLifecycleClient.VerifyCleanup *)
Definition cleanup_child (destination : string) (child : LifecycleClient W) (childPlan : Plan) : M (result LifecycleResult) :=
  cleaned ← call (λ answer, EvAt destination (EvVerifyCleanup childPlan answer)) (client_VerifyCleanup child childPlan);
  mret (cleanup ← cleaned; Ok (cleanup_result destination cleanup)).

(* internal/external/observability/composite.go, lines 146-178: CompositeLifecycleClient.VerifyCleanup *)
Definition fan_VerifyCleanup (plan : Plan) : M (result CleanupObservation) :=
  fan_valid plan (
    ran ← forEachDestination plan cleanup_child;
    mret (results ← ran; Ok (combine_cleanup results))).

(* internal/external/observability/composite.go, lines 133-142: CompositeLifecycleClient.Destroy *)
Fixpoint destroy_children (plan : Plan) (routed : gmap string (list string)) (ds : list string) : M (result ()) :=
  match ds with
  | [] => mret (Ok tt)
  | destination :: ds =>
      let childPlan := child_plan plan destination in
      let references := default [] (routed !! destination) in
      match fan_clients client !! destination with
      | None => destroy_children plan routed ds
      | Some child =>
          if idle destination (operationOwner client) childPlan && bool_decide (references = [])
          then destroy_children plan routed ds
          else
            destroyed ← call (λ answer, EvAt destination (EvDestroyPlan childPlan references answer))
                          (client_Destroy child childPlan references);
            match destroyed with
            | Err err => mret (Err (wrapf "observability destination %q: %w" [GStr destination] err))
            | Ok _ => destroy_children plan routed ds
            end
      end
  end.

(* internal/external/observability/composite.go, lines 120-131: CompositeLifecycleClient.Destroy *)
Definition route_destroy (references : list string) : result (gmap string (list string)) :=
  validateReferences references ;;!
  (routed ← routeReferences "observability composite" "child resource" references;
   first_error (λ entry : string * list string,
     match fan_clients client !! entry.1 with
     | None => Some (errorf "observability composite has no client for destination %q" [GStr entry.1])
     | Some _ => None
     end) (map_to_list routed) ;;! Ok routed).

(* internal/external/observability/composite.go, lines 116-144: CompositeLifecycleClient.Destroy *)
Definition fan_Destroy (plan : Plan) (references : list string) : M (result CleanupObservation) :=
  fan_valid plan (
    match route_destroy references with
    | Err err => mret (Err err)
    | Ok routed =>
        destroyed ← destroy_children plan routed fan_destinations;
        match destroyed with
        | Err err => mret (Err err)
        | Ok _ => fan_VerifyCleanup plan
        end
    end).

(** The composite as its callers see it. *)
(* internal/external/observability/composite.go, lines 22-25: CompositeLifecycleClient *)
Definition fan_client : LifecycleClient W :=
  let run {A} (m : M A) w := (outcome m w, final m w) in
  {| client_VerifySignal := λ b, run (fan_VerifySignal b);
     client_VerifyOperations := λ plan, run (fan_VerifyOperations plan);
     client_VerifyCleanup := λ plan, run (fan_VerifyCleanup plan);
     client_Apply := λ plan, run (fan_Apply plan);
     client_Destroy := λ plan references, run (fan_Destroy plan references) |}.
End fan.
