(* ===== verification/TelemetryClaims.v ===== *)
(** * What the telemetry planner and its clients promise

    When an intent can be planned, that a plan is one its adapter executes, what
    a verification says, and when a verification cannot succeed. *)

From Stdlib Require Import QArith.
From S2P Require Import Prelude GoStrings Regex GoEncoding Sdk Admission Architecture Resilience Lifecycle LifecycleClaims Edge EdgeComposite EdgeClaims Observability Telemetry TelemetryClient.

Local Open Scope Z_scope.

(** ** Identifiers *)

Lemma matches_star_append r l1 l2 : matches (Star r) l1 → matches (Star r) l2 → matches (Star r) (l1 ++ l2).
Proof.
  remember (Star r) as s eqn:Hs. intros H H2. revert Hs.
  induction H as [| | | | | |r' k1 k2 Hk _ _ IH2]; intros Hs; try done. injection Hs as ->.
  rewrite <-app_assoc. apply m_star_app; [done|]. by apply IH2.
Qed.

Definition id_tail : re := Star (Seq (Cls (oneof ".-")) (plus (Cls alnum_lower))).

Lemma matches_stableID l : matches stableID l ↔
  ∃ c a b, l = c :: a ++ b ∧ lower c = true ∧ Forall (λ c, alnum_lower c = true) a ∧ matches id_tail b.
Proof.
  unfold stableID. cbn [seqs foldr]. split.
  - intros (l1&l2&->&(c&->&Hc)%matches_cls&H)%matches_seq_inv.
    apply matches_seq_inv in H as (a&l3&->&Ha%matches_star_cls&H).
    apply matches_seq_inv in H as (b&l4&->&Hb&->%matches_eps). exists c, a, b. by rewrite app_nil_r.
  - intros (c&a&b&->&Hc&Ha&Hb). apply (m_seq _ _ [c]); [by constructor|].
    constructor; [by apply matches_star_cls|]. rewrite <-(app_nil_r b). constructor; [done|constructor].
Qed.

Lemma stable_dot a b : MatchString stableID a = true → MatchString stableID b = true →
  MatchString stableID (a +:+ "." +:+ b) = true.
Proof.
  rewrite !MatchString_correct, !matches_stableID, !go_bytes_app.
  intros (c&x&t&->&Hc&Hx&Ht) (d&y&u&->&Hd&Hy&Hu). exists c, x, (t ++ go_bytes "." ++ d :: y ++ u).
  split_and!; [by rewrite <-app_comm_cons, <-app_assoc|done|done|].
  apply matches_star_append; [done|]. change (matches id_tail (("."%char :: d :: y) ++ u)).
  apply m_star_app; [|done]. apply (m_seq _ _ ["."%char]); [by constructor|].
  apply matches_plus_cls. split; [done|]. constructor; [|done]. unfold alnum_lower, either. by rewrite Hd.
Qed.

Lemma validateID_None name s : validateID name s = None ↔ MatchString stableID s = true.
Proof. unfold validateID. by rewrite fail_if_None, negb_false_iff. Qed.

Lemma stable_not_blank s : MatchString stableID s = true → blank s = false.
Proof.
  rewrite MatchString_correct, matches_stableID. intros (c&a&b&Hs&Hc&_).
  apply (visible_not_blank _ c); [|rewrite Hs; constructor]. revert Hc.
  unfold lower, byte_in. rewrite andb_true_iff, !N.leb_le. intros [H1 H2]. split; [|lia].
  unfold ascii_space. apply orb_false_iff. split; [apply andb_false_iff; right; apply N.leb_gt; lia|apply N.eqb_neq; lia].
Qed.

(** ** Objects that equal themselves *)

Lemma float_eq_refl f : float_eq f f = true ↔ f ≠ NaN.
Proof. destruct f as [|n|q]; cbn; [done| |]; [by rewrite eqb_reflx|]. split; [done|]. intros _. by apply Qeq_bool_iff. Qed.

Lemma alert_eq_refl a : alert_eq a a = true ↔ AlertIntent.Threshold a ≠ NaN.
Proof.
  unfold alert_eq. cbv zeta. rewrite !bool_decide_eq_true_2, Z.eqb_refl, !andb_true_r by done. cbn [andb]. apply float_eq_refl.
Qed.

Lemma slo_eq_refl s : slo_eq s s = true ↔ SLOIntent.Target s ≠ NaN.
Proof.
  unfold slo_eq. cbv zeta. rewrite !bool_decide_eq_true_2, Z.eqb_refl, !andb_true_r by done. cbn [andb]. apply float_eq_refl.
Qed.

(** Nothing equals an object that holds a NaN. *)
Lemma alert_eq_number a b : alert_eq a b = true → AlertIntent.Threshold a ≠ NaN.
Proof.
  unfold alert_eq. cbv zeta. rewrite !andb_true_iff. intros H. decompose [and] H. intros Hn.
  match goal with Hf : float_eq _ _ = true |- _ => rewrite Hn in Hf end. done.
Qed.

Lemma slo_eq_number s t : slo_eq s t = true → SLOIntent.Target s ≠ NaN.
Proof.
  unfold slo_eq. cbv zeta. rewrite !andb_true_iff. intros H. decompose [and] H. intros Hn.
  match goal with Hf : float_eq _ _ = true |- _ => rewrite Hn in Hf end. done.
Qed.

Lemma items_match_self {A} (id : A → string) (same : A → A → bool) l : NoDup (id <$> l) →
  items_match id same l l = true ↔ Forall (λ x, same x x = true) l.
Proof.
  intros Hnd. unfold items_match. rewrite bool_decide_eq_true_2 by done. cbn [andb]. rewrite forallb_forall, Forall_forall.
  split; intros H x Hx.
  - apply list_elem_of_In in Hx as Hx'. specialize (H x Hx'). by rewrite (by_id_lookup _ _ _ Hnd Hx) in H.
  - apply list_elem_of_In in Hx. rewrite (by_id_lookup _ _ _ Hnd Hx). by apply H.
Qed.

Lemma all2_self {A} (same : A → A → bool) l : all2 same l l = true ↔ Forall (λ x, same x x = true) l.
Proof. induction l as [|x l IH]; cbn [all2]; [done|]. by rewrite andb_true_iff, IH, Forall_cons. Qed.

Lemma unique_items_None {A} kind (id : A → string) check (l : list A) :
  Forall (λ e, e = None) (unique_items kind id check l) ↔ Forall (λ x, check x = None) l ∧ NoDup (id <$> l).
Proof.
  unfold unique_items. rewrite with_seen_None, <-(seen_NoDup id l), Forall_forall. split.
  - intros H. split.
    + intros x (l1&l2&->)%list_elem_of_split. specialize (H l1 x l2 eq_refl). by apply Forall_cons in H as [? _].
    + intros l1 x l2 Heq. specialize (H l1 x l2 Heq). apply Forall_cons in H as [_ H]. apply Forall_cons in H as [H _].
      by apply fail_if_None, bool_decide_eq_false in H.
  - intros [Hc Hs] l1 x l2 Heq. constructor; [|constructor; [|constructor]].
    + apply Hc. rewrite Heq. set_solver.
    + apply fail_if_None, bool_decide_eq_false, (Hs l1 x l2 Heq).
Qed.

(** ** Which intents can be planned *)

Section planning.
Context (url_Parse : string → result url).
Import ObservabilityIntent.

(** What the validator of the intent leaves for the planner to use. *)
Record valid_intent (i : ObservabilityIntent) : Prop := {
  intent_external : ValidateExternalIntent url_Parse (ExternalProvider i) (Lifecycle i) (Certification i) (CredentialRefs i) = None;
  intent_marker : activeProvider (NativeProvider i) || activeProvider (ExternalProvider i) = true → blank (OwnershipMarker i) = false;
  intent_retention : 0 ≤ RetentionDays i;
  intent_destination : Signals i = [] ∨ activeProvider (NativeProvider i) || activeProvider (ExternalProvider i) = true;
  intent_signals : Forall (λ s, MatchString stableID s = true) (Signals i);
  intent_distinct : NoDup (Signals i);
  intent_reference : multiline (NativeReference i) = false;
  intent_alerts : Forall (λ a, validateAlertIntent url_Parse a = None) (Alerts i) ∧ NoDup (AlertIntent.ID <$> Alerts i);
  intent_dashboards : Forall (λ d, validateDashboardIntent d = None) (Dashboards i) ∧ NoDup (DashboardIntent.ID <$> Dashboards i);
  intent_slos : Forall (λ s, validateSLOIntent url_Parse s = None) (SLOs i) ∧ NoDup (SLOIntent.ID <$> SLOs i);
}.

Lemma ValidateObservabilityIntent_None i : ValidateObservabilityIntent url_Parse i = None → valid_intent i.
Proof.
  unfold ValidateObservabilityIntent. cbv zeta. rewrite !err_seq_None, !fail_if_None.
  intros (Hx&_&Hm&Hr&_&_&Hd&Hs&_&_&_&_&Hn&Hp). apply errors_Join_None in Hp. rewrite !Forall_app, !unique_items_None in Hp.
  destruct Hp as (Ha&Hds&Hsl). apply (unique_checks_None (validateID "observability signal") (λ s, errorf _ [GStr s])) in Hs as [Hs Hnd].
  split; try done.
  - intros Ho. rewrite Ho in Hm. unfold validateOwnershipMarker in Hm. apply err_seq_None in Hm as [Hm _]. by apply fail_if_None in Hm.
  - apply orb_false_iff in Hr as [Hr _]. lia.
  - rewrite !andb_false_iff, !negb_false_iff in Hd. rewrite orb_true_iff. destruct Hd as [[Hd|Hd]|Hd]; [left|right|right]; try tauto.
    by apply bool_decide_eq_true in Hd.
  - eapply Forall_impl; [exact Hs|]. intros s. apply validateID_None.
Qed.

(** The native and the external destination a planner sees. *)
Abbreviation native i := (destination_of (NativeProvider i)).
Abbreviation external i := (destination_of (ExternalProvider i)).

(** Nothing is said about an external destination, or it is a real one. *)
Definition external_known (i : ObservabilityIntent) : Prop := ExternalProvider i = "" ∨ activeProvider (ExternalProvider i) = true.
Definition native_known (i : ObservabilityIntent) (target : string) : Prop :=
  NativeProvider i ∈ [""; "none"] ∨ nativeMatchesTarget (NativeProvider i) target = true.

Lemma external_defaults_id i : external_known i →
  ValidateExternalIntent url_Parse (ExternalProvider i) (Lifecycle i) (Certification i) (CredentialRefs i) = None →
  with_external_defaults i = i.
Proof.
  unfold external_known. intros Hk Hv. unfold with_external_defaults. cbv zeta. destruct i; cbn in *. destruct Hk as [->|Ha]; [reflexivity|].
  unfold ValidateExternalIntent in Hv. rewrite Ha in Hv. cbn [negb] in Hv. apply errors_Join_None in Hv.
  rewrite Forall_app, !Forall_cons, !fail_if_None, !negb_false_iff, !bool_decide_eq_true in Hv. destruct Hv as ((Hl&Hc&_)&_).
  rewrite (bool_decide_eq_false_2 (Lifecycle0 = "")), (bool_decide_eq_false_2 (Certification0 = ""));
    [by rewrite !andb_false_r|by intros ->; set_solver..].
Qed.

Lemma external_defaults_refused i : ¬ external_known i →
  ValidateExternalIntent url_Parse (ExternalProvider i) (Lifecycle (with_external_defaults i))
    (Certification (with_external_defaults i)) (CredentialRefs i) ≠ None.
Proof.
  intros Hk Hv. assert (He : ExternalProvider i ≠ "") by (intros ?; apply Hk; by left).
  assert (Ha : activeProvider (ExternalProvider i) = false) by (apply not_true_iff_false; intros ?; apply Hk; by right).
  unfold ValidateExternalIntent in Hv. rewrite Ha in Hv. apply fail_if_None in Hv. rewrite !orb_false_iff in Hv.
  destruct Hv as [[Hl _] _]. apply negb_false_iff, bool_decide_eq_true in Hl. revert Hl.
  cbn [with_external_defaults Lifecycle]. rewrite (bool_decide_eq_false_2 (_ = "")) by done. cbn [negb andb].
  case_bool_decide; done.
Qed.

(** The plan, when there is one. *)
Definition planned (request : TelemetryRequest.Request) : Plan :=
  let i := TelemetryRequest.Intent request in
  telemetry_plan request i (native i) (external i)
    (sort_bindings (SortedStrings (Signals i) ≫= signal_bindings (native i) (external i) i))
    (sort_statuses (SortedStrings (Signals i) ≫= signal_statuses (native i) (external i) i))
    (unavailableOperations (native i) i).

Lemma destination_of_active p : activeProvider p = true → destination_of p = p ∧ p ≠ "".
Proof.
  unfold activeProvider, destination_of. rewrite andb_true_iff, !negb_true_iff, !bool_decide_eq_false. intros [H1 H2].
  split; [|by intros ->]. rewrite bool_decide_eq_false_2; [done|]. by intros ->.
Qed.

Lemma nativeMatches_known p target : nativeMatchesTarget p target = true →
  p ∈ ["cloudwatch"; "google-cloud-operations"; "scaleway-cockpit"; "ovh-logs-data-platform"].
Proof.
  unfold nativeMatchesTarget. repeat case_bool_decide; try done; intros _; subst; apply (bool_decide_unpack _); vm_compute; exact I.
Qed.

Lemma native_none target : nativeMatchesTarget "none" target = false.
Proof. unfold nativeMatchesTarget. by repeat case_bool_decide. Qed.

Lemma Adapter_Plan_exact request : let i := TelemetryRequest.Intent request in
  ValidateObservabilityIntent url_Parse i = None → blank (TelemetryRequest.TargetProvider request) = false →
  blank (TelemetryRequest.TargetRuntime request) = false →
  (external_known i ∧ native_known i (TelemetryRequest.TargetProvider request) → Adapter_Plan url_Parse request = Ok (planned request)) ∧
  (is_ok (Adapter_Plan url_Parse request) = true → external_known i ∧ native_known i (TelemetryRequest.TargetProvider request)).
Proof.
  intros i Hv Hp Hr. pose proof (ValidateObservabilityIntent_None i Hv) as Hi. unfold Adapter_Plan. rewrite Hp, Hr. cbn [orb fail_if lift_check].
  cbv zeta. change (TelemetryRequest.Intent request) with i. split.
  - intros [Hx Hn]. rewrite (external_defaults_id i Hx (intent_external i Hi)), Hv. cbn [err_wrap lift_check].
    assert (Hm : negb (bool_decide (native i = "")) && negb (nativeMatchesTarget (native i) (TelemetryRequest.TargetProvider request)) = false).
    { apply andb_false_iff. destruct Hn as [Hn|Hn].
      - left. apply negb_false_iff, bool_decide_eq_true. unfold destination_of. apply elem_of_cons in Hn as [Hn|Hn%list_elem_of_singleton]; by rewrite Hn.
      - right. apply negb_false_iff. unfold destination_of. case_bool_decide as H0; [|done]. by rewrite H0, native_none in Hn. }
    rewrite Hm. cbn [fail_if lift_check]. destruct (bool_decide (Signals i = []) && _ && _) eqn:Hd.
    { rewrite !andb_true_iff, !bool_decide_eq_true in Hd. destruct Hd as [[Hs Hna] Hex]. f_equal. unfold planned. cbv zeta. change (TelemetryRequest.Intent request) with i.
      by rewrite Hs, Hna, Hex. }
    rewrite (proj2 (fail_if_None _ _)); [done|]. apply andb_false_iff.
    destruct (intent_destination i Hi) as [Hs|Ho].
    + rewrite bool_decide_eq_true_2 in Hd by done. apply andb_false_iff in Hd. cbn in Hd. tauto.
    + apply orb_true_iff in Ho as [Ho|Ho]; apply destination_of_active in Ho as [-> ?]; [right|left]; by apply bool_decide_eq_false.
  - intros Hok. destruct (decide (ExternalProvider i = "" ∨ activeProvider (ExternalProvider i) = true)) as [Hx|Hx].
    + split; [exact Hx|]. rewrite (external_defaults_id i Hx (intent_external i Hi)), Hv in Hok. cbn [err_wrap lift_check] in Hok.
      unfold native_known. destruct (fail_if _ _) eqn:Hm in Hok; [done|]. clear Hok. apply fail_if_None, andb_false_iff in Hm.
      rewrite !negb_false_iff, bool_decide_eq_true in Hm. unfold destination_of in Hm. case_bool_decide as H0; [left; rewrite H0; by repeat constructor|].
      destruct Hm as [->|Hm]; [left; constructor|by right].
    + exfalso. assert (Hn : ValidateObservabilityIntent url_Parse (with_external_defaults i) ≠ None).
      { intros H. unfold ValidateObservabilityIntent in H. cbv zeta in H. apply err_seq_None in H as [H _].
        by apply (external_defaults_refused i Hx). }
      destruct (ValidateObservabilityIntent url_Parse (with_external_defaults i)); done.
Qed.

(** ** The parts of a plan *)

Section parts.
Context (i : ObservabilityIntent) (target : string).
Hypothesis Hi : valid_intent i.
Hypothesis Hx : external_known i.
Hypothesis Hn : native_known i target.
Abbreviation bindings := (sort_bindings (SortedStrings (Signals i) ≫= signal_bindings (native i) (external i) i)).
Abbreviation statuses := (sort_statuses (SortedStrings (Signals i) ≫= signal_statuses (native i) (external i) i)).

Lemma native_status n s reference : SignalStatus.Signal (nativeSignalStatus n s reference) = s ∧
  (SignalStatus.Status (nativeSignalStatus n s reference) = "configured" ∨ SignalStatus.Status (nativeSignalStatus n s reference) = "unavailable").
Proof.
  unfold nativeSignalStatus, configured, unavailable_because. cbv zeta.
  repeat (case_bool_decide || case_match); cbn; split; auto.
Qed.

Lemma external_cases : external i = "" ∧ ExternalProvider i = "" ∨ external i = ExternalProvider i ∧ activeProvider (ExternalProvider i) = true.
Proof.
  destruct Hx as [He|Ha]; [left|right]; [by rewrite He|]. apply destination_of_active in Ha as Hd. by destruct Hd as [-> _].
Qed.

Lemma native_cases : native i = "" ∨ native i ∈ ["cloudwatch"; "google-cloud-operations"; "scaleway-cockpit"; "ovh-logs-data-platform"].
Proof.
  unfold destination_of. case_bool_decide as H0; [by left|]. destruct Hn as [Hin|Hm]; [|right; by eapply nativeMatches_known].
  left. apply elem_of_cons in Hin as [?|?%list_elem_of_singleton]; [done|]. by destruct H0.
Qed.

Lemma elem_of_bindings b : b ∈ bindings ↔ ∃ s, s ∈ Signals i ∧ b ∈ signal_bindings (native i) (external i) i s.
Proof.
  unfold sort_bindings. rewrite elem_of_sort_by, list_elem_of_bind. unfold SortedStrings.
  split; intros (s&H1&H2); exists s; [rewrite elem_of_sort_strings in H2|rewrite elem_of_sort_strings]; tauto.
Qed.

Lemma elem_of_signal_bindings s b : b ∈ signal_bindings (native i) (external i) i s ↔
  (native i ≠ "" ∧ SignalStatus.Status (nativeSignalStatus (native i) s (NativeReference i)) = "configured" ∧ b = native_binding (native i) i s) ∨
  (external i ≠ "" ∧ b = external_binding (external i) i s).
Proof.
  unfold signal_bindings. rewrite elem_of_app. repeat case_bool_decide; rewrite ?list_elem_of_singleton, ?elem_of_nil; tauto.
Qed.

Lemma unavailable_perm : unavailable_signals statuses ≡ₚ
  filter (λ s, native i ≠ "" ∧ SignalStatus.Status (nativeSignalStatus (native i) s (NativeReference i)) = "unavailable") (Signals i).
Proof.
  unfold unavailable_signals, sort_statuses, SortedStrings. rewrite sort_by_perm. rewrite (sort_strings_perm (Signals i)).
  apply reflexive_eq. generalize (Signals i). intros l. induction l as [|s l IH]; [done|].
  rewrite bind_cons, filter_app, fmap_app, IH. unfold signal_statuses at 1.
  destruct (native_status (native i) s (NativeReference i)) as [Hs _]. rewrite filter_app, fmap_app.
  assert (He : SignalStatus.Signal <$> filter (λ t, SignalStatus.Status t = "unavailable")
    (if bool_decide (external i = "") then [] else [configured s (external i)]) = []).
  { case_bool_decide; [done|]. by rewrite filter_cons_False. }
  rewrite He, app_nil_r. clear He. case_bool_decide as Hnat.
  - rewrite (filter_cons_False _ s) by (intros Hf; exact (proj1 Hf Hnat)). done.
  - destruct (decide (SignalStatus.Status (nativeSignalStatus (native i) s (NativeReference i)) = "unavailable")) as [Hu|Hu].
    + rewrite (filter_cons_True _ (nativeSignalStatus _ _ _)) by exact Hu. rewrite (filter_cons_True _ s) by (split; [exact Hnat|exact Hu]).
      cbn [filter list_filter fmap list_fmap app]. by rewrite Hs.
    + rewrite (filter_cons_False _ (nativeSignalStatus _ _ _)) by exact Hu. rewrite (filter_cons_False _ s) by (intros Hf; exact (Hu (proj2 Hf))). done.
Qed.

(** A requested signal is bound, or declared unavailable. *)
Lemma signal_covered s : s ∈ Signals i → s ∈ SignalBinding.Signal <$> bindings ∨ s ∈ unavailable_signals statuses.
Proof.
  intros Hs. destruct (decide (external i = "")) as [He|He].
  - destruct (decide (native i = "")) as [Hna|Hna].
    + exfalso. destruct (intent_destination i Hi) as [H0|Ho]; [by rewrite H0 in Hs; apply elem_of_nil in Hs|].
      apply orb_true_iff in Ho as [Ho|Ho]; apply destination_of_active in Ho as [Hd ?]; congruence.
    + destruct (native_status (native i) s (NativeReference i)) as [_ [Hc|Hu]]; [left|right].
      * apply list_elem_of_fmap. exists (native_binding (native i) i s). split; [done|]. apply elem_of_bindings.
        exists s. split; [done|]. apply elem_of_signal_bindings. by left.
      * rewrite unavailable_perm. by apply list_elem_of_filter.
  - left. apply list_elem_of_fmap. exists (external_binding (external i) i s). split; [done|]. apply elem_of_bindings.
    exists s. split; [done|]. apply elem_of_signal_bindings. by right.
Qed.

Lemma bound_requested s : s ∈ SignalBinding.Signal <$> bindings → s ∈ Signals i.
Proof.
  intros (b&->&(s0&Hs&Hb)%elem_of_bindings)%list_elem_of_fmap.
  apply elem_of_signal_bindings in Hb as [(_&_&->)|(_&->)]; exact Hs.
Qed.

(** Identifiers of operations nobody can provide. *)
Lemma unavailable_operation_stable name : name ∈ unavailableOperations (native i) i → MatchString stableID name = true.
Proof.
  unfold unavailableOperations. cbv zeta. rewrite elem_of_sort_strings.
  assert (Hk : ∀ kind ids, MatchString stableID kind = true → Forall (λ id, MatchString stableID id = true) ids →
    name ∈ operation_names kind ids → MatchString stableID name = true).
  { intros kind ids Hkind Hids (id&->&[_ Hin]%list_elem_of_filter)%list_elem_of_fmap. rewrite Forall_forall in Hids. by apply stable_dot, Hids. }
  assert (Hs : Forall (λ id, MatchString stableID id = true) (SLOIntent.ID <$> SLOs i)).
  { apply Forall_fmap. eapply Forall_impl; [apply (intent_slos i Hi)|]. intros x H. unfold validateSLOIntent in H.
    apply err_seq_None in H as [H _]. by apply validateID_None in H. }
  assert (Ha : Forall (λ id, MatchString stableID id = true) (AlertIntent.ID <$> Alerts i)).
  { apply Forall_fmap. eapply Forall_impl; [apply (intent_alerts i Hi)|]. intros x H. unfold validateAlertIntent in H.
    apply err_seq_None in H as [H _]. by apply validateID_None in H. }
  assert (Hd : Forall (λ id, MatchString stableID id = true) (DashboardIntent.ID <$> Dashboards i)).
  { apply Forall_fmap. eapply Forall_impl; [apply (intent_dashboards i Hi)|]. intros x H. unfold validateDashboardIntent in H.
    apply err_seq_None in H as [H _]. by apply validateID_None in H. }
  assert (Hslo : MatchString stableID "slo" = true) by (by vm_compute).
  assert (Hal : MatchString stableID "alert" = true) by (by vm_compute).
  assert (Hda : MatchString stableID "dashboard" = true) by (by vm_compute).
  rewrite !elem_of_app. intros [H|[H|H]].
  - case_bool_decide; [exact (Hk _ _ Hslo Hs H)|by apply elem_of_nil in H].
  - case_bool_decide; [|by apply elem_of_nil in H]. destruct (blank _); [exact (Hk _ _ Hslo Hs H)|by apply elem_of_nil in H].
  - destruct (_ || _); [|by apply elem_of_nil in H]. rewrite !elem_of_app in H.
    destruct H as [H|[H|H]]; [exact (Hk _ _ Hal Ha H)|exact (Hk _ _ Hda Hd H)|exact (Hk _ _ Hslo Hs H)].
Qed.

(** A binding fails its check only through the name of its destination. *)
Lemma binding_valid b : b ∈ bindings → Forall (λ e, e = None) (validate_binding url_Parse (public_binding b)) ↔
  MatchString stableID (SignalBinding.Destination b) = true.
Proof.
  intros (s&Hs&Hb)%elem_of_bindings. unfold validate_binding. cbv zeta. rewrite !Forall_cons, !validateID_None, fail_if_None.
  assert (Hsig : MatchString stableID s = true) by (pose proof (intent_signals i Hi) as Hf; rewrite Forall_forall in Hf; by apply Hf).
  assert (Hret : (RetentionDays i <? 0) = false) by (apply Z.ltb_ge, (intent_retention i Hi)).
  apply elem_of_signal_bindings in Hb as [(_&_&->)|(He&->)]; unfold public_binding, native_binding, external_binding, externalModeEndpoint; cbn -[MatchString stableID Z.ltb ValidateCredentialReference].
  - rewrite Hsig, Hret. intuition.
  - rewrite Hsig, Hret. cut ((if bool_decide (default "" (head (CredentialRefs i)) = "") then None
      else err_wrap (wrapf "observability binding credential: %w" []) (ValidateCredentialReference url_Parse (default "" (head (CredentialRefs i))))) = None); [intuition|].
    case_bool_decide as Hr; [done|]. destruct external_cases as [[? _]|[_ Ha]]; [done|].
    pose proof (intent_external i Hi) as Hv. unfold ValidateExternalIntent in Hv. rewrite Ha in Hv. cbn [negb] in Hv.
    apply errors_Join_None, Forall_app in Hv as [_ Hv]. apply Forall_fmap in Hv. apply err_wrap_None.
    destruct (CredentialRefs i) as [|r rs]; [done|]. apply Forall_cons in Hv as [Hv _]. cbn in Hv. by apply err_wrap_None in Hv.
Qed.

Definition external_named : Prop := Signals i = [] ∨ ExternalProvider i = "" ∨ MatchString stableID (ExternalProvider i) = true.

Lemma native_stable : native i ≠ "" → MatchString stableID (native i) = true.
Proof.
  intros Hne. destruct native_cases as [?|Hin]; [done|]. revert Hin. rewrite !elem_of_cons, elem_of_nil.
  intros [Hd|[Hd|[Hd|[Hd|[]]]]]; rewrite Hd; by vm_compute.
Qed.

Lemma destinations_stable : Forall (λ b, MatchString stableID (SignalBinding.Destination b) = true) bindings ↔ external_named.
Proof.
  unfold external_named. rewrite Forall_forall. split.
  - intros Hall. assert (Hsig : Signals i = [] ∨ ∃ s, s ∈ Signals i).
    { destruct (Signals i) as [|s l]; [by left|right]. exists s. constructor. }
    destruct Hsig as [?|[s Hs]]; [by left|right]. destruct external_cases as [[_ ?]|[He Ha]]; [by left|right]. rewrite <-He.
    apply (Hall (external_binding (external i) i s)), elem_of_bindings. exists s. split; [done|].
    apply elem_of_signal_bindings. right. split; [|done]. rewrite He. by apply destination_of_active in Ha as [_ ?].
  - intros Hcase b (s&Hs&Hb)%elem_of_bindings. apply elem_of_signal_bindings in Hb as [(Hne&_&->)|(Hne&->)]; [by apply native_stable|].
    change (MatchString stableID (external i) = true).
    destruct external_cases as [[? _]|[-> Ha]]; [done|]. destruct Hcase as [H0|[H0|H0]]; [|by rewrite H0 in Ha|exact H0].
    rewrite H0 in Hs. by apply elem_of_nil in Hs.
Qed.

Lemma bindings_valid : Forall (λ e, e = None) ((public_binding <$> bindings) ≫= validate_binding url_Parse) ↔ external_named.
Proof.
  rewrite <-destinations_stable. rewrite !Forall_forall. split.
  - intros H b Hb. apply binding_valid; [done|]. rewrite Forall_forall. intros e He. apply H, list_elem_of_bind.
    exists (public_binding b). split; [done|]. by apply list_elem_of_fmap_2.
  - intros H e (b'&He&(b&->&Hb)%list_elem_of_fmap)%list_elem_of_bind.
    pose proof (proj2 (binding_valid b Hb) (H b Hb)) as Hf. rewrite Forall_forall in Hf. by apply Hf.
Qed.

Lemma projected_signals : ObservabilityBinding.Signal <$> (public_binding <$> bindings) = SignalBinding.Signal <$> bindings.
Proof. by rewrite <-list_fmap_compose. Qed.

Lemma unavailable_requested s : s ∈ unavailable_signals statuses → s ∈ Signals i.
Proof. rewrite unavailable_perm. by intros [_ ?]%list_elem_of_filter. Qed.

Lemma unavailable_distinct : NoDup (SortedStrings (unavailable_signals statuses)).
Proof.
  unfold SortedStrings. rewrite sort_strings_perm, unavailable_perm. apply NoDup_filter, (intent_distinct i Hi).
Qed.

(** Every requested signal is bound or declared unavailable, and no other. *)
Lemma projection_complete {O} (plan : ObservabilityPlan O) :
  ObservabilityPlan.Bindings plan = public_binding <$> bindings →
  ObservabilityPlan.UnavailableSignals plan = SortedStrings (unavailable_signals statuses) →
  validateObservabilitySignalProjection plan i = None.
Proof.
  intros Hb Hu. unfold validateObservabilitySignalProjection. cbv zeta. rewrite Hb, Hu, projected_signals, !err_seq_None. split_and!.
  - apply first_error_None, Forall_forall. intros s Hs. by apply fail_if_None, negb_false_iff, bool_decide_eq_true, bound_requested.
  - apply first_of_None, with_seen_None. intros l1 x l2 Heq. pose proof unavailable_distinct as Hnd.
    assert (Hx' : x ∈ SortedStrings (unavailable_signals statuses)) by (rewrite Heq; set_solver).
    unfold SortedStrings in Hx'. rewrite elem_of_sort_strings in Hx'. repeat constructor; apply fail_if_None.
    + by apply negb_false_iff, bool_decide_eq_true, unavailable_requested.
    + rewrite Heq in Hnd. apply NoDup_app in Hnd as (_&Hnd&_). apply bool_decide_eq_false. rewrite app_nil_r, elem_of_reverse. intros H. by apply (Hnd x H); constructor.
  - apply first_error_None, Forall_forall. intros s Hs. apply fail_if_None, andb_false_iff. rewrite !negb_false_iff, !bool_decide_eq_true.
    destruct (signal_covered s Hs) as [H|H]; [by left|right]. unfold SortedStrings. by rewrite elem_of_sort_strings.
Qed.

Lemma unavailable_stable s : s ∈ SortedStrings (unavailable_signals statuses) → MatchString stableID s = true.
Proof.
  unfold SortedStrings. rewrite elem_of_sort_strings. intros H%unavailable_requested.
  pose proof (intent_signals i Hi) as Hf. rewrite Forall_forall in Hf. by apply Hf.
Qed.

Lemma dashboards_match : observabilityDashboardsMatch (Dashboards i) (Dashboards i) = true.
Proof.
  apply items_match_self; [apply (intent_dashboards i Hi)|]. apply Forall_forall. intros d _.
  unfold equalStringSet. by rewrite !bool_decide_eq_true_2.
Qed.
End parts.

(** What the planner asks of a valid intent beyond its validation. *)
Record plannable (i : ObservabilityIntent) (target : string) : Prop := {
  plannable_external : external_known i;
  plannable_native : native_known i target;
  plannable_named : external_named i;
  plannable_residency : multiline (DataResidency i) = false;
  plannable_alerts : Forall (λ a, AlertIntent.Threshold a ≠ NaN) (Alerts i);
  plannable_slos : Forall (λ s, SLOIntent.Target s ≠ NaN) (SLOs i);
}.

Context {W : Type} (adapter : @SDKAdapter W).

Lemma descriptor_id_visible : blank (ObservabilityAdapterDescriptor.ID (sdk_descriptor adapter)) = false.
Proof.
  apply (visible_not_blank _ "o"%char); [split; [done|reflexivity]|].
  cbn [sdk_descriptor ObservabilityAdapterDescriptor.ID]. rewrite go_bytes_app. apply elem_of_app. right.
  apply (bool_decide_unpack _). vm_compute. exact I.
Qed.

Lemma items_preserved i : valid_intent i →
  negb (observabilityAlertsMatch (Alerts i) (Alerts i)) || negb (observabilityDashboardsMatch (Dashboards i) (Dashboards i))
    || negb (observabilitySLOsMatch (SLOs i) (SLOs i)) = false ↔
  Forall (λ a, AlertIntent.Threshold a ≠ NaN) (Alerts i) ∧ Forall (λ s, SLOIntent.Target s ≠ NaN) (SLOs i).
Proof.
  intros Hi. rewrite (dashboards_match i Hi), orb_false_r, orb_false_iff, !negb_false_iff.
  unfold observabilityAlertsMatch, observabilitySLOsMatch.
  rewrite !items_match_self by apply Hi. rewrite !Forall_forall. by setoid_rewrite alert_eq_refl; setoid_rewrite slo_eq_refl.
Qed.

Definition request_of (request : ObservabilityPlanRequest) : TelemetryRequest.Request :=
  {| TelemetryRequest.TargetProvider := ObservabilityPlanRequest.TargetProvider request;
     TelemetryRequest.TargetRuntime := ObservabilityPlanRequest.TargetRuntime request;
     TelemetryRequest.Intent := ObservabilityPlanRequest.Intent request |}.

Lemma public_plan_valid request : let i := ObservabilityPlanRequest.Intent request in
  let target := ObservabilityPlanRequest.TargetProvider request in
  valid_intent i → external_known i → native_known i target →
  ValidateObservabilityPlan url_Parse (public_plan adapter request (planned (request_of request))) request = None ↔
  plannable i target.
Proof.
  intros i target Hi Hx Hn. unfold ValidateObservabilityPlan. cbv zeta. change (ObservabilityPlanRequest.Intent request) with i.
  cbn [public_plan planned request_of telemetry_plan ObservabilityPlan.AdapterID ObservabilityPlan.TargetProvider ObservabilityPlan.TargetRuntime
    ObservabilityPlan.OwnershipMarker ObservabilityPlan.DataResidency ObservabilityPlan.NativeReference ObservabilityPlan.Alerts
    ObservabilityPlan.Dashboards ObservabilityPlan.SLOs ObservabilityPlan.Bindings ObservabilityPlan.UnavailableSignals
    ObservabilityPlan.UnavailableOperations TelemetryPlan.OwnershipMarker TelemetryPlan.DataResidency TelemetryPlan.NativeReference
    TelemetryPlan.Alerts TelemetryPlan.Dashboards TelemetryPlan.SLOs TelemetryPlan.Bindings TelemetryPlan.SignalStatuses
    TelemetryPlan.UnavailableOperations TelemetryRequest.Intent TelemetryRequest.TargetProvider TelemetryRequest.TargetRuntime].
  change (ObservabilityPlanRequest.Intent request) with i. rewrite errors_Join_None, !Forall_app, !Forall_cons, Forall_nil, !fail_if_None, (items_preserved i Hi), descriptor_id_visible.
  rewrite !(bool_decide_eq_true_2 (_ = _)) by done.
  rewrite (bindings_valid i target Hi Hx Hn), (projection_complete i target Hi Hx Hn) by reflexivity.
  assert (Hm : blank (OwnershipMarker i) && (activeProvider (NativeProvider i) || activeProvider (ExternalProvider i)) = false).
  { apply andb_false_iff. destruct (activeProvider _ || activeProvider _) eqn:Ho; [left|by right]. by apply (intent_marker i Hi). }
  rewrite Hm, (intent_reference i Hi), !Forall_fmap. split.
  - intros ((_&_&_&Hr&_&_&_&(Ha&Hs)&_)&_&_&_&Hb&_). by split.
  - intros [_ _ Hb Hr Ha Hs]. split_and!; try done.
    + apply (proj1 (intent_alerts i Hi)).
    + apply (proj1 (intent_dashboards i Hi)).
    + apply (proj1 (intent_slos i Hi)).
    + apply Forall_forall. intros s Hin. by apply validateID_None, (unavailable_stable i Hi).
    + apply Forall_forall. intros s Hin. by apply validateID_None, (unavailable_operation_stable i Hi).
Qed.

Lemma plan_request_spec request : ValidateObservabilityPlanRequest url_Parse request = None →
  let target := ObservabilityPlanRequest.TargetProvider request in
  (plannable (ObservabilityPlanRequest.Intent request) target →
     plan_request url_Parse adapter request = Ok (public_plan adapter request (planned (request_of request)))) ∧
  (is_ok (plan_request url_Parse adapter request) = true → plannable (ObservabilityPlanRequest.Intent request) target).
Proof.
  intros Hv target. unfold plan_request. rewrite Hv. cbn [lift_check]. unfold ValidateObservabilityPlanRequest in Hv.
  rewrite errors_Join_None, !Forall_cons, !validateID_None in Hv. destruct Hv as (Hp&Hr&Hi&_).
  pose proof (Adapter_Plan_exact (request_of request) Hi (stable_not_blank _ Hp) (stable_not_blank _ Hr)) as [Hok Hknown].
  pose proof (ValidateObservabilityIntent_None _ Hi) as Hin. fold (request_of request). split.
  - intros Hpl. rewrite (Hok (conj (plannable_external _ _ Hpl) (plannable_native _ _ Hpl))).
    cbn. by rewrite (proj2 (public_plan_valid request Hin (plannable_external _ _ Hpl) (plannable_native _ _ Hpl)) Hpl).
  - destruct (Adapter_Plan url_Parse _) as [plan|err] eqn:Hplan; [|done]. destruct (Hknown eq_refl) as [Hx Hn].
    specialize (Hok (conj Hx Hn)). injection Hok as ->. intros H. apply (public_plan_valid request Hin Hx Hn).
    revert H. cbn. by destruct (ValidateObservabilityPlan _ _ _).
Qed.

(** C29: Of an intent that passes the SDK's validation, the planner makes a plan exactly when the intent is plannable for
    its target: the external destination is left out or a real one, the native one is left out or belongs to the target
    provider, an external destination that gets a signal has the shape of an identifier, the residency holds no NUL, and no
    threshold or target is a NaN.  A validation that passes is therefore not enough: an external provider of "none" is
    valid for the SDK and refused here, and so is an alert whose threshold is a NaN, which no plan is able to preserve. *)
Theorem plan_request_exact request : ValidateObservabilityPlanRequest url_Parse request = None →
  is_ok (plan_request url_Parse adapter request) = true ↔
  plannable (ObservabilityPlanRequest.Intent request) (ObservabilityPlanRequest.TargetProvider request).
Proof. intros [Hok Hpl]%plan_request_spec. split; [exact Hpl|]. intros H. by rewrite (Hok H). Qed.

(** The adapter of a provider whose name is an identifier describes itself well. *)
Lemma descriptor_valid : MatchString stableID (adapter_provider adapter) = true →
  ValidateObservabilityAdapterDescriptor (sdk_descriptor adapter) = None.
Proof.
  intros Hp. unfold ValidateObservabilityAdapterDescriptor.
  cbn [sdk_descriptor ObservabilityAdapterDescriptor.APIVersion ObservabilityAdapterDescriptor.ID ObservabilityAdapterDescriptor.Provider
    ObservabilityAdapterDescriptor.Version ObservabilityAdapterDescriptor.Capabilities].
  rewrite errors_Join_None, Forall_app, !Forall_cons, !validateID_None. split_and!.
  - by vm_compute.
  - change ".observability" with ("." +:+ "observability"). apply stable_dot; [done|by vm_compute].
  - done.
  - by vm_compute.
  - by vm_compute.
  - constructor.
  - apply (bool_decide_unpack _). vm_compute. exact I.
Qed.

(** What an adapter plans, it executes, and only at its own provider: whatever plan the planner returns for a request,
    the check of the plan before an action passes exactly when the request named the provider of the adapter as its target.
    The identifiers, the bindings, the alerts, dashboards and targets, the signals and operations declared unavailable and
    the outputs of the public plan all agree with the plan the adapter keeps inside it. *)
Theorem plan_executes request public execution : plan_request url_Parse adapter request = Ok public →
  ObservabilityRequest.Plan execution = public →
  ∃ plan, ObservabilityPlan.Opaque public = Some plan ∧
    (validateExecutionPlan adapter execution plan = None ↔
     ObservabilityPlanRequest.TargetProvider request = adapter_provider adapter).
Proof.
  intros Hok Hplan. assert (Hv : ValidateObservabilityPlanRequest url_Parse request = None).
  { unfold plan_request in Hok. by apply lift_check_Ok in Hok as [? _]. }
  destruct (plan_request_spec request Hv) as [Hto Hfrom]. rewrite Hok in Hto, Hfrom. specialize (Hfrom eq_refl).
  injection (Hto Hfrom) as ->. eexists. split; [reflexivity|]. unfold validateExecutionPlan. cbv zeta. rewrite Hplan.
  rewrite !err_seq_None, !err_wrap_None, !fail_if_None, !orb_false_iff, !negb_false_iff, !bool_decide_eq_true. split.
  - by intros (_&((_&Ht)&_)&_).
  - intros Ht. assert (Hp : MatchString stableID (adapter_provider adapter) = true).
    { rewrite <-Ht. unfold ValidateObservabilityPlanRequest in Hv. rewrite errors_Join_None, !Forall_cons, !validateID_None in Hv. tauto. }
    split_and!; try done; try exact Ht; try by apply descriptor_valid.
    + apply all2_self. eapply Forall_impl; [apply (plannable_alerts _ _ Hfrom)|]. intros a. apply alert_eq_refl.
    + apply all2_self. eapply Forall_impl; [apply (plannable_slos _ _ Hfrom)|]. intros a. apply slo_eq_refl.
    + cbn. apply sort_strings_unique. symmetry. apply sort_strings_perm.
Qed.

End planning.


(** ** Examples *)

Module TelemetryExample.

(** A parser that takes everything for an HTTPS address. *)
Definition https : string → result url := λ s,
  Ok {| Scheme := "https"; HasUser := false; Fragment := ""; Host := s; Path := ""; Admission.Opaque := "" |}.

Definition alert (threshold : float64) : AlertIntent :=
  {| AlertIntent.ID := "latency"; AlertIntent.Signal := "metrics"; AlertIntent.Severity := "critical"; AlertIntent.Operator := "gt";
     AlertIntent.Threshold := threshold; AlertIntent.WindowSeconds := 300; AlertIntent.Owner := "shop";
     AlertIntent.RunbookURL := "runbook.example"; AlertIntent.DeduplicationKey := "latency";
     AlertIntent.MaintenancePolicyRef := "" |}.

(** The telemetry of a shop on AWS, in CloudWatch, which does not take traces. *)
Definition all_signals : list string := ["traces"; "logs"; "metrics"].

Definition intent (signals : list string) (threshold : float64) : ObservabilityIntent :=
  {| ObservabilityIntent.Lifecycle := ""; ObservabilityIntent.Certification := ""; ObservabilityIntent.OwnershipMarker := "shop";
     ObservabilityIntent.NativeProvider := "cloudwatch"; ObservabilityIntent.NativeReference := "";
     ObservabilityIntent.ExternalProvider := ""; ObservabilityIntent.CredentialRefs := []; ObservabilityIntent.Endpoint := "";
     ObservabilityIntent.ServiceName := "shop"; ObservabilityIntent.Environment := "test"; ObservabilityIntent.Logs := true;
     ObservabilityIntent.Metrics := true; ObservabilityIntent.Traces := true;
     ObservabilityIntent.Signals := signals; ObservabilityIntent.RetentionDays := 30;
     ObservabilityIntent.SamplingRatio := one64; ObservabilityIntent.RedactionPolicyRef := ""; ObservabilityIntent.AlertRefs := [];
     ObservabilityIntent.Labels := ∅; ObservabilityIntent.DataResidency := "eu"; ObservabilityIntent.Alerts := [alert threshold];
     ObservabilityIntent.Dashboards := []; ObservabilityIntent.SLOs := [] |}.

Definition request (signals : list string) (threshold : float64) : ObservabilityPlanRequest :=
  {| ObservabilityPlanRequest.TargetProvider := "aws"; ObservabilityPlanRequest.TargetRuntime := "ecs";
     ObservabilityPlanRequest.Intent := intent signals threshold; ObservabilityPlanRequest.Configuration := ∅ |}.

Definition adapter : SDKAdapter (W:=nat) := {| adapter_provider := "aws"; adapter_client := None |}.

Lemma plan_request_exact_witness : plannable (intent all_signals one64) "aws" ∧
  ValidateObservabilityPlanRequest https (request all_signals NaN) = None ∧ is_ok (plan_request https adapter (request all_signals NaN)) = false.
Proof.
  split_and!.
  - apply (plan_request_exact https adapter (request all_signals one64)); [vm_compute; reflexivity|]. vm_compute. reflexivity.
  - vm_compute. reflexivity.
  - apply not_true_iff_false. intros H. apply (plan_request_exact https adapter (request all_signals NaN)) in H; [|vm_compute; reflexivity].
    pose proof (plannable_alerts _ _ H) as Hf. inversion Hf. done.
Defined.

Definition planned_here := Eval vm_compute in
  match plan_request https adapter (request all_signals one64) with
  | Ok public => public
  | Err _ => public_plan adapter (request all_signals one64) (planned (request_of (request all_signals one64)))
  end.

Definition execution : ObservabilityExecutionRequest (option Plan) :=
  observability_execution ObservabilityApply "key-1" [] "" planned_here.

Lemma plan_executes_witness : ∃ plan, ObservabilityPlan.Opaque planned_here = Some plan ∧
  validateExecutionPlan adapter execution plan = None.
Proof.
  destruct (plan_executes https adapter (request all_signals one64) planned_here execution) as (plan&Ho&Hv).
  - vm_compute. reflexivity.
  - reflexivity.
  - exists plan. split; [exact Ho|]. apply Hv. reflexivity.
Defined.
End TelemetryExample.
