(* ===== verification/VerifyClaims.v ===== *)
(** * What the telemetry clients and the observability gate promise

    When a verification is complete, why a live deployment has none, what a
    composite asks of its destinations before it calls a cleanup complete, and
    what the shared gate lets an adapter execute. *)

From S2P Require Import Prelude GoStrings Regex GoEncoding Sdk Admission Architecture Resilience Lifecycle LifecycleClaims References Edge EdgeComposite EdgeClaims Observability Telemetry TelemetryClient TelemetryComposite TelemetryClaims.

Local Open Scope Z_scope.

(** ** Verifications *)

Section verification.
Context {W : Type} (client : LifecycleClient W) (plan : Plan).
Import TelemetryPlan.

Definition signal_proved (b : SignalBinding) (o : SignalObservation) : Prop :=
  SignalObservation.Delivered o = true ∧ SignalObservation.LabelsVerified o = true ∧
  SignalObservation.RetentionVerified o = true ∧ SignalObservation.RedactionVerified o = true.

Lemma signal_failures_nil b o : signal_failures b o = [] ↔ signal_proved b o.
Proof.
  unfold signal_failures, signal_proved. cbv zeta.
  destruct (SignalObservation.Delivered o), (SignalObservation.LabelsVerified o),
    (SignalObservation.RetentionVerified o), (SignalObservation.RedactionVerified o); cbn; intuition congruence.
Qed.

Lemma verify_signals_Ok bs : ∀ w observations failures, outcome (verify_signals client bs) w = Ok (observations, failures) →
  Forall2 (λ b o, same_signal b o = true) bs observations ∧ (failures = [] ↔ Forall2 signal_proved bs observations).
Proof.
  induction bs as [|b bs IH]; intros w observations failures; cbn [verify_signals].
  { rewrite outcome_ret. intros [= <- <-]. split; [constructor|]. split; [constructor|done]. }
  rewrite outcome_bind, outcome_call. destruct (client_VerifySignal client b w).1 as [o|err]; [|by rewrite outcome_ret].
  destruct (same_signal b o) eqn:Hs; cbn [negb]; [|by rewrite outcome_ret].
  rewrite outcome_bind, outcome_ret. destruct (outcome (verify_signals client bs) _) as [[os fs]|err] eqn:Hr; [|done].
  intros [= <- <-]. apply IH in Hr as [Hsame Hf]. split; [by constructor|].
  rewrite app_nil, signal_failures_nil, Hf, Forall2_cons. done.
Qed.

Definition operations_proved (o : OperationalObservation) : Prop :=
  (Alerts plan = [] ∨ Operational.AlertsVerified o = true) ∧ (Dashboards plan = [] ∨ Operational.DashboardsVerified o = true) ∧
  (SLOs plan = [] ∨ Operational.SLOsVerified o = true).

Lemma operation_failures_nil o : operation_failures plan o = [] ↔ operations_proved o.
Proof.
  unfold operation_failures, operations_proved. cbv zeta. repeat case_bool_decide;
    destruct (Operational.AlertsVerified o), (Operational.DashboardsVerified o), (Operational.SLOsVerified o); cbn; intuition congruence.
Qed.

Lemma verify_operations_Ok w o failures : outcome (verify_operations client plan) w = Ok (o, failures) →
  (failures = [] ↔ operations_proved o).
Proof.
  unfold verify_operations. destruct (has_operations plan) eqn:Ho.
  - rewrite outcome_bind, outcome_call, outcome_ret. destruct (client_VerifyOperations client plan w).1; [|done].
    intros [= <- <-]. apply operation_failures_nil.
  - rewrite outcome_ret. intros [= <- <-]. apply negb_false_iff in Ho. rewrite !andb_true_iff, !bool_decide_eq_true in Ho.
    unfold operations_proved. intuition.
Qed.

Lemma cleanup_failures_nil c : cleanup_failures c = [] ↔ Cleanup.Complete c = true ∧ Cleanup.UnownedPreserved c = true.
Proof. unfold cleanup_failures. destruct (Cleanup.Complete c), (Cleanup.UnownedPreserved c); cbn; intuition congruence. Qed.

Lemma planned_failures_nil : planned_failures plan = [] ↔
  Forall (λ s, SignalStatus.Status s ≠ "unavailable") (SignalStatuses plan) ∧ UnavailableOperations plan = [].
Proof.
  unfold planned_failures. rewrite app_nil. assert (Hf : ∀ (f : string → string) l, f <$> l = [] ↔ l = []) by (by intros f []).
  rewrite Hf. apply and_iff_compat_r. induction (SignalStatuses plan) as [|s l IH]; [done|]. rewrite bind_cons, app_nil, IH, Forall_cons.
  case_bool_decide; intuition congruence.
Qed.

(** The verification, and the cleanup observation it ends with. *)
Lemma Adapter_Verify_Ok w v : outcome (Adapter_Verify client plan) w = Ok v →
  Forall2 (λ b o, same_signal b o = true) (Bindings plan) (Verification.Signals v) ∧
  (∃ w', (client_VerifyCleanup client plan w').1 = Ok (Verification.Cleanup v)) ∧
  (Verification.Complete v = true ↔
    Forall (λ s, SignalStatus.Status s ≠ "unavailable") (SignalStatuses plan) ∧ UnavailableOperations plan = [] ∧
    Forall2 signal_proved (Bindings plan) (Verification.Signals v) ∧ operations_proved (Verification.Operations v) ∧
    Cleanup.Complete (Verification.Cleanup v) = true ∧ Cleanup.UnownedPreserved (Verification.Cleanup v) = true) ∧
  (Verification.Complete v = true ↔ Verification.Failures v = []).
Proof.
  unfold Adapter_Verify. rewrite outcome_bind. destruct (outcome (verify_signals client _) w) as [[os sf]|err] eqn:Hs; [|by rewrite outcome_ret].
  apply verify_signals_Ok in Hs as [Hsame Hsf]. rewrite outcome_bind.
  destruct (outcome (verify_operations client plan) _) as [[o f]|err] eqn:Ho; [|by rewrite outcome_ret].
  apply verify_operations_Ok in Ho. rewrite outcome_bind, outcome_call, outcome_ret.
  destruct (client_VerifyCleanup client plan _).1 as [c|err] eqn:Hc; [|done]. intros [= <-].
  cbn [conclude_verification Verification.Signals Verification.Cleanup Verification.Complete Verification.Failures Verification.Operations].
  split_and!; [done|by eexists| |apply bool_decide_eq_true].
  rewrite bool_decide_eq_true, sort_strings_nil, !app_nil, planned_failures_nil, Hsf, Ho, cleanup_failures_nil. tauto.
Qed.
End verification.

(** ** The verify action *)

Section verify_action.
Context {W : Type} (env : waiter W) (adapter : @SDKAdapter W) (request : ObservabilityExecutionRequest (option Plan)).
Hypothesis Hverify : ObservabilityRequest.Action request = ObservabilityVerify.

Lemma execute_verify_Ok w r : outcome (sdk_ExecuteObservability adapter request) w = Ok r →
  ∃ client plan v, adapter_client adapter = Some client ∧ ObservabilityPlan.Opaque (ObservabilityRequest.Plan request) = Some plan ∧
    outcome (Adapter_Verify client plan) w = Ok v ∧ Verification.Complete v = true ∧
    ObservabilityResult.ProofRefs r = observabilityProofRefs v.
Proof.
  unfold sdk_ExecuteObservability. destruct (adapter_client adapter) as [client|]; [|by rewrite outcome_ret].
  destruct (ValidateObservabilityExecutionRequest request); [by rewrite outcome_ret|].
  destruct (ObservabilityPlan.Opaque _) as [plan|]; [|by rewrite outcome_ret].
  destruct (validateExecutionPlan adapter request plan); [by rewrite outcome_ret|].
  rewrite outcome_bind, outcome_ret. unfold execute_action. cbv zeta. rewrite Hverify.
  rewrite (bool_decide_eq_false_2 (ObservabilityVerify = ObservabilityApply)), (bool_decide_eq_true_2 (ObservabilityVerify = ObservabilityVerify))
    by first [reflexivity|discriminate]. unfold execute_verify. rewrite outcome_bind, outcome_ret.
  destruct (outcome (Adapter_Verify client plan) w) as [v|err] eqn:Hv; cbn [mbind result_bind]; [|discriminate].
  destruct (Verification.Complete v) eqn:Hc; [|done]. intros [= <-]. by exists client, plan, v.
Qed.

(** A verify action succeeds only on a full proof: the plan declares no signal and no operation unavailable, every
    binding was answered about itself and was delivered with its labels, retention and redaction proved, every declared kind
    of alert, dashboard and objective was verified, and the cleanup observation is complete with what is not owned
    preserved.  The result carries the proof of every binding. *)
Theorem ExecuteObservability_verified w r : outcome (sdk_ExecuteObservability adapter request) w = Ok r →
  ∃ plan v, ObservabilityPlan.Opaque (ObservabilityRequest.Plan request) = Some plan ∧
    Forall (λ s, SignalStatus.Status s ≠ "unavailable") (TelemetryPlan.SignalStatuses plan) ∧
    TelemetryPlan.UnavailableOperations plan = [] ∧
    Forall2 (λ b o, same_signal b o = true ∧ signal_proved b o) (TelemetryPlan.Bindings plan) (Verification.Signals v) ∧
    operations_proved plan (Verification.Operations v) ∧
    Cleanup.Complete (Verification.Cleanup v) = true ∧ Cleanup.UnownedPreserved (Verification.Cleanup v) = true ∧
    Forall (λ b, "observability:" +:+ SignalBinding.Destination b +:+ ":" +:+ SignalBinding.Signal b ∈ ObservabilityResult.ProofRefs r)
      (TelemetryPlan.Bindings plan).
Proof.
  intros (client&plan&v&_&Ho&Hv&Hc&Hp)%execute_verify_Ok. exists plan, v.
  apply Adapter_Verify_Ok in Hv as (Hs&_&Hcomplete&_). apply Hcomplete in Hc as (Hst&Hops&Hproved&Hop&Hclean&Hpres).
  assert (Hboth : Forall2 (λ b o, same_signal b o = true ∧ signal_proved b o) (TelemetryPlan.Bindings plan) (Verification.Signals v)).
  { clear -Hs Hproved. induction Hs; [constructor|]. inversion Hproved; subst. constructor; [done|]. by apply IHHs. }
  split_and!; try done. rewrite Hp. unfold observabilityProofRefs. cbv zeta. apply Forall_forall. intros b Hb.
  apply elem_of_app. left. apply list_elem_of_bind. apply list_elem_of_lookup in Hb as [n Hb].
  destruct (Forall2_lookup_l _ _ _ _ _ Hboth Hb) as (o&Hn&Hsame&(H1&H2&H3&H4)). exists o. split; [|by eapply list_elem_of_lookup_2].
  rewrite H1, H2, H3, H4. unfold same_signal in Hsame. rewrite andb_true_iff, !bool_decide_eq_true in Hsame. destruct Hsame as [-> ->].
  constructor.
Qed.

(** The cleanup a managed client observes is complete when no owned resource is live. *)
Lemma managed_cleanup_complete (backend : Backend W) plan w c : (client_VerifyCleanup (managed_client env backend) plan w).1 = Ok c →
  Cleanup.Complete c = true → ∃ w' resources, outcome (managed_inventory backend plan) w' = Ok resources ∧
    Forall (λ r, TelemetryInventory.Owned r && TelemetryInventory.Live r = false) resources.
Proof.
  cbn [managed_client client_VerifyCleanup fst]. unfold managed_VerifyCleanup, with_valid_context. rewrite outcome_bind.
  destruct (_ ;;? _); [by rewrite outcome_ret|]. unfold managed_cleanup. cbv zeta. rewrite outcome_bind, outcome_ret.
  set (w' := final _ w). destruct (outcome (managed_inventory backend plan) w') as [resources|err] eqn:Hi; [|done]. cbn.
  destruct (first_error _ resources); [done|]. intros [= <-]. cbn. intros Hc%negb_true_iff. exists w', resources. split; [done|].
  apply Forall_forall. intros r Hr. apply not_true_iff_false. intros Ht. apply not_true_iff_false in Hc. apply Hc.
  apply existsb_exists. exists r. by rewrite <-list_elem_of_In.
Qed.

End verify_action.

(** ** Composite cleanups *)

Section composite.
Context {W : Type} (env : waiter W) (client : CompositeLifecycleClient W) (plan : Plan).

(** The destinations of a list that have a client. *)
Abbreviation served ds := (filter (λ d, is_Some (fan_clients client !! d)) ds).

(** One complete answer about the cleanup of a destination. *)
Definition cleanup_asked (es : list fan_event) (d : string) (c : CleanupObservation) : Prop :=
  EvAt d (EvVerifyCleanup (child_plan client plan d) (Ok c)) ∈ es.

Lemma cleanup_trace ds : yields (for_destinations client (cleanup_child (W:=W)) plan ds) (λ es res, ∀ results, res = Ok results →
  ∃ answers : list (string * CleanupObservation), answers.*1 = served ds ∧
    results = (λ a, (a.1, cleanup_result a.1 a.2)) <$> answers ∧ Forall (λ a, cleanup_asked es a.1 a.2) answers).
Proof.
  induction ds as [|d ds IH]; cbn [for_destinations].
  { apply yields_ret. intros results [= <-]. by exists []. }
  destruct (fan_clients client !! d) as [child|] eqn:Hc.
  - rewrite filter_cons_True by (by rewrite Hc; eexists). apply yields_bind. unfold cleanup_child at 1. apply yields_call_bind.
    intros [c|err]; apply yields_ret; cbn [mbind result_bind]; [|by apply yields_ret]. apply yields_bind.
    eapply yields_weaken; [apply IH|]. intros es [results|err] Hres; apply yields_ret; [|done]. cbn.
    intros results' [= <-]. destruct (Hres results eq_refl) as (answers&Ha&->&Hf). exists ((d, c) :: answers). split_and!.
    + cbn. by rewrite Ha.
    + done.
    + rewrite app_nil_r. constructor; [apply list_elem_of_here|]. eapply Forall_impl; [exact Hf|]. intros a. by apply list_elem_of_further.
  - rewrite filter_cons_False by (by rewrite Hc; intros [? ?]). exact IH.
Qed.

Lemma served_destinations d : d ∈ served (fan_destinations client) ↔ is_Some (fan_clients client !! d).
Proof. rewrite list_elem_of_filter. unfold fan_destinations. rewrite elem_of_sorted_keys. tauto. Qed.

(** A cleanup the composite reports, in terms of what its destinations said. *)
Definition cleanup_combined (es : list fan_event) (c : CleanupObservation) : Prop :=
  ∃ answers : list (string * CleanupObservation), answers.*1 = served (fan_destinations client) ∧
    Forall (λ a, cleanup_asked es a.1 a.2) answers ∧
    (Cleanup.Complete c = true ↔ Forall (λ a, Cleanup.Complete a.2 = true) answers) ∧
    (Cleanup.UnownedPreserved c = true ↔ Forall (λ a, Cleanup.UnownedPreserved a.2 = true) answers).

Lemma forallb_answers (f : LifecycleResult → bool) (g : CleanupObservation → bool) answers :
  (∀ d c, f (cleanup_result d c) = g c) →
  forallb (λ r, f r.2) ((λ a : string * CleanupObservation, (a.1, cleanup_result a.1 a.2)) <$> answers) = true ↔ Forall (λ a, g a.2 = true) answers.
Proof.
  intros H. induction answers as [|a l IH]; [done|]. rewrite fmap_cons. cbn [forallb snd]. by rewrite andb_true_iff, IH, H, Forall_cons.
Qed.

Lemma fan_VerifyCleanup_trace : yields (fan_VerifyCleanup env client plan) (λ es res, ∀ c, res = Ok c → cleanup_combined es c).
Proof.
  unfold fan_VerifyCleanup, fan_valid. apply yields_call_bind. intros err. destruct (_ ;;? _); [by apply yields_ret|].
  apply yields_bind. unfold forEachDestination. destruct (check_bindings _ _); [by apply yields_ret, yields_ret|].
  eapply yields_weaken; [apply cleanup_trace|]. intros es [results|err'] Hres; apply yields_ret; [|done].
  intros c [= <-]. destruct (Hres results eq_refl) as (answers&Ha&->&Hf). exists answers. split_and!; [done| | |].
  - eapply Forall_impl; [exact Hf|]. intros a Hin. rewrite app_nil_r. by apply list_elem_of_further.
  - by apply (forallb_answers LifecycleResult.IdempotencyVerified Cleanup.Complete).
  - by apply (forallb_answers LifecycleResult.OwnershipVerified Cleanup.UnownedPreserved).
Qed.

Abbreviation routed_to routed d := (default [] (routed !! d : option (list string))).

(** A destination was asked to destroy its part of the plan, or has none and no reference of its own. *)
Definition destroyed_at (es : list fan_event) (routed : gmap string (list string)) (d : string) : Prop :=
  idle d (operationOwner client) (child_plan client plan d) = true ∧ routed_to routed d = [] ∨
  ∃ c, EvAt d (EvDestroyPlan (child_plan client plan d) (routed_to routed d) (Ok c)) ∈ es.

Lemma destroyed_more es es' routed d : (∀ e, e ∈ es → e ∈ es') → destroyed_at es routed d → destroyed_at es' routed d.
Proof. intros Hsub [?|[c Hc]]; [by left|right]. exists c. by apply Hsub. Qed.

Lemma destroy_trace routed ds : yields (destroy_children client plan routed ds) (λ es res, res = Ok tt →
  Forall (destroyed_at es routed) (served ds)).
Proof.
  induction ds as [|d ds IH]; cbn [destroy_children]; [by apply yields_ret|]. cbv zeta.
  destruct (fan_clients client !! d) as [child|] eqn:Hc.
  - rewrite filter_cons_True by (by rewrite Hc; eexists). destruct (idle _ _ _ && _) eqn:Hi.
    + apply andb_true_iff in Hi as [Hidle Hr%bool_decide_eq_true]. eapply yields_weaken; [apply IH|]. intros es res Hres ->.
      constructor; [by left|by apply Hres].
    + apply yields_call_bind. intros [c|err]; [|by apply yields_ret]. eapply yields_weaken; [apply IH|]. intros es res Hres ->.
      constructor; [right; exists c; apply list_elem_of_here|]. eapply Forall_impl; [by apply Hres|]. intros d'.
      apply destroyed_more. intros e. by apply list_elem_of_further.
  - rewrite filter_cons_False by (by rewrite Hc; intros [? ?]). exact IH.
Qed.

(** A composite that destroys has asked everyone: when its cleanup is reported, the references it was given were routed
    without loss to the destinations they name, every destination whose part of the plan is not empty, or that was sent
    a reference, was asked to destroy exactly that part with exactly those references and agreed, and every destination,
    the idle ones included, was then asked about its cleanup; the cleanup is complete, and what is not owned preserved,
    just when all of those answers say so. *)
Theorem composite_destroy_asks_all references : yields (fan_Destroy env client plan references) (λ es res, ∀ c, res = Ok c →
  ∃ routed, route_destroy client references = Ok routed ∧
    (∀ d, is_Some (fan_clients client !! d) → destroyed_at es routed d) ∧ cleanup_combined es c).
Proof.
  unfold fan_Destroy, fan_valid. apply yields_call_bind. intros err. destruct (_ ;;? _); [by apply yields_ret|].
  destruct (route_destroy client references) as [routed|err'] eqn:Hr; [|by apply yields_ret].
  apply yields_bind. eapply yields_weaken; [apply destroy_trace|]. intros es [[]|err'] Hd; [|by apply yields_ret].
  eapply yields_weaken; [apply fan_VerifyCleanup_trace|]. intros es' res Hc c ->. exists routed. split_and!; [done| |].
  - intros d Hs%served_destinations. specialize (Hd eq_refl). rewrite Forall_forall in Hd. eapply destroyed_more; [|by apply Hd].
    intros e He. apply list_elem_of_further, elem_of_app. by left.
  - destruct (Hc c eq_refl) as (answers&Ha&Hf&Hrest). exists answers. split_and!; [done| |apply Hrest..].
    eapply Forall_impl; [exact Hf|]. intros a Hin. apply list_elem_of_further, elem_of_app. by right.
Qed.
End composite.

(** ** The gate *)

Section gate.
Context {O W : Type} (url_Parse : string → result url) (adapter : ObservabilityAdapter O W).
Context (action key : string) (references : list string) (approval : string).

(** A plan an adapter may execute for a request. *)
Definition executable (request : ObservabilityPlanRequest) (plan : ObservabilityPlan O) : Prop :=
  action ∈ ObservabilityAdapterDescriptor.Capabilities (ObservabilityDescriptor adapter) ∧
  ValidateObservabilityPlan url_Parse plan request = None ∧
  (action = ObservabilityApply → ObservabilityPlan.UnavailableSignals plan = [] ∧ ObservabilityPlan.UnavailableOperations plan = []).

Lemma ValidateObservabilityApplyPlan_None (plan : ObservabilityPlan O) : ValidateObservabilityApplyPlan plan = None ↔
  ObservabilityPlan.UnavailableSignals plan = [] ∧ ObservabilityPlan.UnavailableOperations plan = [].
Proof.
  unfold ValidateObservabilityApplyPlan. rewrite !err_seq_None.
  destruct (ObservabilityPlan.UnavailableSignals plan), (ObservabilityPlan.UnavailableOperations plan); cbn; intuition discriminate.
Qed.

(** What a run of the gate has called, and what it may then answer. *)
Definition gated (request : ObservabilityPlanRequest) (es : list (observability_call O))
    (res : option (ObservabilityPlan O) * result ObservabilityExecutionResult) : Prop :=
  match es with
  | [] => is_ok res.2 = false
  | [EvPlanObservability asked answer] => asked = request ∧ is_ok res.2 = false
  | [EvPlanObservability asked (Ok plan); EvExecuteObservability execution answer] =>
      asked = request ∧ execution = observability_execution action key references approval plan ∧ executable request plan ∧
      res.1 = Some plan ∧
      ∀ r, res.2 = Ok r → answer = Ok r ∧ ObservabilityResult.OwnershipVerified r = true ∧ ObservabilityResult.IdempotencyVerified r = true
  | _ => False
  end.

(** The gate before an observability adapter plans once and executes at most once.  It executes only the plan it has just
    been given, when the adapter declares the action, when the plan is valid for the request, and an apply only when the plan
    declares no signal and no operation unavailable; it answers with a result only if the adapter gave that very result
    and claimed in it to have verified ownership and idempotency. *)
Theorem observability_gate request :
  yields (RunObservabilityLifecycle url_Parse adapter action key references approval request) (gated request).
Proof.
  unfold RunObservabilityLifecycle. cbv zeta. destruct (_ ;;? _) eqn:Hd; [by apply yields_ret|].
  rewrite !err_seq_None, fail_if_None, negb_false_iff in Hd. destruct Hd as (_&Hcap&_). apply bool_decide_eq_true in Hcap.
  apply yields_call_bind. intros [plan|err]; [|by apply yields_ret].
  destruct (_ ;;? _) eqn:Hv; [by apply yields_ret|]. rewrite err_seq_None, err_wrap_None in Hv. destruct Hv as [Hv _].
  destruct (if bool_decide _ then _ else None) eqn:Ha; [by apply yields_ret|].
  apply yields_call_bind. intros answer. apply yields_ret. cbn [gated fst snd]. split_and!; try done.
  - split_and!; [done..|]. intros Happly. rewrite bool_decide_eq_true_2 in Ha by done. by apply err_wrap_None, ValidateObservabilityApplyPlan_None in Ha.
  - intros r. destruct answer as [r0|]; [|done]. intros Hr. apply lift_check_Ok in Hr as [Hok Hr]. injection Hr as ->. split; [done|].
    unfold ValidateObservabilityExecutionResult in Hok. rewrite !err_seq_None, !fail_if_None, orb_false_iff, !negb_false_iff in Hok. tauto.
Qed.
End gate.

(** ** Examples *)

Module VerifyExample.
Import TelemetryExample.

Definition open_context : waiter nat := {| ctx_err := λ w, (None, w); wait := λ _ w, (None, w) |}.

Definition applied : LifecycleResult :=
  {| LifecycleResult.OperationID := "op-1"; LifecycleResult.ResourceRefs := ["log-group"]; LifecycleResult.ProofRefs := [];
     LifecycleResult.OwnershipVerified := true; LifecycleResult.IdempotencyVerified := true |}.

(** A backend that delivers everything; its inventory lists one log group. *)
Definition backend (live : bool) : Backend nat :=
  {| backend_Apply := λ _ w, (Ok applied, w);
     backend_VerifySignal := λ b w, (Ok {| SignalObservation.Signal := SignalBinding.Signal b;
       SignalObservation.Destination := SignalBinding.Destination b; SignalObservation.Delivered := true;
       SignalObservation.LabelsVerified := true; SignalObservation.RetentionVerified := true;
       SignalObservation.RedactionVerified := true; SignalObservation.Reason := "" |}, w);
     backend_VerifyOperations := λ _ w, (Ok {| Operational.AlertsVerified := true; Operational.DashboardsVerified := true;
       Operational.SLOsVerified := true; Operational.Reason := "" |}, w);
     backend_Destroy := λ _ _ w, (None, w);
     backend_Inventory := λ marker w, (Ok [{| TelemetryInventory.Identity := "log-group"; TelemetryInventory.OwnershipMarker := marker;
       TelemetryInventory.Owned := true; TelemetryInventory.Live := live |}], w);
     backend_InventoryForPlan := None; backend_PublishSignalProbe := None |}.

Definition sdk (live : bool) : SDKAdapter :=
  {| adapter_provider := "aws"; adapter_client := Some (managed_client open_context (backend live)) |}.

Definition supported : ObservabilityPlanRequest := request ["logs"; "metrics"] one64.
Definition public : ObservabilityPlan (option Plan) := public_plan adapter supported (planned (request_of supported)).
Definition verify : ObservabilityExecutionRequest (option Plan) := observability_execution ObservabilityVerify "key-1" [] "" public.

Definition verified : ObservabilityExecutionResult :=
  {| ObservabilityResult.Action := "verify"; ObservabilityResult.OperationID := "verify:aws:ecs"; ObservabilityResult.ResourceRefs := [];
     ObservabilityResult.ProofRefs := ["observability:cloudwatch:logs"; "observability:cloudwatch:metrics"; "observability:alerts";
       "observability:dashboards"; "observability:slos"];
     ObservabilityResult.OwnershipMarker := "shop"; ObservabilityResult.OwnershipVerified := true;
     ObservabilityResult.IdempotencyVerified := true |}.

Lemma ExecuteObservability_verified_witness : ∃ plan v, ObservabilityPlan.Opaque public = Some plan ∧
  operations_proved plan (Verification.Operations v).
Proof.
  destruct (ExecuteObservability_verified (sdk false) verify eq_refl 0%nat verified) as (plan&v&Ho&_&_&_&Hop&_).
  - vm_compute. reflexivity.
  - exists plan, v. split; [exact Ho|exact Hop].
Defined.


Definition composite : CompositeLifecycleClient nat :=
  {| fan_clients := <["cloudwatch" := managed_client open_context (backend false)]>
       {["newrelic" := managed_client open_context (backend false)]}; operationOwner := "cloudwatch" |}.

Definition plan : Plan := planned (request_of supported).
Definition references : list string := Eval vm_compute in wrapReferences "newrelic" ["dashboard"].
Definition cleaned : CleanupObservation :=
  {| Cleanup.Complete := true; Cleanup.UnownedPreserved := true; Cleanup.ResourceRefs := []; Cleanup.Reason := "" |}.

Lemma composite_destroy_asks_all_witness :
  cleanup_combined composite plan (events (fan_Destroy open_context composite plan references) 0%nat) cleaned.
Proof.
  destruct (composite_destroy_asks_all open_context composite plan references 0%nat cleaned) as (routed&_&_&Hc); [|exact Hc].
  vm_compute. reflexivity.
Defined.

Lemma observability_gate_witness : ∃ es, gated https (sdk_adapter open_context https (sdk false)) ObservabilityApply "key-1" [] "" supported es
  (Some public, Ok (public_result (observability_execution ObservabilityApply "key-1" [] "" public) applied)).
Proof.
  eexists. pose proof (observability_gate https (sdk_adapter open_context https (sdk false)) ObservabilityApply "key-1" [] "" supported 0%nat) as Hg.
  assert (He : outcome (RunObservabilityLifecycle https (sdk_adapter open_context https (sdk false)) ObservabilityApply "key-1" [] "" supported) 0%nat
    = (Some public, Ok (public_result (observability_execution ObservabilityApply "key-1" [] "" public) applied))) by (vm_compute; reflexivity).
  rewrite He in Hg. exact Hg.
Defined.
End VerifyExample.
