(* ===== verification/Collector.v ===== *)
(** * Collector deployments (sdk/collector.go, sdk/collector_lifecycle.go,
      internal/external/observability/collector.go)

    The port of a collector deployment with its validators, the shared gate
    [RunCollectorDeploymentLifecycle], and the lifecycle engine over a provider
    backend.  The [any] of a plan is a type [O]; the engine's is [unit], since
    it leaves the field empty.  Contexts, backends and matchers are there. *)

From S2P Require Import Prelude GoStrings GoEncoding Sdk Coverage Admission Architecture Resilience Lifecycle Edge EdgeComposite.

Local Open Scope Z_scope.

(* sdk/collector.go, lines 17-22: CollectorDeploymentAction *)
Definition collector_actions : list string := ["apply"; "verify"; "rollback"; "destroy"].
(* sdk/collector.go, lines 18-18: CollectorApply *)
Definition CollectorApply := "apply".
(* sdk/collector.go, lines 19-19: CollectorVerify *)
Definition CollectorVerify := "verify".
(* sdk/collector.go, lines 20-20: CollectorRollback *)
Definition CollectorRollback := "rollback".
(* sdk/collector.go, lines 21-21: CollectorDestroy *)
Definition CollectorDestroy := "destroy".
(* sdk/collector_lifecycle.go, lines 12-12: CollectorProofSignalDelivery *)
Definition CollectorProofSignalDelivery := "signal-delivery".

(** ** Data *)

Module CollectorPlanRequest.
(* sdk/collector.go, lines 27-37: CollectorDeploymentPlanRequest *)
Record CollectorDeploymentPlanRequest := {
  TargetProvider : string;
  TargetRuntime : string;
  Workload : string;
  Distribution : string;
  CredentialRef : string;
  Endpoint : string;
  NativeReference : string;
  OwnershipMarker : string;
  Signals : list string;
}.
End CollectorPlanRequest.
Notation CollectorDeploymentPlanRequest := CollectorPlanRequest.CollectorDeploymentPlanRequest.

Module CollectorPlan.
(* sdk/collector.go, lines 41-53: CollectorDeploymentPlan *)
Record CollectorDeploymentPlan (O : Type) := {
  AdapterID : string;
  TargetProvider : string;
  TargetRuntime : string;
  Workload : string;
  Distribution : string;
  CredentialRef : string;
  Endpoint : string;
  NativeReference : string;
  OwnershipMarker : string;
  Signals : list string;
  Opaque : O;
}.
Arguments AdapterID {O} _.
Arguments TargetProvider {O} _.
Arguments TargetRuntime {O} _.
Arguments Workload {O} _.
Arguments Distribution {O} _.
Arguments CredentialRef {O} _.
Arguments Endpoint {O} _.
Arguments NativeReference {O} _.
Arguments OwnershipMarker {O} _.
Arguments Signals {O} _.
Arguments Opaque {O} _.
End CollectorPlan.
Notation CollectorDeploymentPlan := CollectorPlan.CollectorDeploymentPlan.

Module CollectorRequest.
(* sdk/collector.go, lines 58-65: CollectorDeploymentExecutionRequest *)
Record CollectorDeploymentExecutionRequest (O : Type) := {
  Plan : CollectorDeploymentPlan O;
  Action : string;
  IdempotencyKey : string;
  OwnershipMarker : string;
  ApprovalReference : string;
  ResourceReferences : list string;
}.
Arguments Plan {O} _.
Arguments Action {O} _.
Arguments IdempotencyKey {O} _.
Arguments OwnershipMarker {O} _.
Arguments ApprovalReference {O} _.
Arguments ResourceReferences {O} _.
End CollectorRequest.
Notation CollectorDeploymentExecutionRequest := CollectorRequest.CollectorDeploymentExecutionRequest.

Module CollectorResult.
(* sdk/collector.go, lines 70-82: CollectorDeploymentExecutionResult *)
Record CollectorDeploymentExecutionResult := {
  Action : string;
  OperationID : string;
  ResourceRefs : list string;
  ProofRefs : list string;
  OwnershipMarker : string;
  OwnershipVerified : bool;
  IdempotencyVerified : bool;
  ReadyVerified : bool;
  HealthVerified : bool;
  CleanupVerified : bool;
  RollbackVerified : bool;
}.
End CollectorResult.
Notation CollectorDeploymentExecutionResult := CollectorResult.CollectorDeploymentExecutionResult.

(** ** Validators *)

(* sdk/collector.go, lines 188-203: validateCollectorSignals *)
Definition validateCollectorSignals (signals : list string) : gerror :=
  fail_if (bool_decide (signals = [])) (ErrNew "collector must declare at least one signal")
  ;;? first_of (with_seen (λ seen signal,
        [validateID "collector signal" signal;
         fail_if (bool_decide (signal ∈ seen)) (errorf "duplicate collector signal %q" [GStr signal])]) [] signals).

Section validators.
Context (url_Parse : string → result url).

(* sdk/collector.go, lines 180-186: validateCollectorEndpoint *)
Definition validateCollectorEndpoint (raw : string) : gerror :=
  fail_if (match url_Parse (TrimSpace raw) with
           | Ok parsed => negb (bool_decide (Scheme parsed ∈ ["https"; "http"])) || bool_decide (Host parsed = "")
                          || HasUser parsed || negb (bool_decide (Fragment parsed = ""))
           | Err _ => true
           end) (ErrNew "collector endpoint must be an HTTP(S) URL without user information or fragment").

Section plan_request.
Import CollectorPlanRequest.

(* sdk/collector.go, lines 107-135: ValidateCollectorDeploymentPlanRequest *)
Definition ValidateCollectorDeploymentPlanRequest (request : CollectorDeploymentPlanRequest) : gerror :=
  errors_Join
    [validateID "collector target provider" (TargetProvider request);
     validateID "collector target runtime" (TargetRuntime request);
     validateID "collector workload" (Workload request);
     fail_if (bad_reference (Distribution request) || ContainsAny (Distribution request) (String "009" " "))
       (ErrNew "collector distribution is required and must be single-line without whitespace");
     fail_if (bad_reference (OwnershipMarker request)) (ErrNew "collector ownership marker is required and must be single-line");
     (if bool_decide (CredentialRef request = "") then None
      else err_wrap (wrapf "collector credential reference: %w" []) (ValidateCredentialReference url_Parse (CredentialRef request)));
     (if bool_decide (Endpoint request = "") then None else validateCollectorEndpoint (Endpoint request));
     fail_if (bad_reference (NativeReference request)) (ErrNew "collector native reference is required and must be single-line");
     validateCollectorSignals (Signals request)].
End plan_request.

Context {O : Type}.

Section plan.
Import CollectorPlan.

(* sdk/collector.go, lines 137-152: ValidateCollectorDeploymentPlan *)
Definition ValidateCollectorDeploymentPlan (plan : CollectorDeploymentPlan O) (request : CollectorDeploymentPlanRequest) : gerror :=
  let same (a b : string) := bool_decide (a = b) in
  errors_Join
    [fail_if (blank (AdapterID plan)) (ErrNew "collector plan adapter ID is required");
     fail_if (negb (same (TargetProvider plan) (CollectorPlanRequest.TargetProvider request))
              || negb (same (TargetRuntime plan) (CollectorPlanRequest.TargetRuntime request))
              || negb (same (Workload plan) (CollectorPlanRequest.Workload request))
              || negb (same (Distribution plan) (CollectorPlanRequest.Distribution request)))
       (ErrNew "collector plan target or distribution does not match the request");
     fail_if (negb (same (CredentialRef plan) (CollectorPlanRequest.CredentialRef request))
              || negb (same (Endpoint plan) (CollectorPlanRequest.Endpoint request))
              || negb (same (NativeReference plan) (CollectorPlanRequest.NativeReference request))
              || negb (same (OwnershipMarker plan) (CollectorPlanRequest.OwnershipMarker request)))
       (ErrNew "collector plan references do not match the request");
     fail_if (negb (sameStrings (Signals plan) (CollectorPlanRequest.Signals request)))
       (ErrNew "collector plan must preserve requested signals")].
End plan.

Section execution.
Import CollectorRequest.

(* sdk/collector.go, lines 154-178: ValidateCollectorDeploymentExecutionRequest *)
Definition ValidateCollectorDeploymentExecutionRequest (request : CollectorDeploymentExecutionRequest O) : gerror :=
  fail_if (negb (bool_decide (Action request ∈ collector_actions)))
    (errorf "invalid collector deployment action %q" [GStr (Action request)])
  ;;? fail_if (bad_reference (IdempotencyKey request))
        (ErrNew "collector deployment idempotency key is required and must be single-line")
  ;;? fail_if (negb (bool_decide (OwnershipMarker request = CollectorPlan.OwnershipMarker (Plan request))))
        (ErrNew "collector deployment ownership marker does not match the plan")
  ;;? fail_if (multiline (ApprovalReference request)) (ErrNew "collector deployment approval reference must be single-line")
  ;;? first_of (with_seen (λ seen reference,
        [fail_if (bad_reference reference) (ErrNew "collector deployment resource references must be non-empty and single-line");
         fail_if (bool_decide (reference ∈ seen))
           (errorf "duplicate collector deployment resource reference %q" [GStr reference])]) [] (ResourceReferences request)).
End execution.

(* sdk/collector_lifecycle.go, lines 106-117: containsCollectorProof *)
Definition containsCollectorProof (proofRefs : list string) (semantic : string) : bool :=
  let semantic := ToLower (TrimSpace semantic) in
  existsb (λ reference, existsb (λ separator, HasSuffix (ToLower (TrimSpace reference)) (separator +:+ semantic)) ["."; ":"; "/"])
    proofRefs.

Section result.
Import CollectorResult.

(** What the action itself must have verified. *)
(* sdk/collector_lifecycle.go, lines 81-102: ValidateCollectorDeploymentExecutionResult *)
Definition check_action_proofs (action : string) (r : CollectorDeploymentExecutionResult) : gerror :=
  let about := [GStr action] in
  if bool_decide (action ∈ [CollectorApply; CollectorVerify]) then
    fail_if (negb (ReadyVerified r)) (errorf "collector %q execution result must verify readiness" about)
    ;;? fail_if (negb (HealthVerified r)) (errorf "collector %q execution result must verify health" about)
    ;;? fail_if (negb (containsCollectorProof (ProofRefs r) CollectorProofSignalDelivery))
          (errorf "collector %q execution result must include a %q proof" [GStr action; GStr CollectorProofSignalDelivery])
  else if bool_decide (action = CollectorRollback) then
    fail_if (negb (RollbackVerified r)) (ErrNew "collector rollback execution result must verify rollback")
  else if bool_decide (action = CollectorDestroy) then
    fail_if (negb (CleanupVerified r)) (ErrNew "collector destroy execution result must verify cleanup")
  else Some (errorf "invalid collector deployment action %q" about).

(* sdk/collector_lifecycle.go, lines 62-104: ValidateCollectorDeploymentExecutionResult *)
Definition ValidateCollectorDeploymentExecutionResult (request : CollectorDeploymentExecutionRequest O)
    (r : CollectorDeploymentExecutionResult) : gerror :=
  fail_if (negb (bool_decide (Action r = CollectorRequest.Action request)))
    (errorf "collector execution result action %q does not match request %q" [GStr (Action r); GStr (CollectorRequest.Action request)])
  ;;? fail_if (negb (bool_decide (OwnershipMarker r = CollectorRequest.OwnershipMarker request)))
        (ErrNew "collector execution result ownership marker does not match the request")
  ;;? fail_if (negb (OwnershipVerified r) || negb (IdempotencyVerified r))
        (ErrNew "collector execution result must verify ownership and idempotency")
  ;;? (if bool_decide (OperationID r = "") then None
       else validateOpaqueReferences "collector execution result operation ID" [OperationID r])
  ;;? validateOpaqueReferences "collector execution result reference" (ResourceRefs r ++ ProofRefs r)
  ;;? check_action_proofs (CollectorRequest.Action request) r.
End result.
End validators.

(** ** The plan and execute gate *)

(* sdk/collector.go, lines 102-105: CollectorDeploymentAdapter *)
Record CollectorDeploymentAdapter (O W : Type) := {
  PlanCollector : CollectorDeploymentPlanRequest → W → result (CollectorDeploymentPlan O) * W;
  ExecuteCollector : CollectorDeploymentExecutionRequest O → W → result CollectorDeploymentExecutionResult * W;
}.
Arguments PlanCollector {O W} _.
Arguments ExecuteCollector {O W} _.

(* sdk/collector.go, lines 102-105: CollectorDeploymentAdapter *)
Inductive collector_call (O : Type) :=
  | EvPlanCollector (request : CollectorDeploymentPlanRequest) (answer : result (CollectorDeploymentPlan O))
  | EvExecuteCollector (request : CollectorDeploymentExecutionRequest O) (answer : result CollectorDeploymentExecutionResult).
Arguments EvPlanCollector {O} _ _.
Arguments EvExecuteCollector {O} _ _.

Section lifecycle.
Context {O W : Type} (url_Parse : string → result url) (adapter : CollectorDeploymentAdapter O W).
Context (action idempotencyKey : string) (resourceReferences : list string) (approvalReference : string).

(* sdk/collector_lifecycle.go, lines 36-43: RunCollectorDeploymentLifecycle *)
Definition collector_execution (plan : CollectorDeploymentPlan O) : CollectorDeploymentExecutionRequest O :=
  {| CollectorRequest.Plan := plan; CollectorRequest.Action := action; CollectorRequest.IdempotencyKey := idempotencyKey;
     CollectorRequest.OwnershipMarker := CollectorPlan.OwnershipMarker plan;
     CollectorRequest.ApprovalReference := approvalReference; CollectorRequest.ResourceReferences := resourceReferences |}.

(** No plan on an error before the execution, no result on any error. *)
(* sdk/collector_lifecycle.go, lines 17-56: RunCollectorDeploymentLifecycle *)
Definition RunCollectorDeploymentLifecycle (request : CollectorDeploymentPlanRequest)
    : eff (collector_call O) W (option (CollectorDeploymentPlan O) * result CollectorDeploymentExecutionResult) :=
  match ValidateCollectorDeploymentPlanRequest url_Parse request with
  | Some err => mret (None, Err err)
  | None =>
      planned ← call (EvPlanCollector request) (PlanCollector adapter request);
      match planned with
      | Err err => mret (None, Err (wrapf "plan collector deployment lifecycle: %w" [] err))
      | Ok plan =>
          let executionRequest := collector_execution plan in
          match err_wrap (wrapf "validate collector deployment plan: %w" []) (ValidateCollectorDeploymentPlan plan request)
                ;;? ValidateCollectorDeploymentExecutionRequest executionRequest with
          | Some err => mret (None, Err err)
          | None =>
              executed ← call (EvExecuteCollector executionRequest) (ExecuteCollector adapter executionRequest);
              mret (Some plan,
                match executed with
                | Err err => Err (wrapf "execute collector deployment lifecycle %q: %w" [GStr action] err)
                | Ok r => ValidateCollectorDeploymentExecutionResult executionRequest r ;;! Ok r
                end)
          end
      end
  end.
End lifecycle.
