(* ===== verification/CollectorEngine.v ===== *)
(** * The collector lifecycle engine (internal/external/observability/collector.go)

    Planning, and the four actions over the backend of a provider. *)

From S2P Require Import Prelude GoStrings GoEncoding Sdk Coverage Admission Architecture Resilience Lifecycle Edge EdgeComposite Collector.

Local Open Scope Z_scope.

Abbreviation CollectorPlan := (CollectorDeploymentPlan unit).
Abbreviation CollectorRequest := (CollectorDeploymentExecutionRequest unit).

Module CollectorResource.
(* internal/external/observability/collector.go, lines 18-27: CollectorResource *)
Record CollectorResource := {
  Identity : string;
  TargetProvider : string;
  TargetRuntime : string;
  Workload : string;
  Distribution : string;
  OwnershipMarker : string;
  Status : string;
  Owned : bool;
}.
End CollectorResource.
Notation CollectorResource := CollectorResource.CollectorResource.

Module CollectorVerification.
(* internal/external/observability/collector.go, lines 32-37: CollectorVerification *)
Record CollectorVerification := {
  Ready : bool;
  Healthy : bool;
  SignalsDelivered : bool;
  Reason : string;
}.

Definition zero : CollectorVerification := {| Ready := false; Healthy := false; SignalsDelivered := false; Reason := "" |}.

(* internal/external/observability/collector.go, lines 167-167: CollectorSDKAdapter.apply *)
Definition proved (v : CollectorVerification) : bool := Ready v && Healthy v && SignalsDelivered v.
End CollectorVerification.
Notation CollectorVerification := CollectorVerification.CollectorVerification.

(** A lookup answers a resource and whether it was found; a verification may
    come with an error. *)
(* internal/external/observability/collector.go, lines 43-50: CollectorBackend *)
Record CollectorBackend (W : Type) := {
  backend_Find : CollectorPlan → W → result (CollectorResource * bool) * W;
  backend_Ensure : CollectorPlan → W → result CollectorResource * W;
  backend_Verify : CollectorPlan → CollectorResource → W → (CollectorVerification * gerror) * W;
  backend_Rollback : CollectorPlan → CollectorResource → W → gerror * W;
  backend_DestroyCollector : CollectorPlan → CollectorResource → W → gerror * W;
  backend_Collectors : string → string → string → W → result (list CollectorResource) * W;
}.
Arguments backend_Find {W} _.
Arguments backend_Ensure {W} _.
Arguments backend_Verify {W} _.
Arguments backend_Rollback {W} _.
Arguments backend_DestroyCollector {W} _.
Arguments backend_Collectors {W} _.

(* internal/external/observability/collector.go, lines 43-50: CollectorBackend *)
Inductive collector_event :=
  | EvCollectorContext (err : gerror)
  | EvFind (plan : CollectorPlan) (answer : result (CollectorResource * bool))
  | EvEnsure (plan : CollectorPlan) (answer : result CollectorResource)
  | EvVerifyCollector (plan : CollectorPlan) (resource : CollectorResource) (answer : CollectorVerification * gerror)
  | EvRollback (plan : CollectorPlan) (resource : CollectorResource) (err : gerror)
  | EvDestroyCollector (plan : CollectorPlan) (resource : CollectorResource) (err : gerror)
  | EvCollectors (provider runtime marker : string) (answer : result (list CollectorResource)).

(** Sixteen hexadecimal digits of the owner. *)
(* internal/external/observability/collector.go, lines 275-278: collectorMarkerDigest *)
Definition collectorMarkerDigest (marker : string) : string := markerDigest marker.

(* internal/external/observability/collector.go, lines 55-62: CollectorSDKAdapter *)
Record CollectorSDKAdapter := {
  adapterID : string;
  collector_provider : string;
  workload : string;
  runtimeMatch : string → bool;
  distributionMatch : string → bool;
}.

(* internal/external/observability/collector.go, lines 74-79: NewCollectorSDKAdapterWithDistribution *)
Definition NewCollectorSDKAdapterWithDistribution (adapterID provider workload : string)
    (runtimeMatch distributionMatch : string → bool) : result CollectorSDKAdapter :=
  fail_if (blank adapterID || blank workload)
    (ErrNew "collector adapter ID, workload, runtime matcher, distribution matcher, and backend are required") ;;!
  Ok {| adapterID := adapterID; collector_provider := provider; workload := workload;
        runtimeMatch := runtimeMatch; distributionMatch := distributionMatch |}.

(* internal/external/observability/collector.go, lines 68-70: NewCollectorSDKAdapter *)
Definition NewCollectorSDKAdapter (adapterID provider workload : string) (runtimeMatch : string → bool)
    : result CollectorSDKAdapter :=
  NewCollectorSDKAdapterWithDistribution adapterID provider workload runtimeMatch (λ _, true).

Section engine.
Context {W : Type} (env : waiter W) (url_Parse : string → result url) (backend : CollectorBackend W).
Context (adapter : CollectorSDKAdapter).
Abbreviation M := (eff collector_event W).

Definition collector_context : M gerror := call EvCollectorContext (ctx_err env).

(** ** Planning *)

(* internal/external/observability/collector.go, lines 91-91: CollectorSDKAdapter.PlanCollector *)
Definition collector_unsupported (provider runtime work distribution : string) : bool :=
  negb (bool_decide (provider = collector_provider adapter)) || negb (bool_decide (work = workload adapter))
  || negb (runtimeMatch adapter runtime) || negb (distributionMatch adapter distribution).

(* internal/external/observability/collector.go, lines 94-99: CollectorSDKAdapter.PlanCollector *)
Definition collector_plan (request : CollectorDeploymentPlanRequest) : CollectorPlan :=
  {| CollectorPlan.AdapterID := adapterID adapter;
     CollectorPlan.TargetProvider := CollectorPlanRequest.TargetProvider request;
     CollectorPlan.TargetRuntime := CollectorPlanRequest.TargetRuntime request;
     CollectorPlan.Workload := CollectorPlanRequest.Workload request;
     CollectorPlan.Distribution := CollectorPlanRequest.Distribution request;
     CollectorPlan.CredentialRef := CollectorPlanRequest.CredentialRef request;
     CollectorPlan.Endpoint := CollectorPlanRequest.Endpoint request;
     CollectorPlan.NativeReference := CollectorPlanRequest.NativeReference request;
     CollectorPlan.OwnershipMarker := CollectorPlanRequest.OwnershipMarker request;
     CollectorPlan.Signals := CollectorPlanRequest.Signals request; CollectorPlan.Opaque := tt |}.

(* internal/external/observability/collector.go, lines 88-103: CollectorSDKAdapter.PlanCollector *)
Definition plan_collector (request : CollectorDeploymentPlanRequest) : result CollectorPlan :=
  let provider := CollectorPlanRequest.TargetProvider request in
  let runtime := CollectorPlanRequest.TargetRuntime request in
  let work := CollectorPlanRequest.Workload request in
  ValidateCollectorDeploymentPlanRequest url_Parse request ;;!
  fail_if (collector_unsupported provider runtime work (CollectorPlanRequest.Distribution request))
    (ErrTyped "CollectorCapabilityError" [GStr (adapterID adapter); GStr "plan";
       GStr "collector path does not support provider %q, runtime %q, or workload %q"; GStr provider; GStr runtime; GStr work]) ;;!
  let plan := collector_plan request in
  ValidateCollectorDeploymentPlan plan request ;;!
  Ok plan.

(* internal/external/observability/collector.go, lines 81-104: CollectorSDKAdapter.PlanCollector *)
Definition engine_PlanCollector (request : CollectorDeploymentPlanRequest) : M (result CollectorPlan) :=
  err ← collector_context;
  mret (match err with Some err => Err err | None => plan_collector request end).

(** ** Actions *)

Section actions.
Context (request : CollectorRequest).
Abbreviation plan := (CollectorRequest.Plan request).
Abbreviation marker := (CollectorRequest.OwnershipMarker request).
Abbreviation answer := (result CollectorDeploymentExecutionResult).

(** The request a plan would come from. *)
(* internal/external/observability/collector.go, lines 137-141: validateCollectorPlan *)
Definition request_of_plan (p : CollectorPlan) : CollectorDeploymentPlanRequest :=
  {| CollectorPlanRequest.TargetProvider := CollectorPlan.TargetProvider p;
     CollectorPlanRequest.TargetRuntime := CollectorPlan.TargetRuntime p;
     CollectorPlanRequest.Workload := CollectorPlan.Workload p;
     CollectorPlanRequest.Distribution := CollectorPlan.Distribution p;
     CollectorPlanRequest.CredentialRef := CollectorPlan.CredentialRef p;
     CollectorPlanRequest.Endpoint := CollectorPlan.Endpoint p;
     CollectorPlanRequest.NativeReference := CollectorPlan.NativeReference p;
     CollectorPlanRequest.OwnershipMarker := CollectorPlan.OwnershipMarker p;
     CollectorPlanRequest.Signals := CollectorPlan.Signals p |}.

(* internal/external/observability/collector.go, lines 136-149: validateCollectorPlan *)
Definition validateCollectorPlan (p : CollectorPlan) : gerror :=
  err_wrap (wrapf "validate collector plan: %w" []) (ValidateCollectorDeploymentPlanRequest url_Parse (request_of_plan p))
  ;;? err_wrap (wrapf "validate collector plan references: %w" []) (ValidateCollectorDeploymentPlan p (request_of_plan p)).

Section resource.
Import CollectorResource.

(* internal/external/observability/collector.go, lines 252-257: validateCollectorResource *)
Definition validateCollectorResource (r : CollectorResource) (p : CollectorPlan) : gerror :=
  let differs (a b : string) := negb (bool_decide (a = b)) in
  fail_if (blank (Identity r) || negb (Owned r) || differs (OwnershipMarker r) (CollectorPlan.OwnershipMarker p)
           || differs (TargetProvider r) (CollectorPlan.TargetProvider p)
           || differs (TargetRuntime r) (CollectorPlan.TargetRuntime p)
           || differs (Workload r) (CollectorPlan.Workload p) || differs (Distribution r) (CollectorPlan.Distribution p))
    (ErrNew "collector resource identity, ownership, or target does not match the plan").

(** Ownership the backend does not confirm. *)
(* internal/external/observability/collector.go, lines 156-156: CollectorSDKAdapter.apply *)
Definition foreign (r : CollectorResource) : bool := negb (Owned r) || negb (bool_decide (OwnershipMarker r = marker)).
End resource.

(* internal/external/observability/collector.go, lines 259-273: collectorResult *)
Definition collectorResult (resource : CollectorResource) (v : CollectorVerification) (action : string) (idempotent : bool)
    : CollectorDeploymentExecutionResult :=
  {| CollectorResult.Action := CollectorRequest.Action request;
     CollectorResult.OperationID := "collector:" +:+ action +:+ ":" +:+ collectorMarkerDigest marker;
     CollectorResult.ResourceRefs :=
       if blank (CollectorResource.Identity resource) then [] else [CollectorResource.Identity resource];
     CollectorResult.ProofRefs := ["collector:ownership"; "collector:readiness"; "collector:health"; "collector:signal-delivery"];
     CollectorResult.OwnershipMarker := marker; CollectorResult.OwnershipVerified := true;
     CollectorResult.IdempotencyVerified := idempotent; CollectorResult.ReadyVerified := CollectorVerification.Ready v;
     CollectorResult.HealthVerified := CollectorVerification.Healthy v; CollectorResult.CleanupVerified := false;
     CollectorResult.RollbackVerified := bool_decide (CollectorRequest.Action request = CollectorRollback) |}.

Definition find_collector : M (result (CollectorResource * bool)) := call (EvFind plan) (backend_Find backend plan).

(** A deployment that does not prove itself is rolled back. *)
(* internal/external/observability/collector.go, lines 166-175: CollectorSDKAdapter.apply *)
Definition verify_or_rollback (resource : CollectorResource) : M answer :=
  verified ← call (EvVerifyCollector plan resource) (backend_Verify backend plan resource);
  let '(v, verifyErr) := verified in
  if bool_decide (is_Some verifyErr) || negb (CollectorVerification.proved v) then
    rollbackErr ← call (EvRollback plan resource) (backend_Rollback backend plan resource);
    mret (Err (ErrJoin (omap (λ e, e)
      [Some (errorf "collector deployment did not prove readiness, health, and signal delivery: %s"
               [GStr (CollectorVerification.Reason v)]); verifyErr; rollbackErr])))
  else mret (Ok (collectorResult resource v "apply" true)).

(* internal/external/observability/collector.go, lines 151-176: CollectorSDKAdapter.apply *)
Definition collector_apply : M answer :=
  found ← find_collector;
  match found with
  | Err err => mret (Err (wrapf "inspect collector before apply: %w" [] err))
  | Ok (existing, found) =>
      if found && foreign existing then mret (Err (ErrNew "refusing to mutate an unowned collector resource"))
      else
        ensured ← call (EvEnsure plan) (backend_Ensure backend plan);
        match ensured with
        | Err err => mret (Err (wrapf "ensure collector deployment: %w" [] err))
        | Ok resource =>
            match validateCollectorResource resource plan with
            | Some err => mret (Err err)
            | None => verify_or_rollback resource
            end
        end
  end.

(* internal/external/observability/collector.go, lines 178-197: CollectorSDKAdapter.verify *)
Definition collector_verify : M answer :=
  found ← find_collector;
  match found with
  | Err err => mret (Err (wrapf "inspect collector for verification: %w" [] err))
  | Ok (_, false) => mret (Err (ErrNew "collector deployment is missing"))
  | Ok (resource, true) =>
      match validateCollectorResource resource plan with
      | Some err => mret (Err err)
      | None =>
          verified ← call (EvVerifyCollector plan resource) (backend_Verify backend plan resource);
          mret (match verified.2 with
            | Some err => Err (wrapf "verify collector deployment: %w" [] err)
            | None =>
                if CollectorVerification.proved verified.1 then Ok (collectorResult resource verified.1 "verify" true)
                else Err (errorf "collector verification incomplete: %s" [GStr (CollectorVerification.Reason verified.1)])
            end)
      end
  end.

(* internal/external/observability/collector.go, lines 199-221: CollectorSDKAdapter.rollback *)
Definition collector_rollback : M answer :=
  found ← find_collector;
  match found with
  | Err err => mret (Err (wrapf "inspect collector for rollback: %w" [] err))
  | Ok (resource, false) => mret (Ok (collectorResult resource CollectorVerification.zero "rollback" true))
  | Ok (resource, true) =>
      match validateCollectorResource resource plan with
      | Some err => mret (Err err)
      | None =>
          err ← call (EvRollback plan resource) (backend_Rollback backend plan resource);
          match err with
          | Some err => mret (Err (wrapf "rollback collector deployment: %w" [] err))
          | None =>
              again ← find_collector;
              mret (match again with
                | Err err => Err (wrapf "verify collector rollback: %w" [] err)
                | Ok (remaining, stillFound) =>
                    fail_if (stillFound || negb (bool_decide (CollectorResource.Identity remaining = "")))
                      (ErrNew "collector rollback left an owned resource behind") ;;!
                    Ok (collectorResult resource CollectorVerification.zero "rollback" true)
                end)
          end
      end
  end.

(* internal/external/observability/collector.go, lines 224-224: CollectorSDKAdapter.destroy *)
Definition list_collectors : M (result (list CollectorResource)) :=
  let runtime := CollectorPlan.TargetRuntime plan in
  call (EvCollectors (collector_provider adapter) runtime marker) (backend_Collectors backend (collector_provider adapter) runtime marker).

(* internal/external/observability/collector.go, lines 229-240: CollectorSDKAdapter.destroy *)
Fixpoint destroy_each (resources : list CollectorResource) : M gerror :=
  match resources with
  | [] => mret None
  | r :: resources =>
      match fail_if (foreign r) (ErrNew "refusing collector cleanup without exact ownership proof")
            ;;? validateCollectorResource r plan with
      | Some err => mret (Some err)
      | None =>
          err ← call (EvDestroyCollector plan r) (backend_DestroyCollector backend plan r);
          match err with
          | Some err => mret (Some (wrapf "destroy collector resource %q: %w" [GStr (CollectorResource.Identity r)] err))
          | None => destroy_each resources
          end
      end
  end.

(* internal/external/observability/collector.go, lines 248-249: CollectorSDKAdapter.destroy *)
Definition destroy_result (resources : list CollectorResource) : CollectorDeploymentExecutionResult :=
  {| CollectorResult.Action := CollectorRequest.Action request;
     CollectorResult.OperationID := "collector:destroy:" +:+ collectorMarkerDigest marker;
     CollectorResult.ResourceRefs := sort_strings (CollectorResource.Identity <$> resources);
     CollectorResult.ProofRefs := ["collector:owning-service-inventory"; "collector:ownership-cleanup"];
     CollectorResult.OwnershipMarker := marker; CollectorResult.OwnershipVerified := true;
     CollectorResult.IdempotencyVerified := true; CollectorResult.ReadyVerified := false;
     CollectorResult.HealthVerified := false; CollectorResult.CleanupVerified := true; CollectorResult.RollbackVerified := false |}.

(* internal/external/observability/collector.go, lines 223-250: CollectorSDKAdapter.destroy *)
Definition collector_destroy : M answer :=
  listed ← list_collectors;
  match listed with
  | Err err => mret (Err (wrapf "inventory collector resources for cleanup: %w" [] err))
  | Ok resources =>
      err ← destroy_each resources;
      match err with
      | Some err => mret (Err err)
      | None =>
          again ← list_collectors;
          mret (match again with
            | Err err => Err (wrapf "verify collector cleanup: %w" [] err)
            | Ok remaining =>
                fail_if (negb (bool_decide (remaining = []))) (ErrNew "owned collector resources remain after cleanup") ;;!
                Ok (destroy_result resources)
            end)
      end
  end.

(* internal/external/observability/collector.go, lines 122-133: CollectorSDKAdapter.ExecuteCollector *)
Definition collector_action : M answer :=
  let action := CollectorRequest.Action request in
  if bool_decide (action = CollectorApply) then collector_apply
  else if bool_decide (action = CollectorVerify) then collector_verify
  else if bool_decide (action = CollectorRollback) then collector_rollback
  else if bool_decide (action = CollectorDestroy) then collector_destroy
  else mret (Err (errorf "unsupported collector action %q" [GStr action])).

(* internal/external/observability/collector.go, lines 106-134: CollectorSDKAdapter.ExecuteCollector *)
Definition engine_ExecuteCollector : M answer :=
  err ← collector_context;
  match err
        ;;? ValidateCollectorDeploymentExecutionRequest request
        ;;? validateCollectorPlan plan
        ;;? fail_if (negb (bool_decide (CollectorPlan.AdapterID plan = adapterID adapter))
                     || collector_unsupported (CollectorPlan.TargetProvider plan) (CollectorPlan.TargetRuntime plan)
                          (CollectorPlan.Workload plan) (CollectorPlan.Distribution plan))
              (ErrTyped "CollectorCapabilityError" [GStr (adapterID adapter); GStr (CollectorRequest.Action request);
                 GStr "collector plan does not match the injected provider boundary"]) with
  | Some err => mret (Err err)
  | None => collector_action
  end.
End actions.

(** The engine as its callers see it. *)
(* internal/external/observability/collector.go, lines 55-62: CollectorSDKAdapter *)
Definition engine_adapter : CollectorDeploymentAdapter unit W :=
  let run {A} (m : M A) w := (outcome m w, final m w) in
  {| PlanCollector := λ request, run (engine_PlanCollector request);
     ExecuteCollector := λ request, run (engine_ExecuteCollector request) |}.
End engine.
