(* ===== verification/CollectorClaims.v ===== *)
(** * What the collector engine promises

    A deployment is kept only when it proves itself, only owned resources are
    touched, and every result passes the gate of the SDK. *)

From S2P Require Import Prelude GoStrings GoEncoding Sdk Coverage Admission Architecture Resilience Lifecycle LifecycleClaims Edge EdgeComposite EdgeClaims Collector CollectorEngine.

Local Open Scope Z_scope.

(** ** Digests fit on a line *)

Lemma hex_digit_single n : (n < 16)%N → hex_digit n ∉ go_bytes line_breaks.
Proof.
  intros Hn. assert (N.to_nat n < 16)%nat as Hm by lia. rewrite <-(N2Nat.id n).
  revert Hm. generalize (N.to_nat n). intros m Hm.
  do 16 (destruct m as [|m]; [by apply (bool_decide_unpack _); vm_compute|]). lia.
Qed.

Lemma sum_bytes msg : Forall (λ b, b < 256)%N (Sha256.sum msg).
Proof.
  unfold Sha256.sum. destruct (fold_left _ _ _) as [[[[[[[a b] c] d] e] f] g] h].
  apply Forall_forall. intros x Hx. apply list_elem_of_join in Hx as (l&Hx&Hl).
  apply list_elem_of_fmap in Hl as (y&->&_). unfold Sha256.be_bytes in Hx. apply list_elem_of_fmap in Hx as (i&->&_).
  change 0xFF%N with (N.ones 8). rewrite N.land_ones. apply N.mod_lt. done.
Qed.

Lemma ContainsAny_false s chars : ContainsAny s chars = false ↔ ∀ c, c ∈ go_bytes s → c ∉ go_bytes chars.
Proof.
  unfold ContainsAny. rewrite <-not_true_iff_false, existsb_exists. split.
  - intros H c Hc Hin. apply H. exists c. split; [by apply list_elem_of_In|by apply bool_decide_eq_true].
  - intros H (c&Hc&Hin). apply list_elem_of_In in Hc. apply bool_decide_eq_true in Hin. by apply (H c).
Qed.

Lemma markerDigest_single marker : multiline (markerDigest marker) = false.
Proof.
  apply ContainsAny_false. intros c Hc. unfold markerDigest in Hc. rewrite go_bytes_of_bytes in Hc.
  assert (c ∈ go_bytes (sha256_hex marker)) as Hin by (rewrite <-(take_drop 16); apply elem_of_app; by left).
  unfold sha256_hex, hex_encode in Hin. rewrite go_bytes_of_bytes in Hin. apply list_elem_of_bind in Hin as (b&Hin&Hb).
  pose proof (sum_bytes (code <$> go_bytes marker)) as Hf. rewrite Forall_forall in Hf. specialize (Hf b Hb).
  apply elem_of_cons in Hin as [->|Hin%list_elem_of_singleton]; [|subst c]; apply hex_digit_single.
  - rewrite N.shiftr_div_pow2. apply N.Div0.div_lt_upper_bound. simpl. lia.
  - change 15%N with (N.ones 4). rewrite N.land_ones. by apply N.mod_lt.
Qed.

Lemma operation_id_fine action marker : multiline action = false →
  bad_reference ("collector:" +:+ action +:+ ":" +:+ collectorMarkerDigest marker) = false.
Proof.
  intros Ha. unfold bad_reference. apply orb_false_iff. split.
  - apply (visible_not_blank _ ":"%char); [by split; vm_compute|]. rewrite !go_bytes_app. set_solver.
  - rewrite !multiline_app, Ha. unfold collectorMarkerDigest. rewrite markerDigest_single. by vm_compute.
Qed.

(** ** The calls of an action *)

Section engine.
Context {W : Type} (env : waiter W) (url_Parse : string → result url) (backend : CollectorBackend W).
Context (adapter : CollectorSDKAdapter) (request : CollectorRequest).
Abbreviation plan := (CollectorRequest.Plan request).
Abbreviation marker := (CollectorRequest.OwnershipMarker request).
Abbreviation run := (engine_ExecuteCollector env url_Parse backend adapter request).

(** The resource is the owner's, and on the target of the plan. *)
Definition deployed (r : CollectorResource) : Prop := validateCollectorResource r plan = None.

(** What stands behind a successful action, in its calls. *)
Definition apply_trace (es : list collector_event) (r : CollectorDeploymentExecutionResult) : Prop :=
  ∃ existing found resource v,
    es = [EvFind plan (Ok (existing, found)); EvEnsure plan (Ok resource); EvVerifyCollector plan resource (v, None)] ∧
    (found = true → foreign request existing = false) ∧ deployed resource ∧
    CollectorVerification.proved v = true ∧ r = collectorResult request resource v "apply" true.

Definition verify_trace (es : list collector_event) (r : CollectorDeploymentExecutionResult) : Prop :=
  ∃ resource v,
    es = [EvFind plan (Ok (resource, true)); EvVerifyCollector plan resource (v, None)] ∧ deployed resource ∧
    CollectorVerification.proved v = true ∧ r = collectorResult request resource v "verify" true.

Definition rollback_trace (es : list collector_event) (r : CollectorDeploymentExecutionResult) : Prop :=
  ∃ resource, r = collectorResult request resource CollectorVerification.zero "rollback" true ∧
    (es = [EvFind plan (Ok (resource, false))] ∨
     ∃ remaining, deployed resource ∧ CollectorResource.Identity remaining = "" ∧
       es = [EvFind plan (Ok (resource, true)); EvRollback plan resource None; EvFind plan (Ok (remaining, false))]).

Definition listing (answer : result (list CollectorResource)) : collector_event :=
  EvCollectors (collector_provider adapter) (CollectorPlan.TargetRuntime plan) marker answer.

Definition destroy_trace (es : list collector_event) (r : CollectorDeploymentExecutionResult) : Prop :=
  ∃ resources, r = destroy_result request resources ∧
    es = listing (Ok resources) :: ((λ c, EvDestroyCollector plan c None) <$> resources) ++ [listing (Ok [])] ∧
    Forall (λ c, foreign request c = false ∧ deployed c) resources.

Definition action_trace (es : list collector_event) (r : CollectorDeploymentExecutionResult) : Prop :=
  CollectorRequest.Action request = CollectorApply ∧ apply_trace es r ∨
  CollectorRequest.Action request = CollectorVerify ∧ verify_trace es r ∨
  CollectorRequest.Action request = CollectorRollback ∧ rollback_trace es r ∨
  CollectorRequest.Action request = CollectorDestroy ∧ destroy_trace es r.

(** An answer that is not an error is in [Q]. *)
Definition succeeding (Q : list collector_event → CollectorDeploymentExecutionResult → Prop)
    (es : list collector_event) (a : result CollectorDeploymentExecutionResult) : Prop := ∀ r, a = Ok r → Q es r.

Lemma yields_fails Q err : yields (mret (Err err) : eff collector_event W _) (λ es, succeeding Q es).
Proof. by apply yields_ret. Qed.
Hint Resolve yields_fails : core.

Lemma collector_apply_trace : yields (collector_apply backend request) (succeeding apply_trace).
Proof.
  apply yields_call_bind. intros [[existing found]|err]; [|by apply yields_ret].
  destruct (found && foreign request existing) eqn:Hf; [by apply yields_ret|].
  apply yields_call_bind. intros [resource|err]; [|by apply yields_ret].
  destruct (validateCollectorResource resource plan) eqn:Hd; [by apply yields_ret|].
  apply yields_call_bind. intros [v verr]. destruct (_ || _) eqn:Hv; [apply yields_call_bind; intros err; by apply yields_ret|].
  apply yields_ret. intros r [= <-]. apply orb_false_iff in Hv as [He Hp]. apply negb_false_iff in Hp.
  apply bool_decide_eq_false, eq_None_not_Some in He as ->.
  exists existing, found, resource, v. split_and!; try done. by intros ->.
Qed.

Lemma collector_verify_trace : yields (collector_verify backend request) (succeeding verify_trace).
Proof.
  apply yields_call_bind. intros [[resource [|]]|err]; [|by apply yields_ret..].
  destruct (validateCollectorResource resource plan) eqn:Hd; [by apply yields_ret|].
  apply yields_call_bind. intros [v [err|]]; [by apply yields_ret|]. apply yields_ret. cbn [fst snd].
  destruct (CollectorVerification.proved v) eqn:Hp; [|done]. intros r [= <-]. by exists resource, v.
Qed.

Lemma collector_rollback_trace : yields (collector_rollback backend request) (succeeding rollback_trace).
Proof.
  apply yields_call_bind. intros [[resource [|]]|err]; [| |by apply yields_ret].
  - destruct (validateCollectorResource resource plan) eqn:Hd; [by apply yields_ret|].
    apply yields_call_bind. intros [err|]; [by apply yields_ret|].
    apply yields_call_bind. intros [[remaining stillFound]|err]; [|by apply yields_ret].
    apply yields_ret. intros r Hr. apply lift_check_Ok in Hr as [Hc [= <-]].
    apply fail_if_None, orb_false_iff in Hc as [-> Hid]. apply negb_false_iff, bool_decide_eq_true in Hid.
    exists resource. split; [done|]. right. by exists remaining.
  - apply yields_ret. intros r [= <-]. exists resource. by split; [|left].
Qed.

Lemma destroy_each_trace resources : yields (destroy_each backend request resources) (λ es err,
  (∀ c ans, EvDestroyCollector plan c ans ∈ es → foreign request c = false ∧ deployed c) ∧
  (err = None → es = (λ c, EvDestroyCollector plan c None) <$> resources ∧
                Forall (λ c, foreign request c = false ∧ deployed c) resources)).
Proof.
  induction resources as [|c resources IH]; cbn [destroy_each].
  { apply yields_ret. split; [by intros ?? ?%elem_of_nil|]. intros _. by split. }
  destruct (_ ;;? _) eqn:Hc; [apply yields_ret; split; [by intros ?? ?%elem_of_nil|done]|].
  apply err_seq_None in Hc as [Hf Hd]. apply fail_if_None in Hf.
  apply yields_call_bind. intros [err|].
  - apply yields_ret. split; [|done]. by intros c' ans [= -> ->]%list_elem_of_singleton.
  - eapply yields_weaken; [apply IH|]. intros es err [Hin Hok]. split.
    + intros c' ans [[= -> ->]|H]%elem_of_cons; [done|by eapply Hin].
    + intros He. destruct (Hok He) as [-> Hr]. split; [done|]. by constructor.
Qed.

Lemma collector_destroy_trace : yields (collector_destroy backend adapter request) (succeeding destroy_trace).
Proof.
  apply yields_call_bind. intros [resources|err]; [|by apply yields_ret].
  apply yields_bind. eapply yields_weaken; [apply destroy_each_trace|]. intros es [err|] [_ Hok]; [by apply yields_ret|].
  destruct (Hok eq_refl) as [-> Hr].
  apply yields_call_bind. intros [remaining|err]; [|by apply yields_ret]. apply yields_ret. intros r Hres.
  apply lift_check_Ok in Hres as [Hrem [= <-]]. apply fail_if_None, negb_false_iff, bool_decide_eq_true in Hrem as ->.
  by exists resources.
Qed.

Lemma ExecuteCollector_trace : yields run (λ es a, ∀ r, a = Ok r → ∃ es', es = EvCollectorContext None :: es' ∧ action_trace es' r).
Proof.
  unfold engine_ExecuteCollector. apply yields_call_bind. intros err. destruct (_ ;;? _) eqn:Hv; [by apply yields_ret|].
  apply err_seq_None in Hv as [-> _]. unfold collector_action.
  assert (Hlift : ∀ (m : eff collector_event W (result CollectorDeploymentExecutionResult)) Q, yields m (succeeding Q) →
    (∀ es r, Q es r → action_trace es r) →
    yields m (λ es a, ∀ r, a = Ok r → ∃ es', EvCollectorContext None :: es = EvCollectorContext None :: es' ∧ action_trace es' r)).
  { intros m Q Hm HQ. eapply yields_weaken; [exact Hm|]. intros es a Ha r Hr. exists es. split; [done|]. by apply HQ, Ha. }
  unfold action_trace in *. case_bool_decide as H1; [eapply Hlift; [apply collector_apply_trace|]; tauto|].
  case_bool_decide as H2; [eapply Hlift; [apply collector_verify_trace|]; tauto|].
  case_bool_decide as H3; [eapply Hlift; [apply collector_rollback_trace|]; tauto|].
  case_bool_decide as H4; [eapply Hlift; [apply collector_destroy_trace|]; tauto|by apply yields_ret].
Qed.
End engine.

(** ** Results pass the gate *)

Section accepted.
Context (request : CollectorRequest).

(** All that is left to the gate are the references. *)
Record sound_result (r : CollectorDeploymentExecutionResult) : Prop := {
  sound_action : CollectorResult.Action r = CollectorRequest.Action request;
  sound_marker : CollectorResult.OwnershipMarker r = CollectorRequest.OwnershipMarker request;
  sound_verified : CollectorResult.OwnershipVerified r = true ∧ CollectorResult.IdempotencyVerified r = true;
  sound_operation : bad_reference (CollectorResult.OperationID r) = false;
  sound_resources : Forall (λ x, blank x = false) (CollectorResult.ResourceRefs r);
  sound_proofs : Forall (λ x, bad_reference x = false) (CollectorResult.ProofRefs r);
  sound_checks : check_action_proofs (CollectorRequest.Action request) r = None;
}.

Lemma sound_accepted r : sound_result r →
  ValidateCollectorDeploymentExecutionResult request r = None ↔
  Forall (λ x, multiline x = false) (CollectorResult.ResourceRefs r) ∧
  NoDup (CollectorResult.ResourceRefs r ++ CollectorResult.ProofRefs r).
Proof.
  intros [Ha Hm [Ho Hi] Hop Hr Hp Hc]. unfold ValidateCollectorDeploymentExecutionResult.
  rewrite !err_seq_None, !fail_if_None, Ha, Hm, Ho, Hi, Hc, !bool_decide_eq_true_2, validateOpaqueReferences_None by done.
  assert (Hid : (if bool_decide (CollectorResult.OperationID r = "") then None
    else validateOpaqueReferences "collector execution result operation ID" [CollectorResult.OperationID r]) = None).
  { case_bool_decide; [done|]. apply validateOpaqueReferences_None. split; [by repeat constructor|apply NoDup_singleton]. }
  rewrite Hid. cbn [negb orb]. rewrite Forall_app. unfold bad_reference. split.
  - intros (_&_&_&_&[[Hf _] Hn]&_). split; [|done]. eapply Forall_impl; [exact Hf|]. intros x [_ ?]%orb_false_iff. done.
  - intros [Hf Hn]. split_and!; try done. rewrite Forall_forall in Hf, Hr. apply Forall_forall. intros x Hx.
    by rewrite (Hr x Hx), (Hf x Hx).
Qed.

Lemma collectorResult_sound resource v action :
  multiline action = false → check_action_proofs (CollectorRequest.Action request) (collectorResult request resource v action true) = None →
  sound_result (collectorResult request resource v action true).
Proof.
  intros Ha Hc. split; [done|done|done|by apply operation_id_fine| | |done].
  - cbn. destruct (blank _) eqn:Hb; repeat constructor. done.
  - by repeat constructor; vm_compute.
Qed.
End accepted.

Section claims.
Context {W : Type} (env : waiter W) (url_Parse : string → result url) (backend : CollectorBackend W).
Context (adapter : CollectorSDKAdapter) (request : CollectorRequest) (w : W).
Abbreviation run := (engine_ExecuteCollector env url_Parse backend adapter request).
Abbreviation plan := (CollectorRequest.Plan request).

Lemma traced_sound es r : action_trace adapter request es r → sound_result request r.
Proof.
  intros [[Ha H]|[[Ha H]|[[Ha H]|[Ha H]]]].
  - destruct H as (?&?&resource&v&_&_&_&Hp&->). apply collectorResult_sound; [by vm_compute|].
    unfold check_action_proofs. rewrite Ha, bool_decide_eq_true_2 by (by constructor). unfold CollectorVerification.proved in Hp.
    rewrite !andb_true_iff in Hp. destruct Hp as [[Hr Hh] _]. cbn [collectorResult CollectorResult.ReadyVerified CollectorResult.HealthVerified CollectorResult.ProofRefs].
    by rewrite Hr, Hh.
  - destruct H as (resource&v&_&_&Hp&->). apply collectorResult_sound; [by vm_compute|].
    unfold check_action_proofs. rewrite Ha, bool_decide_eq_true_2 by (constructor; constructor). unfold CollectorVerification.proved in Hp.
    rewrite !andb_true_iff in Hp. destruct Hp as [[Hr Hh] _]. cbn [collectorResult CollectorResult.ReadyVerified CollectorResult.HealthVerified CollectorResult.ProofRefs].
    by rewrite Hr, Hh.
  - destruct H as (resource&->&_). apply collectorResult_sound; [by vm_compute|].
    unfold check_action_proofs, collectorResult. rewrite Ha. done.
  - destruct H as (resources&->&_&Hf). split; try done.
    + by apply (operation_id_fine "destroy").
    + cbn [CollectorResult.ResourceRefs destroy_result]. rewrite sort_strings_perm. apply Forall_fmap.
      eapply Forall_impl; [exact Hf|]. intros c [_ Hd]. unfold deployed, validateCollectorResource in Hd. cbv zeta in Hd.
      apply fail_if_None in Hd. rewrite !orb_false_iff in Hd. simpl. tauto.
    + by repeat constructor; vm_compute.
    + unfold check_action_proofs. by rewrite Ha.
Qed.


(** What an action that succeeds has behind it.  An apply ends with a
    verification that proves readiness, health and delivery; a verify with the
    same for a deployment that was found; a rollback with a lookup that finds
    nothing; and a destroy has destroyed each listed resource once, in the order
    of the listing, and ends with an empty one. *)
Theorem ExecuteCollector_behind r : outcome (run) w = Ok r →
  ∃ es, events (run) w = EvCollectorContext None :: es ∧ action_trace adapter request es r.
Proof. apply (ExecuteCollector_trace env url_Parse backend adapter request w). Qed.

(** What every call touches; a deployment is looked up before it is made. *)
Definition guarded (es : list collector_event) (e : collector_event) : Prop :=
  match e with
  | EvEnsure p answer => ∃ existing found rest,
      es = EvCollectorContext None :: EvFind plan (Ok (existing, found)) :: EvEnsure plan answer :: rest ∧
      p = plan ∧ (found = true → foreign request existing = false)
  | EvRollback p c _ | EvVerifyCollector p c _ => p = plan ∧ deployed request c
  | EvDestroyCollector p c _ => p = plan ∧ foreign request c = false ∧ deployed request c
  | _ => True
  end.

(** Calls that do not depend on the ones before them. *)
Definition settled_call (e : collector_event) : Prop := ∀ es, guarded es e.

Lemma settled_calls : CollectorRequest.Action request ≠ CollectorApply → emits settled_call (collector_action backend adapter request).
Proof.
  intros Ha. unfold collector_action. rewrite bool_decide_eq_false_2 by done.
  case_bool_decide; [|case_bool_decide; [|case_bool_decide; [|apply emits_ret]]].
  - apply emits_bind; [by apply emits_call|]. intros [[c [|]]|err]; [|apply emits_ret..].
    destruct (validateCollectorResource c plan) eqn:Hd; [apply emits_ret|].
    apply emits_bind; [by apply emits_call|]. intros ?. apply emits_ret.
  - apply emits_bind; [by apply emits_call|]. intros [[c [|]]|err]; [|apply emits_ret..].
    destruct (validateCollectorResource c plan) eqn:Hd; [apply emits_ret|].
    apply emits_bind; [by apply emits_call|]. intros [?|]; [apply emits_ret|].
    apply emits_bind; [by apply emits_call|]. intros ?. apply emits_ret.
  - apply emits_bind; [by apply emits_call|]. intros [resources|err]; [|apply emits_ret].
    apply emits_bind; [|intros [?|]; [apply emits_ret|apply emits_bind; [by apply emits_call|intros ?; apply emits_ret]]].
    induction resources as [|c resources IH]; cbn [destroy_each]; [apply emits_ret|].
    destruct (_ ;;? _) eqn:Hc; [apply emits_ret|]. apply err_seq_None in Hc as [Hf%fail_if_None Hd].
    apply emits_bind; [by apply emits_call|]. intros [?|]; [apply emits_ret|exact IH].
Qed.

Lemma apply_calls : yields (collector_apply backend request) (λ es a,
  Forall (guarded (EvCollectorContext None :: es)) es ∧
  ∀ c v verr, EvVerifyCollector plan c (v, verr) ∈ es → verr ≠ None ∨ CollectorVerification.proved v = false →
    (∃ before err, es = before ++ [EvRollback plan c err]) ∧ is_ok a = false).
Proof.
  apply yields_call_bind. intros [[existing found]|err].
  2:{ apply yields_ret. split; [by repeat constructor|]. by intros ??? [?|?%elem_of_nil]%elem_of_cons. }
  destruct (found && foreign request existing) eqn:Hf.
  { apply yields_ret. split; [by repeat constructor|]. by intros ??? [?|?%elem_of_nil]%elem_of_cons. }
  assert (Hsafe : found = true → foreign request existing = false) by (intros ->; exact Hf).
  assert (Hens : ∀ answer rest, guarded (EvCollectorContext None :: EvFind plan (Ok (existing, found)) :: EvEnsure plan answer :: rest)
                                  (EvEnsure plan answer)) by (intros answer rest; by exists existing, found, rest).
  apply yields_call_bind. intros [c|err].
  2:{ apply yields_ret. split; [by repeat constructor|]. set_solver. }
  destruct (validateCollectorResource c plan) eqn:Hd.
  { apply yields_ret. split; [by repeat constructor|]. set_solver. }
  apply yields_call_bind. intros [v verr]. destruct (_ || _) eqn:Hv.
  - apply yields_call_bind. intros err. apply yields_ret. split; [by repeat constructor|].
    intros c' v' verr' Hin _. assert (c' = c) as -> by set_solver. split; [|done].
    by exists [EvFind plan (Ok (existing, found)); EvEnsure plan (Ok c); EvVerifyCollector plan c (v, verr)], err.
  - apply yields_ret. split; [by repeat constructor|]. intros c' v' verr' Hin Hbad. exfalso.
    assert (v' = v ∧ verr' = verr) as [-> ->] by set_solver. apply orb_false_iff in Hv as [He Hp]. apply negb_false_iff in Hp.
    apply bool_decide_eq_false, eq_None_not_Some in He. destruct Hbad; congruence.
Qed.

(** The engine touches what is its own.  Whatever the backend answers, a
    deployment is created or changed only after a lookup that found none or the
    owner's own; and every resource that is verified, rolled back or destroyed is
    owned, carries the marker of the request and is on the target of the plan. *)
Theorem collector_calls_guarded : Forall (guarded (events (run) w)) (events (run) w).
Proof.
  unfold engine_ExecuteCollector. rewrite events_bind. unfold collector_context. rewrite events_call, outcome_call, final_call.
  set (w' := (ctx_err env w).2). destruct (_ ;;? _) eqn:Hv; [by repeat constructor|]. apply err_seq_None in Hv as [-> _].
  cbn [app]. constructor; [done|]. destruct (decide (CollectorRequest.Action request = CollectorApply)) as [Ha|Ha].
  - unfold collector_action. rewrite bool_decide_eq_true_2 by done. apply (apply_calls w').
  - eapply Forall_impl; [apply (settled_calls Ha w')|]. intros e He. apply He.
Qed.

(** A deployment that does not prove itself is rolled back.  When an apply
    verifies a resource and the answer is an error, or readiness, health or the
    delivery of signals is missing, the last call rolls that resource back and
    the apply fails. *)
Theorem collector_unproved_rolled_back c v verr :
  CollectorRequest.Action request = CollectorApply →
  EvVerifyCollector plan c (v, verr) ∈ events (run) w → verr ≠ None ∨ CollectorVerification.proved v = false →
  (∃ before err, events (run) w = before ++ [EvRollback plan c err]) ∧ is_ok (outcome (run) w) = false.
Proof.
  intros Ha. unfold engine_ExecuteCollector. rewrite events_bind, outcome_bind. unfold collector_context.
  rewrite events_call, outcome_call, final_call. set (w' := (ctx_err env w).2).
  destruct (_ ;;? _) eqn:Hv; [by intros [?|?%elem_of_nil]%elem_of_cons|]. cbn [app]. intros [?|Hin]%elem_of_cons; [done|].
  unfold collector_action in *. rewrite bool_decide_eq_true_2 in * by done. intros Hbad.
  destruct (apply_calls w') as [_ Hr]. destruct (Hr c v verr Hin Hbad) as [(before&err&->) Hf]. split; [|done].
  by eexists (_ :: before), err.
Qed.

(** A rollback reports proofs nobody gave.  A rollback that succeeds, even one
    that finds nothing to roll back, names readiness, health and the delivery of
    signals among its proofs, although the backend was never asked to verify. *)
Theorem collector_rollback_claims r : CollectorRequest.Action request = CollectorRollback → outcome (run) w = Ok r →
  CollectorResult.ProofRefs r = ["collector:ownership"; "collector:readiness"; "collector:health"; "collector:signal-delivery"] ∧
  containsCollectorProof (CollectorResult.ProofRefs r) CollectorProofSignalDelivery = true ∧
  Forall (λ e, ∀ c v, e ≠ EvVerifyCollector plan c v) (events (run) w).
Proof.
  intros Ha Hr. destruct (ExecuteCollector_trace env url_Parse backend adapter request w r Hr) as (es&->&Ht).
  destruct Ht as [[Hx _]|[[Hx _]|[[_ H]|[Hx _]]]]; try (by rewrite Ha in Hx).
  destruct H as (resource&->&He). split_and!; [done|by vm_compute|].
  destruct He as [->|(remaining&_&_&->)]; by repeat constructor.
Qed.
End claims.

(** ** Examples *)

Module CollectorExample.
Import EdgeExample.

Definition collector (identity : string) : CollectorResource :=
  {| CollectorResource.Identity := identity; CollectorResource.TargetProvider := "aws"; CollectorResource.TargetRuntime := "ecs";
     CollectorResource.Workload := "otel"; CollectorResource.Distribution := "contrib"; CollectorResource.OwnershipMarker := "shop";
     CollectorResource.Status := "running"; CollectorResource.Owned := true |}.

(** The deployment gets healthy as soon as the world has counted to [healthy],
    and it is listed until it is destroyed or rolled back. *)
Definition backend (healthy : nat) : CollectorBackend nat :=
  {| backend_Find := λ _ w, (Ok (if bool_decide (w < 9)%nat then (collector "otel-1", true) else (collector "", false)), w);
     backend_Ensure := λ _ w, (Ok (collector "otel-1"), S w);
     backend_Verify := λ _ _ w, ({| CollectorVerification.Ready := true; CollectorVerification.Healthy := bool_decide (healthy ≤ w)%nat;
                                    CollectorVerification.SignalsDelivered := true; CollectorVerification.Reason := "starting" |}, None, w);
     backend_Rollback := λ _ _ _, (None, 9%nat); backend_DestroyCollector := λ _ _ _, (None, 9%nat);
     backend_Collectors := λ _ _ _ w, (Ok (if bool_decide (w < 9)%nat then [collector "otel-1"; collector "otel-2"] else []), w) |}.

Definition adapter : CollectorSDKAdapter :=
  {| adapterID := "aws.collector"; collector_provider := "aws"; workload := "otel"; runtimeMatch := λ r, bool_decide (r = "ecs");
     distributionMatch := λ _, true |}.

Definition plan_request : CollectorDeploymentPlanRequest :=
  {| CollectorPlanRequest.TargetProvider := "aws"; CollectorPlanRequest.TargetRuntime := "ecs"; CollectorPlanRequest.Workload := "otel";
     CollectorPlanRequest.Distribution := "contrib"; CollectorPlanRequest.CredentialRef := ""; CollectorPlanRequest.Endpoint := "";
     CollectorPlanRequest.NativeReference := "cluster-1"; CollectorPlanRequest.OwnershipMarker := "shop";
     CollectorPlanRequest.Signals := ["logs"; "traces"] |}.

Definition requested (action : string) : CollectorRequest :=
  collector_execution action "key-1" [] "" (collector_plan adapter plan_request).

Definition run healthy action : result CollectorDeploymentExecutionResult :=
  outcome (engine_ExecuteCollector open_context no_url (backend healthy) adapter (requested action)) 0%nat.

Definition answered (answer : result CollectorDeploymentExecutionResult) : CollectorDeploymentExecutionResult :=
  match answer with
  | Ok r => r
  | Err _ => destroy_result (requested "") []
  end.

Definition applied := Eval vm_compute in answered (run 1 CollectorApply).
Definition destroyed := Eval vm_compute in answered (run 1 CollectorDestroy).
Definition rolled_back := Eval vm_compute in answered (run 1 CollectorRollback).


Lemma ExecuteCollector_behind_witness : ∃ es,
  events (engine_ExecuteCollector open_context no_url (backend 1) adapter (requested CollectorDestroy)) 0%nat
  = EvCollectorContext None :: es ∧ action_trace adapter (requested CollectorDestroy) es destroyed.
Proof.
  apply (ExecuteCollector_behind open_context no_url (backend 1) adapter (requested CollectorDestroy) 0%nat destroyed).
  vm_compute. reflexivity.
Defined.

Lemma collector_unproved_rolled_back_witness : run 5 CollectorApply ≠ Ok applied ∧ is_ok (run 5 CollectorApply) = false.
Proof.
  assert (Hf : is_ok (run 5 CollectorApply) = false).
  { refine (proj2 (collector_unproved_rolled_back open_context no_url (backend 5) adapter (requested CollectorApply) 0%nat
      (collector "otel-1") {| CollectorVerification.Ready := true; CollectorVerification.Healthy := false;
        CollectorVerification.SignalsDelivered := true; CollectorVerification.Reason := "starting" |} None _ _ _)).
    - reflexivity.
    - cbv [engine_ExecuteCollector]. vm_compute. do 3 right. left.
    - by right. }
  split; [|exact Hf]. intros He. by rewrite He in Hf.
Defined.

Lemma collector_rollback_claims_witness :
  containsCollectorProof (CollectorResult.ProofRefs rolled_back) CollectorProofSignalDelivery = true.
Proof.
  refine (proj1 (proj2 (collector_rollback_claims open_context no_url (backend 1) adapter (requested CollectorRollback) 0%nat rolled_back _ _))).
  - reflexivity.
  - vm_compute. reflexivity.
Defined.
End CollectorExample.
