(* ===== verification/RecoveryRun.v ===== *)
(** * The recovery runner (internal/certification/recovery_runner.go)

    [RunResilience] executes the stages of a recovery plan in dependency order
    through a provider adapter, and saves a checkpoint after each.  The adapter,
    the store, the clock and the context are functions on a world [W]; every
    call is logged with its answer.  A Go [range] over a map has no fixed order:
    [range] is the order of this run, any arrangement of the entries. *)

From S2P Require Import Prelude GoStrings Regex GoEncoding Secretsafe Sdk Coverage Admission Architecture Resilience ResiliencePlan Lifecycle.

Local Open Scope Z_scope.

(** ** Data *)

Module StageState.
(* internal/certification/recovery_runner.go, lines 31-43: RecoveryStageState *)
Record RecoveryStageState := {
  Status : string;
  Action : string;
  OperationID : string;
  ResourceRefs : list string;
  ProofRefs : list string;
  Evidence : list ResilienceProofEvidence;
  OwnershipMarker : string;
  OwnershipVerified : bool;
  IdempotencyVerified : bool;
  CompletedAt : string;
  Reason : string;
}.

Definition to_json (s : RecoveryStageState) : json :=
  JObj (js "status" (Status s) ++ js "action" (Action s) ++ js_opt "operationId" (OperationID s)
    ++ jl_opt "resourceRefs" (ResourceRefs s) ++ jl_opt "proofRefs" (ProofRefs s)
    ++ ExecutionResult.jarr_opt "evidence" (Evidence.to_json <$> Evidence s)
    ++ js_opt "ownershipMarker" (OwnershipMarker s) ++ jb "ownershipVerified" (OwnershipVerified s)
    ++ jb "idempotencyVerified" (IdempotencyVerified s) ++ js_opt "completedAt" (CompletedAt s)
    ++ js_opt "reason" (Reason s)).
End StageState.
Notation RecoveryStageState := StageState.RecoveryStageState.

Module RecoveryCheckpoint.
(* internal/certification/recovery_runner.go, lines 20-26: RecoveryCheckpoint *)
Record RecoveryCheckpoint := {
  PlanDigest : string;
  OwnershipMarker : string;
  FixtureID : string;
  Stages : gmap string RecoveryStageState;
  UpdatedAt : string;
}.

Definition to_json (c : RecoveryCheckpoint) : json :=
  JObj (js "planDigest" (PlanDigest c) ++ js "ownershipMarker" (OwnershipMarker c) ++ js "fixtureId" (FixtureID c)
    ++ [("stages", JObj ((λ k, (k, from_option StageState.to_json JNull (Stages c !! k)))
                           <$> sort_strings (map_to_list (Stages c)).*1))]
    ++ js "updatedAt" (UpdatedAt c)).
End RecoveryCheckpoint.
Notation RecoveryCheckpoint := RecoveryCheckpoint.RecoveryCheckpoint.

Module StageExecution.
(* internal/certification/recovery_runner.go, lines 63-77: RecoveryStageExecution *)
Record RecoveryStageExecution := {
  StageID : string;
  Action : string;
  Status : string;
  Reused : bool;
  IdempotencyKey : string;
  OperationID : string;
  ResourceRefs : list string;
  ProofRefs : list string;
  Evidence : list ResilienceProofEvidence;
  CompletedAt : string;
  Reason : string;
  OwnershipVerified : bool;
  IdempotencyVerified : bool;
}.
End StageExecution.
Notation RecoveryStageExecution := StageExecution.RecoveryStageExecution.

Module RecoveryExecution.
(* internal/certification/recovery_runner.go, lines 56-61: RecoveryExecution *)
Record RecoveryExecution := {
  PlanDigest : string;
  OwnershipMarker : string;
  FixtureID : string;
  Stages : list RecoveryStageExecution;
}.

Definition zero : RecoveryExecution := {| PlanDigest := ""; OwnershipMarker := ""; FixtureID := ""; Stages := [] |}.

Definition add_stage (e : RecoveryExecution) (s : RecoveryStageExecution) : RecoveryExecution :=
  {| PlanDigest := PlanDigest e; OwnershipMarker := OwnershipMarker e; FixtureID := FixtureID e;
     Stages := Stages e ++ [s] |}.
End RecoveryExecution.
Notation RecoveryExecution := RecoveryExecution.RecoveryExecution.

(* internal/certification/recovery_runner.go, lines 268-268: ErrRecoveryCheckpointNotFound *)
Definition ErrRecoveryCheckpointNotFound : error := ErrSentinel "certification.ErrRecoveryCheckpointNotFound".

(* internal/certification/recovery_fixture.go, lines 19-19: recoveryDigestPattern *)
Definition recoveryDigestPattern : re := rep 64 (Cls (either (byte_in 97 102) digit)).

(** ** Keys *)

(* internal/certification/recovery_runner.go, lines 424-431: resiliencePlanDigest *)
Definition resiliencePlanDigest (plan : ResiliencePlan) : string := sha256_hex (json_text (ResiliencePlan.to_json plan)).

(* internal/certification/recovery_runner.go, lines 433-436: recoveryIdempotencyKey *)
Definition recoveryIdempotencyKey (planDigest ownershipMarker stageID : string) : string :=
  sha256_hex (planDigest +:+ nul +:+ ownershipMarker +:+ nul +:+ stageID).

(** ** The order of the stages *)

Section order.
Import ResilienceStage.
Context (stages : list ResilienceStage).

(** [dependents[id]], the stages that wait for [id], in the order of the plan. *)
(* internal/certification/recovery_runner.go, lines 447-456: topologicalRecoveryStages *)
Definition dependents (id : string) : list string :=
  stages ≫= λ s, (λ _, ID s) <$> filter (λ d, d = id) (DependsOn s).

(** The loop over the children: those that wait for nothing else are ready. *)
(* internal/certification/recovery_runner.go, lines 471-476: topologicalRecoveryStages *)
Fixpoint settle_children (children : list string) (indegree : gmap string Z) (ready : list string)
    : gmap string Z * list string :=
  match children with
  | [] => (indegree, ready)
  | child :: children =>
      let degree := default 0 (indegree !! child) - 1 in
      settle_children children (<[child := degree]> indegree) (if degree =? 0 then ready ++ [child] else ready)
  end.

(** One stage leaves [ready] per step, and none comes back: as many steps as
    stages are enough. *)
(* internal/certification/recovery_runner.go, lines 465-478: topologicalRecoveryStages *)
Fixpoint order_stages (fuel : nat) (indegree : gmap string Z) (ready ordered : list string) : list string :=
  match fuel, ready with
  | S fuel, id :: ready =>
      let '(indegree, ready) := settle_children (sort_strings (dependents id)) indegree ready in
      order_stages fuel indegree (sort_strings ready) (ordered ++ [id])
  | _, _ => ordered
  end.

(* internal/certification/recovery_runner.go, lines 446-449: topologicalRecoveryStages *)
Definition indegrees : gmap string Z :=
  fold_left (λ m s, <[ID s := Z.of_nat (length (DependsOn s))]> m) stages ∅.

(* internal/certification/recovery_runner.go, lines 439-445: topologicalRecoveryStages *)
Definition known_stages : gmap string ResilienceStage := by_id ID stages.

(* internal/certification/recovery_runner.go, lines 450-453: topologicalRecoveryStages *)
Definition check_known (s : ResilienceStage) : gerror :=
  first_error (λ d, fail_if (absent known_stages d)
    (errorf "resilience stage %q depends on unknown stage %q" [GStr (ID s); GStr d])) (DependsOn s).

(* internal/certification/recovery_runner.go, lines 438-483: topologicalRecoveryStages *)
Definition topologicalRecoveryStages : result (list ResilienceStage) :=
  first_of (with_seen (λ seen s, [fail_if (bool_decide (ID s ∈ ID <$> seen))
    (errorf "duplicate resilience stage %q" [GStr (ID s)])]) [] stages) ;;!
  first_error check_known stages ;;!
  let ready := sort_strings (ID <$> filter (λ s, DependsOn s = []) stages) in
  let ordered := order_stages (length stages) indegrees ready [] in
  fail_if (negb (bool_decide (length ordered = length stages)))
    (ErrNew "resilience stage dependency graph contains a cycle") ;;!
  Ok (omap (λ id, known_stages !! id) ordered).
End order.

(** ** What one stage hands to the next *)

Section references.
Import RecoveryCheckpoint.
Context (range : gmap string RecoveryStageState → list (string * RecoveryStageState)).

(* internal/certification/recovery_runner.go, lines 190-201: architectureResourceReferences *)
Definition architectureResourceReferences (a : ArchitectureIntent) : gmap string string :=
  fold_left (λ references c,
    match find (λ b, bool_decide (ServiceBoundaryIntent.Role b = DataClassIntent.Name c)
                     && negb (blank (ServiceBoundaryIntent.ResourceReference b))) (ArchitectureIntent.Boundaries a) with
    | Some b => <[DataClassIntent.Name c := ServiceBoundaryIntent.ResourceReference b]> references
    | None => references
    end) (ResilienceIntent.DataClasses (ArchitectureIntent.Resilience a)) ∅.

(** The identities of one kind that a passed stage has shown, by data class. *)
(* internal/certification/recovery_runner.go, lines 205-215: checkpointBackupReferences *)
Definition stage_references (action : string) (identity : ResilienceProofEvidence → string) (state : RecoveryStageState)
    : list (string * string) :=
  if bool_decide (StageState.Status state = "PASS") && bool_decide (StageState.Action state = action) then
    (λ e, (Evidence.DataClass e, identity e))
      <$> filter (λ e, blank (Evidence.DataClass e) || blank (identity e) = false) (StageState.Evidence state)
  else [].

(** A map filled in order. *)
Definition fill (l : list (string * string)) : gmap string string := fold_left (λ m kv, <[kv.1 := kv.2]> m) l ∅.

(* internal/certification/recovery_runner.go, lines 203-220: checkpointBackupReferences *)
Definition checkpointBackupReferences (c : RecoveryCheckpoint) : gmap string string :=
  fill (range (Stages c) ≫= λ kv, stage_references ResilienceBackup Evidence.BackupID kv.2).

(** The order of the candidates: the time of completion, then the stage. *)
(* internal/certification/recovery_runner.go, lines 228-233: checkpointRestoreReferences *)
Definition candidate : Type := string * string * (string * string).
(* internal/certification/recovery_runner.go, lines 246-251: checkpointRestoreReferences *)
Definition candidate_le (a b : candidate) : Prop :=
  let '(completed_a, id_a, _) := a in let '(completed_b, id_b, _) := b in
  if bool_decide (completed_a = completed_b) then String.le id_a id_b else String.le completed_a completed_b.
#[export] Instance candidate_le_dec a b : base.Decision (candidate_le a b).
Proof. destruct a as [[??]?], b as [[??]?]. unfold candidate_le. case_bool_decide; apply _. Defined.

(** [sort.Slice] leaves the order of the proofs of one stage open; only a stage
    with two proofs of one data class would show it. *)
(* internal/certification/recovery_runner.go, lines 227-257: checkpointRestoreReferences *)
Definition checkpointRestoreReferences (c : RecoveryCheckpoint) : gmap string string :=
  fill (sort_by candidate_le (range (Stages c) ≫= λ kv,
    (λ reference, (StageState.CompletedAt kv.2, kv.1, reference))
      <$> stage_references ResilienceRestore Evidence.RestoreID kv.2)).*2.

(* internal/certification/recovery_runner.go, lines 259-266: mergeStringMap *)
Definition mergeStringMap (target values : gmap string string) : gmap string string :=
  filter (λ kv : string * string, blank kv.1 || blank kv.2 = false) values ∪ target.
End references.

(** ** Validators *)

Section evidence.
Import Evidence.

(* internal/certification/recovery_runner.go, lines 315-383: validateRecoveryStageEvidence *)
Definition check_recovery_proof (stage : ResilienceStage) (fixtureID : string)
    (seen : list ResilienceProofEvidence) (e : ResilienceProofEvidence) : gerror :=
  let class := GStr (DataClass e) in
  fail_if (blank (DataClass e)) (ErrNew "proof data class is required")
  ;;? fail_if (negb (bool_decide (DataClass e ∈ ResilienceStage.DataClasses stage)))
        (errorf "proof references data class %q outside the stage" [class])
  ;;? fail_if (bool_decide (DataClass e ∈ DataClass <$> seen)) (errorf "duplicate proof for data class %q" [class])
  ;;? check_scope "proof" stage fixtureID e
  ;;? check_writer "proof" stage e
  ;;? check_action (ResilienceStage.Action stage) e (DataClass e)
  ;;? fail_if (bool_decide (ResilienceStage.Action stage = ResilienceBackup)
               && ((RetentionDays e <=? 0) || negb (EncryptionVerified e) || negb (ProtectionVerified e)))
        (errorf "backup proof for data class %q requires positive retention, encryption, and protection verification" [class]).

(* internal/certification/recovery_runner.go, lines 303-390: validateRecoveryStageEvidence *)
Definition validateRecoveryStageEvidence (stage : ResilienceStage) (fixtureID : string)
    (evidence : list ResilienceProofEvidence) : gerror :=
  if negb (needs_class_evidence (ResilienceStage.Action stage)) then None
  else
    fail_if (bool_decide (evidence = [])) (ErrNew "stage requires independent data-class evidence")
    ;;? first_of (with_seen (λ seen e, [check_recovery_proof stage fixtureID seen e]) [] evidence)
    ;;? first_error (λ class, fail_if (negb (bool_decide (class ∈ DataClass <$> evidence)))
          (errorf "missing proof for data class %q" [GStr class])) (ResilienceStage.DataClasses stage).
End evidence.

Section result.
Import ExecutionResult.

(* internal/certification/recovery_runner.go, lines 281-301: validateStageResult *)
Definition validateStageResult (stage : ResilienceStage) (fixtureID ownershipMarker : string)
    (r : ResilienceExecutionResult) : gerror :=
  let id := GStr (ResilienceStage.ID stage) in
  fail_if (bool_decide (is_Some (ValidateSecretSafeValue (to_json r))))
    (ErrNew "resilience stage result contains secret-like material")
  ;;? fail_if (negb (bool_decide (Action r = ResilienceStage.Action stage)))
        (errorf "resilience stage %q returned action %q, want %q" [id; GStr (Action r); GStr (ResilienceStage.Action stage)])
  ;;? fail_if (bool_decide (ResourceRefs r = []) && bool_decide (ProofRefs r = []) && blank (OperationID r))
        (errorf "resilience stage %q returned no operation, resource, or proof identity" [id])
  ;;? fail_if (negb (bool_decide (OwnershipMarker r = ownershipMarker)))
        (errorf "resilience stage %q returned ownership marker %q, want %q"
           [id; GStr (OwnershipMarker r); GStr ownershipMarker])
  ;;? fail_if (negb (OwnershipVerified r) || negb (IdempotencyVerified r))
        (errorf "resilience stage %q did not attest ownership and idempotency" [id])
  ;;? err_wrap (wrapf "resilience stage %q evidence: %w" [id]) (validateRecoveryStageEvidence stage fixtureID (Evidence r)).
End result.

(** ** The run *)

(** What the runner calls in a provider adapter. *)
(* sdk/resilience.go, lines 210-214: ResilienceAdapter *)
Record ResilienceAdapter (W : Type) := {
  plan_resilience : ResiliencePlanRequest → W → result ResiliencePlan * W;
  execute_resilience : ResilienceExecutionRequest → W → result ResilienceExecutionResult * W;
}.
Arguments plan_resilience {W} _.
Arguments execute_resilience {W} _.

(** [Load] answers a checkpoint and an error, and the checkpoint is used when
    the error says that none was found. *)
(* internal/certification/recovery_runner.go, lines 48-51: RecoveryCheckpointStore *)
Record RecoveryCheckpointStore (W : Type) := {
  load_checkpoint : W → (RecoveryCheckpoint * gerror) * W;
  save_checkpoint : RecoveryCheckpoint → W → gerror * W;
}.
Arguments load_checkpoint {W} _.
Arguments save_checkpoint {W} _.

(** The context and the clock; a time is its text. *)
Record surroundings (W : Type) := {
  context_err : W → gerror * W;
  now : W → string * W;
}.
Arguments context_err {W} _.
Arguments now {W} _.

Module Recovery.
Inductive event :=
  | EvPlan (answer : result ResiliencePlan)
  | EvLoad (answer : RecoveryCheckpoint * gerror)
  | EvExecute (request : ResilienceExecutionRequest) (answer : result ResilienceExecutionResult)
  | EvNow (time : string)
  | EvSave (checkpoint : RecoveryCheckpoint) (answer : gerror)
  | EvContext (answer : gerror).
End Recovery.
Import Recovery.

Section run.
Context (range : gmap string RecoveryStageState → list (string * RecoveryStageState)).

Section checkpoint.
Import RecoveryCheckpoint.

(* internal/certification/recovery_runner.go, lines 405-420: validateRecoveryCheckpoint *)
Definition check_state (kv : string * RecoveryStageState) : gerror :=
  let id := GStr kv.1 in let state := kv.2 in
  fail_if (blank kv.1) (ErrNew "checkpoint stage ID must be non-empty")
  ;;? fail_if (negb (bool_decide (StageState.Status state = "PASS")) || negb (StageState.OwnershipVerified state)
               || negb (StageState.IdempotencyVerified state))
        (errorf "checkpoint stage %q is not a verified PASS state" [id])
  ;;? fail_if (bool_decide (StageState.Action state = "") || blank (StageState.CompletedAt state))
        (errorf "checkpoint stage %q is missing action or completion time" [id])
  ;;? first_error (λ value, fail_if (multiline value) (errorf "checkpoint stage %q contains a multi-line identity" [id]))
        (StageState.OperationID state :: StageState.ResourceRefs state ++ StageState.ProofRefs state).

(* internal/certification/recovery_runner.go, lines 392-422: validateRecoveryCheckpoint *)
Definition validateRecoveryCheckpoint (c : RecoveryCheckpoint) : gerror :=
  fail_if (bool_decide (is_Some (ValidateSecretSafeValue (to_json c))))
    (ErrNew "recovery checkpoint contains secret-like material")
  ;;? fail_if (negb (bool_decide (PlanDigest c = "")) && negb (MatchString recoveryDigestPattern (PlanDigest c)))
        (ErrNew "checkpoint plan digest must be a lowercase SHA-256 digest")
  ;;? fail_if (bad_reference (OwnershipMarker c)) (ErrNew "checkpoint ownership marker must be non-empty and single-line")
  ;;? fail_if (bad_reference (FixtureID c)) (ErrNew "checkpoint fixture ID must be non-empty and single-line")
  ;;? first_error check_state (range (Stages c)).
End checkpoint.

Context {W : Type} (env : surroundings W) (adapter : ResilienceAdapter W) (store : RecoveryCheckpointStore W).

(* internal/certification/recovery_runner.go, lines 272-279: saveRecoveryCheckpoint *)
Definition saveRecoveryCheckpoint (c : RecoveryCheckpoint) : eff event W gerror :=
  match validateRecoveryCheckpoint c with
  | Some err => mret (Some (wrapf "validate recovery checkpoint before save: %w" [] err))
  | None => call (EvSave c) (save_checkpoint store c)
  end.

Section stages.
Context (plan : ResiliencePlan) (request : ResiliencePlanRequest) (digest : string).
Abbreviation marker := (ResiliencePlanRequest.OwnershipMarker request).
Abbreviation fixture := (ResiliencePlanRequest.FixtureID request).

(* internal/certification/recovery_runner.go, lines 160-163: RunResilience *)
Definition execution_request (stage : ResilienceStage) (c : RecoveryCheckpoint) : ResilienceExecutionRequest :=
  let id := ResilienceStage.ID stage in
  {| ResilienceExecutionRequest.Plan := plan; ResilienceExecutionRequest.StageID := id;
     ResilienceExecutionRequest.FixtureID := fixture;
     ResilienceExecutionRequest.IdempotencyKey := recoveryIdempotencyKey digest marker id;
     ResilienceExecutionRequest.OwnershipMarker := marker;
     ResilienceExecutionRequest.ResourceReferences :=
       mergeStringMap (architectureResourceReferences (ResiliencePlanRequest.Architecture request))
         (checkpointRestoreReferences range c);
     ResilienceExecutionRequest.BackupReferences := checkpointBackupReferences range c;
     ResilienceExecutionRequest.ApprovalReference :=
       default "" (ResiliencePlanRequest.ApprovalReferences request !! id);
     ResilienceExecutionRequest.ReconciliationReference :=
       default "" (ResiliencePlanRequest.ReconciliationReferences request !! id) |}.

(** The state a stage leaves in the checkpoint. *)
(* internal/certification/recovery_runner.go, lines 175-175: RunResilience *)
Definition passed_state (r : ResilienceExecutionResult) (completedAt : string) : RecoveryStageState :=
  {| StageState.Status := "PASS"; StageState.Action := ExecutionResult.Action r;
     StageState.OperationID := ExecutionResult.OperationID r; StageState.ResourceRefs := ExecutionResult.ResourceRefs r;
     StageState.ProofRefs := ExecutionResult.ProofRefs r; StageState.Evidence := ExecutionResult.Evidence r;
     StageState.OwnershipMarker := ExecutionResult.OwnershipMarker r;
     StageState.OwnershipVerified := ExecutionResult.OwnershipVerified r;
     StageState.IdempotencyVerified := ExecutionResult.IdempotencyVerified r;
     StageState.CompletedAt := completedAt; StageState.Reason := "" |}.

(* internal/certification/recovery_runner.go, lines 176-177: RunResilience *)
Definition record_stage (id : string) (state : RecoveryStageState) (c : RecoveryCheckpoint) : RecoveryCheckpoint :=
  {| RecoveryCheckpoint.PlanDigest := RecoveryCheckpoint.PlanDigest c;
     RecoveryCheckpoint.OwnershipMarker := RecoveryCheckpoint.OwnershipMarker c;
     RecoveryCheckpoint.FixtureID := RecoveryCheckpoint.FixtureID c;
     RecoveryCheckpoint.Stages := <[id := state]> (RecoveryCheckpoint.Stages c);
     RecoveryCheckpoint.UpdatedAt := StageState.CompletedAt state |}.

(** A stage that a checkpoint has as passed, for this action and owner. *)
(* internal/certification/recovery_runner.go, lines 155-155: RunResilience *)
Definition reusable (stage : ResilienceStage) (previous : RecoveryStageState) : bool :=
  bool_decide (StageState.Status previous = "PASS")
  && bool_decide (StageState.Action previous = ResilienceStage.Action stage)
  && bool_decide (StageState.OwnershipMarker previous = marker)
  && StageState.OwnershipVerified previous && StageState.IdempotencyVerified previous.

(* internal/certification/recovery_runner.go, lines 157-157: RunResilience *)
Definition stage_report (reused : bool) (stage : ResilienceStage) (state : RecoveryStageState) : RecoveryStageExecution :=
  {| StageExecution.StageID := ResilienceStage.ID stage; StageExecution.Action := StageState.Action state;
     StageExecution.Status := "PASS"; StageExecution.Reused := reused;
     StageExecution.IdempotencyKey := recoveryIdempotencyKey digest marker (ResilienceStage.ID stage);
     StageExecution.OperationID := StageState.OperationID state;
     StageExecution.ResourceRefs := StageState.ResourceRefs state; StageExecution.ProofRefs := StageState.ProofRefs state;
     StageExecution.Evidence := StageState.Evidence state; StageExecution.CompletedAt := StageState.CompletedAt state;
     StageExecution.Reason := "";
     StageExecution.OwnershipVerified := StageState.OwnershipVerified state;
     StageExecution.IdempotencyVerified := StageState.IdempotencyVerified state |}.

(** One turn of the loop, which goes on with [rest]. *)
(* internal/certification/recovery_runner.go, lines 148-186: RunResilience *)
Fixpoint run_stages (stages : list ResilienceStage) (completed : list string) (c : RecoveryCheckpoint)
    (execution : RecoveryExecution) : eff event W (RecoveryExecution * gerror) :=
  match stages with
  | [] => mret (execution, None)
  | stage :: stages =>
      let id := ResilienceStage.ID stage in
      let stop err := mret (execution, Some err) in
      let execute :=
        let executionRequest := execution_request stage c in
        match ValidateResilienceExecutionRequest executionRequest with
        | Some err => stop err
        | None =>
            answer ← call (EvExecute executionRequest) (execute_resilience adapter executionRequest);
            match answer with
            | Err err => stop (wrapf "execute resilience stage %q: %w" [GStr id] err)
            | Ok r =>
                match validateStageResult stage fixture marker r with
                | Some err => stop err
                | None =>
                    completedAt ← call EvNow (now env);
                    let state := passed_state r completedAt in
                    let c := record_stage id state c in
                    saved ← saveRecoveryCheckpoint c;
                    match saved with
                    | Some err => stop (wrapf "save resilience checkpoint after stage %q: %w" [GStr id] err)
                    | None =>
                        let execution := RecoveryExecution.add_stage execution (stage_report false stage state) in
                        err ← call EvContext (context_err env);
                        match err with
                        | Some err => mret (execution, Some err)
                        | None => run_stages stages (id :: completed) c execution
                        end
                    end
                end
            end
        end in
      match find (λ d, negb (bool_decide (d ∈ completed))) (ResilienceStage.DependsOn stage) with
      | Some d => stop (errorf "resilience stage %q dependency %q did not complete" [GStr id; GStr d])
      | None =>
          match RecoveryCheckpoint.Stages c !! id with
          | Some previous =>
              if reusable stage previous then
                run_stages stages (id :: completed) c
                  (RecoveryExecution.add_stage execution (stage_report true stage previous))
              else execute
          | None => execute
          end
      end
  end.

(** A checkpoint knows only stages of the plan, with their actions. *)
(* internal/certification/recovery_runner.go, lines 137-145: RunResilience *)
Definition check_checkpoint_stages (known : gmap string ResilienceStage) (kv : string * RecoveryStageState) : gerror :=
  match known !! kv.1 with
  | None => Some (errorf "resilience checkpoint contains unknown stage %q" [GStr kv.1])
  | Some stage =>
      fail_if (negb (bool_decide (StageState.Action kv.2 = ResilienceStage.Action stage)))
        (errorf "resilience checkpoint stage %q action %q does not match plan action %q"
           [GStr kv.1; GStr (StageState.Action kv.2); GStr (ResilienceStage.Action stage)])
  end.

(** The loaded checkpoint becomes the one of this plan, fixture and owner. *)
(* internal/certification/recovery_runner.go, lines 119-127: RunResilience *)
Definition adopt (c : RecoveryCheckpoint) : result RecoveryCheckpoint :=
  fail_if (negb (bool_decide (RecoveryCheckpoint.PlanDigest c = ""))
           && (negb (bool_decide (RecoveryCheckpoint.PlanDigest c = digest))
               || negb (bool_decide (RecoveryCheckpoint.OwnershipMarker c = marker))
               || negb (bool_decide (RecoveryCheckpoint.FixtureID c = fixture))))
    (errorf "resilience checkpoint does not match plan, fixture, or ownership scope" []) ;;!
  Ok {| RecoveryCheckpoint.PlanDigest := digest; RecoveryCheckpoint.OwnershipMarker := marker;
        RecoveryCheckpoint.FixtureID := fixture; RecoveryCheckpoint.Stages := RecoveryCheckpoint.Stages c;
        RecoveryCheckpoint.UpdatedAt := RecoveryCheckpoint.UpdatedAt c |}.

(** What is checked between loading and the first stage. *)
(* internal/certification/recovery_runner.go, lines 110-145: RunResilience *)
Definition resume_checkpoint (loaded : RecoveryCheckpoint * gerror) : result (RecoveryCheckpoint * list ResilienceStage) :=
  let '(c, err) := loaded in
  match err with
  | Some err => fail_if (negb (errors_Is "certification.ErrRecoveryCheckpointNotFound" err))
                  (wrapf "load resilience checkpoint: %w" [] err)
  | None => err_wrap (wrapf "validate resilience checkpoint: %w" []) (validateRecoveryCheckpoint c)
  end ;;!
  c ← adopt c;
  ordered ← topologicalRecoveryStages (ResiliencePlan.Stages plan);
  first_error (check_checkpoint_stages (by_id ResilienceStage.ID ordered)) (range (RecoveryCheckpoint.Stages c)) ;;!
  Ok (c, ordered).
End stages.

Context (url_Parse : string → result url).

(** The context, the adapter and the store are there; nil ones are refused. *)
(* internal/certification/recovery_runner.go, lines 83-188: RunResilience *)
Definition RunResilience (request : ResiliencePlanRequest) : eff event W (RecoveryExecution * gerror) :=
  let refuse err := mret (RecoveryExecution.zero, Some err) in
  match ValidateResiliencePlanRequest url_Parse request with
  | Some err => refuse (wrapf "validate resilience request: %w" [] err)
  | None =>
      planned ← call EvPlan (plan_resilience adapter request);
      match planned with
      | Err err => refuse (wrapf "plan resilience recovery: %w" [] err)
      | Ok plan =>
          match ValidateResiliencePlan plan (ArchitectureIntent.Resilience (ResiliencePlanRequest.Architecture request)) with
          | Some err => refuse (wrapf "validate resilience plan: %w" [] err)
          | None =>
              let digest := resiliencePlanDigest plan in
              loaded ← call EvLoad (load_checkpoint store);
              match resume_checkpoint plan request digest loaded with
              | Err err => refuse err
              | Ok (c, ordered) =>
                  run_stages plan request digest ordered [] c
                    {| RecoveryExecution.PlanDigest := digest;
                       RecoveryExecution.OwnershipMarker := ResiliencePlanRequest.OwnershipMarker request;
                       RecoveryExecution.FixtureID := ResiliencePlanRequest.FixtureID request;
                       RecoveryExecution.Stages := [] |}
              end
          end
      end
  end.
End run.
