(* ===== verification/RecoveryOrder.v ===== *)
(** * The order in which a recovery runs

    [topologicalRecoveryStages] counts, for every stage, what it still waits for;
    on a valid plan it arranges all the stages, each after its dependencies. *)

From S2P Require Import Prelude GoStrings Regex GoEncoding Dfs Sdk Admission Architecture Resilience ResiliencePlan ResilienceClaims Lifecycle LifecycleClaims RecoveryRun.

Import ResilienceStage.

(** ** No endless walk *)

(** In a finite set where every element has a successor some walk closes. *)
Lemma no_endless_walk {A} (R : relation A) (U : list A) :
  (∀ x, x ∈ U → ∃ y, R x y ∧ y ∈ U) → (∀ x, ¬ tc R x x) → U = [].
Proof.
  intros Hnext Hacyc. destruct U as [|x0 U]; [done|]. exfalso.
  assert (Hwalk : ∀ n, ∃ x walk, length walk = n ∧ NoDup (x :: walk) ∧ (x :: walk) ⊆ x0 :: U ∧ ∀ y, y ∈ walk → tc R y x).
  { induction n as [|n (x&walk&Hl&Hnd&Hsub&Hreach)].
    - exists x0, []. split_and!; [done|apply NoDup_singleton|set_solver|set_solver].
    - destruct (Hnext x) as (y&Hxy&Hy); [set_solver|].
      assert (Hall : ∀ z, z ∈ x :: walk → tc R z y).
      { intros z [->|Hz]%elem_of_cons; [by apply tc_once|]. eapply tc_r; [by apply Hreach|done]. }
      exists y, (x :: walk). split_and!; [simpl; lia| |set_solver|done].
      constructor; [|done]. intros Hin. by apply (Hacyc y), Hall. }
  destruct (Hwalk (length (x0 :: U))) as (x&walk&Hl&Hnd&Hsub&_).
  pose proof (submseteq_length _ _ (NoDup_submseteq _ _ Hnd (λ z Hz, Hsub z Hz))) as H. simpl in H, Hl. lia.
Qed.

(** ** Counting *)

Lemma settle_children_spec children indegree ready : NoDup children →
  (∀ k, (settle_children children indegree ready).1 !! k
        = if decide (k ∈ children) then Some (default 0 (indegree !! k) - 1)%Z else indegree !! k) ∧
  (settle_children children indegree ready).2
    = ready ++ filter (λ c, (default 0 (indegree !! c) - 1 =? 0)%Z = true) children.
Proof.
  revert indegree ready. induction children as [|c children IH]; intros indegree ready Hnd.
  { split; [|by rewrite app_nil_r]. intros k. by rewrite decide_False by apply not_elem_of_nil. }
  apply NoDup_cons in Hnd as [Hc Hnd]. cbn [settle_children]. destruct (IH (<[c := (default 0 (indegree !! c) - 1)%Z]> indegree)
    (if (default 0 (indegree !! c) - 1 =? 0)%Z then ready ++ [c] else ready) Hnd) as [H1 H2]. split.
  - intros k. rewrite H1. destruct (decide (k = c)) as [->|Hne].
    + rewrite decide_False by done. rewrite decide_True by apply list_elem_of_here. apply lookup_insert_eq.
    + rewrite lookup_insert_ne by done. destruct (decide (k ∈ children)).
      * by rewrite decide_True by by apply list_elem_of_further.
      * rewrite decide_False; [done|]. by intros [|]%elem_of_cons.
  - rewrite H2, filter_cons.
    assert (Hf : filter (λ c0, (default 0 (<[c:=(default 0 (indegree !! c) - 1)%Z]> indegree !! c0) - 1 =? 0)%Z = true) children
                 = filter (λ c0, (default 0 (indegree !! c0) - 1 =? 0)%Z = true) children).
    { clear -Hc. induction children as [|d children IH]; [done|].
      apply not_elem_of_cons in Hc as [Hne Hc]. rewrite !filter_cons, lookup_insert_ne by done. by rewrite IH. }
    rewrite Hf. destruct (default 0 (indegree !! c) - 1 =? 0)%Z; [|by rewrite decide_False].
    rewrite decide_True by done. by rewrite <-app_assoc.
Qed.

Section order.
Context (stages : list ResilienceStage).
Context (unique : NoDup (ID <$> stages)) (unique_deps : ∀ s, s ∈ stages → NoDup (DependsOn s)).

Lemma elem_of_dependents id k : k ∈ dependents stages id ↔ ∃ s, s ∈ stages ∧ ID s = k ∧ id ∈ DependsOn s.
Proof.
  unfold dependents. rewrite list_elem_of_bind. split.
  - intros (s&(d&->&[-> Hd]%list_elem_of_filter)%list_elem_of_fmap&Hs). by exists s.
  - intros (s&Hs&<-&Hd). exists s. split; [|done]. apply list_elem_of_fmap. exists id. split; [done|]. by apply list_elem_of_filter.
Qed.

Lemma filter_eq_NoDup (id : string) l : NoDup l → length (filter (λ d, d = id) l) ≤ 1.
Proof.
  induction 1 as [|x l Hx _ IH]; [apply Nat.le_0_l|]. rewrite filter_cons. destruct (decide (x = id)) as [->|]; [|done].
  assert (Hnil : filter (λ d, d = id) l = []); [|by rewrite Hnil].
  clear -Hx. induction l as [|y l IH]; [done|]. apply not_elem_of_cons in Hx as [Hy Hx]. rewrite filter_cons, decide_False by done. by apply IH.
Qed.

Lemma NoDup_dependents id : NoDup (dependents stages id).
Proof.
  unfold dependents. clear -unique unique_deps. induction stages as [|s l IH]; [constructor|].
  simpl in unique. apply NoDup_cons in unique as [Hs Hl]. simpl. apply NoDup_app. split_and!.
  - assert (Hle := filter_eq_NoDup id (DependsOn s) (unique_deps s ltac:(apply list_elem_of_here))).
    destruct (filter _ _) as [|a [|b f]]; [constructor|apply NoDup_singleton|simpl in Hle; lia].
  - intros k (d&->&_)%list_elem_of_fmap. intros (s'&(d'&He&_)%list_elem_of_fmap&Hs')%list_elem_of_bind.
    apply Hs. rewrite He. by apply list_elem_of_fmap_2.
  - apply IH; [done|]. intros s' Hs'. apply unique_deps. by apply list_elem_of_further.
Qed.

(** What a stage still waits for when [ordered] is done. *)
Definition missing (s : ResilienceStage) (ordered : list string) : list string := filter (λ d, d ∉ ordered) (DependsOn s).

Record counted (indegree : gmap string Z) (ready ordered : list string) : Prop := {
  counted_unique : NoDup (ordered ++ ready);
  counted_known : ∀ k, k ∈ ordered ++ ready → k ∈ ID <$> stages;
  counted_degree : ∀ s, s ∈ stages → indegree !! ID s = Some (Z.of_nat (length (missing s ordered)));
  counted_ready : ∀ s, s ∈ stages → missing s ordered = [] ↔ ID s ∈ ordered ++ ready;
  counted_order : ∀ s o1 o2, s ∈ stages → ordered = o1 ++ ID s :: o2 → ∀ d, d ∈ DependsOn s → d ∈ o1;
}.

Lemma missing_nil s ordered : missing s ordered = [] ↔ ∀ d, d ∈ DependsOn s → d ∈ ordered.
Proof.
  unfold missing. split.
  - intros Hnil d Hd. destruct (decide (d ∈ ordered)) as [|Hn]; [done|].
    assert (Hin : d ∈ filter (λ d, d ∉ ordered) (DependsOn s)) by by apply list_elem_of_filter.
    rewrite Hnil in Hin. by apply elem_of_nil in Hin.
  - intros Hall. induction (DependsOn s) as [|d l IH]; [done|]. rewrite filter_cons, decide_False.
    + apply IH. intros d' Hd'. by apply Hall, list_elem_of_further.
    + intros Hn. apply Hn, Hall, list_elem_of_here.
Qed.

(** One more stage done. *)
Lemma missing_step s ordered id : NoDup (DependsOn s) → id ∉ ordered →
  length (missing s ordered) = (if decide (id ∈ DependsOn s) then 1 else 0) + length (missing s (ordered ++ [id])).
Proof.
  intros Hnd Hid. unfold missing.
  assert (Happ : ∀ d, d ∉ ordered ++ [id] ↔ d ∉ ordered ∧ d ≠ id).
  { intros d. rewrite elem_of_app, list_elem_of_singleton. tauto. }
  induction Hnd as [|d l Hd Hnd IH]; [done|]. rewrite !filter_cons.
  destruct (decide (d = id)) as [->|Hne].
  - rewrite (decide_True (P:=id ∉ ordered)) by done.
    rewrite (decide_False (P:=id ∉ ordered ++ [id])) by (rewrite Happ; tauto).
    rewrite (decide_True (P:=id ∈ id :: l)) by apply list_elem_of_here. simpl. rewrite IH, decide_False by done. done.
  - replace (if decide (id ∈ d :: l) then 1 else 0) with (if decide (id ∈ l) then 1 else 0)
      by (do 2 case_decide; rewrite elem_of_cons in *; intuition congruence).
    destruct (decide (d ∉ ordered)).
    + rewrite (decide_True (P:=d ∉ ordered ++ [id])) by by apply Happ. simpl. rewrite IH. lia.
    + rewrite (decide_False (P:=d ∉ ordered ++ [id])) by (rewrite Happ; tauto). exact IH.
Qed.

Lemma counted_step indegree id ready ordered : counted indegree (id :: ready) ordered →
  let children := sort_strings (dependents stages id) in
  counted (settle_children children indegree ready).1 (sort_strings (settle_children children indegree ready).2) (ordered ++ [id]).
Proof.
  intros [Hu Hk Hd Hr Ho] children.
  assert (Hnd : NoDup children) by (unfold children; rewrite sort_strings_perm; apply NoDup_dependents).
  destruct (settle_children_spec children indegree ready Hnd) as [H1 H2].
  assert (Hid : id ∉ ordered). { apply NoDup_app in Hu as (_&Hu&_). intros Hin. apply (Hu _ Hin), list_elem_of_here. }
  assert (Hchild : ∀ k, k ∈ children ↔ ∃ s, s ∈ stages ∧ ID s = k ∧ id ∈ DependsOn s).
  { intros k. unfold children. rewrite elem_of_sort_strings. apply elem_of_dependents. }
  assert (Hsame : ∀ s s', s ∈ stages → s' ∈ stages → ID s = ID s' → s = s').
  { intros s s' Hs Hs' He. pose proof (by_id_lookup ID _ s unique Hs) as E1. pose proof (by_id_lookup ID _ s' unique Hs') as E2.
    rewrite He in E1. congruence. }
  assert (Hchild_s : ∀ s, s ∈ stages → ID s ∈ children ↔ id ∈ DependsOn s).
  { intros s Hs. rewrite Hchild. split; [|by exists s]. intros (s'&Hs'&He&Hin). by rewrite <-(Hsame s' s Hs' Hs He). }
  assert (Hdeg : ∀ s, s ∈ stages → default 0%Z (indegree !! ID s) = Z.of_nat (length (missing s ordered))).
  { intros s Hs. by rewrite (Hd _ Hs). }
  assert (Hnew : ∀ k, k ∈ children → k ∉ ordered ++ id :: ready).
  { intros k (s&Hs&<-&Hin)%Hchild Hk'. apply (Hr s Hs) in Hk'. rewrite missing_nil in Hk'. by apply Hid, Hk'. }
  assert (Hready : ∀ k, k ∈ sort_strings (settle_children children indegree ready).2
    ↔ k ∈ ready ∨ ∃ s, s ∈ stages ∧ ID s = k ∧ id ∈ DependsOn s ∧ missing s (ordered ++ [id]) = []).
  { intros k. rewrite elem_of_sort_strings, H2, elem_of_app, list_elem_of_filter. apply or_iff_compat_l. rewrite Hchild. split.
    - intros (Hz&s&Hs&<-&Hin). exists s. split_and!; [done..|]. rewrite Hdeg in Hz by done.
      rewrite (missing_step _ _ id) in Hz by auto. rewrite decide_True in Hz by done. apply Z.eqb_eq in Hz. apply length_zero_iff_nil. lia.
    - intros (s&Hs&<-&Hin&Hm). split; [|by exists s]. rewrite Hdeg, (missing_step _ _ id), Hm, decide_True by auto. done. }
  constructor.
  - rewrite sort_strings_perm, H2, <-app_assoc. simpl.
    change (id :: ready ++ ?x) with ((id :: ready) ++ x). rewrite app_assoc. apply NoDup_app. split_and!; [done| |by apply NoDup_filter].
    intros k Hin [_ Hc]%list_elem_of_filter. by apply (Hnew k).
  - intros k. rewrite elem_of_app, elem_of_app, list_elem_of_singleton, Hready. intros [[Hin| ->]|[Hin|(s&Hs&<-&_)]].
    + apply Hk. set_solver.
    + apply Hk. set_solver.
    + apply Hk. set_solver.
    + by apply list_elem_of_fmap_2.
  - intros s Hs. rewrite H1. pose proof (missing_step s ordered id ltac:(auto) Hid) as Hm.
    destruct (decide (ID s ∈ children)) as [Hc|Hc]; rewrite (Hchild_s s Hs) in Hc.
    + rewrite decide_True in Hm by done. rewrite Hdeg by done. f_equal. lia.
    + rewrite decide_False in Hm by done. rewrite (Hd s Hs). f_equal. lia.
  - intros s Hs. pose proof (missing_step s ordered id ltac:(auto) Hid) as Hm.
    rewrite elem_of_app, elem_of_app, list_elem_of_singleton, Hready. split.
    + intros Hnil. destruct (decide (id ∈ DependsOn s)) as [Hin|Hin]; [right; right; by exists s|].
      rewrite Hnil in Hm. apply length_zero_iff_nil, (Hr s Hs) in Hm. rewrite elem_of_app, elem_of_cons in Hm. tauto.
    + intros [Hin|[Hin|(s'&Hs'&He&_&Hnil)]]; [| |by rewrite <-(Hsame s' s Hs' Hs He)];
        (assert (Hnil : missing s ordered = []) by (apply (Hr s Hs); rewrite elem_of_app, elem_of_cons; tauto));
        rewrite Hnil in Hm; apply length_zero_iff_nil; simpl in Hm; lia.
  - intros s o1 o2 Hs He d Hin. destruct o2 as [|x o2 _] using rev_ind.
    + apply app_inj_tail in He as [-> ->]. apply (missing_nil s o1); [|done]. apply (Hr s Hs). rewrite elem_of_app, elem_of_cons. tauto.
    + rewrite app_comm_cons, app_assoc in He. apply app_inj_tail in He as [-> _]. by eapply Ho.
Qed.

Lemma ordered_length indegree ready ordered : counted indegree ready ordered → length (ordered ++ ready) ≤ length stages.
Proof.
  intros [Hu Hk _ _ _]. rewrite <-(length_fmap ID stages). by apply submseteq_length, NoDup_submseteq.
Qed.

(** The loop ends with nothing ready, with as many steps as stages. *)
Lemma order_stages_counted fuel indegree ready ordered :
  counted indegree ready ordered → length stages ≤ fuel + length ordered →
  ∃ indegree', counted indegree' [] (order_stages stages fuel indegree ready ordered).
Proof.
  revert indegree ready ordered. induction fuel as [|fuel IH]; intros indegree ready ordered Hc Hf.
  - pose proof (ordered_length _ _ _ Hc) as Hl. rewrite length_app in Hl. destruct ready as [|k ready]; [|simpl in Hl; lia].
    by exists indegree.
  - destruct ready as [|id ready]; [by exists indegree|]. cbn [order_stages].
    pose proof (counted_step _ _ _ _ Hc) as Hs. cbv zeta in Hs.
    destruct (settle_children _ _ _) as [indegree1 ready1]. cbn [fst snd] in Hs.
    apply (IH _ _ _ Hs). rewrite length_app. simpl. lia.
Qed.

Context (known : ∀ a b, waits stages a b → b ∈ ID <$> stages) (acyclic : ∀ k, ¬ tc (waits stages) k k).

(** A stage left over would start an endless walk. *)
Lemma counted_all indegree ordered : counted indegree [] ordered → ordered ≡ₚ ID <$> stages.
Proof.
  intros [Hu Hk _ Hr _]. rewrite app_nil_r in Hu, Hk.
  assert (Hnone : filter (λ k, k ∉ ordered) (ID <$> stages) = []).
  { apply (no_endless_walk (waits stages)); [|exact acyclic].
    intros k [Hn (s&->&Hs)%list_elem_of_fmap]%list_elem_of_filter.
    destruct (missing s ordered) as [|d l] eqn:Hm; [by apply (Hr s Hs) in Hm; rewrite app_nil_r in Hm|].
    assert (Hd : d ∈ missing s ordered) by (rewrite Hm; apply list_elem_of_here).
    apply list_elem_of_filter in Hd as [Hd Hin]. exists d.
    assert (Hw : waits stages (ID s) d) by by exists s. split; [done|]. apply list_elem_of_filter. eauto. }
  apply NoDup_Permutation; [done|done|]. intros k. split; [apply Hk|]. intros Hin.
  destruct (decide (k ∈ ordered)) as [|Hn]; [done|].
  assert (Hf : k ∈ filter (λ k, k ∉ ordered) (ID <$> stages)) by by apply list_elem_of_filter.
  rewrite Hnone in Hf. by apply elem_of_nil in Hf.
Qed.

Lemma counted_start : counted (indegrees stages) (sort_strings (ID <$> filter (λ s, DependsOn s = []) stages)) [].
Proof.
  assert (Hdeg : ∀ l s, NoDup (ID <$> l) → s ∈ l → indegrees l !! ID s = Some (Z.of_nat (length (DependsOn s)))).
  { clear. unfold indegrees. intros l s. induction l as [|x l IH] using rev_ind; [intros _ ?%elem_of_nil; done|].
    rewrite fmap_app, fold_left_app. intros Hnd Hs. apply NoDup_app in Hnd as (Hnd&Hd&_). cbn [fold_left].
    apply elem_of_app in Hs as [Hs|Hs]; [|apply list_elem_of_singleton in Hs as ->; apply lookup_insert_eq].
    rewrite lookup_insert_ne; [by apply IH|]. intros He. apply (Hd (ID s)); [by apply list_elem_of_fmap_2|].
    rewrite <-He. apply list_elem_of_here. }
  assert (Hmiss : ∀ s, missing s [] = DependsOn s).
  { intros s. unfold missing. induction (DependsOn s) as [|d l IH]; [done|].
    rewrite filter_cons, decide_True by apply not_elem_of_nil. by rewrite IH. }
  constructor; simpl.
  - rewrite sort_strings_perm. clear -unique. induction stages as [|s l IH]; [constructor|].
    simpl in unique. apply NoDup_cons in unique as [Hs Hl]. rewrite filter_cons. case_decide; [|by apply IH].
    simpl. constructor; [|by apply IH]. intros (s'&He&[_ Hs']%list_elem_of_filter)%list_elem_of_fmap. apply Hs. rewrite He.
    by apply list_elem_of_fmap_2.
  - intros k. rewrite elem_of_sort_strings. intros (s&->&[_ Hs]%list_elem_of_filter)%list_elem_of_fmap. by apply list_elem_of_fmap_2.
  - intros s Hs. rewrite Hmiss. by apply Hdeg.
  - intros s Hs. rewrite Hmiss, elem_of_sort_strings. split.
    + intros Hd. by apply list_elem_of_fmap_2, list_elem_of_filter.
    + intros (s'&He&[Hd Hs']%list_elem_of_filter)%list_elem_of_fmap.
      pose proof (by_id_lookup ID _ s unique Hs) as E1. pose proof (by_id_lookup ID _ s' unique Hs') as E2.
      rewrite He in E1. congruence.
  - intros s o1 o2 _ He. by apply app_cons_not_nil in He.
Qed.

Lemma omap_known (ordered : list string) : (∀ k, k ∈ ordered → k ∈ ID <$> stages) →
  ID <$> omap (M:=list) (λ id, known_stages stages !! id) ordered = ordered ∧
  ∀ s, s ∈ omap (M:=list) (λ id, known_stages stages !! id) ordered → s ∈ stages.
Proof.
  induction ordered as [|k ordered IH]; intros Hk; [split; [done|by intros ? ?%elem_of_nil]|].
  destruct (IH (λ k' Hin, Hk k' (list_elem_of_further _ _ _ Hin))) as [H1 H2].
  pose proof (Hk k (list_elem_of_here _ _)) as (s&->&Hs)%list_elem_of_fmap. simpl.
  assert (Hl : known_stages stages !! ID s = Some s) by by apply by_id_lookup. rewrite Hl. split; [exact (f_equal (cons (ID s)) H1)|].
  intros s' [->|Hs']%elem_of_cons; [done|by apply H2].
Qed.

Lemma topologicalRecoveryStages_Ok : ∃ ordered, topologicalRecoveryStages stages = Ok ordered ∧
  ordered ≡ₚ stages ∧ ∀ o1 s o2, ordered = o1 ++ s :: o2 → ∀ d, d ∈ DependsOn s → d ∈ ID <$> o1.
Proof.
  destruct (order_stages_counted (length stages) _ _ _ counted_start ltac:(lia)) as [indegree Hc].
  pose proof (counted_all _ _ Hc) as Hall. destruct Hc as [_ _ _ _ Ho].
  set (o := order_stages stages (length stages) (indegrees stages) _ []) in *.
  destruct (omap_known o) as [Hids Hin]; [by intros k; rewrite Hall|].
  exists (omap (λ id, known_stages stages !! id) o). split_and!.
  - unfold topologicalRecoveryStages. apply lift_check_Ok. split; [|apply lift_check_Ok; split; [|apply lift_check_Ok; split; [|done]]].
    + apply first_of_None. rewrite with_seen_None. intros l1 s l2 He. apply Forall_singleton, fail_if_None, bool_decide_eq_false.
      rewrite app_nil_r, fmap_reverse, elem_of_reverse. rewrite He, fmap_app in unique. apply NoDup_app in unique as (_&Hd&_).
      intros Hin'. apply (Hd _ Hin'). simpl. apply list_elem_of_here.
    + apply first_error_None, Forall_forall. intros s Hs. apply first_error_None, Forall_forall. intros d Hd.
      apply fail_if_None. assert (Hk : d ∈ ID <$> stages) by (apply (known (ID s)); by exists s).
      apply (by_id_is_Some ID) in Hk as [x Hx]. unfold absent, known_stages. by rewrite Hx.
    + apply fail_if_None, negb_false_iff, bool_decide_eq_true. fold o. by rewrite Hall, length_fmap.
  - assert (Hnd : NoDup (omap (λ id, known_stages stages !! id) o)).
    { apply (NoDup_fmap_1 ID). rewrite Hids, Hall. exact unique. }
    apply NoDup_Permutation; [done|by eapply NoDup_fmap_1|]. intros s. split; [apply Hin|]. intros Hs.
    assert (He : ID s ∈ ID <$> omap (λ id, known_stages stages !! id) o) by (rewrite Hids, Hall; by apply list_elem_of_fmap_2).
    apply list_elem_of_fmap in He as (s'&He&Hs'). pose proof (Hin _ Hs') as Hst.
    pose proof (by_id_lookup ID _ s unique Hs) as E1. pose proof (by_id_lookup ID _ s' unique Hst) as E2.
    rewrite He in E1. rewrite E1 in E2. by injection E2 as ->.
  - intros o1 s o2 He d Hd.
    assert (Hs : s ∈ stages) by (apply Hin; rewrite He; apply elem_of_app; right; apply list_elem_of_here).
    apply (Ho s (ID <$> o1) (ID <$> o2) Hs); [|done]. by rewrite <-Hids, He, fmap_app.
Qed.
End order.

(** A valid recovery plan can always be run.  For a plan that passes its
    validation the ordering never reports a cycle: it returns all the stages of
    the plan, each one once and after every stage it depends on. *)
Theorem topologicalRecoveryStages_order plan resilience :
  ValidateResiliencePlan plan resilience = None → ∃ ordered,
    topologicalRecoveryStages (ResiliencePlan.Stages plan) = Ok ordered ∧ ordered ≡ₚ ResiliencePlan.Stages plan ∧
    ∀ o1 s o2, ordered = o1 ++ s :: o2 → ∀ d, d ∈ DependsOn s → d ∈ ID <$> o1.
Proof.
  intros (Hu&Hk&Ha&Hd)%ValidateResiliencePlan_None. apply topologicalRecoveryStages_Ok; [done| |done|done].
  intros s Hs. by apply Hd.
Qed.

(** ** Example *)

Module RecoveryOrderExample.
Import ResilienceExample.

Lemma plan_valid : ValidateResiliencePlan plan intent = None.
Proof. vm_cast_no_check (eq_refl (None (A:=error))). Qed.

Example plan_order : (λ r, ID <$> match r with Ok l => l | Err _ => [] end) (topologicalRecoveryStages (ResiliencePlan.Stages plan)) =
  ["backup-database"; "fence-runtime"; "restore-database"; "integrity-database"; "restore-search"; "integrity-search";
   "failover-runtime"; "failback-runtime"; "cleanup-runtime"].
Proof. vm_compute. reflexivity. Qed.

Lemma topologicalRecoveryStages_order_witness : ∃ ordered,
  topologicalRecoveryStages (ResiliencePlan.Stages plan) = Ok ordered ∧ ordered ≡ₚ ResiliencePlan.Stages plan.
Proof.
  destruct (topologicalRecoveryStages_order plan intent plan_valid) as (ordered&Ho&Hp&_). exists ordered. exact (conj Ho Hp).
Defined.
End RecoveryOrderExample.
