(* ===== verification/RecoveryClaims.v ===== *)
(** * What the recovery runner promises

    The calls of a run are the steps of a small machine: a stage is executed
    when everything it waits for is in the checkpoint and it is not, and its
    result is saved before anything else happens.  Order and resumption are read
    off that machine. *)

From S2P Require Import Prelude GoStrings Regex GoEncoding Secretsafe Sdk Coverage Admission Architecture Resilience ResiliencePlan ResilienceClaims Lifecycle LifecycleClaims RecoveryRun RecoveryOrder.

Import Recovery.



(** ** The machine *)

Section machine.
Context (range : gmap string RecoveryStageState → list (string * RecoveryStageState)).
Context (plan : ResiliencePlan) (request : ResiliencePlanRequest) (digest : string).

Abbreviation marker := (ResiliencePlanRequest.OwnershipMarker request).
Abbreviation fixture := (ResiliencePlanRequest.FixtureID request).

(** The checkpoint has the stage as passed, by this owner. *)
Definition done (c : RecoveryCheckpoint) (id : string) : Prop := ∃ stage state,
  stage ∈ ResiliencePlan.Stages plan ∧ ResilienceStage.ID stage = id ∧
  RecoveryCheckpoint.Stages c !! id = Some state ∧ reusable request stage state = true.

(** Between two stages, with a result that is not saved yet, or at an error. *)
Inductive phase :=
  | Idle
  | Executed (stage : ResilienceStage) (r : ResilienceExecutionResult)
  | Stopped.

Record machine := { checkpoint : RecoveryCheckpoint; at_phase : phase }.

Inductive step : machine → event → machine → Prop :=
  | step_execute c stage answer :
      stage ∈ ResiliencePlan.Stages plan → ¬ done c (ResilienceStage.ID stage) →
      (∀ d, d ∈ ResilienceStage.DependsOn stage → done c d) →
      ValidateResilienceExecutionRequest (execution_request range plan request digest stage c) = None →
      step {| checkpoint := c; at_phase := Idle |}
        (EvExecute (execution_request range plan request digest stage c) answer)
        {| checkpoint := c; at_phase := match answer with Ok r => Executed stage r | Err _ => Stopped end |}
  | step_now c stage r time :
      step {| checkpoint := c; at_phase := Executed stage r |} (EvNow time) {| checkpoint := c; at_phase := Executed stage r |}
  | step_save c stage r time answer :
      let saved := record_stage (ResilienceStage.ID stage) (passed_state r time) c in
      stage ∈ ResiliencePlan.Stages plan → ¬ done c (ResilienceStage.ID stage) →
      validateStageResult stage fixture marker r = None → validateRecoveryCheckpoint range saved = None →
      step {| checkpoint := c; at_phase := Executed stage r |} (EvSave saved answer)
        match answer with
        | None => {| checkpoint := saved; at_phase := Idle |}
        | Some _ => {| checkpoint := c; at_phase := Stopped |}
        end
  | step_context c answer :
      step {| checkpoint := c; at_phase := Idle |} (EvContext answer)
        {| checkpoint := c; at_phase := if answer is Some _ then Stopped else Idle |}.

Inductive steps : machine → list event → machine → Prop :=
  | steps_nil m : steps m [] m
  | steps_cons m e m' es m'' : step m e m' → steps m' es m'' → steps m (e :: es) m''.

Lemma steps_app_inv m es1 es2 m' : steps m (es1 ++ es2) m' → ∃ m1, steps m es1 m1 ∧ steps m1 es2 m'.
Proof.
  revert m. induction es1 as [|e es1 IH]; intros m H; [by exists m; split; [constructor|]|].
  inv H. destruct (IH _ ltac:(eassumption)) as (m1&?&?). exists m1. split; [by econstructor|done].
Qed.

Lemma steps_snoc m es m1 e m2 : steps m es m1 → step m1 e m2 → steps m (es ++ [e]) m2.
Proof. induction 1; intros Hs; simpl; econstructor; eauto using steps_nil. Qed.

(** The plan and the owner of the checkpoint do not change. *)
Lemma steps_scope m es m' : steps m es m' →
  RecoveryCheckpoint.PlanDigest (checkpoint m') = RecoveryCheckpoint.PlanDigest (checkpoint m) ∧
  RecoveryCheckpoint.OwnershipMarker (checkpoint m') = RecoveryCheckpoint.OwnershipMarker (checkpoint m).
Proof.
  induction 1 as [|m e m1 es m' Hs _ [-> ->]]; [done|]. inversion Hs; subst; simpl; try done. by destruct answer.
Qed.

Lemma steps_no_load m es m' loaded : steps m es m' → EvLoad loaded ∉ es.
Proof. induction 1 as [|m e m1 es m' Hs _ IH]; [apply not_elem_of_nil|]. apply not_elem_of_cons. split; [|done]. by inversion Hs. Qed.

(** A result that passed makes its stage done. *)
Lemma passed_reusable stage r time : validateStageResult stage fixture marker r = None →
  reusable request stage (passed_state r time) = true.
Proof.
  unfold validateStageResult. rewrite !err_seq_None, !fail_if_None. intros (_&Ha&_&Ho&Hv&_).
  apply negb_false_iff in Ha, Ho. apply orb_false_iff in Hv as [Hov Hiv]. rewrite negb_false_iff in Hov, Hiv.
  unfold reusable. cbn [StageState.Status StageState.Action StageState.OwnershipMarker StageState.OwnershipVerified
    StageState.IdempotencyVerified passed_state]. by rewrite Ha, Ho, Hov, Hiv.
Qed.

Lemma done_recorded stage r time c : stage ∈ ResiliencePlan.Stages plan → validateStageResult stage fixture marker r = None →
  done (record_stage (ResilienceStage.ID stage) (passed_state r time) c) (ResilienceStage.ID stage).
Proof.
  intros Hs Hr. exists stage, (passed_state r time). split_and!; [done|done| |by apply passed_reusable].
  apply lookup_insert_eq.
Qed.

Lemma done_record stage r time c id : stage ∈ ResiliencePlan.Stages plan → validateStageResult stage fixture marker r = None →
  done c id → done (record_stage (ResilienceStage.ID stage) (passed_state r time) c) id.
Proof.
  intros Hs Hr Hd. destruct (decide (id = ResilienceStage.ID stage)) as [->|Hne]; [by apply done_recorded|].
  destruct Hd as (s&state&?&<-&?&?). exists s, state. split_and!; [done|done| |done].
  cbn. by rewrite lookup_insert_ne.
Qed.

Lemma step_done m e m' id : step m e m' → done (checkpoint m) id → done (checkpoint m') id.
Proof. inversion 1; subst; simpl; try done. destruct answer; [done|]. by apply done_record. Qed.

Lemma steps_done m es m' id : steps m es m' → done (checkpoint m) id → done (checkpoint m') id.
Proof. induction 1; [done|]. eauto using step_done. Qed.

(** The checkpoint in force after some calls. *)
Definition in_force (c : RecoveryCheckpoint) (es : list event) : RecoveryCheckpoint :=
  fold_left (λ c e, match e with EvSave saved None => saved | _ => c end) es c.

Lemma steps_in_force m es m' : steps m es m' → checkpoint m' = in_force (checkpoint m) es.
Proof.
  induction 1 as [|m e m' es m'' Hs _ IH]; [done|]. rewrite IH. unfold in_force. cbn [fold_left]. f_equal.
  inversion Hs; subst; simpl; try done. by destruct answer.
Qed.

Lemma stopped_steps m es m' : steps m es m' → at_phase m = Stopped → m' = m.
Proof. inversion 1 as [|? ? ? ? ? Hs]; [done|]. inversion Hs; subst; simpl; congruence. Qed.

(** Between two stages everything executed is done. *)
Lemma executed_done m es m' : steps m es m' → at_phase m' = Idle →
  (∀ stage r, at_phase m = Executed stage r → done (checkpoint m') (ResilienceStage.ID stage)) ∧
  ∀ req answer, EvExecute req answer ∈ es → done (checkpoint m') (ResilienceExecutionRequest.StageID req).
Proof.
  induction 1 as [m|m e m1 es m' Hs Hss IH]; intros Hidle.
  { split; [by rewrite Hidle|]. by intros ? ? ?%elem_of_nil. }
  destruct (IH Hidle) as [Hp He].
  inversion Hs as [c stage answer ? ? ? ? E1 E2 E3|c stage r time E1 E2 E3|c stage r time answer saved Hin Hnew Hr Hv E1 E2 E3|c answer E1 E2 E3];
    subst; simpl in *.
  - destruct answer as [r|err]; [|apply stopped_steps in Hss as ->; done].
    split; [done|]. intros req ans [[= -> _]|Hreq]%elem_of_cons; [by apply (Hp stage r)|by eapply He].
  - split; [done|]. intros req ans [|]%elem_of_cons; [done|by eapply He].
  - destruct answer as [err|]; [apply stopped_steps in Hss as ->; done|]. split.
    + intros ? ? [= <- <-]. eapply steps_done; [exact Hss|]. by apply done_recorded.
    + intros req ans [|]%elem_of_cons; [done|by eapply He].
  - split; [done|]. intros req ans [|]%elem_of_cons; [done|by eapply He].
Qed.

(** What is done is not written again. *)
Lemma steps_keep m es m' id : steps m es m' → done (checkpoint m) id →
  RecoveryCheckpoint.Stages (checkpoint m') !! id = RecoveryCheckpoint.Stages (checkpoint m) !! id.
Proof.
  induction 1 as [m|m e m1 es m' Hs _ IH]; [done|]. intros Hd. rewrite IH by (by eapply step_done).
  inversion Hs as [| |c stage r time answer saved Hin Hnew Hr Hv E1 E2 E3|]; subst; simpl; try done.
  destruct answer; simpl; [done|]. apply lookup_insert_ne. intros <-. simpl in Hd. done.
Qed.

Definition is_execute (e : event) : bool := match e with EvExecute _ _ => true | _ => false end.
Definition is_save (e : event) : bool := match e with EvSave _ _ => true | _ => false end.

(** The machine leaves a stage by saving its result. *)
Lemma executed_saved c stage r es m' :
  steps {| checkpoint := c; at_phase := Executed stage r |} es m' → at_phase m' = Idle →
  ∃ pre time post, es = pre ++ EvSave (record_stage (ResilienceStage.ID stage) (passed_state r time) c) None :: post ∧
    Forall (λ e, is_execute e = false ∧ is_save e = false) pre.
Proof.
  intros Hs. remember {| checkpoint := c; at_phase := Executed stage r |} as m.
  induction Hs as [m|m e m1 es m' Hstep Hs IH]; intros Hidle; [by rewrite Heqm in Hidle|]. subst m.
  inversion Hstep as [|c1 stage1 r1 time E1 E2 E3|c1 stage1 r1 time answer saved ? ? ? ? E1 E2 E3|]; subst.
  - destruct (IH eq_refl Hidle) as (pre&time'&post&->&Hf). exists (EvNow time :: pre), time', post.
    split; [done|]. by constructor.
  - destruct answer as [err|]; [by apply stopped_steps in Hs as ->|]. exists [], time, es. by split; [|constructor].
Qed.

(** ** A run is a trace of the machine *)

Context {W : Type} (env : surroundings W) (adapter : ResilienceAdapter W) (store : RecoveryCheckpointStore W).
Context (unique : NoDup (ResilienceStage.ID <$> ResiliencePlan.Stages plan)).

Lemma same_stage a b : a ∈ ResiliencePlan.Stages plan → b ∈ ResiliencePlan.Stages plan →
  ResilienceStage.ID a = ResilienceStage.ID b → a = b.
Proof.
  intros Ha Hb He. pose proof (by_id_lookup ResilienceStage.ID _ a unique Ha) as H1.
  pose proof (by_id_lookup ResilienceStage.ID _ b unique Hb) as H2. rewrite He in H1. congruence.
Qed.

Lemma not_reusable_not_done c stage : stage ∈ ResiliencePlan.Stages plan →
  from_option (reusable request stage) false (RecoveryCheckpoint.Stages c !! ResilienceStage.ID stage) = false →
  ¬ done c (ResilienceStage.ID stage).
Proof.
  intros Hs Hr (s&state&Hin&He&Hl&Hok). rewrite Hl in Hr. simpl in Hr. by rewrite (same_stage s stage Hin Hs He), Hr in Hok.
Qed.

(** A report of a stage is its state in a checkpoint. *)
Definition reports (c : RecoveryCheckpoint) (stage : ResilienceStage) (report : RecoveryStageExecution) : Prop :=
  ∃ reused state, RecoveryCheckpoint.Stages c !! ResilienceStage.ID stage = Some state ∧
    reusable request stage state = true ∧ report = stage_report request digest reused stage state.

Definition runs (stages : list ResilienceStage) (c : RecoveryCheckpoint) (execution : RecoveryExecution)
    (es : list event) (a : RecoveryExecution * gerror) : Prop :=
  ∃ m', steps {| checkpoint := c; at_phase := Idle |} es m' ∧
    (a.2 = None → at_phase m' = Idle ∧ ∃ l, RecoveryExecution.Stages a.1 = RecoveryExecution.Stages execution ++ l ∧
       Forall2 (reports (checkpoint m')) stages l).

Lemma runs_stop stages c execution a err : runs stages c execution [] (a, Some err).
Proof. eexists. split; [constructor|done]. Qed.

(** One stage is reported, and the rest of the run follows. *)
Lemma runs_step stage stages c c1 execution reused state pre es a :
  steps {| checkpoint := c; at_phase := Idle |} pre {| checkpoint := c1; at_phase := Idle |} →
  stage ∈ ResiliencePlan.Stages plan → RecoveryCheckpoint.Stages c1 !! ResilienceStage.ID stage = Some state →
  reusable request stage state = true →
  runs stages c1 (RecoveryExecution.add_stage execution (stage_report request digest reused stage state)) es a →
  runs (stage :: stages) c execution (pre ++ es) a.
Proof.
  intros Hpre Hin Hl Hr (m'&Hs&Hok). exists m'. split.
  - clear -Hpre Hs. remember {| checkpoint := c; at_phase := Idle |} as m. remember {| checkpoint := c1; at_phase := Idle |} as m1.
    clear Heqm. induction Hpre as [|m e m2 pre m3 Hs1 _ IH]; [by subst|]. econstructor; [exact Hs1|by apply IH].
  - intros Hnone. destruct (Hok Hnone) as (Hidle&l&Hl1&Hl2). split; [done|].
    exists (stage_report request digest reused stage state :: l). split.
    + rewrite Hl1. cbn [RecoveryExecution.add_stage RecoveryExecution.Stages]. by rewrite <-app_assoc.
    + constructor; [|done]. exists reused, state. split_and!; [|done|done].
      rewrite (steps_keep _ _ _ _ Hs); [done|]. by exists stage, state.
Qed.

Lemma recovery_stages_run stages completed c execution :
  Forall (λ s, s ∈ ResiliencePlan.Stages plan) stages → Forall (done c) completed →
  yields (run_stages range env adapter store plan request digest stages completed c execution) (runs stages c execution).
Proof.
  revert completed c execution. induction stages as [|stage stages IH]; intros completed c execution Hin Hdone; cbn [run_stages].
  { apply yields_ret. exists {| checkpoint := c; at_phase := Idle |}. split; [constructor|]. intros _. split; [done|].
    exists []. by rewrite app_nil_r. }
  inv Hin.
  destruct (find _ _) as [d|] eqn:Hfind; [apply yields_ret, runs_stop|].
  assert (Hdeps : ∀ d, d ∈ ResilienceStage.DependsOn stage → done c d).
  { intros d Hd. rewrite Forall_forall in Hdone. apply Hdone. rewrite list_elem_of_In in Hd. eapply find_none in Hfind; [|exact Hd].
    by apply negb_false_iff, bool_decide_eq_true in Hfind. }
  clear Hfind.
  match goal with |- yields (match _ with Some _ => _ | None => ?e end) _ => set (execute := e) end.
  assert (Hexecute : ¬ done c (ResilienceStage.ID stage) → yields execute (runs (stage :: stages) c execution)).
  { intros Hnew. unfold execute. destruct (ValidateResilienceExecutionRequest _) as [err|] eqn:Hv; [apply yields_ret, runs_stop|].
    apply yields_call_bind. intros [r|err]; [|apply yields_ret].
    2:{ eexists. split; [|done]. eapply steps_cons; [by apply step_execute|constructor]. }
    pose proof (step_execute c stage (Ok r) ltac:(done) Hnew Hdeps Hv) as Hstep. simpl in Hstep.
    assert (Hstop : ∀ a err, runs (stage :: stages) c execution [EvExecute (execution_request range plan request digest stage c) (Ok r)] (a, Some err)).
    { intros a err. eexists. split; [|done]. eapply steps_cons; [exact Hstep|constructor]. }
    destruct (validateStageResult _ _ _ _) as [err|] eqn:Hr; [apply yields_ret, Hstop|].
    apply yields_call_bind. intros time.
    set (saved := record_stage _ _ _).
    apply yields_bind. unfold saveRecoveryCheckpoint.
    destruct (validateRecoveryCheckpoint range saved) as [err|] eqn:Hc.
    { apply yields_ret, yields_ret. eexists. split; [|done]. eapply steps_cons; [exact Hstep|].
      eapply steps_cons; [constructor|constructor]. }
    apply yields_call. intros answer.
    pose proof (step_save c stage r time answer ltac:(done) Hnew Hr Hc) as Hsave. fold saved in Hsave.
    destruct answer as [err|].
    { apply yields_ret. eexists. split; [|done]. eapply steps_cons; [exact Hstep|].
      eapply steps_cons; [constructor|]. eapply steps_cons; [exact Hsave|constructor]. }
    apply yields_call_bind. intros [err|].
    { apply yields_ret. eexists. split; [|done]. eapply steps_cons; [exact Hstep|].
      eapply steps_cons; [constructor|]. eapply steps_cons; [exact Hsave|]. eapply steps_cons; [constructor|constructor]. }
    eapply yields_weaken; [apply IH; [done|]|].
    - constructor; [by apply done_recorded|]. eapply Forall_impl; [exact Hdone|]. intros id. by apply done_record.
    - intros es a Hruns.
      change (runs (stage :: stages) c execution
        ([EvExecute (execution_request range plan request digest stage c) (Ok r); EvNow time; EvSave saved None; EvContext None] ++ es) a).
      eapply runs_step; [| | | |exact Hruns]; [|done|apply lookup_insert_eq|by apply passed_reusable].
      eapply steps_cons; [exact Hstep|]. eapply steps_cons; [constructor|]. eapply steps_cons; [exact Hsave|].
      eapply steps_cons; [apply (step_context _ None)|constructor]. }
  destruct (RecoveryCheckpoint.Stages c !! ResilienceStage.ID stage) as [previous|] eqn:Hprev.
  - destruct (reusable request stage previous) eqn:Hreuse.
    + eapply yields_weaken; [apply IH; [done|]|].
      * constructor; [|done]. by exists stage, previous.
      * intros es a Hruns. apply (runs_step stage stages c c execution true previous []); [constructor|done..].
    + apply Hexecute, not_reusable_not_done; [done|]. by rewrite Hprev.
  - apply Hexecute, not_reusable_not_done; [done|]. by rewrite Hprev.
Qed.
End machine.

(** ** From the first call *)

Lemma adopt_Ok request digest c0 c : adopt request digest c0 = Ok c →
  RecoveryCheckpoint.Stages c = RecoveryCheckpoint.Stages c0 ∧ RecoveryCheckpoint.PlanDigest c = digest ∧
  RecoveryCheckpoint.OwnershipMarker c = ResiliencePlanRequest.OwnershipMarker request ∧
  (RecoveryCheckpoint.PlanDigest c0 ≠ "" → RecoveryCheckpoint.PlanDigest c0 = digest ∧
     RecoveryCheckpoint.OwnershipMarker c0 = ResiliencePlanRequest.OwnershipMarker request).
Proof.
  unfold adopt. rewrite lift_check_Ok, fail_if_None. intros [Hs [= <-]]. split_and!; [done..|]. intros Hne.
  rewrite andb_false_iff, negb_false_iff, bool_decide_eq_true in Hs. destruct Hs as [|Hs]; [done|].
  rewrite !orb_false_iff, !negb_false_iff, !bool_decide_eq_true in Hs. tauto.
Qed.

Lemma sha256_hex_nonempty s : sha256_hex s ≠ "".
Proof.
  unfold sha256_hex, Sha256.sum. generalize (fold_left Sha256.compress
    (Sha256.blocks (length (Sha256.words (Sha256.pad (code <$> go_bytes s)))) (Sha256.words (Sha256.pad (code <$> go_bytes s))))
    Sha256.init). intros [[[[[[[a b] c] d] e] f] g] h]. by cbn.
Qed.

Section run.
Context (range : gmap string RecoveryStageState → list (string * RecoveryStageState)).
Context {W : Type} (env : surroundings W) (adapter : ResilienceAdapter W) (store : RecoveryCheckpointStore W).
Context (url_Parse : string → result url) (request : ResiliencePlanRequest).

Abbreviation resilience := (ArchitectureIntent.Resilience (ResiliencePlanRequest.Architecture request)).
Abbreviation run := (RunResilience range env adapter store url_Parse request).

(** A run that reaches its stages: the plan it was given, the checkpoint it
    adopted, its order and its calls. *)
Record reached (plan : ResiliencePlan) (loaded : RecoveryCheckpoint * gerror) (c : RecoveryCheckpoint)
    (ordered : list ResilienceStage) (es : list event) (a : RecoveryExecution * gerror) : Prop := {
  reached_valid : ValidateResiliencePlan plan resilience = None;
  reached_loaded : loaded.2 = None → validateRecoveryCheckpoint range loaded.1 = None;
  reached_adopted : adopt request (resiliencePlanDigest plan) loaded.1 = Ok c;
  reached_known : Forall (λ kv, check_checkpoint_stages (by_id ResilienceStage.ID ordered) kv = None)
                    (range (RecoveryCheckpoint.Stages c));
  reached_ordered : ordered ≡ₚ ResiliencePlan.Stages plan;
  reached_order : ∀ o1 s o2, ordered = o1 ++ s :: o2 → ∀ d, d ∈ ResilienceStage.DependsOn s → d ∈ ResilienceStage.ID <$> o1;
  reached_runs : runs range plan request (resiliencePlanDigest plan) ordered c
    {| RecoveryExecution.PlanDigest := resiliencePlanDigest plan;
       RecoveryExecution.OwnershipMarker := ResiliencePlanRequest.OwnershipMarker request;
       RecoveryExecution.FixtureID := ResiliencePlanRequest.FixtureID request; RecoveryExecution.Stages := [] |} es a;
}.

Lemma RunResilience_reached : yields run (λ es a, a.2 ≠ None ∧ Forall (λ e, is_execute e = false ∧ is_save e = false) es ∨
  ∃ plan loaded c ordered es', es = EvPlan (Ok plan) :: EvLoad loaded :: es' ∧ reached plan loaded c ordered es' a).
Proof.
  unfold RunResilience. destruct (ValidateResiliencePlanRequest _ _) as [err|]; [apply yields_ret; left; by split; [|constructor]|].
  apply yields_call_bind. intros [plan|err]; [|apply yields_ret; left; by split; [|repeat constructor]].
  destruct (ValidateResiliencePlan plan resilience) as [err|] eqn:Hv; [apply yields_ret; left; by split; [|repeat constructor]|].
  apply yields_call_bind. intros loaded.
  destruct (resume_checkpoint _ _ _ _ _) as [[c ordered]|err] eqn:Hr; [|apply yields_ret; left; by split; [|repeat constructor]].
  unfold resume_checkpoint in Hr. destruct loaded as [c0 err]. apply lift_check_Ok in Hr as [Hload Hr].
  destruct (adopt _ _ _) as [c1|] eqn:Hadopt; [|done]. cbn [mbind result_bind] in Hr.
  pose proof (ValidateResiliencePlan_None _ _ Hv) as (Hu&_). pose proof (ValidateResiliencePlan_None _ _ Hv) as (_&Hk&Ha&Hd).
  destruct (topologicalRecoveryStages_Ok (ResiliencePlan.Stages plan) Hu (λ s Hs, proj2 (proj2 (Hd s Hs))) Hk Ha)
    as (o&Ho&Hperm&Horder).
  rewrite Ho in Hr. cbn [mbind result_bind] in Hr. apply lift_check_Ok in Hr as [Hknown [= <- <-]].
  eapply yields_weaken; [apply recovery_stages_run; [done| |constructor]|].
  { apply Forall_forall. intros s. by rewrite Hperm. }
  intros es a Hruns. right. exists plan, (c0, err), c1, o, es. split; [done|]. constructor; try done.
  - simpl. intros ->. by destruct (validateRecoveryCheckpoint range c0).
  - by apply first_error_None.
Qed.

(** The first two calls are the plan and the checkpoint; the rest is the run. *)
Lemma run_executes es1 req answer es2 w : events run w = es1 ++ EvExecute req answer :: es2 →
  ∃ plan loaded c ordered es', es1 = EvPlan (Ok plan) :: EvLoad loaded :: es' ∧
    reached plan loaded c ordered (es' ++ EvExecute req answer :: es2) (outcome run w).
Proof.
  intros He. destruct (RunResilience_reached w) as [[_ Hnone]|(plan&loaded&c&ordered&es'&Hes&Hr)].
  - rewrite He, Forall_app, Forall_cons in Hnone. by destruct Hnone as (_&[? _]&_).
  - rewrite He in Hes. destruct es1 as [|e1 [|e2 es1]]; [done|by injection Hes as [= ->]|].
    injection Hes as [= -> -> <-]. by exists plan, loaded, c, ordered, es1.
Qed.

Lemma reached_machine plan loaded c ordered es a : reached plan loaded c ordered es a →
  ∃ m', steps range plan request (resiliencePlanDigest plan) {| checkpoint := c; at_phase := Idle |} es m'.
Proof. intros H. destruct (reached_runs _ _ _ _ _ _ H) as (m'&Hs&_). by exists m'. Qed.

(** The machine at one of its calls. *)
Lemma reached_step plan loaded c ordered es1 e es2 a : reached plan loaded c ordered (es1 ++ e :: es2) a →
  ∃ m1 m2 m3, steps range plan request (resiliencePlanDigest plan) {| checkpoint := c; at_phase := Idle |} es1 m1 ∧
    step range plan request (resiliencePlanDigest plan) m1 e m2 ∧
    steps range plan request (resiliencePlanDigest plan) m2 es2 m3.
Proof.
  intros (m'&Hs)%reached_machine. apply steps_app_inv in Hs as (m1&H1&H2). inv H2. by eexists _, _, _.
Qed.
End run.

(** A checkpoint with the scope of a plan and owner keeps its passed stages
    under any request that adopts it. *)
Lemma adopted_done range request plan c0 c ordered es a state stage :
  reached range request plan (c0, None) c ordered es a → (∀ m, range m ≡ₚ map_to_list m) →
  stage ∈ ResiliencePlan.Stages plan → RecoveryCheckpoint.Stages c0 !! ResilienceStage.ID stage = Some state →
  RecoveryCheckpoint.PlanDigest c0 ≠ "" → StageState.Status state = "PASS" →
  StageState.OwnershipMarker state = RecoveryCheckpoint.OwnershipMarker c0 →
  StageState.OwnershipVerified state = true → StageState.IdempotencyVerified state = true →
  done plan request c (ResilienceStage.ID stage).
Proof.
  intros [Hv _ Hadopt Hknown Hperm _ _] Hrange Hin Hst Hne Hpass Hown Hov Hiv.
  apply adopt_Ok in Hadopt as (Hstages&_&_&Hscope). destruct (Hscope Hne) as [_ Hmarker].
  exists stage, state. simpl in Hstages. rewrite Hstages. split_and!; [done..|].
  rewrite Forall_forall in Hknown. specialize (Hknown (ResilienceStage.ID stage, state)).
  rewrite Hrange, elem_of_map_to_list, Hstages in Hknown. specialize (Hknown Hst). unfold check_checkpoint_stages in Hknown. simpl in Hknown.
  destruct (by_id _ ordered !! _) as [stage'|] eqn:Hs; [|done]. apply by_id_Some in Hs as [Hin' Hid].
  rewrite Hperm in Hin'. pose proof (ValidateResiliencePlan_None _ _ Hv) as (Hu&_).
  rewrite (same_stage plan Hu stage' stage Hin' Hin Hid) in Hknown. apply fail_if_None, negb_false_iff, bool_decide_eq_true in Hknown.
  simpl in Hmarker. unfold reusable. rewrite Hpass, Hknown, Hown, Hmarker, Hov, Hiv. by rewrite !bool_decide_eq_true_2.
Qed.

Lemma reusable_true request stage state : reusable request stage state = true →
  StageState.Status state = "PASS" ∧ StageState.Action state = ResilienceStage.Action stage ∧
  StageState.OwnershipMarker state = ResiliencePlanRequest.OwnershipMarker request ∧
  StageState.OwnershipVerified state = true ∧ StageState.IdempotencyVerified state = true.
Proof. unfold reusable. rewrite !andb_true_iff, !bool_decide_eq_true. tauto. Qed.

(** What a run has executed before a save is in what it saved. *)
Lemma saved_executed range {W} (env : surroundings W) adapter store url_Parse request w es1 req answer mid saved es2 :
  events (RunResilience range env adapter store url_Parse request) w
    = es1 ++ EvExecute req answer :: mid ++ EvSave saved None :: es2 →
  ∃ state, RecoveryCheckpoint.Stages saved !! ResilienceExecutionRequest.StageID req = Some state ∧
    RecoveryCheckpoint.PlanDigest saved ≠ "" ∧ StageState.Status state = "PASS" ∧
    StageState.OwnershipMarker state = RecoveryCheckpoint.OwnershipMarker saved ∧
    StageState.OwnershipVerified state = true ∧ StageState.IdempotencyVerified state = true.
Proof.
  intros He. destruct (run_executes _ _ _ _ _ _ _ _ _ _ _ He) as (plan&loaded&c&ordered&es'&->&Hr).
  pose proof (reached_adopted _ _ _ _ _ _ _ _ Hr) as (_&Hd0&Ho0&_)%adopt_Ok.
  rewrite app_comm_cons, app_assoc in Hr. destruct (reached_step _ _ _ _ _ _ _ _ _ _ Hr) as (m1&m2&m3&H1&H2&_).
  inversion H2 as [| |c1 stage r time a sv Hin Hnew Hres Hval E1 E2 E3|]; subst.
  assert (Hs : steps range plan request (resiliencePlanDigest plan) {| checkpoint := c; at_phase := Idle |}
    ((es' ++ EvExecute req answer :: mid) ++ [EvSave sv None]) {| checkpoint := sv; at_phase := Idle |}).
  { eapply steps_snoc; [exact H1|]. by apply (step_save range plan request (resiliencePlanDigest plan) c1 stage r time None). }
  destruct (proj2 (executed_done _ _ _ _ _ _ _ Hs eq_refl) req answer) as (stage0&state&_&_&Hst&Hreuse).
  { rewrite !elem_of_app, elem_of_cons. tauto. }
  pose proof (steps_scope _ _ _ _ _ _ _ Hs) as [Hdig Hown]. cbn [checkpoint] in Hdig, Hown, Hst.
  apply reusable_true in Hreuse as (Hpass&_&Hmark&Hov&Hiv). exists state. split_and!; [done| |done| |done|done].
  - rewrite Hdig, Hd0. apply sha256_hex_nonempty.
  - by rewrite Hown, Ho0.
Qed.

(** ** Claims *)

Section claims.
Context (range : gmap string RecoveryStageState → list (string * RecoveryStageState)).
Context {W : Type} (env : surroundings W) (adapter : ResilienceAdapter W) (store : RecoveryCheckpointStore W).
Context (url_Parse : string → result url).

Abbreviation run request := (RunResilience range env adapter store url_Parse request).

(** C24: the order of a recovery, whatever was resumed.  Whenever the runner has
    an adapter execute a stage, the stage is one of the plan the adapter gave,
    the request is made of that plan, of the stage's own idempotency key and of
    the checkpoint in force, that checkpoint does not have the stage yet, and it
    has as passed, with this owner, every stage it depends on. *)
Theorem RunResilience_order request w es1 req answer es2 :
  events (run request) w = es1 ++ EvExecute req answer :: es2 →
  ∃ plan loaded c es' stage, es1 = EvPlan (Ok plan) :: EvLoad loaded :: es' ∧
    adopt request (resiliencePlanDigest plan) loaded.1 = Ok c ∧
    stage ∈ ResiliencePlan.Stages plan ∧
    req = execution_request range plan request (resiliencePlanDigest plan) stage (in_force c es') ∧
    ValidateResilienceExecutionRequest req = None ∧
    ¬ done plan request (in_force c es') (ResilienceStage.ID stage) ∧
    ∀ d, d ∈ ResilienceStage.DependsOn stage → done plan request (in_force c es') d.
Proof.
  intros (plan&loaded&c&ordered&es'&->&Hr)%run_executes. exists plan, loaded, c, es'.
  destruct (reached_step _ _ _ _ _ _ _ _ _ _ Hr) as (m1&m2&m3&H1&H2&_).
  pose proof (steps_in_force _ _ _ _ _ _ _ H1) as Hc. simpl in Hc. rewrite <-Hc.
  inversion H2 as [c1 stage a Hin Hnew Hdeps Hv| | |]; subst. exists stage. split_and!; try done.
  apply (reached_adopted _ _ _ _ _ _ _ _ Hr).
Qed.

(** A result is saved before the next stage starts.  When a run executes a
    stage after another, the earlier one answered a result, and the first save
    after it succeeded and stored the checkpoint in force extended with exactly
    that result, before anything else was executed. *)
Theorem RunResilience_saves request w es1 req1 answer1 mid req2 answer2 es2 :
  events (run request) w = es1 ++ EvExecute req1 answer1 :: mid ++ EvExecute req2 answer2 :: es2 →
  ∃ plan loaded c es' r time pre post, es1 = EvPlan (Ok plan) :: EvLoad loaded :: es' ∧
    adopt request (resiliencePlanDigest plan) loaded.1 = Ok c ∧ answer1 = Ok r ∧
    mid = pre ++ EvSave (record_stage (ResilienceExecutionRequest.StageID req1) (passed_state r time) (in_force c es')) None :: post ∧
    Forall (λ e, is_execute e = false ∧ is_save e = false) pre.
Proof.
  intros He. pose proof He as (plan&loaded&c&ordered&es'&->&Hr)%run_executes. exists plan, loaded, c, es'.
  destruct (reached_step _ _ _ _ _ _ _ _ _ _ Hr) as (m1&m2&m3&H1&H2&H3).
  pose proof (steps_in_force _ _ _ _ _ _ _ H1) as Hc. simpl in Hc. rewrite <-Hc.
  inversion H2 as [c1 stage a Hin Hnew Hdeps Hv| | |]; subst.
  apply steps_app_inv in H3 as (m4&H4&H5). destruct answer1 as [r|err].
  - assert (Hidle : at_phase m4 = Idle).
    { inversion H5 as [|? ? ? ? ? Hstep]; subst. by inversion Hstep. }
    destruct (executed_saved _ _ _ _ _ _ _ _ _ H4 Hidle) as (pre&time&post&->&Hf).
    exists r, time, pre, post. split_and!; try done. apply (reached_adopted _ _ _ _ _ _ _ _ Hr).
  - apply stopped_steps in H4 as ->; [|done]. inversion H5 as [|? ? ? ? ? Hstep]; subst. inversion Hstep.
Qed.

(** C25: a stage whose result was saved is never executed again.  Take any run
    that executed a stage and then saved a checkpoint, and any later run, of any
    request, with any adapter, store and clock, that loads this checkpoint: the
    later run does not execute the stage. *)
Theorem RunResilience_resume request w es1 req answer mid saved es2
    (range' : gmap string RecoveryStageState → list (string * RecoveryStageState)) {W'} (env' : surroundings W') adapter' store'
    request' w' req' answer' :
  events (run request) w = es1 ++ EvExecute req answer :: mid ++ EvSave saved None :: es2 →
  (∀ m, range' m ≡ₚ map_to_list m) →
  let later := events (RunResilience range' env' adapter' store' url_Parse request') w' in
  EvLoad (saved, None) ∈ later → EvExecute req' answer' ∈ later →
  ResilienceExecutionRequest.StageID req' ≠ ResilienceExecutionRequest.StageID req.
Proof.
  intros He Hrange later Hload Hexec Hsame.
  destruct (saved_executed _ _ _ _ _ _ _ _ _ _ _ _ _ He) as (state&Hst&Hne&Hpass&Hown&Hov&Hiv).
  apply list_elem_of_split in Hexec as (l1&l2&Hlater).
  destruct (run_executes _ _ _ _ _ _ _ _ _ _ _ Hlater) as (plan&loaded&c&ordered&es'&->&Hr).
  assert (Hl : loaded = (saved, None)).
  { unfold later in *. rewrite Hlater in Hload. destruct (reached_machine _ _ _ _ _ _ _ _ Hr) as (m'&Hm).
    rewrite <-!app_comm_cons, !elem_of_cons in Hload. destruct Hload as [|[[= <-]|Hload]]; [done|done|].
    exfalso. revert Hload. by eapply steps_no_load. }
  subst loaded. destruct (reached_step _ _ _ _ _ _ _ _ _ _ Hr) as (n1&n2&n3&G1&G2&_).
  inversion G2 as [c1 stage a Hin Hnew _ _ E1 E2 E3| | |]; subst.
  apply Hnew. pose proof (steps_done _ _ _ _ _ _ _ (ResilienceStage.ID stage) G1) as Hkeep. apply Hkeep.
  cbn [ResilienceExecutionRequest.StageID execution_request] in Hsame. rewrite <-Hsame in Hst.
  by eapply adopted_done.
Qed.

(** What a recovery without error means.  The run reports every stage of the
    plan once, in an order that respects the dependencies; each report is the
    passed state of that stage in the checkpoint in force at the end, by this
    owner, which a later run would resume from. *)
Theorem RunResilience_complete request w :
  (outcome (run request) w).2 = None → ∃ plan loaded c es ordered,
    events (run request) w = EvPlan (Ok plan) :: EvLoad loaded :: es ∧
    adopt request (resiliencePlanDigest plan) loaded.1 = Ok c ∧ ordered ≡ₚ ResiliencePlan.Stages plan ∧
    (∀ o1 s o2, ordered = o1 ++ s :: o2 → ∀ d, d ∈ ResilienceStage.DependsOn s → d ∈ ResilienceStage.ID <$> o1) ∧
    Forall2 (λ stage report, ∃ reused state,
        RecoveryCheckpoint.Stages (in_force c es) !! ResilienceStage.ID stage = Some state ∧
        reusable request stage state = true ∧ report = stage_report request (resiliencePlanDigest plan) reused stage state)
      ordered (RecoveryExecution.Stages (outcome (run request) w).1).
Proof.
  intros Hnone. destruct (RunResilience_reached range env adapter store url_Parse request w) as [[Hsome _]|(plan&loaded&c&ordered&es&He&Hr)]; [done|].
  exists plan, loaded, c, es, ordered. destruct Hr as [_ _ Hadopt _ Hperm Horder (m'&Hs&Hok)].
  destruct (Hok Hnone) as (Hidle&l&Hl&Hf). simpl in Hl. rewrite Hl.
  split_and!; [done|done|done|done|]. eapply Forall2_impl; [exact Hf|]. intros stage report Hrep.
  pose proof (steps_in_force _ _ _ _ _ _ _ Hs) as Hc. simpl in Hc. by rewrite <-Hc.
Qed.
End claims.

(** ** What a stage is handed *)

Lemma fill_elem l k v : fill l !! k = Some v → (k, v) ∈ l.
Proof.
  unfold fill. induction l as [|[k' v'] l IH] using rev_ind; [done|]. rewrite fold_left_app. cbn [fold_left fst snd].
  destruct (decide (k' = k)) as [->|Hne]; [rewrite lookup_insert_eq; intros [= ->]; set_solver|].
  rewrite lookup_insert_ne by done. intros H%IH. set_solver.
Qed.

Lemma fill_known l k v : (k, v) ∈ l → is_Some (fill l !! k).
Proof.
  unfold fill. induction l as [|[k' v'] l IH] using rev_ind; [by intros ?%elem_of_nil|]. rewrite fold_left_app. cbn [fold_left fst snd].
  intros [Hin|Hin]%elem_of_app; destruct (decide (k' = k)) as [->|Hne]; rewrite ?lookup_insert_eq; try done.
  - rewrite lookup_insert_ne by done. by apply IH.
  - apply list_elem_of_singleton in Hin as [= -> _]. done.
Qed.

Lemma stage_references_elem action identity state class b : (class, b) ∈ stage_references action identity state ↔
  StageState.Status state = "PASS" ∧ StageState.Action state = action ∧
  ∃ e, e ∈ StageState.Evidence state ∧ Evidence.DataClass e = class ∧ identity e = b ∧ blank class = false ∧ blank b = false.
Proof.
  unfold stage_references. destruct (bool_decide (StageState.Status state = "PASS")) eqn:Hs; cbn [andb];
    [destruct (bool_decide (StageState.Action state = action)) eqn:Ha|].
  - apply bool_decide_eq_true in Hs, Ha. rewrite list_elem_of_fmap. split.
    + intros (e&[= -> ->]&[[? ?]%orb_false_iff He]%list_elem_of_filter). split_and!; [done|done|]. by exists e.
    + intros (_&_&e&He&<-&<-&Hc&Hb). exists e. split; [done|]. apply list_elem_of_filter. by rewrite Hc, Hb.
  - apply bool_decide_eq_false in Ha. split; [by intros ?%elem_of_nil|]. tauto.
  - apply bool_decide_eq_false in Hs. split; [by intros ?%elem_of_nil|]. tauto.
Qed.

(** The hand-over of backups.  A stage is handed exactly the data classes
    that a passed backup stage of the checkpoint has proved, each with an
    identity from such a proof, whatever the order in which the map is walked. *)
Theorem checkpointBackupReferences_exact range c class :
  (∀ m, range m ≡ₚ map_to_list m) →
  let proves b := ∃ id state e, RecoveryCheckpoint.Stages c !! id = Some state ∧ StageState.Status state = "PASS" ∧
    StageState.Action state = ResilienceBackup ∧ e ∈ StageState.Evidence state ∧ Evidence.DataClass e = class ∧
    Evidence.BackupID e = b ∧ blank class = false ∧ blank b = false in
  (∀ b, checkpointBackupReferences range c !! class = Some b → proves b) ∧
  ((∃ b, proves b) → is_Some (checkpointBackupReferences range c !! class)).
Proof.
  intros Hrange proves.
  assert (Hin : ∀ b, (class, b) ∈ (range (RecoveryCheckpoint.Stages c) ≫= λ kv, stage_references ResilienceBackup Evidence.BackupID kv.2)
    ↔ proves b).
  { intros b. rewrite list_elem_of_bind. split.
    - intros ([id state]&(Hs&Ha&e&?&?&?&?&?)%stage_references_elem&Hm). rewrite Hrange, elem_of_map_to_list in Hm.
      by exists id, state, e.
    - intros (id&state&e&Hl&?&?&?&?&?&?&?). exists (id, state). split; [|by rewrite Hrange, elem_of_map_to_list].
      apply stage_references_elem. split_and!; [done|done|]. by exists e. }
  split.
  - intros b Hb. apply Hin. by apply fill_elem.
  - intros [b Hb]. apply Hin in Hb. by eapply fill_known.
Qed.

(** ** Example *)

(** A store in memory, and an adapter that backs up and then cleans up. *)
Module RecoveryExample.
Import ResilienceExample LifecycleExample.

Definition stage_of (id action : string) (depends : list string) : ResilienceStage :=
  {| ResilienceStage.ID := id; ResilienceStage.Action := action; ResilienceStage.DataClasses := ["database"];
     ResilienceStage.Destination := "alternate-region"; ResilienceStage.DependsOn := depends;
     ResilienceStage.Idempotent := true; ResilienceStage.RequiresApproval := false;
     ResilienceStage.ApprovalReference := ""; ResilienceStage.ReconciliationReference := "";
     ResilienceStage.RequiresSingleWriter := false; ResilienceStage.RequiresSplitBrainCheck := false;
     ResilienceStage.RequiresStaleOriginCheck := false; ResilienceStage.RequiresReconciliation := false |}.

Definition small_plan : ResiliencePlan :=
  {| ResiliencePlan.AdapterID := "aws.resilience"; ResiliencePlan.FixtureID := "fixture-1";
     ResiliencePlan.OwnershipMarker := "run-1";
     ResiliencePlan.Stages := [stage_of "cleanup" "cleanup" ["backup"]; stage_of "backup" "backup" []];
     ResiliencePlan.RequiredProofs := ["backup:database"] |}.

Definition world : Type := RecoveryCheckpoint * gerror.

Definition passed (action : string) (evidence : list ResilienceProofEvidence) : ResilienceExecutionResult :=
  {| ExecutionResult.Action := action; ExecutionResult.OperationID := "op-1"; ExecutionResult.ResourceRefs := [];
     ExecutionResult.ProofRefs := []; ExecutionResult.Evidence := evidence; ExecutionResult.OwnershipMarker := "run-1";
     ExecutionResult.OwnershipVerified := true; ExecutionResult.IdempotencyVerified := true |}.

Definition in_memory : RecoveryCheckpointStore world :=
  {| load_checkpoint := λ w, (w, w); save_checkpoint := λ c _, (None, (c, None)) |}.

Definition small_adapter : ResilienceAdapter world :=
  {| plan_resilience := λ _ w, (Ok small_plan, w);
     execute_resilience := λ r w,
       (Ok (if bool_decide (ResilienceExecutionRequest.StageID r = "backup") then passed "backup" [proof "database"]
            else passed "cleanup" []), w) |}.

Definition surroundings0 : surroundings world :=
  {| context_err := λ w, (None, w); now := λ w, ("2026-01-01T00:00:00Z", w) |}.

Definition nothing : RecoveryCheckpoint :=
  {| RecoveryCheckpoint.PlanDigest := ""; RecoveryCheckpoint.OwnershipMarker := ""; RecoveryCheckpoint.FixtureID := "";
     RecoveryCheckpoint.Stages := ∅; RecoveryCheckpoint.UpdatedAt := "" |}.

Definition run0 := RunResilience map_to_list surroundings0 small_adapter in_memory no_url request.
Definition first_events : list event := Eval vm_compute in events run0 (nothing, Some ErrRecoveryCheckpointNotFound).

Lemma first_run : events run0 (nothing, Some ErrRecoveryCheckpointNotFound) = first_events.
Proof. vm_cast_no_check (eq_refl first_events). Qed.

(** The two executions and the checkpoint saved after the first one. *)
Definition execution_at (n : nat) : ResilienceExecutionRequest * result ResilienceExecutionResult :=
  match first_events !! n with Some (EvExecute r a) => (r, a) | _ => (execution, Err (ErrNew "")) end.
Definition backup_request : ResilienceExecutionRequest := Eval vm_compute in (execution_at 2).1.
Definition backup_answer : result ResilienceExecutionResult := Eval vm_compute in (execution_at 2).2.
Definition cleanup_request : ResilienceExecutionRequest := Eval vm_compute in (execution_at 6).1.
Definition cleanup_answer : result ResilienceExecutionResult := Eval vm_compute in (execution_at 6).2.
Definition saved_backup : RecoveryCheckpoint := Eval vm_compute in
  match first_events !! 4 with Some (EvSave c _) => c | _ => nothing end.

Lemma first_split : events run0 (nothing, Some ErrRecoveryCheckpointNotFound) =
  take 2 first_events ++ EvExecute backup_request backup_answer :: take 3 (drop 3 first_events)
    ++ EvExecute cleanup_request cleanup_answer :: drop 7 first_events.
Proof. exact first_run. Qed.

Lemma RunResilience_order_witness : ∃ c, done small_plan request c "backup" ∧ ¬ done small_plan request c "cleanup".
Proof.
  destruct (RunResilience_order map_to_list surroundings0 small_adapter in_memory no_url request _
    (take 6 first_events) cleanup_request cleanup_answer (drop 7 first_events) first_run)
    as (plan&loaded&c&es&stage&He&_&Hin&Hreq&_&Hnew&Hdeps).
  injection He as <- <- <-. exists (in_force c (drop 2 (take 6 first_events))).
  assert (Hid : ResilienceStage.ID stage = "cleanup")
    by (symmetry; exact (f_equal ResilienceExecutionRequest.StageID Hreq)).
  assert (Hd : ResilienceStage.DependsOn stage = ["backup"]).
  { apply elem_of_cons in Hin as [->|Hin]; [reflexivity|]. apply list_elem_of_singleton in Hin as ->. discriminate Hid. }
  rewrite Hid in Hnew. split; [|exact Hnew]. apply Hdeps. rewrite Hd. apply list_elem_of_here.
Defined.

Lemma RunResilience_saves_witness : ∃ r time c, backup_answer = Ok r ∧
  EvSave (record_stage "backup" (passed_state r time) c) None ∈ take 3 (drop 3 first_events).
Proof.
  destruct (RunResilience_saves map_to_list surroundings0 small_adapter in_memory no_url request _ _ _ _ _ _ _ _ first_split)
    as (plan&loaded&c&es&r&time&pre&post&_&_&Hr&Hmid&_).
  exists r, time, (in_force c es). split; [exact Hr|]. rewrite Hmid. apply elem_of_app. right. apply list_elem_of_here.
Defined.

Definition second_events : list event := Eval vm_compute in events run0 (saved_backup, None).

Lemma second_run : events run0 (saved_backup, None) = second_events.
Proof. vm_cast_no_check (eq_refl second_events). Qed.

Lemma RunResilience_resume_witness :
  EvExecute cleanup_request cleanup_answer ∈ second_events ∧ ∀ answer, EvExecute backup_request answer ∉ second_events.
Proof.
  assert (Hload : EvLoad (saved_backup, None) ∈ events run0 (saved_backup, None)).
  { rewrite second_run. apply list_elem_of_further, list_elem_of_here. }
  split; [do 2 apply list_elem_of_further; apply list_elem_of_here|]. intros answer Hin. rewrite <-second_run in Hin.
  exact (RunResilience_resume map_to_list surroundings0 small_adapter in_memory no_url request _
    (take 2 first_events) backup_request backup_answer (take 1 (drop 3 first_events)) saved_backup (drop 5 first_events)
    map_to_list surroundings0 small_adapter in_memory request _ backup_request answer
    first_run (λ m, Permutation_refl _) Hload Hin eq_refl).
Defined.

Lemma first_outcome : (outcome run0 (nothing, Some ErrRecoveryCheckpointNotFound)).2 = None.
Proof. vm_cast_no_check (eq_refl (None (A:=error))). Qed.

Lemma RunResilience_complete_witness :
  length (RecoveryExecution.Stages (outcome run0 (nothing, Some ErrRecoveryCheckpointNotFound)).1) = 2.
Proof.
  destruct (RunResilience_complete map_to_list surroundings0 small_adapter in_memory no_url request _ first_outcome)
    as (plan&loaded&c&es&ordered&He&_&Hp&_&Hf).
  pose proof (eq_trans (eq_sym first_run) He) as Heq. injection Heq as <- _ _.
  exact (eq_trans (eq_sym (Forall2_length _ _ _ Hf)) (Permutation_length Hp)).
Defined.

Lemma checkpointBackupReferences_exact_witness :
  is_Some (checkpointBackupReferences map_to_list saved_backup !! "database").
Proof.
  apply (checkpointBackupReferences_exact map_to_list saved_backup "database" (λ m, Permutation_refl _)).
  exists "snapshot-1", "backup", (passed_state (passed "backup" [proof "database"]) "2026-01-01T00:00:00Z"), (proof "database").
  split_and!; try reflexivity. apply list_elem_of_here.
Defined.
End RecoveryExample.
