(* ===== verification/Scenarios.v ===== *)
(** * Failure scenarios (internal/certification/resilience_scenarios.go)

    The failure boundaries of an architecture and what a drill has to prove. *)

From S2P Require Import Prelude GoStrings GoEncoding Sdk Admission Architecture Resilience Lifecycle.

Local Open Scope Z_scope.

(* internal/certification/resilience_scenarios.go, lines 15-21: ResilienceScenarioMode *)
Definition ScenarioAutomated := "automated".
(* internal/certification/resilience_scenarios.go, lines 19-19: ScenarioOperatorAssisted *)
Definition ScenarioOperatorAssisted := "operator-assisted".
(* internal/certification/resilience_scenarios.go, lines 20-20: ScenarioUnsupported *)
Definition ScenarioUnsupported := "unsupported".

(* internal/certification/evidence.go, lines 1002-1009: validEvidenceStatus *)
Definition validEvidenceStatus (status : string) : bool :=
  bool_decide (status ∈ ["PASS"; "FAIL"; "SKIP"; "BLOCKED"; "PENDING"; "NOT_RUN"]).

(** ** Data *)

Module Scenario.
(* internal/certification/resilience_scenarios.go, lines 44-59: ResilienceScenario *)
Record ResilienceScenario := {
  ID : string;
  Kind : string;
  Scope : string;
  Mode : string;
  RequiredActions : list string;
  FencingRequired : bool;
  TrafficHealthRequired : bool;
  QueueHealthRequired : bool;
  DatabaseHealthRequired : bool;
  CacheLossRequired : bool;
  IntegrityRequired : bool;
  Owner : string;
  RunbookURL : string;
  Reason : string;
}.

Definition with_id (id : string) (s : ResilienceScenario) : ResilienceScenario :=
  {| ID := id; Kind := Kind s; Scope := Scope s; Mode := Mode s; RequiredActions := RequiredActions s;
     FencingRequired := FencingRequired s; TrafficHealthRequired := TrafficHealthRequired s;
     QueueHealthRequired := QueueHealthRequired s; DatabaseHealthRequired := DatabaseHealthRequired s;
     CacheLossRequired := CacheLossRequired s; IntegrityRequired := IntegrityRequired s; Owner := Owner s;
     RunbookURL := RunbookURL s; Reason := Reason s |}.

Definition with_mode (mode reason : string) (s : ResilienceScenario) : ResilienceScenario :=
  {| ID := ID s; Kind := Kind s; Scope := Scope s; Mode := mode; RequiredActions := RequiredActions s;
     FencingRequired := FencingRequired s; TrafficHealthRequired := TrafficHealthRequired s;
     QueueHealthRequired := QueueHealthRequired s; DatabaseHealthRequired := DatabaseHealthRequired s;
     CacheLossRequired := CacheLossRequired s; IntegrityRequired := IntegrityRequired s; Owner := Owner s;
     RunbookURL := RunbookURL s; Reason := reason |}.

Definition with_gates (queue database cache : bool) (s : ResilienceScenario) : ResilienceScenario :=
  {| ID := ID s; Kind := Kind s; Scope := Scope s; Mode := Mode s; RequiredActions := RequiredActions s;
     FencingRequired := FencingRequired s; TrafficHealthRequired := TrafficHealthRequired s;
     QueueHealthRequired := QueueHealthRequired s || queue; DatabaseHealthRequired := DatabaseHealthRequired s || database;
     CacheLossRequired := CacheLossRequired s || cache; IntegrityRequired := IntegrityRequired s; Owner := Owner s;
     RunbookURL := RunbookURL s; Reason := Reason s |}.
End Scenario.
Notation ResilienceScenario := Scenario.ResilienceScenario.

Module Proof_.
(* internal/certification/resilience_scenarios.go, lines 64-78: FailureScenarioProof *)
Record FailureScenarioProof := {
  ScenarioID : string;
  Status : string;
  InjectionVerified : bool;
  TrafficHealthVerified : bool;
  QueueHealthVerified : bool;
  DatabaseHealthVerified : bool;
  CacheLossClassified : bool;
  IntegrityVerified : bool;
  FencingVerified : bool;
  MeasuredRPOSeconds : Z;
  MeasuredRTOSeconds : Z;
  OperatorAction : string;
  Reason : string;
}.

(** A result without a drill. *)
Definition unexecuted (scenarioID status reason : string) : FailureScenarioProof :=
  {| ScenarioID := scenarioID; Status := status; InjectionVerified := false; TrafficHealthVerified := false;
     QueueHealthVerified := false; DatabaseHealthVerified := false; CacheLossClassified := false;
     IntegrityVerified := false; FencingVerified := false; MeasuredRPOSeconds := 0; MeasuredRTOSeconds := 0;
     OperatorAction := ""; Reason := reason |}.

Definition to_json (p : FailureScenarioProof) : json :=
  JObj (js "scenarioId" (ScenarioID p) ++ js "status" (Status p) ++ jb "injectionVerified" (InjectionVerified p)
    ++ jb "trafficHealthVerified" (TrafficHealthVerified p) ++ jb "queueHealthVerified" (QueueHealthVerified p)
    ++ jb "databaseHealthVerified" (DatabaseHealthVerified p) ++ jb "cacheLossClassified" (CacheLossClassified p)
    ++ jb "integrityVerified" (IntegrityVerified p) ++ jb "fencingVerified" (FencingVerified p)
    ++ Evidence.ji_opt "measuredRpoSeconds" (MeasuredRPOSeconds p) ++ Evidence.ji_opt "measuredRtoSeconds" (MeasuredRTOSeconds p)
    ++ js_opt "operatorAction" (OperatorAction p) ++ js_opt "reason" (Reason p)).
End Proof_.
Notation FailureScenarioProof := Proof_.FailureScenarioProof.

(** ** The matrix *)

Section matrix.
Import Scenario.

(** The gates of the data classes are added later, and so is the identifier. *)
Definition drill (owner kind scope mode : string) (actions : list string) (fencing traffic integrity : bool)
    (runbook reason : string) : ResilienceScenario :=
  {| ID := ""; Kind := kind; Scope := scope; Mode := mode; RequiredActions := actions; FencingRequired := fencing;
     TrafficHealthRequired := traffic; QueueHealthRequired := false; DatabaseHealthRequired := false;
     CacheLossRequired := false; IntegrityRequired := integrity; Owner := owner; RunbookURL := runbook; Reason := reason |}.

(* internal/certification/resilience_scenarios.go, lines 86-94: BuildResilienceScenarioMatrix *)
Definition common_drills (owner : string) : list ResilienceScenario :=
  [drill owner "corrupted-data" "durable-data-and-known-content-fixture" ScenarioAutomated
     [ResilienceRestore; ResilienceIntegrityCheck] false false true "runbook://resilience/corrupted-data" "";
   drill owner "failed-deployment" "immutable-artifact-and-pre-deploy-backup" ScenarioAutomated
     [ResilienceBackup; ResilienceIntegrityCheck] false false true "runbook://resilience/failed-deployment" "";
   drill owner "lost-credentials" "secret-reference-and-provider-identity" ScenarioOperatorAssisted
     [ResilienceFence; ResilienceCleanup] true false false "runbook://resilience/lost-credentials"
     "Credential revocation and replacement require an operator-approved identity change.";
   drill owner "provider-outage" "provider-control-plane-and-data-plane" ScenarioOperatorAssisted
     [ResilienceFence] true false false "runbook://resilience/provider-outage"
     "A provider outage cannot be injected or resolved by the core without provider-specific fault tooling.";
   drill owner "partial-restore" "database-media-configuration-search-cache" ScenarioAutomated
     [ResilienceRestore; ResilienceIntegrityCheck] false false true "runbook://resilience/partial-restore" "";
   drill owner "interrupted-teardown" "owned-resources-and-delayed-tombstones" ScenarioAutomated
     [ResilienceCleanup] false false false "runbook://resilience/interrupted-teardown" ""].

(* internal/certification/resilience_scenarios.go, lines 96-107: BuildResilienceScenarioMatrix *)
Definition runtime_drills (owner runtime : string) : list ResilienceScenario :=
  if bool_decide (runtime = "ecs-fargate") then
    [drill owner "process-loss" "ECS task replacement" ScenarioAutomated [ResilienceIntegrityCheck] false true true
       "runbook://resilience/ecs-task" "";
     drill owner "task-loss" "ECS service task and queue consumer" ScenarioAutomated [ResilienceIntegrityCheck] false true true
       "runbook://resilience/ecs-task" ""]
  else if bool_decide (runtime ∈ ["eks"; "gke"; "kapsule"; "mks"; "gke-autopilot"; "gke-standard"]) then
    [drill owner "pod-loss" "Kubernetes pod and workload rescheduling" ScenarioAutomated [ResilienceIntegrityCheck] false true
       true "runbook://resilience/kubernetes-pod" "";
     drill owner "node-loss" "Kubernetes node and persistent workload" ScenarioOperatorAssisted [ResilienceIntegrityCheck]
       false true true "runbook://resilience/kubernetes-node"
       "Node termination requires provider or test-cluster fault injection and explicit storage observation."]
  else
    [drill owner "process-loss" "runtime process" ScenarioOperatorAssisted [ResilienceIntegrityCheck] false true true
       "runbook://resilience/process" "The runtime family has no built-in process fault injector."].

(* internal/certification/resilience_scenarios.go, lines 301-308: containsRecoveryDestination *)
Definition containsRecoveryDestination (destinations : list string) (wanted : string) : bool :=
  bool_decide (wanted ∈ destinations).

(* internal/certification/resilience_scenarios.go, lines 109-128: BuildResilienceScenarioMatrix *)
Definition boundary_drills (owner : string) (zones destinations : list string) : list ResilienceScenario :=
  let few := bool_decide (length zones < 2)%nat in
  let no_region := negb (containsRecoveryDestination destinations RecoveryAlternateRegion) in
  let no_provider := negb (containsRecoveryDestination destinations RecoveryAlternateProvider) in
  [drill owner "zone-loss" "declared availability-zone boundary" (if few then ScenarioUnsupported else ScenarioAutomated)
     [ResilienceFailover; ResilienceIntegrityCheck] true true true "runbook://resilience/zone-loss"
     (if few then "at least two declared zones are required for a zone-loss exercise" else "");
   drill owner "region-loss" "alternate-region runtime and durable-data recovery"
     (if no_region then ScenarioUnsupported else ScenarioAutomated)
     [ResilienceFence; ResilienceRestore; ResilienceIntegrityCheck; ResilienceFailover] true true true
     "runbook://resilience/region-loss"
     (if no_region then "alternate-region is not declared by the resilience profile" else "");
   drill owner "alternate-provider-loss"
     "alternate-provider identity, durable-data, network, service, edge, and observability recovery" ScenarioUnsupported
     [ResilienceFence; ResilienceRestore; ResilienceIntegrityCheck; ResilienceFailover] true true true
     "runbook://resilience/alternate-provider"
     (if no_provider then "alternate-provider is not declared by the resilience profile"
      else "alternate-provider recovery requires an explicitly registered target pair plus compatible identity, durable-data, network, service, edge, and observability adapters")].

(** The kinds whose drill touches the runtime. *)
Definition gated_kinds : list string :=
  ["process-loss"; "task-loss"; "pod-loss"; "node-loss"; "zone-loss"; "region-loss"; "partial-restore"].

(* internal/certification/resilience_scenarios.go, lines 233-252: applyRuntimeFailureGates *)
Definition applyRuntimeFailureGates (classes : list string) (s : ResilienceScenario) : ResilienceScenario :=
  if bool_decide (Kind s ∈ gated_kinds) then
    with_gates (bool_decide ("queue" ∈ classes)) (bool_decide ("database" ∈ classes)) (bool_decide ("cache" ∈ classes)) s
  else s.

(* internal/certification/resilience_scenarios.go, lines 292-299: gcpKubernetesRuntime *)
Definition gcpKubernetesRuntime (runtime : string) : bool :=
  bool_decide (runtime ∈ ["gke"; "gke-autopilot"; "gke-standard"]).

(* internal/certification/resilience_scenarios.go, lines 271-271: integrityCeiling *)
Definition integrityCeiling := "Magento known-content application-integrity is not proven (setup:db:status only)".

(** [strings.TrimSuffix]. *)
Definition TrimSuffix (s suffix : string) : string :=
  if HasSuffix s suffix then of_bytes (take (length (go_bytes s) - length (go_bytes suffix))%nat (go_bytes s)) else s.

(* internal/certification/resilience_scenarios.go, lines 254-290: applyGCPFailureScenarioHonesty *)
Definition applyGCPFailureScenarioHonesty (provider runtime : string) (s : ResilienceScenario) : ResilienceScenario :=
  if negb (bool_decide (provider = "gcp")) then s
  else if bool_decide (Kind s = "failed-deployment") then
    with_mode ScenarioOperatorAssisted
      "no failed-deployment injector; pre-deploy backup exists but the drill requires an operator-approved bad artifact" s
  else if bool_decide (Kind s = "partial-restore") then
    with_mode ScenarioOperatorAssisted
      "no partial-restore injector; single-class restore cells exist but the drill requires restoring a subset of database, media, configuration, search, and cache together" s
  else if negb (gcpKubernetesRuntime runtime) then s
  else if bool_decide (Kind s = "zone-loss") then
    if bool_decide (Mode s = ScenarioUnsupported) then s
    else with_mode (Mode s)
      ("physical zone outage is unsupported; the evidenced ceiling is backing-VM zone-loss simulation without a native fence or failover translator; " +:+ integrityCeiling) s
  else if bool_decide (Kind s = "pod-loss") then
    with_mode (Mode s)
      "evidenced ceiling is kube reschedule plus setup:db:status; Magento known-content application-integrity is not proven" s
  else if bool_decide (Kind s = "node-loss") then
    with_mode (Mode s)
      (if negb (bool_decide (Reason s = "")) then TrimSuffix (Reason s) "." +:+ "; " +:+ integrityCeiling else integrityCeiling) s
  else if bool_decide (Kind s ∈ ["lost-credentials"; "provider-outage"]) then
    with_mode ScenarioUnsupported
      "writer fencing is typed unsupported on GCP; this scenario fail-closed until a native fence translator opts in" s
  else s.

(** [strings.ReplaceAll(kind, "-", "_")]. *)
Definition underscores (s : string) : string :=
  of_bytes ((λ c, if bool_decide (c = "-"%char) then "_"%char else c) <$> go_bytes s).

(* internal/certification/resilience_scenarios.go, lines 155-167: ValidateResilienceScenarioMatrix *)
Definition check_mode (s : ResilienceScenario) : gerror :=
  let id := GStr (ID s) in
  if bool_decide (Mode s ∈ [ScenarioAutomated; ScenarioOperatorAssisted]) then
    fail_if (bool_decide (RequiredActions s = [])) (errorf "resilience scenario %q requires actions" [id])
  else if bool_decide (Mode s = ScenarioUnsupported) then
    fail_if (blank (Reason s)) (errorf "unsupported resilience scenario %q requires a reason" [id])
  else Some (errorf "resilience scenario %q has invalid mode %q" [id; GStr (Mode s)]).

(* internal/certification/resilience_scenarios.go, lines 143-170: ValidateResilienceScenarioMatrix *)
Definition ValidateResilienceScenarioMatrix (scenarios : list ResilienceScenario) : gerror :=
  fail_if (bool_decide (scenarios = [])) (ErrNew "resilience scenario matrix must not be empty")
  ;;? first_of (with_seen (λ seen s,
        [fail_if (blank (ID s) || bool_decide (Kind s = "") || blank (Scope s) || blank (Owner s) || blank (RunbookURL s))
           (errorf "resilience scenario %q is incomplete" [GStr (ID s)]);
         fail_if (bool_decide (ID s ∈ ID <$> seen)) (errorf "duplicate resilience scenario %q" [GStr (ID s)]);
         check_mode s]) [] scenarios).

Definition scenario_le (a b : ResilienceScenario) : Prop := String.le (ID a) (ID b).
#[export] Instance scenario_le_dec a b : base.Decision (scenario_le a b).
Proof. unfold scenario_le. apply _. Defined.

(** The drills before they are sorted. *)
(* internal/certification/resilience_scenarios.go, lines 86-135: BuildResilienceScenarioMatrix *)
Definition drills (intent : ArchitectureIntent) : list ResilienceScenario :=
  let resilience := ArchitectureIntent.Resilience intent in
  let owner := TrimSpace (ResilienceIntent.FailoverOwner resilience) in
  let runtime := ArchitectureIntent.Runtime intent in
  (λ s, let s := applyRuntimeFailureGates (DataClassIntent.Name <$> ResilienceIntent.DataClasses resilience) s in
        let s := applyGCPFailureScenarioHonesty (ArchitectureIntent.Provider intent) runtime s in
        with_id ("scenario-" +:+ underscores (Kind s)) s)
    <$> common_drills owner ++ runtime_drills owner runtime
        ++ boundary_drills owner (ArchitectureIntent.Zones intent) (ResilienceIntent.RecoveryDestinations resilience).

(* internal/certification/resilience_scenarios.go, lines 82-141: BuildResilienceScenarioMatrix *)
Definition BuildResilienceScenarioMatrix (url_Parse : string → result url) (intent : ArchitectureIntent)
    : result (list ResilienceScenario) :=
  err_wrap (wrapf "validate resilience scenario architecture: %w" []) (ArchitectureIntent_Validate url_Parse intent) ;;!
  let scenarios := sort_by scenario_le (drills intent) in
  ValidateResilienceScenarioMatrix scenarios ;;!
  Ok scenarios.
End matrix.

(** ** The proof of a drill *)

Section proof.
Import Scenario Proof_.

(** The gates of a scenario, each with whether the proof lacks it. *)
Definition missing_gates (s : ResilienceScenario) (p : FailureScenarioProof) : list (bool * string) :=
  [(TrafficHealthRequired s && negb (TrafficHealthVerified p), "traffic-health verification");
   (QueueHealthRequired s && negb (QueueHealthVerified p), "queue-health verification");
   (DatabaseHealthRequired s && negb (DatabaseHealthVerified p), "database-health verification");
   (CacheLossRequired s && negb (CacheLossClassified p), "cache-loss classification");
   (IntegrityRequired s && negb (IntegrityVerified p), "integrity verification");
   (FencingRequired s && negb (FencingVerified p), "fencing verification")].

(* internal/certification/resilience_scenarios.go, lines 175-231: ValidateFailureScenarioProof *)
Definition ValidateFailureScenarioProof (s : ResilienceScenario) (p : FailureScenarioProof) : gerror :=
  let id := GStr (Scenario.ID s) in
  let status := Status p in
  fail_if (bool_decide (Scenario.ID s = "") || negb (bool_decide (ScenarioID p = Scenario.ID s)))
    (errorf "failure proof scenario %q does not match %q" [GStr (ScenarioID p); id])
  ;;? fail_if ((MeasuredRPOSeconds p <? 0) || (MeasuredRTOSeconds p <? 0))
        (errorf "failure proof %q contains a negative recovery measurement" [id])
  ;;? if bool_decide (Mode s = ScenarioUnsupported) then
        fail_if (negb (bool_decide (status ∈ ["SKIP"; "BLOCKED"; "NOT_RUN"])))
          (errorf "unsupported failure scenario %q must be skipped, blocked, or not run" [id])
        ;;? fail_if (blank (Reason p)) (errorf "unsupported failure scenario %q requires a reason" [id])
      else
        fail_if (negb (bool_decide (Mode s ∈ [ScenarioAutomated; ScenarioOperatorAssisted])))
          (errorf "failure scenario %q has invalid mode %q" [id; GStr (Mode s)])
        ;;? fail_if (negb (validEvidenceStatus status))
              (errorf "failure scenario %q has invalid proof status %q" [id; GStr status])
        ;;? fail_if (bool_decide (status ∈ ["PASS"; "FAIL"]) && negb (InjectionVerified p))
              (errorf "failure scenario %q has an executable result without injection verification" [id])
        ;;? (if bool_decide (status = "PASS") then
               first_error (λ gate : bool * string,
                 fail_if gate.1 (errorf ("failure scenario %q passed without " +:+ gate.2) [id])) (missing_gates s p)
               ;;? fail_if (bool_decide (Mode s = ScenarioOperatorAssisted) && blank (OperatorAction p))
                     (errorf "operator-assisted failure scenario %q passed without an operator action" [id])
             else None)
        ;;? fail_if (bool_decide (status ∈ ["FAIL"; "BLOCKED"; "SKIP"]) && blank (Reason p))
              (errorf "failure scenario %q requires a reason for status %q" [id; GStr status]).
End proof.
