(* ===== verification/ScenarioClaims.v ===== *)
(** * What the scenario matrix promises

    Every architecture that validates has a matrix; what can be exercised and
    what has to be shown is read off the architecture. *)

From S2P Require Import Prelude GoStrings GoEncoding Sdk Admission Architecture Resilience ResiliencePlan ResilienceClaims Lifecycle LifecycleClaims Scenarios.

Import Scenario.

(** ** Drills are complete *)

(** A scenario before its identifier is set. *)
Definition complete_drill (s : ResilienceScenario) : Prop :=
  Kind s ≠ "" ∧ blank (Scope s) = false ∧ blank (Owner s) = false ∧ blank (RunbookURL s) = false ∧ RequiredActions s ≠ [] ∧
  (Mode s ∈ [ScenarioAutomated; ScenarioOperatorAssisted] ∨ Mode s = ScenarioUnsupported ∧ blank (Reason s) = false).

Lemma complete_mode s : complete_drill s → check_mode s = None.
Proof.
  intros (_&_&_&_&Ha&Hm). unfold check_mode. destruct Hm as [Hm|[Hm Hr]].
  - rewrite bool_decide_eq_true_2 by done. by apply fail_if_None, bool_decide_eq_false.
  - rewrite bool_decide_eq_false_2.
    + rewrite bool_decide_eq_true_2 by done. by apply fail_if_None.
    + rewrite Hm. intros H. by repeat apply elem_of_cons in H as [H|H]; try apply elem_of_nil in H.
Qed.

Lemma gates_complete classes s : complete_drill s → complete_drill (applyRuntimeFailureGates classes s).
Proof. unfold applyRuntimeFailureGates. by case_bool_decide. Qed.

Lemma with_mode_complete mode reason s : complete_drill s →
  (mode = Mode s ∧ Mode s ≠ ScenarioUnsupported) ∨ mode = ScenarioOperatorAssisted ∨ mode = ScenarioUnsupported ∧ blank reason = false →
  complete_drill (with_mode mode reason s).
Proof.
  intros (?&?&?&?&?&Hm) Hmode. split_and!; [done..|]. cbn [Mode Reason with_mode].
  destruct Hmode as [[-> Hne]|[->|[-> Hr]]]; [|left; apply list_elem_of_further, list_elem_of_here|by right].
  destruct Hm as [Hm|[Hm _]]; [by left|done].
Qed.

(** The drills whose reason the provider rewrites keep their mode, which is one
    that can be exercised. *)
Definition exercised (s : ResilienceScenario) : Prop := Kind s ∈ ["pod-loss"; "node-loss"] → Mode s ≠ ScenarioUnsupported.

Lemma honesty_complete provider runtime s : exercised s → complete_drill s →
  complete_drill (applyGCPFailureScenarioHonesty provider runtime s).
Proof.
  intros Hex Hs. unfold applyGCPFailureScenarioHonesty.
  destruct (negb (bool_decide (provider = "gcp"))); [done|].
  case_bool_decide; [apply with_mode_complete; tauto|]. case_bool_decide; [apply with_mode_complete; tauto|].
  destruct (negb _); [done|].
  case_bool_decide. { case_bool_decide; [done|]. apply with_mode_complete; [done|]. by left. }
  case_bool_decide as Hp. { apply with_mode_complete; [done|]. left. split; [done|]. apply Hex. rewrite Hp. apply list_elem_of_here. }
  case_bool_decide as Hn.
  { apply with_mode_complete; [done|]. left. split; [done|]. apply Hex. rewrite Hn. apply list_elem_of_further, list_elem_of_here. }
  case_bool_decide; [|done]. apply with_mode_complete; [done|]. right. right. by split.
Qed.

(** ** Nothing changes a kind *)

Lemma gates_kind classes s : Kind (applyRuntimeFailureGates classes s) = Kind s.
Proof. unfold applyRuntimeFailureGates. by case_bool_decide. Qed.

Lemma honesty_kind provider runtime s : Kind (applyGCPFailureScenarioHonesty provider runtime s) = Kind s.
Proof. unfold applyGCPFailureScenarioHonesty. repeat (destruct (negb _) || case_bool_decide); done. Qed.

Lemma honesty_gates provider runtime s :
  let s' := applyGCPFailureScenarioHonesty provider runtime s in
  QueueHealthRequired s' = QueueHealthRequired s ∧ DatabaseHealthRequired s' = DatabaseHealthRequired s ∧
  CacheLossRequired s' = CacheLossRequired s.
Proof. unfold applyGCPFailureScenarioHonesty. repeat (destruct (negb _) || case_bool_decide); done. Qed.

(** ** The drills of an architecture *)

Section drills.
Context (intent : ArchitectureIntent).
Abbreviation resilience := (ArchitectureIntent.Resilience intent).
Abbreviation owner := (TrimSpace (ResilienceIntent.FailoverOwner resilience)).
Abbreviation runtime := (ArchitectureIntent.Runtime intent).
Abbreviation provider := (ArchitectureIntent.Provider intent).
Abbreviation zones := (ArchitectureIntent.Zones intent).
Abbreviation destinations := (ResilienceIntent.RecoveryDestinations resilience).
Abbreviation classes := (DataClassIntent.Name <$> ResilienceIntent.DataClasses resilience).

Definition base_drills : list ResilienceScenario :=
  common_drills owner ++ runtime_drills owner runtime ++ boundary_drills owner zones destinations.

Definition finish (s : ResilienceScenario) : ResilienceScenario :=
  let s := applyGCPFailureScenarioHonesty provider runtime (applyRuntimeFailureGates classes s) in
  with_id ("scenario-" +:+ underscores (Kind s)) s.

Lemma drills_base : drills intent = finish <$> base_drills.
Proof. done. Qed.

Lemma finish_kind s : Kind (finish s) = Kind s.
Proof. unfold finish. cbn [Kind with_id]. by rewrite honesty_kind, gates_kind. Qed.

Lemma finish_id s : ID (finish s) = "scenario-" +:+ underscores (Kind s).
Proof. unfold finish. cbn [ID with_id]. by rewrite honesty_kind, gates_kind. Qed.

Context (owned : blank owner = false).

Lemma base_complete : Forall (λ s, complete_drill s ∧ exercised s) base_drills.
Proof.
  assert (Hd : ∀ kind scope mode actions fencing traffic integrity runbook reason,
    kind ≠ "" → blank scope = false → blank runbook = false → actions ≠ [] →
    mode = ScenarioAutomated ∨ mode = ScenarioOperatorAssisted
      ∨ mode = ScenarioUnsupported ∧ blank reason = false ∧ kind ∉ ["pod-loss"; "node-loss"] →
    complete_drill (drill owner kind scope mode actions fencing traffic integrity runbook reason) ∧
    exercised (drill owner kind scope mode actions fencing traffic integrity runbook reason)).
  { intros kind scope mode actions fencing traffic integrity runbook reason Hk Hs Hr Ha Hm. split.
    - split_and!; [done..|]. cbn [Mode Reason drill]. destruct Hm as [->|[->|(->&Hb&_)]]; [left; apply list_elem_of_here|left; apply list_elem_of_further, list_elem_of_here|by right].
    - unfold exercised. cbn [Kind Mode drill]. intros Hin. by destruct Hm as [->|[->|(->&_&Hn)]]. }
  unfold base_drills. repeat rewrite Forall_app. split_and!.
  - unfold common_drills. repeat (constructor; [apply Hd; (done || reflexivity || tauto)|]). constructor.
  - unfold runtime_drills. repeat case_bool_decide; repeat (constructor; [apply Hd; (done || reflexivity || tauto)|]); constructor.
  - assert (Hnot : ∀ k, bool_decide (k ∈ ["pod-loss"; "node-loss"]) = false → k ∉ ["pod-loss"; "node-loss"]) by (intros k; apply bool_decide_eq_false).
    unfold boundary_drills. cbv zeta.
    repeat (constructor; [apply Hd; [done|reflexivity|reflexivity|done|]|]); [| | |constructor].
    + destruct (bool_decide _); [|by left]. right. right. split_and!; [done|reflexivity|apply Hnot; reflexivity].
    + destruct (negb _); [|by left]. right. right. split_and!; [done|reflexivity|apply Hnot; reflexivity].
    + right. right. split_and!; [done|by destruct (negb _)|apply Hnot; reflexivity].
Qed.

Lemma drills_complete s : s ∈ drills intent → complete_drill s ∧ ID s = "scenario-" +:+ underscores (Kind s).
Proof.
  rewrite drills_base. intros (b&->&Hb)%list_elem_of_fmap. rewrite finish_id, finish_kind. split; [|done].
  pose proof base_complete as H. rewrite Forall_forall in H. destruct (H _ Hb) as [Hc Hex].
  assert (Hf : complete_drill (applyGCPFailureScenarioHonesty provider runtime (applyRuntimeFailureGates classes b))).
  { apply honesty_complete; [|by apply gates_complete]. unfold exercised. rewrite gates_kind. intros Hk%Hex.
    unfold applyRuntimeFailureGates. by case_bool_decide. }
  exact Hf.
Qed.

Lemma drills_unique : NoDup (ID <$> drills intent).
Proof.
  assert (He : ID <$> drills intent = (λ k, "scenario-" +:+ underscores k) <$> (Kind <$> base_drills)).
  { rewrite drills_base, <-!list_fmap_compose. apply list_fmap_ext. intros _ s _. apply finish_id. }
  rewrite He. unfold base_drills. rewrite !fmap_app. unfold common_drills, boundary_drills, runtime_drills. cbn [fmap list_fmap Kind drill].
  repeat case_bool_decide; cbn [fmap list_fmap Kind drill app];
    (eapply bool_decide_eq_true_1; vm_compute; reflexivity).
Qed.

(** ** What the boundaries say *)

(** Decide the comparisons of string literals in the goal. *)
Ltac decide_literals :=
  repeat match goal with
  | |- context [bool_decide (?a = ?b)] =>
      let v := eval vm_compute in (bool_decide (a = b)) in
      match v with
      | true => change (bool_decide (a = b)) with true
      | false => change (bool_decide (a = b)) with false
      end
  | |- context [bool_decide (?a ∈ ?b)] =>
      let v := eval vm_compute in (bool_decide (a ∈ b)) in
      match v with
      | true => change (bool_decide (a ∈ b)) with true
      | false => change (bool_decide (a ∈ b)) with false
      end
  end.

Lemma finish_mode s : Kind s ∈ ["zone-loss"; "region-loss"; "alternate-provider-loss"] → Mode (finish s) = Mode s.
Proof.
  intros Hk. unfold finish. cbn [Mode with_id]. set (s1 := applyRuntimeFailureGates classes s).
  assert (H1 : Mode s1 = Mode s ∧ Kind s1 = Kind s) by (unfold s1, applyRuntimeFailureGates; by case_bool_decide).
  destruct H1 as [<- Hkind]. rewrite <-Hkind in Hk.
  unfold applyGCPFailureScenarioHonesty. destruct (negb (bool_decide (provider = "gcp"))); [done|].
  repeat apply elem_of_cons in Hk as [Hk|Hk]; [..|by apply elem_of_nil in Hk]; rewrite Hk; decide_literals;
    (destruct (negb (gcpKubernetesRuntime runtime)); [done|]); try done.
  destruct (bool_decide (Mode s1 = ScenarioUnsupported)); done.
Qed.

(** A drill of a boundary is the only one of its kind. *)
Lemma boundary_base s : s ∈ base_drills → Kind s ∈ ["zone-loss"; "region-loss"; "alternate-provider-loss"] →
  s ∈ boundary_drills owner zones destinations.
Proof.
  intros Hs Hk. unfold base_drills in Hs. apply elem_of_app in Hs as [Hs|[Hs|Hs]%elem_of_app]; [| |done]; exfalso;
    (assert (Hn : Forall (λ s, bool_decide (Kind s ∈ ["zone-loss"; "region-loss"; "alternate-provider-loss"]) = false)
                    (common_drills owner ++ runtime_drills owner runtime)); [
      apply Forall_app; split; [repeat (constructor; [reflexivity|]); constructor|];
      unfold runtime_drills; repeat case_bool_decide; repeat (constructor; [reflexivity|]); constructor|]);
    rewrite Forall_forall in Hn; specialize (Hn s ltac:(apply elem_of_app; tauto)); by apply bool_decide_eq_false in Hn.
Qed.

Lemma finish_gates s : Kind s ∈ gated_kinds →
  ("queue" ∈ classes → QueueHealthRequired (finish s) = true) ∧
  ("database" ∈ classes → DatabaseHealthRequired (finish s) = true) ∧
  ("cache" ∈ classes → CacheLossRequired (finish s) = true).
Proof.
  intros Hk. unfold finish. cbn [QueueHealthRequired DatabaseHealthRequired CacheLossRequired with_id].
  destruct (honesty_gates provider runtime (applyRuntimeFailureGates classes s)) as (->&->&->).
  unfold applyRuntimeFailureGates. rewrite bool_decide_eq_true_2 by done.
  cbn [QueueHealthRequired DatabaseHealthRequired CacheLossRequired with_gates].
  split_and!; intros Hc; (rewrite (bool_decide_eq_true_2 _ Hc); apply orb_true_r).
Qed.

Lemma boundary_modes s : s ∈ boundary_drills owner zones destinations →
  (Kind s = "zone-loss" → Mode s = ScenarioUnsupported ↔ (length zones < 2)) ∧
  (Kind s = "region-loss" → Mode s = ScenarioUnsupported ↔ RecoveryAlternateRegion ∉ destinations) ∧
  (Kind s = "alternate-provider-loss" → Mode s = ScenarioUnsupported).
Proof.
  unfold boundary_drills, containsRecoveryDestination. cbv zeta. intros Hs.
  repeat apply elem_of_cons in Hs as [->|Hs]; [..|by apply elem_of_nil in Hs]; cbn [Kind Mode drill]; split_and!; try done;
    intros _; (case_bool_decide; cbn [negb]; split; (done || tauto)).
Qed.
End drills.

Lemma validated_owner url_Parse intent : ArchitectureIntent_Validate url_Parse intent = None →
  blank (TrimSpace (ResilienceIntent.FailoverOwner (ArchitectureIntent.Resilience intent))) = false.
Proof.
  unfold ArchitectureIntent_Validate. rewrite errors_Join_None, Forall_forall. intros Hall.
  assert (Hr : ResilienceIntent_Validate (ArchitectureIntent.Resilience intent) = None).
  { apply Hall. rewrite !elem_of_app. do 7 right. apply list_elem_of_here. }
  unfold ResilienceIntent_Validate in Hr. rewrite errors_Join_None, !Forall_app in Hr. destruct Hr as [Hr _].
  unfold required_fields in Hr. rewrite !fmap_cons, !Forall_cons in Hr. destruct Hr as (_&_&_&Ho&_).
  rewrite blank_TrimSpace. by apply fail_if_None in Ho.
Qed.

Lemma matrix_valid scenarios : scenarios ≠ [] → NoDup (ID <$> scenarios) →
  (∀ s, s ∈ scenarios → complete_drill s ∧ ID s = "scenario-" +:+ underscores (Kind s)) →
  ValidateResilienceScenarioMatrix scenarios = None.
Proof.
  intros Hne Hu Hall. unfold ValidateResilienceScenarioMatrix. apply err_seq_None. split; [by apply fail_if_None, bool_decide_eq_false|].
  apply first_of_None. rewrite with_seen_None. intros l1 s l2 He.
  destruct (Hall s) as [Hc Hid]; [rewrite He; apply elem_of_app; right; apply list_elem_of_here|].
  rewrite !Forall_cons. split_and!; [| |by apply complete_mode|constructor]; apply fail_if_None.
  - assert (Hb : blank (ID s) = false).
    { rewrite Hid. apply (visible_not_blank _ "s"%char); [split; [done|reflexivity]|]. apply list_elem_of_here. }
    destruct Hc as (Hk&Hs&Ho&Hr&_). rewrite Hb, Hs, Ho, Hr, bool_decide_eq_false_2 by done. done.
  - apply bool_decide_eq_false. rewrite app_nil_r, fmap_reverse, elem_of_reverse. rewrite He, fmap_app in Hu.
    apply NoDup_app in Hu as (_&Hd&_). intros Hin. apply (Hd _ Hin). simpl. apply list_elem_of_here.
Qed.

(** ** Claim *)

(** Every architecture that validates has a failure matrix.  Building it
    never fails on such an architecture: the drills have distinct identifiers,
    an unsupported one gives its reason, the loss of a zone is only exercised
    with two zones and the loss of a region only with an alternate region, the
    loss of the provider never; and a drill that touches the runtime must show
    queue, database and cache health when the architecture has these data. *)
Theorem BuildResilienceScenarioMatrix_total url_Parse intent :
  ArchitectureIntent_Validate url_Parse intent = None → ∃ scenarios,
    BuildResilienceScenarioMatrix url_Parse intent = Ok scenarios ∧ NoDup (ID <$> scenarios) ∧
    let resilience := ArchitectureIntent.Resilience intent in
    let classes := DataClassIntent.Name <$> ResilienceIntent.DataClasses resilience in
    ∀ s, s ∈ scenarios →
      (Mode s = ScenarioUnsupported → blank (Reason s) = false) ∧
      (Kind s = "zone-loss" → Mode s = ScenarioUnsupported ↔ (length (ArchitectureIntent.Zones intent) < 2)) ∧
      (Kind s = "region-loss" → Mode s = ScenarioUnsupported
         ↔ RecoveryAlternateRegion ∉ ResilienceIntent.RecoveryDestinations resilience) ∧
      (Kind s = "alternate-provider-loss" → Mode s = ScenarioUnsupported) ∧
      (Kind s ∈ gated_kinds → ("queue" ∈ classes → QueueHealthRequired s = true) ∧
         ("database" ∈ classes → DatabaseHealthRequired s = true) ∧ ("cache" ∈ classes → CacheLossRequired s = true)).
Proof.
  intros Hv. pose proof (validated_owner _ _ Hv) as Hown.
  pose proof (drills_unique intent) as Hu.
  assert (Hmatrix : ValidateResilienceScenarioMatrix (sort_by scenario_le (drills intent)) = None).
  { apply matrix_valid; [|by rewrite sort_by_perm|].
    - intros He. pose proof (sort_by_perm scenario_le (drills intent)) as Hp. rewrite He in Hp. by apply Permutation_nil in Hp.
    - intros s Hs. rewrite elem_of_sort_by in Hs. by apply (drills_complete intent). }
  exists (sort_by scenario_le (drills intent)). split_and!.
  - unfold BuildResilienceScenarioMatrix. rewrite Hv. cbv zeta. apply lift_check_Ok. split; [done|]. apply lift_check_Ok. by split.
  - by rewrite sort_by_perm.
  - cbv zeta. intros s Hs. rewrite elem_of_sort_by in Hs. destruct (drills_complete intent Hown s Hs) as [(_&_&_&_&_&Hm) _].
    rewrite drills_base in Hs. apply list_elem_of_fmap in Hs as (b&->&Hb). rewrite !finish_kind.
    assert (Hbound : Kind b ∈ ["zone-loss"; "region-loss"; "alternate-provider-loss"] →
      Mode (finish intent b) = Mode b ∧ b ∈ boundary_drills (TrimSpace (ResilienceIntent.FailoverOwner (ArchitectureIntent.Resilience intent)))
        (ArchitectureIntent.Zones intent) (ResilienceIntent.RecoveryDestinations (ArchitectureIntent.Resilience intent))).
    { intros Hk. split; [by apply finish_mode|by apply (boundary_base intent)]. }
    split_and!.
    + intros Hu'. destruct Hm as [Hm|[_ Hr]]; [|done]. rewrite Hu' in Hm. by repeat apply elem_of_cons in Hm as [Hm|Hm]; try apply elem_of_nil in Hm.
    + intros Hk. destruct Hbound as [-> Hin]; [rewrite Hk; apply list_elem_of_here|]. by apply (boundary_modes intent _ Hin).
    + intros Hk. destruct Hbound as [-> Hin]; [rewrite Hk; apply list_elem_of_further, list_elem_of_here|]. by apply (boundary_modes intent _ Hin).
    + intros Hk. destruct Hbound as [-> Hin]; [rewrite Hk; do 2 apply list_elem_of_further; apply list_elem_of_here|].
      by apply (boundary_modes intent _ Hin).
    + exact (finish_gates intent b).
Qed.

(** ** Example *)

(** One zone and an alternate region, in containers of the provider. *)
Module ScenarioExample.
Import ResilienceExample.

Lemma architecture_valid : ArchitectureIntent_Validate no_url architecture = None.
Proof. vm_cast_no_check (eq_refl (None (A:=error))). Qed.

Example matrix_modes :
  (λ s, (ID s, Mode s)) <$> sort_by scenario_le (drills architecture) =
  [("scenario-alternate_provider_loss", "unsupported"); ("scenario-corrupted_data", "automated");
   ("scenario-failed_deployment", "automated"); ("scenario-interrupted_teardown", "automated");
   ("scenario-lost_credentials", "operator-assisted"); ("scenario-partial_restore", "automated");
   ("scenario-process_loss", "automated"); ("scenario-provider_outage", "operator-assisted");
   ("scenario-region_loss", "automated"); ("scenario-task_loss", "automated"); ("scenario-zone_loss", "unsupported")].
Proof. vm_compute. reflexivity. Qed.

Lemma BuildResilienceScenarioMatrix_total_witness : ∃ scenarios,
  BuildResilienceScenarioMatrix no_url architecture = Ok scenarios ∧ NoDup (ID <$> scenarios).
Proof.
  destruct (BuildResilienceScenarioMatrix_total no_url architecture architecture_valid) as (scenarios&Hb&Hu&_).
  exists scenarios. exact (conj Hb Hu).
Defined.
End ScenarioExample.
