(* ===== verification/FailureRun.v ===== *)
(** * The failure runner (internal/certification/failure_runner.go)

    One controlled failure exercise: inject a fault, observe the runtime, clean
    up, with a checkpoint after each step so that an interrupted exercise is
    taken up where it stopped.  The executor, the store, the clock and the
    context are functions on a world [W]; every call is logged with its
    answer. *)

From S2P Require Import Prelude GoStrings GoEncoding Secretsafe Sdk Admission Architecture Resilience Lifecycle Scenarios.

Local Open Scope Z_scope.

(* internal/certification/failure_runner.go, lines 16-24: FailureScenarioState *)
Definition FailureScenarioInjected := "injected".
(* internal/certification/failure_runner.go, lines 20-20: FailureScenarioInjectionCleanupPending *)
Definition FailureScenarioInjectionCleanupPending := "injection-cleanup-pending".
(* internal/certification/failure_runner.go, lines 21-21: FailureScenarioObserved *)
Definition FailureScenarioObserved := "observed".
(* internal/certification/failure_runner.go, lines 22-22: FailureScenarioCleanupPending *)
Definition FailureScenarioCleanupPending := "cleanup-pending".
(* internal/certification/failure_runner.go, lines 23-23: FailureScenarioComplete *)
Definition FailureScenarioComplete := "complete".

(* internal/certification/failure_runner.go, lines 523-535: validateFailureReferences *)
Definition validateFailureReferences (label : string) (references : list string) : gerror :=
  first_of (with_seen (λ seen reference,
    [fail_if (bad_reference reference) (errorf (label +:+ " must be non-empty and single-line") []);
     fail_if (bool_decide (reference ∈ seen)) (errorf (label +:+ " %q is duplicated") [GStr reference])]) [] references).

(** ** Data *)

Module Injection.
(* internal/certification/failure_runner.go, lines 29-34: FailureInjection *)
Record FailureInjection := {
  ID : string;
  OperationRefs : list string;
  ResourceRefs : list string;
  Verified : bool;
}.

Definition zero : FailureInjection := {| ID := ""; OperationRefs := []; ResourceRefs := []; Verified := false |}.

Definition to_json (i : FailureInjection) : json :=
  JObj (js "id" (ID i) ++ jl_opt "operationRefs" (OperationRefs i) ++ jl_opt "resourceRefs" (ResourceRefs i)
    ++ jb "verified" (Verified i)).

(* internal/certification/failure_runner.go, lines 36-50: FailureInjection.Validate *)
Definition FailureInjection_Validate (i : FailureInjection) : gerror :=
  fail_if (bad_reference (ID i)) (ErrNew "failure injection ID is required and must be single-line")
  ;;? validateFailureReferences "failure injection operation reference" (OperationRefs i)
  ;;? validateFailureReferences "failure injection resource reference" (ResourceRefs i)
  ;;? fail_if (negb (Verified i)) (ErrNew "failure injection must verify that the requested fault was applied").
End Injection.
Notation FailureInjection := Injection.FailureInjection.
Notation FailureInjection_Validate := Injection.FailureInjection_Validate.

Module ScenarioObservation.
(* internal/certification/failure_runner.go, lines 56-67: FailureScenarioObservation *)
Record FailureScenarioObservation := {
  TrafficHealthVerified : bool;
  QueueHealthVerified : bool;
  DatabaseHealthVerified : bool;
  CacheLossClassified : bool;
  IntegrityVerified : bool;
  FencingVerified : bool;
  MeasuredRPOSeconds : Z;
  MeasuredRTOSeconds : Z;
  OperatorAction : string;
  Reason : string;
}.

Definition zero : FailureScenarioObservation :=
  {| TrafficHealthVerified := false; QueueHealthVerified := false; DatabaseHealthVerified := false;
     CacheLossClassified := false; IntegrityVerified := false; FencingVerified := false; MeasuredRPOSeconds := 0;
     MeasuredRTOSeconds := 0; OperatorAction := ""; Reason := "" |}.

Definition to_json (o : FailureScenarioObservation) : json :=
  JObj (jb "trafficHealthVerified" (TrafficHealthVerified o) ++ jb "queueHealthVerified" (QueueHealthVerified o)
    ++ jb "databaseHealthVerified" (DatabaseHealthVerified o) ++ jb "cacheLossClassified" (CacheLossClassified o)
    ++ jb "integrityVerified" (IntegrityVerified o) ++ jb "fencingVerified" (FencingVerified o)
    ++ Evidence.ji_opt "measuredRpoSeconds" (MeasuredRPOSeconds o) ++ Evidence.ji_opt "measuredRtoSeconds" (MeasuredRTOSeconds o)
    ++ js_opt "operatorAction" (OperatorAction o) ++ js_opt "reason" (Reason o)).

(* internal/certification/failure_runner.go, lines 69-77: FailureScenarioObservation.Validate *)
Definition FailureScenarioObservation_Validate (o : FailureScenarioObservation) : gerror :=
  fail_if ((MeasuredRPOSeconds o <? 0) || (MeasuredRTOSeconds o <? 0))
    (ErrNew "failure scenario observation contains a negative recovery measurement")
  ;;? fail_if (multiline (OperatorAction o +:+ Reason o))
        (ErrNew "failure scenario observation contains a control character").
End ScenarioObservation.
Notation FailureScenarioObservation := ScenarioObservation.FailureScenarioObservation.
Notation FailureScenarioObservation_Validate := ScenarioObservation.FailureScenarioObservation_Validate.

Module FaultCleanup.
(* internal/certification/failure_runner.go, lines 82-87: FailureCleanupObservation *)
Record FailureCleanupObservation := {
  Complete : bool;
  UnownedPreserved : bool;
  ResourceRefs : list string;
  Reason : string;
}.

Definition to_json (o : FailureCleanupObservation) : json :=
  JObj (jb "complete" (Complete o) ++ jb "unownedPreserved" (UnownedPreserved o)
    ++ jl_opt "resourceRefs" (ResourceRefs o) ++ js_opt "reason" (Reason o)).

(** Nothing cleaned, nothing left. *)
Definition blank_cleanup (complete preserved : bool) : FailureCleanupObservation :=
  {| Complete := complete; UnownedPreserved := preserved; ResourceRefs := []; Reason := "" |}.

(* internal/certification/failure_runner.go, lines 89-97: FailureCleanupObservation.Validate *)
Definition FailureCleanupObservation_Validate (o : FailureCleanupObservation) : gerror :=
  validateFailureReferences "failure cleanup resource reference" (ResourceRefs o)
  ;;? fail_if (multiline (Reason o)) (ErrNew "failure cleanup observation reason contains a control character").

(* internal/certification/failure_runner.go, lines 517-521: cloneFailureCleanup *)
Definition cloneFailureCleanup (o : FailureCleanupObservation) : FailureCleanupObservation :=
  {| Complete := Complete o; UnownedPreserved := UnownedPreserved o; ResourceRefs := sort_strings (ResourceRefs o);
     Reason := Reason o |}.

(** The owning services confirm the end of the fault. *)
Definition confirmed (o : FailureCleanupObservation) : bool := Complete o && UnownedPreserved o.
End FaultCleanup.
Notation FailureCleanupObservation := FaultCleanup.FailureCleanupObservation.
Notation FailureCleanupObservation_Validate := FaultCleanup.FailureCleanupObservation_Validate.
Notation cloneFailureCleanup := FaultCleanup.cloneFailureCleanup.

Module ScenarioCheckpoint.
(* internal/certification/failure_runner.go, lines 103-113: FailureScenarioCheckpoint *)
Record FailureScenarioCheckpoint := {
  MatrixFingerprint : string;
  ScenarioID : string;
  OwnershipMarker : string;
  State : string;
  Injection : FailureInjection;
  Observation : option FailureScenarioObservation;
  Proof : option FailureScenarioProof;
  Cleanup : FailureCleanupObservation;
  UpdatedAt : string;
}.

Definition to_json (c : FailureScenarioCheckpoint) : json :=
  JObj (js "matrixFingerprint" (MatrixFingerprint c) ++ js "scenarioId" (ScenarioID c)
    ++ js "ownershipMarker" (OwnershipMarker c) ++ js "state" (State c) ++ [("injection", Injection.to_json (Injection c))]
    ++ jo_opt "observation" (ScenarioObservation.to_json <$> Observation c)
    ++ jo_opt "proof" (Proof_.to_json <$> Proof c) ++ [("cleanup", FaultCleanup.to_json (Cleanup c))]
    ++ js "updatedAt" (UpdatedAt c)).

(** A checkpoint moves on within its scope and injection. *)
Definition advance (state : string) (observation : option FailureScenarioObservation) (proof : option FailureScenarioProof)
    (cleanup : FailureCleanupObservation) (updatedAt : string) (c : FailureScenarioCheckpoint) : FailureScenarioCheckpoint :=
  {| MatrixFingerprint := MatrixFingerprint c; ScenarioID := ScenarioID c; OwnershipMarker := OwnershipMarker c;
     State := state; Injection := Injection c; Observation := observation; Proof := proof; Cleanup := cleanup;
     UpdatedAt := updatedAt |}.

Definition observed (c : FailureScenarioCheckpoint) : bool :=
  bool_decide (is_Some (Observation c)) && bool_decide (is_Some (Proof c)).

(* internal/certification/failure_runner.go, lines 145-181: FailureScenarioCheckpoint.Validate *)
Definition check_state (c : FailureScenarioCheckpoint) : gerror :=
  let injection := FailureInjection_Validate (Injection c) in
  let state := State c in
  if bool_decide (state = FailureScenarioInjected) || bool_decide (state = FailureScenarioInjectionCleanupPending) then
    injection
  else if bool_decide (state = FailureScenarioObserved) then
    injection ;;? fail_if (negb (observed c)) (ErrNew "observed failure checkpoint requires an observation and proof")
  else if bool_decide (state = FailureScenarioCleanupPending) then
    injection ;;? fail_if (negb (observed c)) (ErrNew "cleanup-pending failure checkpoint requires an observation and proof")
  else if bool_decide (state = FailureScenarioComplete) then
    fail_if (negb (observed c)) (ErrNew "complete failure checkpoint requires an observation and proof")
    ;;? (if bool_decide (from_option Proof_.Status "" (Proof c) ∈ ["SKIP"; "BLOCKED"; "NOT_RUN"]) then None else injection)
    ;;? fail_if (negb (FaultCleanup.confirmed (Cleanup c))) (ErrNew "complete failure checkpoint requires verified cleanup")
  else Some (errorf "invalid failure checkpoint state %q" [GStr state]).

(* internal/certification/failure_runner.go, lines 115-183: FailureScenarioCheckpoint.Validate *)
Definition FailureScenarioCheckpoint_Validate (c : FailureScenarioCheckpoint) : gerror :=
  fail_if (bool_decide (is_Some (ValidateSecretSafeValue (to_json c))))
    (ErrNew "failure checkpoint contains secret-like material")
  ;;? fail_if (bad_reference (MatrixFingerprint c))
        (ErrNew "failure checkpoint matrix fingerprint is required and must be single-line")
  ;;? fail_if (bad_reference (ScenarioID c)) (ErrNew "failure checkpoint scenario ID is required and must be single-line")
  ;;? fail_if (bad_reference (OwnershipMarker c))
        (ErrNew "failure checkpoint ownership marker is required and must be single-line")
  ;;? fail_if (bad_reference (UpdatedAt c)) (ErrNew "failure checkpoint update time is required and must be single-line")
  ;;? (if blank (Injection.ID (Injection c)) then None else FailureInjection_Validate (Injection c))
  ;;? from_option FailureScenarioObservation_Validate None (Observation c)
  ;;? FailureCleanupObservation_Validate (Cleanup c)
  ;;? check_state c.
End ScenarioCheckpoint.
Notation FailureScenarioCheckpoint := ScenarioCheckpoint.FailureScenarioCheckpoint.
Notation FailureScenarioCheckpoint_Validate := ScenarioCheckpoint.FailureScenarioCheckpoint_Validate.

Module ScenarioRun.
(* internal/certification/failure_runner.go, lines 205-212: FailureScenarioRun *)
Record FailureScenarioRun := {
  Scenario : ResilienceScenario;
  Injection : FailureInjection;
  Observation : FailureScenarioObservation;
  Proof : FailureScenarioProof;
  Cleanup : FailureCleanupObservation;
  Reused : bool;
}.
End ScenarioRun.
Notation FailureScenarioRun := ScenarioRun.FailureScenarioRun.

(** ** Proofs *)

(* internal/certification/failure_runner.go, lines 484-493: joinFailureReason *)
Definition joinFailureReason (current next : string) : string :=
  let next := TrimSpace next in
  if bool_decide (current = "") then next
  else if bool_decide (next = "") then current
  else current +:+ "; " +:+ next.

Section proof.
Import Scenario ScenarioObservation.

(** What an observation lacks, in the order of the checks. *)
(* internal/certification/failure_runner.go, lines 382-410: failureProof *)
Definition failure_reasons (s : ResilienceScenario) (o : FailureScenarioObservation) : list (bool * string) :=
  [(TrafficHealthRequired s && negb (TrafficHealthVerified o), "traffic health was not verified");
   (QueueHealthRequired s && negb (QueueHealthVerified o), "queue health was not verified");
   (DatabaseHealthRequired s && negb (DatabaseHealthVerified o), "database health was not verified");
   (CacheLossRequired s && negb (CacheLossClassified o), "cache loss was not classified");
   (IntegrityRequired s && negb (IntegrityVerified o), "data integrity was not verified");
   (FencingRequired s && negb (FencingVerified o), "fencing was not verified");
   (bool_decide (Mode s = ScenarioOperatorAssisted) && blank (OperatorAction o), "operator action was not recorded")].

(* internal/certification/failure_runner.go, lines 382-410: failureProof *)
Definition failureProof (s : ResilienceScenario) (o : FailureScenarioObservation) : FailureScenarioProof :=
  let reason := fold_left (λ reason (why : bool * string), if why.1 then joinFailureReason reason why.2 else reason)
                  (failure_reasons s o) (TrimSpace (Reason o)) in
  {| Proof_.ScenarioID := ID s; Proof_.Status := if bool_decide (reason = "") then "PASS" else "FAIL";
     Proof_.InjectionVerified := true; Proof_.TrafficHealthVerified := TrafficHealthVerified o;
     Proof_.QueueHealthVerified := QueueHealthVerified o; Proof_.DatabaseHealthVerified := DatabaseHealthVerified o;
     Proof_.CacheLossClassified := CacheLossClassified o; Proof_.IntegrityVerified := IntegrityVerified o;
     Proof_.FencingVerified := FencingVerified o; Proof_.MeasuredRPOSeconds := MeasuredRPOSeconds o;
     Proof_.MeasuredRTOSeconds := MeasuredRTOSeconds o; Proof_.OperatorAction := OperatorAction o;
     Proof_.Reason := reason |}.

(* internal/certification/failure_runner.go, lines 476-482: failureScenarioCleanupBeforeObservationProof *)
Definition failureScenarioCleanupBeforeObservationProof (s : ResilienceScenario) : FailureScenarioProof :=
  Proof_.unexecuted (ID s) "BLOCKED"
    "checkpoint persistence failed after fault injection; cleanup completed before observation".
End proof.

(** ** Clients *)

(* internal/certification/failure_runner.go, lines 199-203: FailureScenarioExecutor *)
Record FailureScenarioExecutor (W : Type) := {
  inject : ResilienceScenario → W → result FailureInjection * W;
  observe : ResilienceScenario → FailureInjection → W → result FailureScenarioObservation * W;
  clean_up : ResilienceScenario → FailureInjection → W → (FailureCleanupObservation * gerror) * W;
}.
Arguments inject {W} _.
Arguments observe {W} _.
Arguments clean_up {W} _.

(* internal/certification/failure_runner.go, lines 189-192: FailureScenarioCheckpointStore *)
Record FailureScenarioCheckpointStore (W : Type) := {
  load_failure : W → (FailureScenarioCheckpoint * gerror) * W;
  save_failure : FailureScenarioCheckpoint → W → gerror * W;
}.
Arguments load_failure {W} _.
Arguments save_failure {W} _.

(** A time: its text, and whether it is the zero time. *)
Record instant := { text : string; is_zero : bool }.

Record failure_surroundings (W : Type) := {
  failure_ctx : W → gerror * W;
  failure_now : W → instant * W;
}.
Arguments failure_ctx {W} _.
Arguments failure_now {W} _.

Module Failure.
Inductive event :=
  | EvClock (time : instant)
  | EvLoad (answer : FailureScenarioCheckpoint * gerror)
  | EvInject (answer : result FailureInjection)
  | EvContext (answer : gerror)
  | EvObserve (injection : FailureInjection) (answer : result FailureScenarioObservation)
  | EvCleanup (injection : FailureInjection) (answer : FailureCleanupObservation * gerror)
  | EvSave (checkpoint : FailureScenarioCheckpoint) (answer : gerror).
End Failure.
Import Failure.

(** ** The run *)

Section run.
Context {W : Type} (env : failure_surroundings W) (executor : FailureScenarioExecutor W).
Context (store : FailureScenarioCheckpointStore W).
Context (scenario : ResilienceScenario) (matrixFingerprint ownershipMarker : string).

Import ScenarioCheckpoint.
Abbreviation answer := (FailureScenarioRun * gerror)%type.
Abbreviation id := (GStr (Scenario.ID scenario)).

Definition no_run : FailureScenarioRun :=
  {| ScenarioRun.Scenario := drill "" "" "" "" [] false false false "" ""; ScenarioRun.Injection := Injection.zero;
     ScenarioRun.Observation := ScenarioObservation.zero; ScenarioRun.Proof := Proof_.unexecuted "" "" "";
     ScenarioRun.Cleanup := FaultCleanup.blank_cleanup false false; ScenarioRun.Reused := false |}.

Definition run_refused (err : error) : answer := (no_run, Some err).

Definition make_run (injection : FailureInjection) (observation : FailureScenarioObservation) (proof : FailureScenarioProof)
    (cleanup : FailureCleanupObservation) (reused : bool) : FailureScenarioRun :=
  {| ScenarioRun.Scenario := scenario; ScenarioRun.Injection := injection; ScenarioRun.Observation := observation;
     ScenarioRun.Proof := proof; ScenarioRun.Cleanup := cleanup; ScenarioRun.Reused := reused |}.

(* internal/certification/failure_runner.go, lines 495-505: failureRunFromCheckpoint *)
Definition failureRunFromCheckpoint (c : FailureScenarioCheckpoint) (reused : bool) : FailureScenarioRun :=
  make_run (Injection c) (default ScenarioObservation.zero (Observation c))
    (default (Proof_.unexecuted "" "" "") (Proof c)) (cloneFailureCleanup (Cleanup c)) reused.

Definition clock : eff event W string := i ← call EvClock (failure_now env); mret (text i).

(* internal/certification/failure_runner.go, lines 416-423: saveFailureCheckpoint *)
Definition saveFailureCheckpoint (c : FailureScenarioCheckpoint) : eff event W gerror :=
  match FailureScenarioCheckpoint_Validate c with
  | Some err => mret (Some (wrapf "validate failure checkpoint before save: %w" [] err))
  | None => call (EvSave c) (save_failure store c)
  end.

Definition clean (injection : FailureInjection) : eff event W (FailureCleanupObservation * gerror) :=
  call (EvCleanup injection) (clean_up executor scenario injection).

(** The scope of this exercise. *)
Definition rescope (c : FailureScenarioCheckpoint) : FailureScenarioCheckpoint :=
  {| MatrixFingerprint := matrixFingerprint; ScenarioID := Scenario.ID scenario; OwnershipMarker := ownershipMarker;
     State := State c; Injection := Injection c; Observation := Observation c; Proof := Proof c; Cleanup := Cleanup c;
     UpdatedAt := UpdatedAt c |}.

(** Persistence failed after the fault was injected: clean up, and record how far
    the exercise came.  [c] holds the observation and the proof, when there are
    any. *)
(* internal/certification/failure_runner.go, lines 425-474: recoverFailureScenarioAfterCheckpointError *)
Definition recoverFailureScenarioAfterCheckpointError (c : FailureScenarioCheckpoint) (persistenceErr : error)
    : eff event W answer :=
  '(cleanup, cleanupErr) ← clean (Injection c);
  let cleanup := cloneFailureCleanup cleanup in
  let cleanupErr :=
    match FailureCleanupObservation_Validate cleanup with
    | Some err => errors_Join [cleanupErr;
        Some (wrapf "validate cleanup after checkpoint persistence failure for %q: %w" [id] err)]
    | None => cleanupErr
    end in
  updatedAt ← clock;
  let c := rescope c in
  let complete := bool_decide (cleanupErr = None) && FaultCleanup.confirmed cleanup in
  let c :=
    if complete then
      if observed c then advance FailureScenarioComplete (Observation c) (Proof c) cleanup updatedAt c
      else advance FailureScenarioComplete (Some ScenarioObservation.zero)
             (Some (failureScenarioCleanupBeforeObservationProof scenario)) cleanup updatedAt c
    else advance (if observed c then FailureScenarioCleanupPending else FailureScenarioInjectionCleanupPending)
           (Observation c) (Proof c) cleanup updatedAt c in
  saveErr ← saveFailureCheckpoint c;
  let cleanupFailure :=
    match cleanupErr with
    | Some err => Some (wrapf "cleanup after checkpoint persistence failure for %q: %w" [id] err)
    | None => fail_if (negb (FaultCleanup.confirmed cleanup))
                (errorf "cleanup after checkpoint persistence failure for %q is incomplete" [id])
    end in
  mret (failureRunFromCheckpoint c false,
        errors_Join [Some persistenceErr; cleanupFailure;
                     err_wrap (wrapf "save failure scenario recovery checkpoint: %w" []) saveErr]).

(** An exercise whose fault still has to be cleaned up. *)
(* internal/certification/failure_runner.go, lines 276-315: RunFailureScenario *)
Definition resume_cleanup (c : FailureScenarioCheckpoint) : eff event W answer :=
  let before := bool_decide (State c = FailureScenarioInjectionCleanupPending) in
  let pending := if before then State c else FailureScenarioCleanupPending in
  if negb before && negb (observed c) then
    mret (run_refused (ErrNew "failure scenario checkpoint cannot resume cleanup without an observation and proof"))
  else
    '(cleanup, cleanupErr) ← clean (Injection c);
    match cleanupErr with
    | Some err =>
        updatedAt ← clock;
        let c := advance pending (Observation c) (Proof c) (cloneFailureCleanup cleanup) updatedAt c in
        saveErr ← saveFailureCheckpoint c;
        mret (failureRunFromCheckpoint c false, errors_Join [Some (wrapf "cleanup failure scenario %q: %w" [id] err); saveErr])
    | None =>
        match FailureCleanupObservation_Validate cleanup with
        | Some err => mret (run_refused (wrapf "validate cleanup for failure scenario %q: %w" [id] err))
        | None =>
            updatedAt ← clock;
            let confirmed := FaultCleanup.confirmed cleanup in
            let cleanup := cloneFailureCleanup cleanup in
            let c :=
              if negb confirmed then advance pending (Observation c) (Proof c) cleanup updatedAt c
              else if before then
                advance FailureScenarioComplete (Some ScenarioObservation.zero)
                  (Some (failureScenarioCleanupBeforeObservationProof scenario)) cleanup updatedAt c
              else advance FailureScenarioComplete (Observation c) (Proof c) cleanup updatedAt c in
            saveErr ← saveFailureCheckpoint c;
            match saveErr with
            | Some err =>
                mret (run_refused (wrapf (if confirmed then "save completed failure scenario checkpoint: %w"
                                          else "save incomplete failure cleanup: %w") [] err))
            | None => mret (failureRunFromCheckpoint c false, None)
            end
        end
    end.

(** From an injected fault to the end. *)
(* internal/certification/failure_runner.go, lines 331-379: RunFailureScenario *)
Definition observe_injected (c : FailureScenarioCheckpoint) : eff event W answer :=
  err ← call EvContext (failure_ctx env);
  match err with
  | Some err => mret (run_refused err)
  | None =>
      observed ← call (EvObserve (Injection c)) (observe executor scenario (Injection c));
      match observed with
      | Err err => mret (run_refused (wrapf "observe failure scenario %q: %w" [id] err))
      | Ok observation =>
          let proof := failureProof scenario observation in
          match err_wrap (wrapf "validate failure observation for %q: %w" [id]) (FailureScenarioObservation_Validate observation)
                ;;? ValidateFailureScenarioProof scenario proof with
          | Some err => mret (run_refused err)
          | None =>
              updatedAt ← clock;
              let c := advance FailureScenarioObserved (Some observation) (Some proof) (Cleanup c) updatedAt c in
              saveErr ← saveFailureCheckpoint c;
              match saveErr with
              | Some err =>
                  recoverFailureScenarioAfterCheckpointError c (wrapf "save observed failure scenario checkpoint: %w" [] err)
              | None =>
                  '(cleanup, cleanupErr) ← clean (Injection c);
                  let run := make_run (Injection c) observation proof cleanup false in
                  let at_state state updatedAt :=
                    advance state (Some observation) (Some proof) (cloneFailureCleanup cleanup) updatedAt c in
                  match cleanupErr with
                  | Some err =>
                      updatedAt ← clock;
                      saveErr ← saveFailureCheckpoint (at_state FailureScenarioCleanupPending updatedAt);
                      mret (run, errors_Join [Some (wrapf "cleanup failure scenario %q: %w" [id] err); saveErr])
                  | None =>
                      match FailureCleanupObservation_Validate cleanup with
                      | Some err => mret (run_refused (wrapf "validate cleanup for failure scenario %q: %w" [id] err))
                      | None =>
                          let confirmed := FaultCleanup.confirmed cleanup in
                          updatedAt ← clock;
                          saveErr ← saveFailureCheckpoint
                            (at_state (if confirmed then FailureScenarioComplete else FailureScenarioCleanupPending) updatedAt);
                          match saveErr with
                          | Some err =>
                              mret (run_refused (wrapf (if confirmed then "save completed failure scenario checkpoint: %w"
                                                        else "save incomplete failure cleanup: %w") [] err))
                          | None => mret (run, None)
                          end
                      end
                  end
              end
          end
      end
  end.

(** A new exercise. *)
(* internal/certification/failure_runner.go, lines 317-329: RunFailureScenario *)
Definition inject_fault : eff event W answer :=
  injected ← call EvInject (inject executor scenario);
  match injected with
  | Err err => mret (run_refused (wrapf "inject failure scenario %q: %w" [id] err))
  | Ok injection =>
      match FailureInjection_Validate injection with
      | Some err => mret (run_refused (wrapf "validate failure injection for %q: %w" [id] err))
      | None =>
          updatedAt ← clock;
          let c := {| MatrixFingerprint := matrixFingerprint; ScenarioID := Scenario.ID scenario;
                      OwnershipMarker := ownershipMarker; State := FailureScenarioInjected; Injection := injection;
                      Observation := None; Proof := None; Cleanup := FaultCleanup.blank_cleanup false true;
                      UpdatedAt := updatedAt |} in
          saveErr ← saveFailureCheckpoint c;
          match saveErr with
          | Some err =>
              recoverFailureScenarioAfterCheckpointError c (wrapf "save injected failure scenario checkpoint: %w" [] err)
          | None => observe_injected c
          end
      end
  end.

(** A scenario nobody can run is recorded as skipped. *)
(* internal/certification/failure_runner.go, lines 264-274: RunFailureScenario *)
Definition skip_scenario : eff event W answer :=
  let proof := Proof_.unexecuted (Scenario.ID scenario) "SKIP" (Scenario.Reason scenario) in
  match ValidateFailureScenarioProof scenario proof with
  | Some err => mret (run_refused err)
  | None =>
      updatedAt ← clock;
      let cleanup := FaultCleanup.blank_cleanup true true in
      saveErr ← saveFailureCheckpoint
        {| MatrixFingerprint := matrixFingerprint; ScenarioID := Scenario.ID scenario; OwnershipMarker := ownershipMarker;
           State := FailureScenarioComplete; Injection := Injection.zero; Observation := Some ScenarioObservation.zero;
           Proof := Some proof; Cleanup := cleanup; UpdatedAt := updatedAt |};
      mret (match saveErr with
            | Some err => run_refused (wrapf "save unsupported failure scenario checkpoint: %w" [] err)
            | None => (make_run Injection.zero ScenarioObservation.zero proof cleanup false, None)
            end)
  end.

(** The checks of a loaded checkpoint. *)
(* internal/certification/failure_runner.go, lines 248-258: RunFailureScenario *)
Definition check_loaded (loaded : FailureScenarioCheckpoint * gerror) : gerror :=
  let '(c, err) := loaded in
  match err with
  | Some err => fail_if (negb (errors_Is "certification.ErrFailureCheckpointNotFound" err))
                  (wrapf "load failure scenario checkpoint: %w" [] err)
  | None =>
      err_wrap (wrapf "validate failure scenario checkpoint: %w" []) (FailureScenarioCheckpoint_Validate c)
      ;;? fail_if (negb (bool_decide (MatrixFingerprint c = matrixFingerprint))
                   || negb (bool_decide (ScenarioID c = Scenario.ID scenario))
                   || negb (bool_decide (OwnershipMarker c = ownershipMarker)))
            (ErrNew "failure scenario checkpoint does not match the requested architecture, scenario, or ownership scope")
  end.

(** The context, the executor, the store and the clock are there. *)
(* internal/certification/failure_runner.go, lines 222-380: RunFailureScenario *)
Definition RunFailureScenario : eff event W answer :=
  match fail_if (bad_reference matrixFingerprint)
          (ErrNew "failure scenario matrix fingerprint is required and must be single-line")
        ;;? fail_if (bad_reference ownershipMarker)
              (ErrNew "failure scenario ownership marker is required and must be single-line") with
  | Some err => mret (run_refused err)
  | None =>
      started ← call EvClock (failure_now env);
      match fail_if (is_zero started) (ErrNew "failure scenario clock must return a non-zero time")
            ;;? ValidateResilienceScenarioMatrix [scenario] with
      | Some err => mret (run_refused err)
      | None =>
          loaded ← call EvLoad (load_failure store);
          match check_loaded loaded with
          | Some err => mret (run_refused err)
          | None =>
              let c := loaded.1 in
              if bool_decide (loaded.2 = None) && bool_decide (State c = FailureScenarioComplete) then
                mret (failureRunFromCheckpoint c true, None)
              else if bool_decide (Scenario.Mode scenario = ScenarioUnsupported) then skip_scenario
              else if bool_decide (State c ∈ [FailureScenarioObserved; FailureScenarioCleanupPending;
                                               FailureScenarioInjectionCleanupPending]) then resume_cleanup c
              else if bool_decide (State c = "") then inject_fault
              else observe_injected c
          end
      end
  end.
End run.
