(* ===== verification/FailureClaims.v ===== *)
(** * What a failure exercise promises

    The proof follows from the observation; a fault is injected once, accounted
    for, and only reported as cleaned up when the owning services confirm it. *)

From S2P Require Import Prelude GoStrings GoEncoding Secretsafe Sdk Admission Architecture Resilience Lifecycle LifecycleClaims Scenarios FailureRun.

Import Failure.

(** ** Reasons *)

(** A reason is either absent or not blank. *)
Definition settled (reason : string) : Prop := reason = "" ∨ blank reason = false.

Lemma settled_TrimSpace s : settled (TrimSpace s).
Proof.
  destruct (blank s) eqn:Hb; [left; by apply bool_decide_eq_true in Hb|]. right. by rewrite blank_TrimSpace.
Qed.

Lemma semicolon_not_blank a b : blank (a +:+ "; " +:+ b) = false.
Proof.
  apply (visible_not_blank _ ";"%char); [split; [done|reflexivity]|].
  rewrite go_bytes_app, elem_of_app. right. apply list_elem_of_here.
Qed.

Lemma joinFailureReason_settled current next : settled current → settled (joinFailureReason current next).
Proof.
  intros Hc. unfold joinFailureReason. case_bool_decide; [apply settled_TrimSpace|].
  case_bool_decide; [done|]. right. apply semicolon_not_blank.
Qed.

Lemma joinFailureReason_nonempty current next : blank next = false → joinFailureReason current next ≠ "".
Proof.
  intros Hn. apply bool_decide_eq_false in Hn. unfold joinFailureReason. case_bool_decide; [done|].
  case_bool_decide; [done|]. intros He. pose proof (semicolon_not_blank current (TrimSpace next)) as Hb. by rewrite He in Hb.
Qed.

Definition add_reasons (whys : list (bool * string)) (reason : string) : string :=
  fold_left (λ reason (why : bool * string), if why.1 then joinFailureReason reason why.2 else reason) whys reason.

Lemma add_reasons_settled whys reason : settled reason → settled (add_reasons whys reason).
Proof.
  unfold add_reasons. revert reason. induction whys as [|[[] why] whys IH]; intros reason Hr; simpl; [done| |by apply IH].
  apply IH. by apply joinFailureReason_settled.
Qed.

Lemma add_reasons_empty whys reason : Forall (λ why : bool * string, blank why.2 = false) whys →
  add_reasons whys reason = "" ↔ reason = "" ∧ Forall (λ why : bool * string, why.1 = false) whys.
Proof.
  unfold add_reasons. intros Hw. revert reason. induction Hw as [|[missing why] whys Hn _ IH]; intros reason; simpl.
  { by split; [intros ->; split; [|constructor]|intros []]. }
  rewrite IH, Forall_cons. destruct missing; simpl; [|tauto]. split; [|by intros (_&?&_)].
  intros [He _]. by apply joinFailureReason_nonempty in He.
Qed.

(** ** The proof of an observation *)

Section proof.
Import Scenario ScenarioObservation.

(** Every gate of the scenario is verified, the operator acted where one has to,
    and nothing else was found. *)
Definition drill_passed (s : ResilienceScenario) (o : FailureScenarioObservation) : Prop :=
  blank (Reason o) = true ∧
  (TrafficHealthRequired s = true → TrafficHealthVerified o = true) ∧
  (QueueHealthRequired s = true → QueueHealthVerified o = true) ∧
  (DatabaseHealthRequired s = true → DatabaseHealthVerified o = true) ∧
  (CacheLossRequired s = true → CacheLossClassified o = true) ∧
  (IntegrityRequired s = true → IntegrityVerified o = true) ∧
  (FencingRequired s = true → FencingVerified o = true) ∧
  (Mode s = ScenarioOperatorAssisted → blank (OperatorAction o) = false).

Lemma gate_false a b : a && negb b = false ↔ (a = true → b = true).
Proof. destruct a, b; simpl; intuition congruence. Qed.

Lemma failure_reasons_none s o :
  Forall (λ why : bool * string, why.1 = false) (failure_reasons s o) ∧ TrimSpace (Reason o) = "" ↔ drill_passed s o.
Proof.
  rewrite <-(bool_decide_eq_true (TrimSpace (Reason o) = "")). change (bool_decide (TrimSpace (Reason o) = "")) with (blank (Reason o)).
  unfold failure_reasons, drill_passed. rewrite !Forall_cons. cbn [fst].
  rewrite !gate_false, andb_false_iff, bool_decide_eq_false.
  assert (Hm : Mode s ≠ ScenarioOperatorAssisted ∨ blank (OperatorAction o) = false
    ↔ (Mode s = ScenarioOperatorAssisted → blank (OperatorAction o) = false)).
  { destruct (decide (Mode s = ScenarioOperatorAssisted)); tauto. }
  rewrite Hm. split; [tauto|]. intros (?&?&?&?&?&?&?&?). split_and!; done || constructor.
Qed.

Lemma failure_reasons_texts s o : Forall (λ why : bool * string, blank why.2 = false) (failure_reasons s o).
Proof. unfold failure_reasons. repeat (constructor; [reflexivity|]). constructor. Qed.

Lemma failureProof_pass s o : Proof_.Status (failureProof s o) = "PASS" ↔ drill_passed s o.
Proof.
  unfold failureProof. cbn [Proof_.Status]. rewrite <-failure_reasons_none.
  change (fold_left _ (failure_reasons s o) (TrimSpace (Reason o))) with (add_reasons (failure_reasons s o) (TrimSpace (Reason o))).
  pose proof (add_reasons_empty _ (TrimSpace (Reason o)) (failure_reasons_texts s o)) as He.
  case_bool_decide as Hr; [|split; [done|tauto]]. split; [|done]. tauto.
Qed.

Lemma failureProof_reason s o : Proof_.Status (failureProof s o) = "FAIL" → blank (Proof_.Reason (failureProof s o)) = false.
Proof.
  unfold failureProof. cbn [Proof_.Status Proof_.Reason].
  change (fold_left _ (failure_reasons s o) (TrimSpace (Reason o))) with (add_reasons (failure_reasons s o) (TrimSpace (Reason o))).
  case_bool_decide as Hr; [done|]. intros _.
  by destruct (add_reasons_settled (failure_reasons s o) _ (settled_TrimSpace (Reason o))).
Qed.

Lemma failureProof_status s o : Proof_.Status (failureProof s o) = "PASS" ∨ Proof_.Status (failureProof s o) = "FAIL".
Proof. unfold failureProof. cbn [Proof_.Status]. case_bool_decide; tauto. Qed.

Lemma failureProof_valid s o : ID s ≠ "" → Mode s ∈ [ScenarioAutomated; ScenarioOperatorAssisted] →
  FailureScenarioObservation_Validate o = None → ValidateFailureScenarioProof s (failureProof s o) = None.
Proof.
  intros Hid Hmode Ho. pose proof (failureProof_pass s o) as Hpass. pose proof (failureProof_reason s o) as Hreason.
  assert (Hm : (MeasuredRPOSeconds o <? 0)%Z || (MeasuredRTOSeconds o <? 0)%Z = false).
  { unfold FailureScenarioObservation_Validate in Ho. by apply err_seq_None in Ho as [Ho%fail_if_None _]. }
  assert (Hne : Mode s ≠ ScenarioUnsupported).
  { intros He. rewrite He in Hmode. by repeat apply elem_of_cons in Hmode as [Hmode|Hmode]; try apply elem_of_nil in Hmode. }
  unfold ValidateFailureScenarioProof. rewrite !err_seq_None, !fail_if_None.
  change (Proof_.ScenarioID (failureProof s o)) with (ID s).
  change (Proof_.MeasuredRPOSeconds (failureProof s o)) with (MeasuredRPOSeconds o).
  change (Proof_.MeasuredRTOSeconds (failureProof s o)) with (MeasuredRTOSeconds o).
  change (Proof_.InjectionVerified (failureProof s o)) with true.
  rewrite (bool_decide_eq_true_2 (ID s = ID s)), (bool_decide_eq_false_2 (ID s = "")), (bool_decide_eq_false_2 (Mode s = _)) by done.
  split; [done|]. split; [exact Hm|]. rewrite bool_decide_eq_true_2 by done. rewrite !err_seq_None, !fail_if_None.
  split; [done|]. destruct (failureProof_status s o) as [Hst|Hst].
  - rewrite Hst. split_and!; [done|by rewrite andb_false_r| |done]. rewrite bool_decide_eq_true_2 by done.
    apply failureProof_pass in Hst as (_&?&?&?&?&?&?&Hop). rewrite err_seq_None, fail_if_None. split.
    + apply first_error_None. unfold missing_gates. repeat (constructor; [by apply fail_if_None, gate_false|]). constructor.
    + apply andb_false_iff. rewrite bool_decide_eq_false. destruct (decide (Mode s = ScenarioOperatorAssisted)); [right; by apply Hop|by left].
  - rewrite Hst. rewrite (Hreason Hst), !andb_false_r. done.
Qed.
End proof.

(** ** Injection *)

Definition no_inject (e : event) : Prop := match e with EvInject _ => False | _ => True end.

(** Case analysis on a computation whose calls are all allowed. *)
Ltac emits_calls :=
  repeat first
    [ apply emits_ret | apply emits_call; intros; exact I | apply emits_bind; [|intros ?]
    | progress cbn beta iota
    | match goal with
      | |- emits _ (match ?x with _ => _ end) => destruct x
      | |- emits _ (let '(_, _) := ?x in _) => destruct x
      end ].

Section trace.
Context {W : Type} (env : failure_surroundings W) (executor : FailureScenarioExecutor W).
Context (store : FailureScenarioCheckpointStore W) (scenario : ResilienceScenario) (matrixFingerprint ownershipMarker : string).

Import ScenarioCheckpoint.

Lemma save_no_inject c : emits no_inject (saveFailureCheckpoint store c).
Proof. unfold saveFailureCheckpoint. emits_calls. Qed.

Lemma clock_no_inject : emits no_inject (clock env).
Proof. unfold clock. emits_calls. Qed.

Hint Resolve save_no_inject clock_no_inject : core.

Lemma recover_no_inject c err :
  emits no_inject (recoverFailureScenarioAfterCheckpointError env executor store scenario matrixFingerprint ownershipMarker c err).
Proof.
  unfold recoverFailureScenarioAfterCheckpointError, clean. apply emits_bind; [by apply emits_call|]. intros [cleanup cleanupErr].
  apply emits_bind; [done|]. intros updatedAt. cbv zeta. apply emits_bind; [done|]. intros ?. apply emits_ret.
Qed.

Lemma resume_no_inject c : emits no_inject (resume_cleanup env executor store scenario c).
Proof.
  unfold resume_cleanup, clean. cbv zeta. destruct (_ && _); [apply emits_ret|].
  apply emits_bind; [by apply emits_call|]. intros [cleanup [err|]].
  - apply emits_bind; [done|]. intros ?. apply emits_bind; [done|]. intros ?. apply emits_ret.
  - destruct (FailureCleanupObservation_Validate cleanup); [apply emits_ret|].
    apply emits_bind; [done|]. intros ?. apply emits_bind; [done|]. intros []; apply emits_ret.
Qed.

Lemma observe_no_inject c :
  emits no_inject (observe_injected env executor store scenario matrixFingerprint ownershipMarker c).
Proof.
  unfold observe_injected, clean. apply emits_bind; [by apply emits_call|]. intros [err|]; [apply emits_ret|].
  apply emits_bind; [by apply emits_call|]. intros [o|err]; [|apply emits_ret]. cbv zeta. destruct (_ ;;? _); [apply emits_ret|].
  apply emits_bind; [done|]. intros ?. apply emits_bind; [done|]. intros [err|]; [apply recover_no_inject|].
  apply emits_bind; [by apply emits_call|]. intros [cleanup [err|]].
  - apply emits_bind; [done|]. intros ?. apply emits_bind; [done|]. intros ?. apply emits_ret.
  - destruct (FailureCleanupObservation_Validate cleanup); [apply emits_ret|].
    apply emits_bind; [done|]. intros ?. apply emits_bind; [done|]. intros []; apply emits_ret.
Qed.

Lemma skip_no_inject : emits no_inject (skip_scenario env store scenario matrixFingerprint ownershipMarker).
Proof.
  unfold skip_scenario. cbv zeta. destruct (ValidateFailureScenarioProof _ _); [apply emits_ret|].
  apply emits_bind; [done|]. intros ?. apply emits_bind; [done|]. intros ?. apply emits_ret.
Qed.

(** A save is a call, or the checkpoint is refused. *)
Lemma yields_save_bind {B} c (k : gerror → eff event W B) Q :
  (∀ err, yields (k (Some err)) Q) →
  (FailureScenarioCheckpoint_Validate c = None → ∀ answer, yields (k answer) (λ es, Q (EvSave c answer :: es))) →
  yields (saveFailureCheckpoint store c ≫= k) Q.
Proof.
  intros Hrefused Hsave. apply yields_bind. unfold saveFailureCheckpoint.
  destruct (FailureScenarioCheckpoint_Validate c) eqn:Hv; [apply yields_ret, Hrefused|]. apply yields_call. by apply Hsave.
Qed.

Lemma yields_clock_bind {B} (k : string → eff event W B) Q :
  (∀ i, yields (k (text i)) (λ es, Q (EvClock i :: es))) → yields (clock env ≫= k) Q.
Proof. intros Hk. unfold clock. apply yields_bind, yields_call_bind. intros i. apply yields_ret, Hk. Qed.

(** The fault of an injection is on record, or its cleanup was asked for. *)
Definition accounted (injection : FailureInjection) (es : list event) : Prop :=
  (∃ c, EvSave c None ∈ es ∧ Injection c = injection ∧ State c = FailureScenarioInjected) ∨
  (∃ answer, EvCleanup injection answer ∈ es).

(** The calls of one exercise that starts with an injection. *)
Definition injects_once (es : list event) : Prop :=
  ∃ answer rest, es = EvInject answer :: rest ∧ Forall no_inject rest ∧
    (∀ injection, answer = Ok injection → FailureInjection_Validate injection = None → accounted injection rest) ∧
    (∀ injection, answer = Ok injection → FailureInjection_Validate injection ≠ None → rest = []).

Lemma recover_cleans c err :
  yields (recoverFailureScenarioAfterCheckpointError env executor store scenario matrixFingerprint ownershipMarker c err)
    (λ es _, ∃ answer rest, es = EvCleanup (Injection c) answer :: rest).
Proof. unfold recoverFailureScenarioAfterCheckpointError, clean. apply yields_call_bind. intros answer w. by eexists _, _. Qed.

Lemma inject_once :
  yields (inject_fault env executor store scenario matrixFingerprint ownershipMarker) (λ es _, injects_once es).
Proof.
  unfold inject_fault. apply yields_call_bind. intros [injection|err].
  2:{ apply yields_ret. exists (Err err), []. by split_and!; [|constructor|..]. }
  destruct (FailureInjection_Validate injection) as [err|] eqn:Hv.
  { apply yields_ret. exists (Ok injection), []. split_and!; [done|constructor| |done]. intros ? [= <-]. by rewrite Hv. }
  intros w. eexists _, _. split; [reflexivity|]. split_and!; [| |by intros ? [= <-] []].
  - match goal with |- Forall _ (events ?m w) => assert (He : emits no_inject m) end; [|apply He].
    apply emits_bind; [done|]. intros ?. apply emits_bind; [done|].
    intros [err|]; [apply recover_no_inject|apply observe_no_inject].
  - intros ? [= <-] _. revert w.
    match goal with |- ∀ w, accounted _ (events ?m w) => change (yields m (λ es _, accounted injection es)) end.
    apply yields_clock_bind. intros i.
    assert (Hrecover : ∀ c err pre, Injection c = injection →
      yields (recoverFailureScenarioAfterCheckpointError env executor store scenario matrixFingerprint ownershipMarker c err)
        (λ es _, accounted injection (pre ++ es))).
    { intros c err pre Hc. eapply yields_weaken; [apply recover_cleans|]. intros es a (answer&rest&->). right. exists answer.
      rewrite Hc. apply elem_of_app. right. apply list_elem_of_here. }
    apply yields_save_bind; [intros err; by apply (Hrecover _ _ [_])|]. intros _ [err|]; [by apply (Hrecover _ _ [_; _])|].
    intros w. left. eexists. split; [apply list_elem_of_further, list_elem_of_here|done].
Qed.

Lemma run_injects :
  yields (RunFailureScenario env executor store scenario matrixFingerprint ownershipMarker) (λ es _,
    Forall no_inject es ∨
    ∃ started c err rest, es = EvClock started :: EvLoad (c, Some err) :: rest ∧
      errors_Is "certification.ErrFailureCheckpointNotFound" err = true ∧ State c = "" ∧ injects_once rest).
Proof.
  unfold RunFailureScenario. destruct (_ ;;? _); [apply yields_ret; by left; constructor|].
  apply yields_call_bind. intros started. destruct (_ ;;? _); [apply yields_ret; left; by repeat constructor|].
  apply yields_call_bind. intros loaded.
  assert (Hquiet : ∀ m : eff event W (FailureScenarioRun * gerror), emits no_inject m → yields m (λ es _,
    Forall no_inject (EvClock started :: EvLoad loaded :: es) ∨
    ∃ started0 c err rest, EvClock started :: EvLoad loaded :: es = EvClock started0 :: EvLoad (c, Some err) :: rest ∧
      errors_Is "certification.ErrFailureCheckpointNotFound" err = true ∧ State c = "" ∧ injects_once rest)).
  { intros m Hm w. left. do 2 (constructor; [exact I|]). apply Hm. }
  destruct (check_loaded _ _ _ _) as [err|] eqn:Hc; [apply Hquiet, emits_ret|]. cbv zeta.
  destruct (_ && _); [apply Hquiet, emits_ret|].
  destruct (bool_decide _); [apply Hquiet, skip_no_inject|].
  destruct (bool_decide _); [apply Hquiet, resume_no_inject|].
  destruct (bool_decide (State loaded.1 = "")) eqn:Hst; [|apply Hquiet, observe_no_inject].
  apply bool_decide_eq_true in Hst. destruct loaded as [c [err|]]; cbn [fst snd] in *; cbn [check_loaded] in Hc.
  - eapply yields_weaken; [apply inject_once|]. intros es a Hes. right. exists started, c, err, es. split_and!; [done| |done|done].
    apply fail_if_None in Hc. by apply negb_false_iff.
  - apply err_seq_None in Hc as [Hc _]. apply err_wrap_None in Hc. unfold FailureScenarioCheckpoint_Validate in Hc.
    rewrite !err_seq_None in Hc. destruct Hc as (_&_&_&_&_&_&_&_&Hc). unfold check_state in Hc. by rewrite Hst in Hc.
Qed.
(** ** Completion *)

(** Every checkpoint that says complete follows a confirmed cleanup of its
    injection; [cleaned] are the cleanups so far. *)
Fixpoint completes (cleaned : list (FailureInjection * FailureCleanupObservation)) (es : list event) : Prop :=
  match es with
  | [] => True
  | EvCleanup injection (o, None) :: es => completes ((injection, o) :: cleaned) es
  | EvSave c _ :: es =>
      (State c = FailureScenarioComplete →
         ∃ o, (Injection c, o) ∈ cleaned ∧ FaultCleanup.confirmed o = true ∧ Cleanup c = cloneFailureCleanup o)
      ∧ completes cleaned es
  | _ :: es => completes cleaned es
  end.

Lemma completes_split cleaned es es1 c answer es2 : completes cleaned es → es = es1 ++ EvSave c answer :: es2 →
  State c = FailureScenarioComplete →
  ∃ o, ((Injection c, o) ∈ cleaned ∨ EvCleanup (Injection c) (o, None) ∈ es1) ∧
    FaultCleanup.confirmed o = true ∧ Cleanup c = cloneFailureCleanup o.
Proof.
  intros Hc -> Hst. revert cleaned Hc. induction es1 as [|e es1 IH]; intros cleaned Hc.
  { destruct Hc as [Hc _]. destruct (Hc Hst) as (o&?&?&?). exists o. split_and!; [by left|done|done]. }
  assert (Hskip : completes cleaned (es1 ++ EvSave c answer :: es2) → ∃ o,
    ((Injection c, o) ∈ cleaned ∨ EvCleanup (Injection c) (o, None) ∈ e :: es1) ∧
    FaultCleanup.confirmed o = true ∧ Cleanup c = cloneFailureCleanup o).
  { intros H. destruct (IH _ H) as (o&Ho&?&?). exists o. split_and!; [|done|done]. rewrite elem_of_cons. tauto. }
  destruct e as [| | | | |injection [o [err|]]|c1 a1]; try (by apply Hskip).
  - destruct (IH _ Hc) as (o1&Ho&?&?). exists o1. split_and!; [|done|done]. rewrite elem_of_cons in Ho. rewrite elem_of_cons.
    destruct Ho as [[[= <- <-]|]|]; tauto.
  - by destruct Hc as [_ Hc%Hskip].
Qed.

(** A save after which nothing else is checked. *)
Lemma save_completes cleaned c (k : gerror → eff event W (FailureScenarioRun * gerror)) :
  (State c = FailureScenarioComplete →
     ∃ o, (Injection c, o) ∈ cleaned ∧ FaultCleanup.confirmed o = true ∧ Cleanup c = cloneFailureCleanup o) →
  (∀ err, yields (k err) (λ es _, completes cleaned es)) →
  yields (saveFailureCheckpoint store c ≫= k) (λ es _, completes cleaned es).
Proof.
  intros Hc Hk. apply yields_save_bind; [intros err; apply Hk|]. intros _ answer.
  eapply yields_weaken; [apply Hk|]. intros es a Hes. by split.
Qed.

Lemma clock_completes cleaned (k : string → eff event W (FailureScenarioRun * gerror)) :
  (∀ i, yields (k i) (λ es _, completes cleaned es)) → yields (clock env ≫= k) (λ es _, completes cleaned es).
Proof. intros Hk. apply yields_clock_bind. intros i. eapply yields_weaken; [apply Hk|]. by intros es a Hes. Qed.

(** The cleanups known after one more. *)
Definition after_cleanup (injection : FailureInjection) (answer : FailureCleanupObservation * gerror)
    (cleaned : list (FailureInjection * FailureCleanupObservation)) :=
  match answer with (o, None) => (injection, o) :: cleaned | _ => cleaned end.

Lemma clean_completes cleaned injection (k : FailureCleanupObservation * gerror → eff event W (FailureScenarioRun * gerror)) :
  (∀ answer, yields (k answer) (λ es _, completes (after_cleanup injection answer cleaned) es)) →
  yields (clean executor scenario injection ≫= k) (λ es _, completes cleaned es).
Proof.
  intros Hk. unfold clean. apply yields_call_bind. intros [o [err|]]; (eapply yields_weaken; [apply Hk|]; by intros es a Hes).
Qed.

Lemma confirmed_clone o : FaultCleanup.confirmed (cloneFailureCleanup o) = FaultCleanup.confirmed o.
Proof. done. Qed.

Lemma recover_completes cleaned c err :
  yields (recoverFailureScenarioAfterCheckpointError env executor store scenario matrixFingerprint ownershipMarker c err)
    (λ es _, completes cleaned es).
Proof.
  unfold recoverFailureScenarioAfterCheckpointError. apply clean_completes. intros [o cerr]. cbv zeta.
  apply clock_completes. intros updatedAt. apply save_completes; [|intros; by apply yields_ret].
  set (cerr' := match FailureCleanupObservation_Validate _ with Some _ => _ | None => _ end).
  destruct (bool_decide (cerr' = None)) eqn:Hc; cbn [andb].
  - apply bool_decide_eq_true in Hc. assert (Hnone : cerr = None).
    { unfold cerr' in Hc. destruct (FailureCleanupObservation_Validate _); [by destruct cerr|done]. }
    subst cerr. rewrite confirmed_clone. destruct (FaultCleanup.confirmed o) eqn:Ho.
    + intros _. exists o. split_and!; [|done|by destruct (observed _)]. destruct (observed _); apply list_elem_of_here.
    + by destruct (observed _).
  - by destruct (observed _).
Qed.

Lemma resume_completes c : yields (resume_cleanup env executor store scenario c) (λ es _, completes [] es).
Proof.
  unfold resume_cleanup. cbv zeta. destruct (_ && _); [by apply yields_ret|]. apply clean_completes. intros [o [err|]].
  - apply clock_completes. intros updatedAt. apply save_completes; [|intros; by apply yields_ret].
    cbn [State advance]. intros Hst. exfalso. revert Hst. case_bool_decide as Hb; [by rewrite Hb|done].
  - destruct (FailureCleanupObservation_Validate o); [by apply yields_ret|]. apply clock_completes. intros updatedAt.
    apply save_completes; [|intros []; by apply yields_ret].
    destruct (FaultCleanup.confirmed o) eqn:Ho; cbn [negb].
    + intros _. exists o. split_and!; [|done|by destruct (bool_decide _)]. destruct (bool_decide _); apply list_elem_of_here.
    + cbn [State advance]. intros Hst. exfalso. revert Hst. case_bool_decide as Hb; [by rewrite Hb|done].
Qed.

Lemma observe_completes c :
  yields (observe_injected env executor store scenario matrixFingerprint ownershipMarker c) (λ es _, completes [] es).
Proof.
  unfold observe_injected. apply yields_call_bind. intros [err|]; [by apply yields_ret|].
  apply yields_call_bind. intros [o|err]; [|by apply yields_ret]. cbv zeta. destruct (_ ;;? _); [by apply yields_ret|].
  change (λ es _, completes [] (EvContext None :: EvObserve (Injection c) (Ok o) :: es)) with (λ es (_ : FailureScenarioRun * gerror), completes [] es).
  apply clock_completes. intros updatedAt. apply save_completes; [done|]. intros [err|]; [apply recover_completes|].
  apply clean_completes. intros [cleanup [err|]].
  - apply clock_completes. intros i. apply save_completes; [done|]. intros. by apply yields_ret.
  - destruct (FailureCleanupObservation_Validate cleanup); [by apply yields_ret|]. apply clock_completes. intros i.
    apply save_completes; [|intros []; by apply yields_ret].
    destruct (FaultCleanup.confirmed cleanup) eqn:Hconf; [|done]. intros _. exists cleanup. split_and!; [apply list_elem_of_here|done|done].
Qed.

Lemma inject_completes :
  yields (inject_fault env executor store scenario matrixFingerprint ownershipMarker) (λ es _, completes [] es).
Proof.
  unfold inject_fault. apply yields_call_bind. intros [injection|err]; [|by apply yields_ret].
  destruct (FailureInjection_Validate injection); [by apply yields_ret|].
  change (λ es _, completes [] (EvInject (Ok injection) :: es)) with (λ es (_ : FailureScenarioRun * gerror), completes [] es).
  apply clock_completes. intros updatedAt. apply save_completes; [done|]. intros [err|]; [apply recover_completes|apply observe_completes].
Qed.

Lemma drill_completes : Scenario.Mode scenario ≠ ScenarioUnsupported →
  yields (RunFailureScenario env executor store scenario matrixFingerprint ownershipMarker) (λ es _, completes [] es).
Proof.
  intros Hmode. unfold RunFailureScenario. destruct (_ ;;? _); [by apply yields_ret|].
  apply yields_call_bind. intros started. destruct (_ ;;? _); [by apply yields_ret|].
  apply yields_call_bind. intros loaded. destruct (check_loaded _ _ _ _); [by apply yields_ret|]. cbv zeta.
  change (λ es _, completes [] (EvClock started :: EvLoad loaded :: es)) with (λ es (_ : FailureScenarioRun * gerror), completes [] es).
  destruct (_ && _); [by apply yields_ret|]. rewrite bool_decide_eq_false_2 by done.
  destruct (bool_decide _); [apply resume_completes|]. destruct (bool_decide _); [apply inject_completes|apply observe_completes].
Qed.
End trace.

(** ** Claims *)

(** The result of a failure exercise is exactly its observation.  For a
    scenario that can be exercised and an observation that validates, the proof
    the runner builds always passes its validation; it says PASS if and only if
    the observation reports no reason, verifies every gate of the scenario and,
    where an operator is needed, names the action taken; otherwise it says FAIL
    with a reason. *)
Theorem failureProof_exact s o :
  Scenario.ID s ≠ "" → Scenario.Mode s ∈ [ScenarioAutomated; ScenarioOperatorAssisted] →
  FailureScenarioObservation_Validate o = None →
  ValidateFailureScenarioProof s (failureProof s o) = None ∧
  (Proof_.Status (failureProof s o) = "PASS" ↔ drill_passed s o) ∧
  (¬ drill_passed s o → Proof_.Status (failureProof s o) = "FAIL" ∧ blank (Proof_.Reason (failureProof s o)) = false).
Proof.
  intros Hid Hmode Ho. split_and!; [by apply failureProof_valid|apply failureProof_pass|].
  intros Hn. assert (Hst : Proof_.Status (failureProof s o) = "FAIL").
  { destruct (failureProof_status s o) as [Hp|]; [|done]. by apply failureProof_pass in Hp. }
  split; [done|]. by apply failureProof_reason.
Qed.

Section claims.
Context {W : Type} (env : failure_surroundings W) (executor : FailureScenarioExecutor W).
Context (store : FailureScenarioCheckpointStore W) (scenario : ResilienceScenario) (matrixFingerprint ownershipMarker : string).
Abbreviation run := (RunFailureScenario env executor store scenario matrixFingerprint ownershipMarker).

(** C26: a fault is injected once and accounted for.  A run injects a fault only
    as its first action after the store answered that there is no checkpoint, so
    never when it loads one, and only once; afterwards a valid injection is
    either on record as injected, or its cleanup is asked for in the same run.
    An injection that is not valid ends the run with neither. *)
Theorem RunFailureScenario_injection w es1 answer es2 :
  events run w = es1 ++ EvInject answer :: es2 →
  (∃ started c err, es1 = [EvClock started; EvLoad (c, Some err)] ∧ ScenarioCheckpoint.State c = "" ∧
     errors_Is "certification.ErrFailureCheckpointNotFound" err = true) ∧
  Forall no_inject es2 ∧
  (∀ injection, answer = Ok injection →
     (FailureInjection_Validate injection = None → accounted injection es2) ∧
     (FailureInjection_Validate injection ≠ None → es2 = [])).
Proof.
  intros He. destruct (run_injects env executor store scenario matrixFingerprint ownershipMarker w)
    as [Hnone|(started&c&err&rest&Hes&Herr&Hst&a&rest'&->&Hrest&Hok&Hbad)].
  { rewrite He, Forall_app, Forall_cons in Hnone. by destruct Hnone as (_&[]&_). }
  assert (Hsplit : es1 = [EvClock started; EvLoad (c, Some err)] ∧ answer = a ∧ es2 = rest').
  { rewrite He in Hes. destruct es1 as [|e1 [|e2 [|e3 es1]]]; [done|by injection Hes|by injection Hes as -> -> -> ->|].
    injection Hes as -> -> -> <-. rewrite Forall_app, Forall_cons in Hrest. by destruct Hrest as (_&[]&_). }
  destruct Hsplit as (->&->&->). split_and!; [by exists started, c, err|done|]. intros injection Ha.
  split; [by apply Hok|by apply (Hbad injection)].
Qed.

(** An exercise is only complete when its fault is gone.  For a scenario that
    can be exercised, every checkpoint saved as complete follows, in the same
    run, a cleanup of its own injection that answered without error that it is
    complete and preserved what it does not own, and it carries that answer. *)
Theorem RunFailureScenario_complete w es1 c answer es2 :
  Scenario.Mode scenario ≠ ScenarioUnsupported → events run w = es1 ++ EvSave c answer :: es2 →
  ScenarioCheckpoint.State c = FailureScenarioComplete →
  ∃ o, EvCleanup (ScenarioCheckpoint.Injection c) (o, None) ∈ es1 ∧ FaultCleanup.Complete o = true ∧
    FaultCleanup.UnownedPreserved o = true ∧ ScenarioCheckpoint.Cleanup c = cloneFailureCleanup o.
Proof.
  intros Hmode He Hst. pose proof (drill_completes env executor store scenario matrixFingerprint ownershipMarker Hmode w) as Hc.
  destruct (completes_split [] _ es1 c answer es2 Hc He Hst) as (o&[Ho|Ho]&[? ?]%andb_true_iff&?); [by apply elem_of_nil in Ho|].
  by exists o.
Qed.
End claims.

(** ** Example *)

(** The first save fails, and so the fault is cleaned up at once. *)
Module FailureExample.

Definition scenario : ResilienceScenario :=
  Scenario.with_id "scenario-task_loss"
    (drill "ops" "task-loss" "task" ScenarioAutomated [ResilienceIntegrityCheck] false true true "runbook://task" "").

Definition fault : FailureInjection :=
  {| Injection.ID := "fault-1"; Injection.OperationRefs := []; Injection.ResourceRefs := ["task-1"]; Injection.Verified := true |}.

Definition healthy : FailureScenarioObservation :=
  {| ScenarioObservation.TrafficHealthVerified := true; ScenarioObservation.QueueHealthVerified := false;
     ScenarioObservation.DatabaseHealthVerified := false; ScenarioObservation.CacheLossClassified := false;
     ScenarioObservation.IntegrityVerified := true; ScenarioObservation.FencingVerified := false;
     ScenarioObservation.MeasuredRPOSeconds := 0; ScenarioObservation.MeasuredRTOSeconds := 12;
     ScenarioObservation.OperatorAction := ""; ScenarioObservation.Reason := "" |}.

(** The world counts the saves. *)
Definition surroundings0 : failure_surroundings nat :=
  {| failure_ctx := λ w, (None, w); failure_now := λ w, ({| text := "2026-01-01T00:00:00Z"; is_zero := false |}, w) |}.

Definition executor : FailureScenarioExecutor nat :=
  {| inject := λ _ w, (Ok fault, w); observe := λ _ _ w, (Ok healthy, w);
     clean_up := λ _ _ w, ((FaultCleanup.blank_cleanup true true, None), w) |}.

Definition nothing : FailureScenarioCheckpoint :=
  {| ScenarioCheckpoint.MatrixFingerprint := ""; ScenarioCheckpoint.ScenarioID := ""; ScenarioCheckpoint.OwnershipMarker := "";
     ScenarioCheckpoint.State := ""; ScenarioCheckpoint.Injection := Injection.zero; ScenarioCheckpoint.Observation := None;
     ScenarioCheckpoint.Proof := None; ScenarioCheckpoint.Cleanup := FaultCleanup.blank_cleanup false false;
     ScenarioCheckpoint.UpdatedAt := "" |}.

Definition store : FailureScenarioCheckpointStore nat :=
  {| load_failure := λ w, ((nothing, Some (ErrSentinel "certification.ErrFailureCheckpointNotFound")), w);
     save_failure := λ _ w, (match w with O => Some (ErrNew "disk full") | _ => None end, S w) |}.

Definition run0 := RunFailureScenario surroundings0 executor store scenario "matrix-1" "run-1".
Definition first_events : list event := Eval vm_compute in events run0 0.

Lemma first_drill : events run0 0 = first_events.
Proof. vm_cast_no_check (eq_refl first_events). Qed.

Definition final_checkpoint : FailureScenarioCheckpoint := Eval vm_compute in
  match last first_events with Some (EvSave c _) => c | _ => nothing end.

Lemma RunFailureScenario_injection_witness : accounted fault (drop 3 first_events).
Proof.
  destruct (RunFailureScenario_injection surroundings0 executor store scenario "matrix-1" "run-1" 0
    (take 2 first_events) (Ok fault) (drop 3 first_events) first_drill) as (_&_&Hok).
  apply (Hok fault); reflexivity.
Defined.

Lemma RunFailureScenario_complete_witness :
  ∃ o, EvCleanup fault (o, None) ∈ take (length first_events - 1) first_events ∧ FaultCleanup.Complete o = true.
Proof.
  destruct (RunFailureScenario_complete surroundings0 executor store scenario "matrix-1" "run-1" 0
    (take (length first_events - 1) first_events) final_checkpoint None [] ltac:(discriminate) first_drill eq_refl) as (o&Ho&Hc&_).
  exists o. exact (conj Ho Hc).
Defined.

Lemma failureProof_exact_witness : Proof_.Status (failureProof scenario healthy) = "PASS".
Proof.
  apply (failureProof_exact scenario healthy ltac:(discriminate) (list_elem_of_here _ _) eq_refl).
  split_and!; reflexivity || (intros [=]).
Defined.
End FailureExample.
