(* ===== verification/Schedule.v ===== *)
(** * Certification schedules: the data and its validation
      (internal/certification/scheduler.go)

    Cells, estimates, checkpoints, pending deletions and budgets, with the
    checks [BuildSchedule] makes on them before it plans anything.  Pointers
    are options; a Go map filled from a list of distinct keys is a [gmap].
    Ranging over a map only decides which of several errors is reported: the
    model takes the order of the map's literal, and markers in the order they
    first appear.  The clock is an argument, in nanoseconds since the epoch. *)

From S2P Require Import Prelude GoStrings Regex GoEncoding Secretsafe Dfs Sdk GoTime Coverage Sessions LocalCapacity.

Local Open Scope Z_scope.

(** ** Statuses *)

(* internal/certification/matrix.go, lines 16-21: CapabilityStatus *)
Definition CapabilityCompatible := "magelift-compatible".
(* internal/certification/matrix.go, lines 18-18: CapabilityExperimental *)
Definition CapabilityExperimental := "experimental".
(* internal/certification/matrix.go, lines 19-19: CapabilityUnsupported *)
Definition CapabilityUnsupported := "unsupported".
(* internal/certification/matrix.go, lines 20-20: CapabilityUnavailable *)
Definition CapabilityUnavailable := "unavailable".
(* internal/certification/catalog.go, lines 88-93: CapabilityBlocked *)
Definition CapabilityBlocked := "blocked".

(** The statuses of cells that are not scheduled. *)
Definition not_runnable (status : string) : bool :=
  bool_decide (status = CapabilityUnsupported) || bool_decide (status = CapabilityUnavailable)
  || bool_decide (status = CapabilityBlocked).

(** ** Data *)

Module ExecutionEstimate.
(* internal/certification/scheduler.go, lines 40-46: ExecutionEstimate *)
Record ExecutionEstimate := {
  CloudOperationSeconds : Z;
  ResourceLifetimeSeconds : Z;
  EstimatedCostCents : Z;
  CleanupLatencySeconds : Z;
  CostKnown : bool;
}.

#[global] Instance eq_dec : EqDecision ExecutionEstimate.
Proof. solve_decision. Defined.

Definition to_json (e : ExecutionEstimate) : json :=
  JObj (ji "cloudOperationSeconds" (CloudOperationSeconds e)
    ++ ji "resourceLifetimeSeconds" (ResourceLifetimeSeconds e)
    ++ ji "estimatedCostCents" (EstimatedCostCents e)
    ++ ji "cleanupLatencySeconds" (CleanupLatencySeconds e) ++ jb "costKnown" (CostKnown e)).
End ExecutionEstimate.
Notation ExecutionEstimate := ExecutionEstimate.ExecutionEstimate.

Module ScheduleCell.
(* internal/certification/scheduler.go, lines 19-33: ScheduleCell *)
Record ScheduleCell := {
  ID : string;
  Fingerprint : string;
  ReuseFingerprint : option ReuseFingerprint;
  WarmBoundary : string;
  WarmFrom : string;
  WarmTransition : string;
  Coverage : option CoverageBoundary;
  Dependencies : list string;
  MutationKeys : list string;
  OwnershipMarker : string;
  Estimate : ExecutionEstimate;
  Status : string;
  Required : bool;
}.

Definition to_json (c : ScheduleCell) : json :=
  JObj (js "id" (ID c) ++ js "fingerprint" (Fingerprint c)
    ++ jo_opt "reuseFingerprint" (ReuseFingerprint.to_json <$> ReuseFingerprint c)
    ++ js "warmBoundary" (WarmBoundary c) ++ js_opt "warmFrom" (WarmFrom c)
    ++ js_opt "warmTransition" (WarmTransition c)
    ++ jo_opt "coverage" ((λ b, boundary_json b (CoverageBoundary.Regions b)) <$> Coverage c)
    ++ jl_opt "dependencies" (Dependencies c) ++ jl "mutationKeys" (MutationKeys c)
    ++ js "ownershipMarker" (OwnershipMarker c)
    ++ [("estimate", ExecutionEstimate.to_json (Estimate c))]
    ++ js "status" (Status c) ++ jb "required" (Required c)).
End ScheduleCell.
Notation ScheduleCell := ScheduleCell.ScheduleCell.

Module SchedulerCheckpoint.
(* internal/certification/scheduler.go, lines 51-67: SchedulerCheckpoint *)
Record SchedulerCheckpoint := {
  CellID : string;
  Fingerprint : string;
  ReuseFingerprint : option ReuseFingerprint;
  OwnershipMarker : string;
  Status : string;
  StackID : string;
  OperationIDs : list string;
  ResourceRefs : list string;
  BackupRefs : list string;
  RestoreRefs : list string;
  TelemetryRefs : list string;
  EdgeRefs : list string;
  ReuseMode : string;
  CleanupState : string;
  UpdatedAt : string;
}.

Definition to_json (c : SchedulerCheckpoint) : json :=
  JObj (js "cellId" (CellID c) ++ js "fingerprint" (Fingerprint c)
    ++ jo_opt "reuseFingerprint" (ReuseFingerprint.to_json <$> ReuseFingerprint c)
    ++ js "ownershipMarker" (OwnershipMarker c) ++ js "status" (Status c)
    ++ js_opt "stackId" (StackID c) ++ jl_opt "operationIds" (OperationIDs c)
    ++ jl_opt "resourceRefs" (ResourceRefs c) ++ jl_opt "backupRefs" (BackupRefs c)
    ++ jl_opt "restoreRefs" (RestoreRefs c) ++ jl_opt "telemetryRefs" (TelemetryRefs c)
    ++ jl_opt "edgeRefs" (EdgeRefs c) ++ js_opt "reuseMode" (ReuseMode c)
    ++ js_opt "cleanupState" (CleanupState c) ++ js_opt "updatedAt" (UpdatedAt c)).
End SchedulerCheckpoint.
Notation SchedulerCheckpoint := SchedulerCheckpoint.SchedulerCheckpoint.

Module PendingDeletion.
(* internal/certification/scheduler.go, lines 72-78: PendingDeletion *)
Record PendingDeletion := {
  OwnershipMarker : string;
  MutationKeys : list string;
  ResourceRefs : list string;
  RetryAfter : string;
  Resolved : bool;
}.
End PendingDeletion.
Notation PendingDeletion := PendingDeletion.PendingDeletion.

(* internal/certification/scheduler.go, lines 109-115: CertificationBudget *)
Record CertificationBudget := {
  MaxCloudOperationSeconds : Z;
  MaxResourceLifetimeSeconds : Z;
  MaxEstimatedCostCents : Z;
  MaxCleanupLatencySeconds : Z;
  RequireCostEstimate : bool;
}.

(** ** Small helpers *)

(* internal/certification/evidence.go, lines 53-53: fingerprintPattern *)
Definition fingerprintPattern : re := rep 64 (Cls (either (byte_in 97 102) digit)).

(* internal/certification/scheduler.go, lines 1111-1123: hasDuplicate *)
Fixpoint hasDuplicate_from (seen values : list string) : bool :=
  match values with
  | [] => false
  | value :: values =>
      bool_decide (value = "") || bool_decide (value ∈ seen) || hasDuplicate_from (value :: seen) values
  end.

Definition hasDuplicate (values : list string) : bool := hasDuplicate_from [] values.

(* internal/certification/scheduler.go, lines 1125-1136: intersects *)
Definition intersects (left right : list string) : bool :=
  existsb (λ value, bool_decide (value ∈ left)) right.

(* internal/certification/scheduler.go, lines 1138-1151: unionSorted *)
Definition unionSorted (left right : list string) : list string :=
  sort_strings (dedup [] (left ++ right)).

(* internal/certification/scheduler.go, lines 1153-1160: appendUnique *)
Definition appendUnique (values : list string) (value : string) : list string :=
  if bool_decide (value ∈ values) then values else values ++ [value].

(* internal/certification/scheduler.go, lines 1162-1166: sortedScheduleStrings *)
Definition sortedScheduleStrings (values : list string) : list string := sort_strings values.

(* internal/certification/scheduler.go, lines 1102-1109: findScheduleCell *)
Definition findScheduleCell (cells : list ScheduleCell) (id : string) : option ScheduleCell :=
  snd <$> list_find (λ c, ScheduleCell.ID c = id) cells.

(** FNV-1a on 64 bits, and [%016x]. *)
(* internal/certification/scheduler.go, lines 1168-1177: shortHash *)
Definition shortHash (value : string) : string :=
  let hash := fold_left (λ hash c, N.land (N.lxor hash (code c) * 1099511628211) 0xFFFFFFFFFFFFFFFF)%N
                (go_bytes value) 14695981039346656037%N in
  hex_encode (Sha256.be_bytes 8 hash).

(** ** Estimates and budgets *)

Section estimates.
Import ExecutionEstimate.

(* internal/certification/scheduler.go, lines 617-629: validateExecutionEstimate *)
Definition validateExecutionEstimate (cellID : string) (estimate : ExecutionEstimate) : gerror :=
  first_error (λ nv : string * Z,
    fail_if (nv.2 <? 0) (errorf "scheduler cell %q has negative %s" [GStr cellID; GStr nv.1]))
    [("cloud operation seconds", CloudOperationSeconds estimate);
     ("resource lifetime seconds", ResourceLifetimeSeconds estimate);
     ("estimated cost cents", EstimatedCostCents estimate);
     ("cleanup latency seconds", CleanupLatencySeconds estimate)].
End estimates.

(* internal/certification/scheduler.go, lines 603-615: validateCertificationBudget *)
Definition validateCertificationBudget (budget : CertificationBudget) : gerror :=
  first_error (λ nv : string * Z,
    fail_if (nv.2 <? 0) (errorf "scheduler %s cannot be negative" [GStr nv.1]))
    [("max cloud operation seconds", MaxCloudOperationSeconds budget);
     ("max resource lifetime seconds", MaxResourceLifetimeSeconds budget);
     ("max estimated cost cents", MaxEstimatedCostCents budget);
     ("max cleanup latency seconds", MaxCleanupLatencySeconds budget)].

(* internal/certification/scheduler.go, lines 586-601: validatePendingDeletions *)
Fixpoint validatePendingDeletions_from (seen : list string) (values : list PendingDeletion) : gerror :=
  match values with
  | [] => None
  | deletion :: values =>
      let marker := PendingDeletion.OwnershipMarker deletion in
      fail_if (blank marker) (ErrNew "pending deletion ownership marker is required")
      ;;? fail_if (bool_decide (PendingDeletion.MutationKeys deletion = [])
                   || hasDuplicate (PendingDeletion.MutationKeys deletion))
            (errorf "pending deletion %q requires unique mutation keys" [GStr marker])
      ;;? fail_if (bool_decide (marker ∈ seen))
            (errorf "duplicate pending deletion ownership marker %q" [GStr marker])
      ;;? validatePendingDeletions_from (marker :: seen) values
  end.

Definition validatePendingDeletions (values : list PendingDeletion) : gerror :=
  validatePendingDeletions_from [] values.

(** ** Cells *)

Section cells.
Import ScheduleCell.

(** The separator is a NUL byte. *)
(* internal/certification/scheduler.go, lines 925-933: scheduleCellIdentity *)
Definition scheduleCellIdentity (cell : ScheduleCell) : string :=
  let coverage :=
    match Coverage cell with
    | Some b => match CoverageBoundary_Fingerprint b with Ok fingerprint => fingerprint | Err _ => "" end
    | None => ""
    end in
  WarmBoundary cell +:+ nul +:+ Fingerprint cell +:+ nul +:+ OwnershipMarker cell +:+ nul +:+ coverage.

(* internal/certification/scheduler.go, lines 666-676: compatibleWarmReuseFingerprints *)
Definition compatibleWarmReuseFingerprints (baseline next : Sessions.ReuseFingerprint) : bool :=
  forallb (λ field : Sessions.ReuseFingerprint → string, bool_decide (field baseline = field next))
    [ReuseFingerprint.Fixture; ReuseFingerprint.BackupSet; ReuseFingerprint.Observability;
     ReuseFingerprint.Edge; ReuseFingerprint.ArtifactDigest; ReuseFingerprint.SchemaFingerprint;
     ReuseFingerprint.MigrationFingerprint; ReuseFingerprint.OwnershipMarker;
     ReuseFingerprint.StateBackend].

(** The complete reuse fingerprint of a cell is the preimage of its
    fingerprint. *)
(* internal/certification/scheduler.go, lines 411-425: validateScheduleCells *)
Definition check_reuse (cell : ScheduleCell) (f : Sessions.ReuseFingerprint) : gerror :=
  err_wrap (wrapf "scheduler cell %q reuse fingerprint: %w" [GStr (ID cell)]) (ReuseFingerprint_Validate f)
  ;;? fail_if (negb (bool_decide (ReuseFingerprint.OwnershipMarker f = OwnershipMarker cell)))
        (errorf "scheduler cell %q reuse fingerprint ownership marker does not match the cell scope"
           [GStr (ID cell)])
  ;;? match ReuseFingerprint_Digest f with
      | Err e => Some (wrapf "scheduler cell %q reuse fingerprint digest: %w" [GStr (ID cell)] e)
      | Ok digest =>
          fail_if (negb (bool_decide (digest = Fingerprint cell)))
            (errorf "scheduler cell %q fingerprint does not match its complete reuse fingerprint"
               [GStr (ID cell)])
      end.

(* internal/certification/scheduler.go, lines 449-449: validateScheduleCells *)
Definition valid_status (status : string) : bool :=
  bool_decide (status ∈ [CapabilityCompatible; CapabilityExperimental; CapabilityUnsupported;
                         CapabilityUnavailable; CapabilityBlocked]).

(** The checks of the first loop that look at one cell. *)
(* internal/certification/scheduler.go, lines 399-456: validateScheduleCells *)
Definition check_cell (known : list string) (cell : ScheduleCell) : gerror :=
  let about text := errorf text [GStr (ID cell)] in
  fail_if (bool_decide (is_Some (ValidateSecretSafeValue (to_json cell))))
    (about "scheduler cell %q contains secret-like material")
  ;;? fail_if (blank (ID cell)) (ErrNew "scheduler cell ID is required")
  ;;? fail_if (bool_decide (ID cell ∈ known)) (about "duplicate scheduler cell %q")
  ;;? fail_if (negb (MatchString fingerprintPattern (Fingerprint cell)))
        (about "scheduler cell %q requires a SHA-256 fingerprint")
  ;;? match ReuseFingerprint cell with None => None | Some f => check_reuse cell f end
  ;;? fail_if (blank (WarmBoundary cell)) (about "scheduler cell %q warm boundary is required")
  ;;? match Coverage cell with
      | None => None
      | Some b => err_wrap (wrapf "scheduler cell %q coverage boundary: %w" [GStr (ID cell)])
                    (CoverageBoundary_Validate b)
      end
  ;;? fail_if (negb (bool_decide (WarmTransition cell = "")) && bool_decide (WarmFrom cell = ""))
        (about "scheduler cell %q declares a warm transition without a baseline")
  ;;? fail_if (blank (OwnershipMarker cell)) (about "scheduler cell %q ownership marker is required")
  ;;? fail_if (bool_decide (MutationKeys cell = [])) (about "scheduler cell %q requires mutation keys")
  ;;? validateExecutionEstimate (ID cell) (Estimate cell)
  ;;? fail_if (hasDuplicate (MutationKeys cell)) (about "scheduler cell %q contains duplicate mutation keys")
  ;;? fail_if (negb (valid_status (Status cell)))
        (errorf "scheduler cell %q has invalid status %q" [GStr (ID cell); GStr (Status cell)])
  ;;? fail_if (negb (bool_decide (WarmFrom cell = "")) && bool_decide (WarmFrom cell = ID cell))
        (about "scheduler cell %q cannot warm from itself").

(** The first loop: one cell after the other, with the estimate of every
    identity met so far. *)
(* internal/certification/scheduler.go, lines 398-464: validateScheduleCells *)
Fixpoint check_cells (known : list string) (estimates : gmap string ExecutionEstimate)
    (cells : list ScheduleCell) : gerror :=
  match cells with
  | [] => None
  | cell :: cells =>
      check_cell known cell
      ;;? fail_if (match estimates !! scheduleCellIdentity cell with
                   | Some estimate => negb (bool_decide (estimate = Estimate cell))
                   | None => false
                   end)
            (errorf "scheduler cell %q has an estimate different from its reusable execution unit"
               [GStr (ID cell)])
      ;;? check_cells (ID cell :: known) (<[scheduleCellIdentity cell := Estimate cell]> estimates) cells
  end.

(** The second loop: dependencies ... *)
(* internal/certification/scheduler.go, lines 466-478: validateScheduleCells *)
Fixpoint check_dependencies (known : gmap string ScheduleCell) (id : string)
    (seen dependencies : list string) : gerror :=
  match dependencies with
  | [] => None
  | dependency :: rest =>
      fail_if (absent known dependency)
        (errorf "scheduler cell %q depends on unknown cell %q" [GStr id; GStr dependency])
      ;;? fail_if (bool_decide (dependency = id))
            (errorf "scheduler cell %q cannot depend on itself" [GStr id])
      ;;? fail_if (bool_decide (dependency ∈ seen))
            (errorf "scheduler cell %q contains duplicate dependency %q" [GStr id; GStr dependency])
      ;;? check_dependencies known id (dependency :: seen) rest
  end.

(** The transition between two coverage boundaries, when both declare one. *)
Definition check_warm_coverage (cell : ScheduleCell) (baseline next : CoverageBoundary) : gerror :=
  match CoverageBoundary_Fingerprint baseline, CoverageBoundary_Fingerprint next with
  | Err e, _ => Some (wrapf "scheduler warm transition %q baseline coverage: %w" [GStr (ID cell)] e)
  | Ok _, Err e => Some (wrapf "scheduler warm transition %q next coverage: %w" [GStr (ID cell)] e)
  | Ok baselineFingerprint, Ok nextFingerprint =>
      if bool_decide (baselineFingerprint = nextFingerprint) then None
      else err_wrap (wrapf "scheduler warm transition %q coverage: %w" [GStr (ID cell)])
             (ValidateCoverageTransition baseline next (WarmTransition cell))
  end.

(** ... and warm transitions. *)
(* internal/certification/scheduler.go, lines 479-514: validateScheduleCells *)
Definition check_warm (known : gmap string ScheduleCell) (cell : ScheduleCell) : gerror :=
  let about text := errorf text [GStr (ID cell)] in
  if bool_decide (WarmFrom cell = "") then None
  else match known !! WarmFrom cell with
  | None => Some (errorf "scheduler cell %q warms from unknown cell %q" [GStr (ID cell); GStr (WarmFrom cell)])
  | Some baseline =>
      fail_if (negb (bool_decide (WarmBoundary baseline = WarmBoundary cell))
               || negb (bool_decide (OwnershipMarker baseline = OwnershipMarker cell)))
        (about "scheduler warm transition %q crosses its warm boundary or ownership marker")
      ;;? fail_if (bool_decide (Fingerprint baseline = Fingerprint cell))
            (about "scheduler warm transition %q does not change its fingerprint")
      ;;? match ReuseFingerprint baseline, ReuseFingerprint cell with
          | None, None => None
          | Some f, Some g =>
              fail_if (negb (compatibleWarmReuseFingerprints f g))
                (about "scheduler warm transition %q changes a cold reusable boundary")
          | _, _ => Some (about "scheduler warm transition %q has incomplete reusable boundary")
          end
      ;;? match Coverage baseline, Coverage cell with
          | None, None => None
          | Some b, Some c => check_warm_coverage cell b c
          | _, _ => Some (about "scheduler warm transition %q has incomplete coverage boundaries")
          end
  end.

(** Cells that share an ownership marker are one baseline and its
    transitions. *)
(* internal/certification/scheduler.go, lines 516-524: validateScheduleCells *)
Definition check_ownership (cells : list ScheduleCell) : gerror :=
  first_error (λ marker,
    let markerCells := filter (λ c, OwnershipMarker c = marker) cells in
    let baselineKey := default "" (scheduleCellIdentity <$> head markerCells) in
    first_error (λ cell,
      fail_if (negb (bool_decide (scheduleCellIdentity cell = baselineKey)) && bool_decide (WarmFrom cell = ""))
        (errorf "duplicate ownership marker %q crosses incompatible cells without an explicit warm transition"
           [GStr marker])) markerCells)
    (dedup [] (OwnershipMarker <$> cells)).

Definition cell_deps (known : gmap string ScheduleCell) (id : string) : list string :=
  match known !! id with Some cell => Dependencies cell | None => [] end.

(* internal/certification/scheduler.go, lines 1064-1100: scheduleDependencyCycle *)
Definition scheduleDependencyCycle (cells : list ScheduleCell) : gerror :=
  match dfs (cell_deps (by_id ID cells)) (length cells) (sort_strings (ID <$> cells)) with
  | Some (Cycle id) => Some (errorf "scheduler dependency cycle at %q" [GStr id])
  | Some (Visited _) => None
  | None => Some (ErrNew "fuel")
  end.

(* internal/certification/scheduler.go, lines 391-529: validateScheduleCells *)
Definition validateScheduleCells (cells : list ScheduleCell) : gerror :=
  let known := by_id ID cells in
  fail_if (bool_decide (cells = [])) (ErrNew "scheduler requires at least one cell")
  ;;? check_cells [] ∅ cells
  ;;? first_error (λ cell, check_dependencies known (ID cell) [] (Dependencies cell)
                           ;;? check_warm known cell) cells
  ;;? check_ownership cells
  ;;? scheduleDependencyCycle cells.
End cells.

(** ** Checkpoints *)

Section checkpoints.
Import SchedulerCheckpoint.

Definition day_ns : Z := 24 * 3600 * 1000000000.

(** The reuse fingerprint of a checkpoint has the planned digest. *)
(* internal/certification/scheduler.go, lines 554-571: validateCheckpoints *)
Definition check_planned_reuse (checkpoint : SchedulerCheckpoint) (planned : Sessions.ReuseFingerprint) : gerror :=
  let about := [GStr (CellID checkpoint)] in
  match ReuseFingerprint checkpoint with
  | None => Some (errorf "checkpoint for cell %q is missing the complete reuse fingerprint" about)
  | Some f =>
      err_wrap (wrapf "checkpoint for cell %q reuse fingerprint: %w" about) (ReuseFingerprint_Validate f)
      ;;? match ReuseFingerprint_Digest planned, ReuseFingerprint_Digest f with
          | Err e, _ => Some (wrapf "planned reuse fingerprint for cell %q: %w" about e)
          | Ok _, Err e => Some (wrapf "checkpoint reuse fingerprint for cell %q: %w" about e)
          | Ok plannedDigest, Ok checkpointDigest =>
              fail_if (negb (bool_decide (checkpointDigest = plannedDigest)))
                (errorf "checkpoint for cell %q has a reuse fingerprint different from the planned boundary" about)
          end
  end.

(* internal/certification/scheduler.go, lines 537-582: validateCheckpoints *)
Definition check_checkpoint (clock : Z) (known : gmap string ScheduleCell) (seen : gmap string SchedulerCheckpoint)
    (checkpoint : SchedulerCheckpoint) : gerror :=
  let about := [GStr (CellID checkpoint)] in
  fail_if (bool_decide (is_Some (ValidateSecretSafeValue (to_json checkpoint))))
    (errorf "checkpoint for cell %q contains secret-like material" about)
  ;;? match known !! CellID checkpoint with
      | None => Some (errorf "checkpoint references unknown cell %q" about)
      | Some cell =>
          fail_if (negb (absent seen (CellID checkpoint))) (errorf "duplicate checkpoint for cell %q" about)
          ;;? fail_if (negb (bool_decide (Fingerprint checkpoint = ScheduleCell.Fingerprint cell)))
                (errorf "stale checkpoint for cell %q: fingerprint %q does not match %q"
                   [GStr (CellID checkpoint); GStr (Fingerprint checkpoint); GStr (ScheduleCell.Fingerprint cell)])
          ;;? fail_if (negb (bool_decide (OwnershipMarker checkpoint = ScheduleCell.OwnershipMarker cell)))
                (errorf "checkpoint ownership marker for cell %q does not match the planned scope" about)
          ;;? match ScheduleCell.ReuseFingerprint cell with
              | None => None
              | Some planned => check_planned_reuse checkpoint planned
              end
          ;;? fail_if (negb (bool_decide (Status checkpoint ∈ ["PASS"; "FAIL"; "PENDING"; "IN_PROGRESS"])))
                (errorf "checkpoint for cell %q has invalid status %q"
                   [GStr (CellID checkpoint); GStr (Status checkpoint)])
          ;;? if bool_decide (UpdatedAt checkpoint = "") then None
              else fail_if (match parse_rfc3339 (UpdatedAt checkpoint) with
                            | Some t => clock + day_ns <? t
                            | None => true
                            end)
                     (errorf "checkpoint for cell %q has invalid updatedAt" about)
      end.

Fixpoint validateCheckpoints_from (clock : Z) (known : gmap string ScheduleCell)
    (seen : gmap string SchedulerCheckpoint) (values : list SchedulerCheckpoint)
    : result (gmap string SchedulerCheckpoint) :=
  match values with
  | [] => Ok seen
  | checkpoint :: values =>
      check_checkpoint clock known seen checkpoint ;;!
      validateCheckpoints_from clock known (<[CellID checkpoint := checkpoint]> seen) values
  end.

(* internal/certification/scheduler.go, lines 531-584: validateCheckpoints *)
Definition validateCheckpoints (clock : Z) (cells : list ScheduleCell) (values : list SchedulerCheckpoint)
    : result (gmap string SchedulerCheckpoint) :=
  validateCheckpoints_from clock (by_id ScheduleCell.ID cells) ∅ values.
End checkpoints.

Section deletions.
Import ScheduleCell.

(* internal/certification/scheduler.go, lines 678-693: rejectPendingDeletionReuse *)
Definition rejectPendingDeletionReuse (cells : list ScheduleCell) (completed : gset string)
    (deletions : list PendingDeletion) : gerror :=
  first_error (λ deletion,
    if PendingDeletion.Resolved deletion then None
    else first_error (λ cell,
      if bool_decide (ID cell ∈ completed) then None
      else fail_if (intersects (MutationKeys cell) (PendingDeletion.MutationKeys deletion))
             (errorf "cell %q is blocked by unresolved asynchronous deletion for ownership marker %q"
                [GStr (ID cell); GStr (PendingDeletion.OwnershipMarker deletion)])) cells) deletions.

Definition status_of (cells : list ScheduleCell) (id : string) : string :=
  default "" (Status <$> findScheduleCell cells id).

(** Dependencies of the cells still to run that will not run. *)
(* internal/certification/scheduler.go, lines 246-262: BuildSchedule *)
Definition check_runnable_dependencies (cells : list ScheduleCell) (completed : gset string) : gerror :=
  first_error (λ cell,
    if not_runnable (Status cell) || bool_decide (ID cell ∈ completed) then None
    else first_error (λ dependency,
      if bool_decide (dependency ∈ completed) then None
      else fail_if (not_runnable (status_of cells dependency))
             (errorf "cell %q depends on non-runnable cell %q (%s)"
                [GStr (ID cell); GStr dependency; GStr (status_of cells dependency)]))
      (Dependencies cell)) cells.
End deletions.
