(* ===== verification/Units.v ===== *)
(** * Execution units and batches (internal/certification/scheduler.go)

    Cells of one identity become one unit, a warm transition is a unit of its
    own; units inherit the dependencies of their cells and are packed into
    batches.  A map of pointers that the code mutates in place is a [gmap] of
    values updated at their key; slices that the code clones are values.
    [sort.Slice] by ID leaves units with equal IDs in any order: they are
    taken in the order of [map_to_list]. *)

From S2P Require Import Prelude GoStrings Regex GoEncoding Sdk Coverage Sessions Schedule.

Local Open Scope Z_scope.

Module ExecutionUnit.
(* internal/certification/scheduler.go, lines 117-134: ExecutionUnit *)
Record ExecutionUnit := {
  ID : string;
  CellIDs : list string;
  BaselineCellID : string;
  Fingerprint : string;
  WarmBoundary : string;
  WarmTransition : string;
  Coverage : option CoverageBoundary;
  OwnershipMarker : string;
  Cold : bool;
  MigrationOwner : bool;
  DependsOn : list string;
  MutationKeys : list string;
  Estimate : ExecutionEstimate;
  Required : bool;
  ReuseSessionID : string;
  ReuseFingerprint : option ReuseFingerprint;
}.

(** The zero value. *)
Definition zero : ExecutionUnit :=
  {| ID := ""; CellIDs := []; BaselineCellID := ""; Fingerprint := ""; WarmBoundary := ""; WarmTransition := "";
     Coverage := None; OwnershipMarker := ""; Cold := false; MigrationOwner := false; DependsOn := [];
     MutationKeys := [];
     Estimate := {| ExecutionEstimate.CloudOperationSeconds := 0; ExecutionEstimate.ResourceLifetimeSeconds := 0;
       ExecutionEstimate.EstimatedCostCents := 0; ExecutionEstimate.CleanupLatencySeconds := 0;
       ExecutionEstimate.CostKnown := false |};
     Required := false; ReuseSessionID := ""; ReuseFingerprint := None |}.

(** Assignments to the fields that change after a unit is created. *)
Definition set_cells (cellIDs : list string) (baseline : string) (keys : list string) (required : bool)
    (u : ExecutionUnit) : ExecutionUnit :=
  {| ID := ID u; CellIDs := cellIDs; BaselineCellID := baseline; Fingerprint := Fingerprint u;
     WarmBoundary := WarmBoundary u; WarmTransition := WarmTransition u; Coverage := Coverage u;
     OwnershipMarker := OwnershipMarker u; Cold := Cold u; MigrationOwner := MigrationOwner u;
     DependsOn := DependsOn u; MutationKeys := keys; Estimate := Estimate u; Required := required;
     ReuseSessionID := ReuseSessionID u; ReuseFingerprint := ReuseFingerprint u |}.

Definition set_reuse (cold : bool) (session : string) (u : ExecutionUnit) : ExecutionUnit :=
  {| ID := ID u; CellIDs := CellIDs u; BaselineCellID := BaselineCellID u; Fingerprint := Fingerprint u;
     WarmBoundary := WarmBoundary u; WarmTransition := WarmTransition u; Coverage := Coverage u;
     OwnershipMarker := OwnershipMarker u; Cold := cold; MigrationOwner := MigrationOwner u;
     DependsOn := DependsOn u; MutationKeys := MutationKeys u; Estimate := Estimate u;
     Required := Required u; ReuseSessionID := session; ReuseFingerprint := ReuseFingerprint u |}.

Definition set_depends (depends : list string) (u : ExecutionUnit) : ExecutionUnit :=
  {| ID := ID u; CellIDs := CellIDs u; BaselineCellID := BaselineCellID u; Fingerprint := Fingerprint u;
     WarmBoundary := WarmBoundary u; WarmTransition := WarmTransition u; Coverage := Coverage u;
     OwnershipMarker := OwnershipMarker u; Cold := Cold u; MigrationOwner := MigrationOwner u;
     DependsOn := depends; MutationKeys := MutationKeys u; Estimate := Estimate u;
     Required := Required u; ReuseSessionID := ReuseSessionID u; ReuseFingerprint := ReuseFingerprint u |}.
End ExecutionUnit.
Notation ExecutionUnit := ExecutionUnit.ExecutionUnit.
Import ExecutionUnit.

(* internal/certification/scheduler.go, lines 905-905: makeExecutionUnits *)
Definition unit_le (u v : ExecutionUnit) : Prop := String.le (ID u) (ID v).

#[export] Instance unit_le_dec : RelDecision unit_le.
Proof. unfold unit_le. solve_decision. Defined.

(** ** Units *)

(* internal/certification/scheduler.go, lines 909-911: executionUnitForBaseline *)
Definition executionUnitForBaseline (cell : ScheduleCell) : ExecutionUnit :=
  {| ID := "unit-" +:+ shortHash (scheduleCellIdentity cell);
     CellIDs := []; BaselineCellID := ScheduleCell.ID cell;
     Fingerprint := ScheduleCell.Fingerprint cell; WarmBoundary := ScheduleCell.WarmBoundary cell;
     WarmTransition := ""; Coverage := ScheduleCell.Coverage cell;
     OwnershipMarker := ScheduleCell.OwnershipMarker cell; Cold := true; MigrationOwner := false;
     DependsOn := []; MutationKeys := ScheduleCell.MutationKeys cell;
     Estimate := ScheduleCell.Estimate cell; Required := ScheduleCell.Required cell;
     ReuseSessionID := ""; ReuseFingerprint := ScheduleCell.ReuseFingerprint cell |}.

(* internal/certification/scheduler.go, lines 913-915: executionUnitForTransition *)
Definition executionUnitForTransition (cell : ScheduleCell) : ExecutionUnit :=
  {| ID := "transition-" +:+ shortHash (ScheduleCell.ID cell +:+ nul +:+ ScheduleCell.Fingerprint cell
                                        +:+ nul +:+ ScheduleCell.OwnershipMarker cell);
     CellIDs := [ScheduleCell.ID cell]; BaselineCellID := ScheduleCell.WarmFrom cell;
     Fingerprint := ScheduleCell.Fingerprint cell; WarmBoundary := ScheduleCell.WarmBoundary cell;
     WarmTransition := ScheduleCell.WarmTransition cell; Coverage := ScheduleCell.Coverage cell;
     OwnershipMarker := ScheduleCell.OwnershipMarker cell; Cold := false; MigrationOwner := true;
     DependsOn := []; MutationKeys := ScheduleCell.MutationKeys cell;
     Estimate := ScheduleCell.Estimate cell; Required := ScheduleCell.Required cell;
     ReuseSessionID := ""; ReuseFingerprint := ScheduleCell.ReuseFingerprint cell |}.

(** The cells that become units. *)
(* internal/certification/scheduler.go, lines 868-868: makeExecutionUnits *)
Definition scheduled (completed : gset string) (cell : ScheduleCell) : bool :=
  negb (bool_decide (ScheduleCell.ID cell ∈ completed)) && negb (not_runnable (ScheduleCell.Status cell)).

(** The completed runnable baselines, the last one of every identity. *)
(* internal/certification/scheduler.go, lines 860-866: makeExecutionUnits *)
Definition completed_baselines (completed : gset string) (cells : list ScheduleCell) : gmap string ScheduleCell :=
  fold_left (λ m cell,
    if bool_decide (ScheduleCell.ID cell ∈ completed) && negb (not_runnable (ScheduleCell.Status cell))
       && bool_decide (ScheduleCell.WarmFrom cell = "")
    then <[scheduleCellIdentity cell := cell]> m else m) cells ∅.

(** A new baseline unit; it is warm when a completed cell has its identity. *)
(* internal/certification/scheduler.go, lines 880-885: makeExecutionUnits *)
Definition new_baseline (baselines : gmap string ScheduleCell) (cell : ScheduleCell) : ExecutionUnit :=
  let created := executionUnitForBaseline cell in
  match baselines !! scheduleCellIdentity cell with
  | Some baseline =>
      set_reuse false ""
        (set_cells [] (ScheduleCell.ID baseline)
           (unionSorted (MutationKeys created) (ScheduleCell.MutationKeys baseline)) (Required created) created)
  | None => created
  end.

(** A cell joins the unit of its identity. *)
(* internal/certification/scheduler.go, lines 889-894: makeExecutionUnits *)
Definition join_unit (cell : ScheduleCell) (u : ExecutionUnit) : ExecutionUnit :=
  let id := ScheduleCell.ID cell in
  set_cells (CellIDs u ++ [id])
    (if ScheduleCell.Required cell && (bool_decide (BaselineCellID u = "") || String.ltb id (BaselineCellID u))
     then id else BaselineCellID u)
    (unionSorted (MutationKeys u) (ScheduleCell.MutationKeys cell))
    (Required u || ScheduleCell.Required cell) u.

(** The two maps the loop fills. *)
Abbreviation grouping := (gmap string ExecutionUnit * gmap string string)%type.

(* internal/certification/scheduler.go, lines 867-895: makeExecutionUnits *)
Definition add_cell (completed : gset string) (baselines : gmap string ScheduleCell)
    (g : grouping) (cell : ScheduleCell) : grouping :=
  let '(groups, cellToUnit) := g in
  if negb (scheduled completed cell) then g
  else if negb (bool_decide (ScheduleCell.WarmFrom cell = "")) then
    let u := executionUnitForTransition cell in
    (<[ID u := u]> groups, <[ScheduleCell.ID cell := ID u]> cellToUnit)
  else
    let key := scheduleCellIdentity cell in
    let u := join_unit cell (default (new_baseline baselines cell) (groups !! key)) in
    (<[key := u]> groups, <[ScheduleCell.ID cell := ID u]> cellToUnit).

(** The cells of a unit are sorted, and its baseline is the first of them when
    it has none. *)
(* internal/certification/scheduler.go, lines 899-902: makeExecutionUnits *)
Definition finish_unit (u : ExecutionUnit) : ExecutionUnit :=
  let cellIDs := sort_strings (CellIDs u) in
  set_cells cellIDs
    (if bool_decide (BaselineCellID u = "") then default "" (head cellIDs) else BaselineCellID u)
    (MutationKeys u) (Required u) u.

(* internal/certification/scheduler.go, lines 857-907: makeExecutionUnits *)
Definition makeExecutionUnits (cells : list ScheduleCell) (completed : gset string)
    : list ExecutionUnit * gmap string string :=
  let '(groups, cellToUnit) :=
    fold_left (add_cell completed (completed_baselines completed cells)) cells (∅, ∅) in
  (sort_by unit_le (finish_unit <$> (map_to_list groups).*2), cellToUnit).

(** ** Sessions *)

(** The session of a unit: the one its cells hold, the same for all. *)
(* internal/certification/scheduler.go, lines 819-829: applyReusableSessions *)
Fixpoint reused_session (unitID : string) (records : gmap string SessionRecord) (reused : SessionRecord)
    (cellIDs : list string) : result SessionRecord :=
  match cellIDs with
  | [] => Ok reused
  | cellID :: cellIDs =>
      match records !! cellID with
      | None => reused_session unitID records reused cellIDs
      | Some record =>
          fail_if (negb (bool_decide (SessionRecord.SessionID reused = ""))
                   && negb (bool_decide (SessionRecord.SessionID reused = SessionRecord.SessionID record)))
            (errorf "execution unit %q combines incompatible reusable sessions" [GStr unitID]) ;;!
          reused_session unitID records record cellIDs
      end
  end.

(* internal/certification/scheduler.go, lines 837-846: applyReusableSessions *)
Definition check_reused_cells (byCell : gmap string ScheduleCell) (unitID digest : string)
    (cellIDs : list string) : gerror :=
  first_error (λ cellID,
    match byCell !! cellID ≫= ScheduleCell.ReuseFingerprint with
    | None => Some (errorf "execution unit %q combines reusable and non-reusable cells" [GStr unitID])
    | Some f =>
        match ReuseFingerprint_Digest f with
        | Ok cellDigest =>
            fail_if (negb (bool_decide (cellDigest = digest)))
              (errorf "execution unit %q combines incompatible reusable fingerprints" [GStr unitID])
        | Err _ => Some (errorf "execution unit %q combines incompatible reusable fingerprints" [GStr unitID])
        end
    end) cellIDs.

(** One iteration of the loop over the units. *)
(* internal/certification/scheduler.go, lines 819-852: applyReusableSessions *)
Definition apply_session (byCell : gmap string ScheduleCell) (records : gmap string SessionRecord)
    (u : ExecutionUnit) : result ExecutionUnit :=
  reused ← reused_session (ID u) records SessionRecord.zero (CellIDs u);
  if bool_decide (SessionRecord.SessionID reused = "") then Ok u
  else match ReuseFingerprint_Digest (SessionRecord.Fingerprint reused) with
  | Err e => Err (wrapf "execution unit %q reusable session fingerprint: %w" [GStr (ID u)] e)
  | Ok digest =>
      check_reused_cells byCell (ID u) digest (CellIDs u) ;;!
      let baseline := default "" (ScheduleCell.ID <$> byCell !! BaselineCellID u) in
      fail_if (absent records baseline)
        (errorf "execution unit %q reuses a session without a reusable baseline" [GStr (ID u)]) ;;!
      Ok (set_reuse false (SessionRecord.SessionID reused) u)
  end.

Fixpoint try_map {A B} (f : A → result B) (l : list A) : result (list B) :=
  match l with
  | [] => Ok []
  | x :: l => y ← f x; ys ← try_map f l; Ok (y :: ys)
  end.

(* internal/certification/scheduler.go, lines 810-855: applyReusableSessions *)
Definition applyReusableSessions (units : list ExecutionUnit) (cells : list ScheduleCell)
    (records : gmap string SessionRecord) : result (list ExecutionUnit) :=
  if bool_decide (records = ∅) then Ok units
  else try_map (apply_session (by_id ScheduleCell.ID cells) records) units.

(** ** Dependencies between units *)

(** The update through the pointer of [byID]: the last unit with the ID. *)
Fixpoint alter_unit (f : ExecutionUnit → ExecutionUnit) (id : string) (units : list ExecutionUnit)
    : list ExecutionUnit :=
  match units with
  | [] => []
  | u :: units =>
      if bool_decide (ID u = id) && negb (bool_decide (id ∈ ID <$> units)) then f u :: units
      else u :: alter_unit f id units
  end.

(* internal/certification/scheduler.go, lines 967-969: addUnitDependencies *)
Definition depend_on (unitID other : string) (units : list ExecutionUnit) : list ExecutionUnit :=
  if bool_decide (other = unitID) then units
  else alter_unit (λ u, set_depends (appendUnique (DependsOn u) other) u) unitID units.

(* internal/certification/scheduler.go, lines 959-970: addUnitDependencies *)
Fixpoint add_dependencies (cellToUnit : gmap string string) (completed : gset string)
    (cellID unitID : string) (dependencies : list string) (units : list ExecutionUnit)
    : result (list ExecutionUnit) :=
  match dependencies with
  | [] => Ok units
  | dependency :: dependencies =>
      if bool_decide (dependency ∈ completed)
      then add_dependencies cellToUnit completed cellID unitID dependencies units
      else match cellToUnit !! dependency with
      | None => Err (errorf "cell %q dependency %q is not schedulable" [GStr cellID; GStr dependency])
      | Some other =>
          add_dependencies cellToUnit completed cellID unitID dependencies (depend_on unitID other units)
      end
  end.

(** A transition depends on the unit of its baseline. *)
(* internal/certification/scheduler.go, lines 971-980: addUnitDependencies *)
Definition add_baseline (cellToUnit : gmap string string) (completed : gset string)
    (cell : ScheduleCell) (unitID : string) (units : list ExecutionUnit) : result (list ExecutionUnit) :=
  let warm := ScheduleCell.WarmFrom cell in
  if bool_decide (warm = "") then Ok units
  else match cellToUnit !! warm with
  | Some baselineUnit => Ok (depend_on unitID baselineUnit units)
  | None =>
      fail_if (negb (bool_decide (warm ∈ completed)))
        (errorf "warm transition cell %q references unscheduled baseline %q"
           [GStr (ScheduleCell.ID cell); GStr warm]) ;;! Ok units
  end.

(* internal/certification/scheduler.go, lines 953-981: addUnitDependencies *)
Fixpoint add_cells_dependencies (cellToUnit : gmap string string) (completed : gset string)
    (cells : list ScheduleCell) (units : list ExecutionUnit) : result (list ExecutionUnit) :=
  match cells with
  | [] => Ok units
  | cell :: cells =>
      match cellToUnit !! ScheduleCell.ID cell with
      | None => add_cells_dependencies cellToUnit completed cells units
      | Some unitID =>
          units ← add_dependencies cellToUnit completed (ScheduleCell.ID cell) unitID
                    (ScheduleCell.Dependencies cell) units;
          units ← add_baseline cellToUnit completed cell unitID units;
          add_cells_dependencies cellToUnit completed cells units
      end
  end.

(* internal/certification/scheduler.go, lines 948-986: addUnitDependencies *)
Definition addUnitDependencies (units : list ExecutionUnit) (cellToUnit : gmap string string)
    (cells : list ScheduleCell) (completed : gset string) : result (list ExecutionUnit) :=
  units ← add_cells_dependencies cellToUnit completed cells units;
  Ok (map (λ u, set_depends (sort_strings (DependsOn u)) u) units).

(** ** Batches *)

Section batches.
Context (maxParallel : Z) (quotaByKey : gmap string Z).

(* internal/certification/scheduler.go, lines 1042-1049: intersectsBatch *)
Definition intersectsBatch (keys batch : list string) (remaining : gmap string ExecutionUnit) : bool :=
  existsb (λ unitID, intersects keys (default [] (MutationKeys <$> remaining !! unitID))) batch.

(* internal/certification/scheduler.go, lines 1051-1062: exceedsQuota *)
Definition exceedsQuota (keys : list string) (usage : gmap string Z) : bool :=
  existsb (λ key,
    match quotaByKey !! key with
    | Some limit => (limit <? 1) || (limit <? default 0 (usage !! key) + 1)
    | None => false
    end) keys.

(** [usage[key]++] for every key. *)
(* internal/certification/scheduler.go, lines 1026-1028: makeBatches *)
Definition count_keys (keys : list string) (usage : gmap string Z) : gmap string Z :=
  fold_left (λ usage key, <[key := default 0 (usage !! key) + 1]> usage) keys usage.

(** One pass over the ready units. *)
(* internal/certification/scheduler.go, lines 1017-1030: makeBatches *)
Fixpoint fill_batch (remaining : gmap string ExecutionUnit) (batch : list string) (usage : gmap string Z)
    (ready : list ExecutionUnit) : list string :=
  match ready with
  | [] => batch
  | u :: ready =>
      if maxParallel <=? Z.of_nat (length batch) then batch
      else if intersectsBatch (MutationKeys u) batch remaining then fill_batch remaining batch usage ready
      else if exceedsQuota (MutationKeys u) usage then fill_batch remaining batch usage ready
      else fill_batch remaining (batch ++ [ID u]) (count_keys (MutationKeys u) usage) ready
  end.

(** The remaining units whose dependencies are done, by ID. *)
(* internal/certification/scheduler.go, lines 996-1012: makeBatches *)
Definition ready_units (remaining : gmap string ExecutionUnit) (done : gset string) : list ExecutionUnit :=
  sort_by unit_le (filter (λ u, Forall (λ dependency, dependency ∈ done) (DependsOn u))
    (map_to_list remaining).*2).

(** The outer loop; [None] is fuel exhaustion. *)
(* internal/certification/scheduler.go, lines 995-1038: makeBatches *)
Fixpoint batch_loop (fuel : nat) (remaining : gmap string ExecutionUnit) (done : gset string)
    (batches : list (list string)) : option (result (list (list string))) :=
  if bool_decide (remaining = ∅) then Some (Ok batches)
  else match fuel with
  | O => None
  | S fuel =>
      let ready := ready_units remaining done in
      if bool_decide (ready = []) then
        Some (Err (ErrNew "scheduler dependency graph cannot make progress"))
      else
        let batch := fill_batch remaining [] ∅ ready in
        if bool_decide (batch = []) then
          Some (Err (ErrNew "scheduler quota or mutation-key constraints prevent progress"))
        else
          batch_loop fuel (foldr delete remaining batch) (list_to_set batch ∪ done) (batches ++ [batch])
  end.

(** Every iteration removes a unit: the number of units is enough fuel. *)
(* internal/certification/scheduler.go, lines 988-1040: makeBatches *)
Definition makeBatches (units : list ExecutionUnit) : result (list (list string)) :=
  default (Err (ErrNew "fuel")) (batch_loop (length units) (by_id ID units) ∅ []).
End batches.
