(* ===== verification/Batches.v ===== *)
(** * Batches: what [makeBatches] promises

    Lemmas on one pass over the ready units and on the outer loop, and the
    claims on the batches of a schedule. *)

From S2P Require Import Prelude GoStrings Sdk Schedule Units.
Import ExecutionUnit.

Local Open Scope Z_scope.

Implicit Types (u v : ExecutionUnit) (remaining U : gmap string ExecutionUnit) (usage : gmap string Z)
  (batch keys : list string).

(** A map of units under their own IDs. *)
Definition keyed U : Prop := ∀ id u, U !! id = Some u → ID u = id.

Definition keys_of U (id : string) : list string := default [] (MutationKeys <$> U !! id).

Lemma intersects_false left right : intersects left right = false ↔ left ## right.
Proof.
  unfold intersects. rewrite <-not_true_iff_false, existsb_exists. split.
  - intros H x Hl Hr. apply H. exists x. split; [by apply list_elem_of_In|by apply bool_decide_eq_true].
  - intros H (x&Hx&Hl%bool_decide_eq_true). apply list_elem_of_In in Hx. by eapply H.
Qed.

Lemma intersectsBatch_false keys batch remaining :
  intersectsBatch keys batch remaining = false ↔ ∀ id, id ∈ batch → keys ## keys_of remaining id.
Proof.
  unfold intersectsBatch. rewrite <-not_true_iff_false, existsb_exists. split.
  - intros H id Hid. apply intersects_false. apply not_true_iff_false. intros Hi. apply H.
    exists id. split; [by apply list_elem_of_In|done].
  - intros H (id&Hid%list_elem_of_In&Hi). apply H in Hid. apply intersects_false in Hid.
    unfold keys_of in Hid. congruence.
Qed.

Lemma count_keys_ne keys usage key :
  key ∉ keys → count_keys keys usage !! key = usage !! key.
Proof.
  unfold count_keys. revert usage. induction keys as [|k keys IH]; intros usage Hk; simpl; [done|].
  rewrite IH by set_solver. rewrite lookup_insert_ne by set_solver. done.
Qed.

(** Every key in use belongs to a unit of the batch. *)
Definition usage_covered remaining batch usage : Prop :=
  ∀ key n, usage !! key = Some n → ∃ id, id ∈ batch ∧ key ∈ keys_of remaining id.

Lemma usage_covered_snoc remaining batch usage u :
  remaining !! ID u = Some u → usage_covered remaining batch usage →
  usage_covered remaining (batch ++ [ID u]) (count_keys (MutationKeys u) usage).
Proof.
  intros Hu Hc key n Hn. destruct (decide (key ∈ MutationKeys u)) as [Hk|Hk].
  - exists (ID u). split; [set_solver|]. unfold keys_of. by rewrite Hu.
  - rewrite count_keys_ne in Hn by done. destruct (Hc key n Hn) as (id&?&?).
    exists id. split; [set_solver|done].
Qed.

Section quota.
Context (maxParallel : Z) (quotaByKey : gmap string Z).
Abbreviation exceedsQuota := (exceedsQuota quotaByKey).
Abbreviation fill_batch := (fill_batch maxParallel quotaByKey).

(** No key of the unit is closed by the quota. *)
Definition open_keys (keys : list string) : Prop :=
  ∀ key limit, key ∈ keys → quotaByKey !! key = Some limit → 1 ≤ limit.

(** For a unit that shares no key with the batch, the quota only asks whether
    a key is closed. *)
Lemma exceedsQuota_fresh remaining batch usage keys :
  usage_covered remaining batch usage → (∀ id, id ∈ batch → keys ## keys_of remaining id) →
  exceedsQuota keys usage = false ↔ open_keys keys.
Proof.
  intros Hc Hd. unfold Units.exceedsQuota. rewrite <-not_true_iff_false, existsb_exists. split.
  - intros H key limit Hk Hq. destruct (decide (1 ≤ limit)) as [|Hlt]; [done|]. exfalso. apply H.
    exists key. split; [by apply list_elem_of_In|]. rewrite Hq.
    apply orb_true_iff. left. apply Z.ltb_lt. lia.
  - intros H (key&Hk%list_elem_of_In&He). destruct (quotaByKey !! key) as [limit|] eqn:Hq; [|done].
    pose proof (H key limit Hk Hq). apply orb_true_iff in He as [He%Z.ltb_lt|He%Z.ltb_lt]; [lia|].
    destruct (usage !! key) as [n|] eqn:En; simpl in He; [|lia].
    destruct (Hc key n En) as (id&Hid&Hkey). by apply (Hd id Hid key).
Qed.

(** What a batch under construction satisfies. *)
Record batch_inv U batch : Prop := {
  inv_parallel : Z.of_nat (length batch) ≤ Z.max 0 maxParallel;
  inv_nodup : NoDup batch;
  inv_disjoint : ∀ a b, a ∈ batch → b ∈ batch → a ≠ b → keys_of U a ## keys_of U b;
  inv_open : ∀ a, a ∈ batch → open_keys (keys_of U a);
}.

Lemma fill_batch_inv remaining batch usage ready :
  (∀ u, u ∈ ready → remaining !! ID u = Some u) → NoDup (ID <$> ready) →
  (∀ u, u ∈ ready → ID u ∉ batch) →
  usage_covered remaining batch usage → batch_inv remaining batch →
  ∃ picked, fill_batch remaining batch usage ready = batch ++ picked ∧
    picked ⊆ ID <$> ready ∧ batch_inv remaining (batch ++ picked).
Proof.
  revert batch usage. induction ready as [|u ready IH]; intros batch usage Hr Hnd Hout Hc Hi; simpl.
  { exists []. by rewrite app_nil_r. }
  apply NoDup_cons in Hnd as [Hu Hnd].
  assert (Hsame : ∀ v, v ∈ ready → remaining !! ID v = Some v) by set_solver.
  destruct (maxParallel <=? _) eqn:Hm.
  { exists []. rewrite app_nil_r. by split_and!; [|set_solver|]. }
  apply Z.leb_gt in Hm.
  destruct (intersectsBatch _ _ _) eqn:Hint.
  { destruct (IH batch usage) as (p&?&?&?); [done..|set_solver|done|done|].
    exists p. split_and!; [done|set_solver|done]. }
  pose proof (proj1 (intersectsBatch_false _ _ _) Hint) as Hd.
  destruct (exceedsQuota _ _) eqn:Hq.
  { destruct (IH batch usage) as (p&?&?&?); [done..|set_solver|done|done|].
    exists p. split_and!; [done|set_solver|done]. }
  pose proof (proj1 (exceedsQuota_fresh _ _ _ _ Hc Hd) Hq) as Ho.
  assert (Hku : keys_of remaining (ID u) = MutationKeys u).
  { unfold keys_of. rewrite Hr; [done|set_solver]. }
  destruct (IH (batch ++ [ID u]) (count_keys (MutationKeys u) usage)) as (p&Hp&Hsub&Hinv); [done|done| | | |].
  - intros v Hv. rewrite not_elem_of_app. split; [set_solver|].
    intros He%list_elem_of_singleton. apply Hu. rewrite <-He. by apply list_elem_of_fmap_2.
  - apply usage_covered_snoc; [apply Hr; set_solver|done].
  - destruct Hi as [H1 H2 H3 H4]. split.
    + rewrite length_app. simpl. lia.
    + apply NoDup_app. split_and!; [done| |apply NoDup_singleton]. set_solver.
    + intros a b. rewrite !elem_of_app, !list_elem_of_singleton.
      intros [Ha| ->] [Hb| ->] Hab; [by apply H3| | |done].
      * rewrite Hku. intros x Hx Hx'. by apply (Hd a Ha x).
      * rewrite Hku. by apply Hd.
    + intros a [Ha| ->%list_elem_of_singleton]%elem_of_app; [by apply H4|by rewrite Hku].
  - exists (ID u :: p). rewrite Hp, <-app_assoc. simpl. split_and!; [done| |by rewrite <-app_assoc in Hinv].
    set_solver.
Qed.

Lemma fill_batch_extends remaining ready batch usage :
  ∃ picked, fill_batch remaining batch usage ready = batch ++ picked.
Proof.
  revert batch usage. induction ready as [|u ready IH]; intros batch usage; simpl.
  { exists []. by rewrite app_nil_r. }
  destruct (maxParallel <=? _); [exists []; by rewrite app_nil_r|].
  destruct (intersectsBatch _ _ _); [apply IH|]. destruct (exceedsQuota _ _); [apply IH|].
  destruct (IH (batch ++ [ID u]) (count_keys (MutationKeys u) usage)) as (p&->).
  exists (ID u :: p). by rewrite <-app_assoc.
Qed.

(** The first ready unit is taken unless one of its keys is closed. *)
Lemma fill_batch_nonempty remaining ready u :
  1 ≤ maxParallel → head ready = Some u → open_keys (MutationKeys u) →
  fill_batch remaining [] ∅ ready ≠ [].
Proof.
  intros Hm Hh Ho Hnil. destruct ready as [|v ready]; [done|]. injection Hh as ->.
  assert (Hq : exceedsQuota (MutationKeys u) ∅ = false).
  { apply (exceedsQuota_fresh remaining []); [|set_solver|done].
    intros key n. by rewrite lookup_empty. }
  destruct (fill_batch_extends remaining ready [ID u] (count_keys (MutationKeys u) ∅)) as (p&Hp).
  assert (fill_batch remaining [] ∅ (u :: ready)
    = fill_batch remaining [ID u] (count_keys (MutationKeys u) ∅) ready) as He; [|by rewrite He, Hp in Hnil].
  unfold Units.fill_batch at 1. fold Units.fill_batch. rewrite Hq.
  by destruct (Z.leb_spec maxParallel (Z.of_nat (length (@nil string)))); simpl in *; [lia|].
Qed.

(** ** The ready units *)

Lemma elem_of_ready remaining done u :
  u ∈ ready_units remaining done ↔
  (∃ id, remaining !! id = Some u) ∧ ∀ d, d ∈ DependsOn u → d ∈ done.
Proof.
  unfold ready_units. rewrite elem_of_sort_by, list_elem_of_filter, Forall_forall, list_elem_of_fmap. split.
  - intros [Hd ([id v]&->&Hv%elem_of_map_to_list)]. eauto.
  - intros [(id&Hid) Hd]. split; [done|]. exists (id, u). by rewrite elem_of_map_to_list.
Qed.

Lemma keyed_ids U : keyed U → ID <$> (map_to_list U).*2 = (map_to_list U).*1.
Proof.
  intros Hk. rewrite <-list_fmap_compose. apply list_fmap_ext. intros i [id u] Hi.
  apply list_elem_of_lookup_2, elem_of_map_to_list in Hi. by apply Hk.
Qed.

Lemma ready_lookup remaining done u :
  keyed remaining → u ∈ ready_units remaining done → remaining !! ID u = Some u.
Proof. intros Hk [(id&Hid) _]%elem_of_ready. by rewrite (Hk id u Hid). Qed.

Lemma ready_NoDup remaining done : keyed remaining → NoDup (ID <$> ready_units remaining done).
Proof.
  intros Hk. unfold ready_units. rewrite sort_by_perm.
  eapply sublist_NoDup; [|apply fmap_sublist, sublist_filter].
  rewrite keyed_ids by done. apply NoDup_fst_map_to_list.
Qed.

Lemma foldr_delete_lookup {A} (m : gmap string A) (l : list string) i :
  foldr delete m l !! i = if decide (i ∈ l) then None else m !! i.
Proof.
  induction l as [|x l IH]; simpl; [done|].
  destruct (decide (i = x)) as [->|]; [rewrite lookup_delete_eq, decide_True by set_solver; done|].
  rewrite lookup_delete_ne, IH by done. do 2 case_decide; set_solver.
Qed.

Lemma foldr_delete_size {A} (m : gmap string A) (l : list string) :
  l ≠ [] → (∀ x, x ∈ l → is_Some (m !! x)) → (size (foldr delete m l) < size m)%nat.
Proof.
  destruct l as [|x l]; intros Hl Hin; [done|]. clear Hl.
  apply map_subset_size, map_subset_alt. split.
  - apply map_subseteq_spec. intros i a. rewrite foldr_delete_lookup. by case_decide.
  - exists x. split; [rewrite foldr_delete_lookup; case_decide; set_solver|]. apply Hin. set_solver.
Qed.

(** ** The outer loop *)

(** The batch that one iteration builds. *)
Lemma next_batch remaining done :
  keyed remaining →
  let batch := fill_batch remaining [] ∅ (ready_units remaining done) in
  batch_inv remaining batch ∧
  (∀ id, id ∈ batch → ∃ u, remaining !! id = Some u ∧ ∀ d, d ∈ DependsOn u → d ∈ done).
Proof.
  intros Hk. destruct (fill_batch_inv remaining [] ∅ (ready_units remaining done)) as (p&Hp&Hsub&Hi).
  - intros u Hu. by eapply ready_lookup.
  - by apply ready_NoDup.
  - set_solver.
  - intros key n. by rewrite lookup_empty.
  - split; [simpl; lia|constructor|set_solver|set_solver].
  - simpl in *. rewrite Hp. split; [done|].
    intros id Hid. apply Hsub in Hid. apply list_elem_of_fmap in Hid as (u&->&Hu).
    exists u. split; [by eapply ready_lookup|]. by apply elem_of_ready in Hu as [_ ?].
Qed.

Record loop_inv U remaining (done : gset string) (batches : list (list string)) : Prop := {
  loop_sub : remaining ⊆ U;
  loop_done : done = dom U ∖ dom remaining;
  loop_perm : concat batches ≡ₚ elements done;
  loop_ok : Forall (λ batch, batch ≠ [] ∧ batch_inv U batch) batches;
  loop_deps : ∀ bs1 batch bs2 id u d, batches = bs1 ++ batch :: bs2 → id ∈ batch → U !! id = Some u →
    d ∈ DependsOn u → d ∈ concat bs1;
}.

Lemma keyed_sub U remaining : remaining ⊆ U → keyed U → keyed remaining.
Proof. intros Hs Hk id u Hu. apply Hk. by eapply lookup_weaken. Qed.

Lemma keys_of_sub U remaining id :
  remaining ⊆ U → is_Some (remaining !! id) → keys_of remaining id = keys_of U id.
Proof. intros Hs [u Hu]. unfold keys_of. by rewrite Hu, (lookup_weaken _ _ _ _ Hu Hs). Qed.

Lemma batch_inv_sub U remaining batch :
  remaining ⊆ U → (∀ id, id ∈ batch → is_Some (remaining !! id)) →
  batch_inv remaining batch → batch_inv U batch.
Proof.
  intros Hs Hin [? ? Hd Ho]. split; [done|done| |].
  - intros a b Ha Hb Hab. rewrite <-!(keys_of_sub U remaining) by auto. by apply Hd.
  - intros a Ha. rewrite <-(keys_of_sub U remaining) by auto. by apply Ho.
Qed.

Lemma loop_step U remaining done batches batch :
  keyed U → loop_inv U remaining done batches →
  batch = fill_batch remaining [] ∅ (ready_units remaining done) → batch ≠ [] →
  loop_inv U (foldr delete remaining batch) (list_to_set batch ∪ done) (batches ++ [batch]).
Proof.
  intros Hk [Hs Hdone Hp Hok Hdeps] Hb Hne.
  destruct (next_batch remaining done) as [Hi Hin]; [by eapply keyed_sub|]. rewrite <-Hb in Hi, Hin.
  assert (Hlook : ∀ id, id ∈ batch → is_Some (remaining !! id)).
  { intros id Hid. destruct (Hin id Hid) as (u&?&_). eauto. }
  assert (Hdom : ∀ id, id ∈ dom (foldr delete remaining batch) ↔ id ∈ dom remaining ∧ id ∉ batch).
  { intros id. rewrite !elem_of_dom, foldr_delete_lookup. case_decide; [|tauto]. split; [intros [??]; done|tauto]. }
  assert (Hsubd : ∀ id, id ∈ dom remaining → id ∈ dom U).
  { intros id. by apply subseteq_dom in Hs; apply Hs. }
  assert (Hbd : ∀ id, id ∈ batch → id ∈ dom remaining) by (intros; by apply elem_of_dom, Hlook).
  split.
  - etrans; [|exact Hs]. apply map_subseteq_spec. intros i u. rewrite foldr_delete_lookup. by case_decide.
  - apply set_eq. intros id. rewrite Hdone, elem_of_difference, Hdom, elem_of_union, elem_of_difference, elem_of_list_to_set.
    destruct (decide (id ∈ batch)); naive_solver.
  - rewrite concat_app. simpl. rewrite app_nil_r, Hp, elements_disj_union.
    + rewrite elements_list_to_set by apply Hi. by rewrite Permutation_app_comm.
    + intros id. rewrite Hdone, elem_of_list_to_set, elem_of_difference. naive_solver.
  - apply Forall_app. split; [done|]. constructor; [|done]. split; [done|]. by eapply batch_inv_sub.
  - intros bs1 b bs2 id u d Heq Hid Hu Hd. destruct bs2 as [|x bs2 _] using rev_ind.
    + apply app_inj_tail in Heq as [<- <-]. destruct (Hin id Hid) as (u'&Hu'&Hds).
      assert (u' = u) as -> by (pose proof (lookup_weaken _ _ _ _ Hu' Hs); congruence).
      rewrite Hp. by apply elem_of_elements, Hds.
    + rewrite app_comm_cons, app_assoc in Heq. apply app_inj_tail in Heq as [-> ->]. by eapply Hdeps.
Qed.

Lemma batch_loop_sound U fuel remaining done batches result :
  keyed U → loop_inv U remaining done batches →
  batch_loop maxParallel quotaByKey fuel remaining done batches = Some (Ok result) →
  loop_inv U ∅ (dom U) result.
Proof.
  intros Hk. revert remaining done batches.
  induction fuel as [|fuel IH]; intros remaining done batches Hi Hr; simpl in Hr; case_bool_decide as He; simplify_eq.
  1, 2: pose proof (loop_done _ _ _ _ Hi) as Hdone; rewrite dom_empty_L, difference_empty_L in Hdone; by subst.
  case_bool_decide; [done|]. case_bool_decide; [done|].
  eapply IH; [|exact Hr]. by eapply loop_step.
Qed.

(** The loop terminates: an iteration removes a unit. *)
Lemma batch_loop_fuel fuel remaining done batches :
  keyed remaining → (size remaining ≤ fuel)%nat →
  batch_loop maxParallel quotaByKey fuel remaining done batches ≠ None.
Proof.
  revert remaining done batches. induction fuel as [|fuel IH]; intros remaining done batches Hk Hf Hr; simpl in Hr;
    case_bool_decide as He; simplify_eq.
  { destruct He. apply map_size_empty_inv. lia. }
  case_bool_decide; [done|]. case_bool_decide as Hb; [done|]. revert Hr.
  destruct (next_batch remaining done Hk) as [_ Hin].
  apply IH.
  - eapply keyed_sub; [|exact Hk]. apply map_subseteq_spec. intros i u.
    rewrite foldr_delete_lookup. by case_decide.
  - pose proof (foldr_delete_size remaining _ Hb) as Hlt. specialize (Hlt (λ x Hx,
      let '(ex_intro _ u (conj Hu _)) := Hin x Hx in ex_intro _ u Hu)). lia.
Qed.

(** With an order of the dependencies and every key open, there is always a
    ready unit that can be taken. *)
Lemma batch_loop_complete U fuel remaining done batches (rank : string → nat) :
  keyed U → loop_inv U remaining done batches → 1 ≤ maxParallel →
  (∀ u d, U !! ID u = Some u → d ∈ DependsOn u → is_Some (U !! d) ∧ (rank d < rank (ID u))%nat) →
  (∀ u, U !! ID u = Some u → open_keys (MutationKeys u)) →
  (size remaining ≤ fuel)%nat →
  ∃ result, batch_loop maxParallel quotaByKey fuel remaining done batches = Some (Ok result).
Proof.
  intros Hk Hi Hm Hrank Hopen. revert remaining done batches Hi.
  induction fuel as [|fuel IH]; intros remaining done batches Hi Hf; simpl; case_bool_decide as He; eauto.
  { destruct He. apply map_size_empty_inv. lia. }
  pose proof (loop_sub _ _ _ _ Hi) as Hs.
  assert (Hkr : keyed remaining) by by eapply keyed_sub.
  assert (Hready : ready_units remaining done ≠ []).
  { intros Hnil.
    assert (∀ n id u, (rank id < n)%nat → remaining !! id = Some u → False) as Hno.
    { induction n as [|n IHn]; intros id u Hlt Hu; [lia|].
      pose proof (Hkr id u Hu) as <-.
      assert (u ∉ ready_units remaining done) as Hnr by (rewrite Hnil; set_solver).
      apply Hnr, elem_of_ready. split; [eauto|]. intros d Hd.
      destruct (Hrank u d) as [[v Hv] Hlt']; [by eapply lookup_weaken|done|].
      rewrite (loop_done _ _ _ _ Hi). apply elem_of_difference. split; [by apply elem_of_dom|].
      intros [v' Hv']%elem_of_dom. eapply (IHn d v'); [lia|done]. }
    destruct (map_choose remaining He) as (id&u&Hu). exact (Hno (S (rank id)) id u (Nat.lt_succ_diag_r _) Hu). }
  rewrite bool_decide_eq_false_2 by done.
  set (batch := fill_batch remaining [] ∅ (ready_units remaining done)).
  assert (Hb : batch ≠ []).
  { destruct (ready_units remaining done) as [|u ready] eqn:Er; [done|].
    eapply fill_batch_nonempty; [done|done|]. apply Hopen.
    eapply lookup_weaken; [|exact Hs]. eapply ready_lookup; [done|]. rewrite Er. set_solver. }
  rewrite bool_decide_eq_false_2 by done. apply IH.
  - by eapply loop_step.
  - destruct (next_batch remaining done Hkr) as [_ Hin]. fold batch in Hin.
    pose proof (foldr_delete_size remaining batch Hb) as Hlt. specialize (Hlt (λ x Hx,
      let '(ex_intro _ u (conj Hu _)) := Hin x Hx in ex_intro _ u Hu)). lia.
Qed.
End quota.

(** The quota of a key matters only when it closes the key. *)
Definition closed_quotas (quotaByKey : gmap string Z) : gmap string Z :=
  filter (λ kv, kv.2 < 1) quotaByKey.

Lemma open_keys_closed q keys : open_keys (closed_quotas q) keys ↔ open_keys q keys.
Proof.
  unfold open_keys, closed_quotas. split; intros H key limit Hk Hq.
  - destruct (decide (limit < 1)) as [Hl|]; [|lia]. eapply (H key limit Hk).
    by apply map_lookup_filter_Some.
  - apply map_lookup_filter_Some in Hq as [Hq _]. by eapply H.
Qed.

Lemma fill_batch_closed maxParallel q remaining batch usage ready :
  (∀ u, u ∈ ready → remaining !! ID u = Some u) → usage_covered remaining batch usage →
  fill_batch maxParallel q remaining batch usage ready
  = fill_batch maxParallel (closed_quotas q) remaining batch usage ready.
Proof.
  revert batch usage. induction ready as [|u ready IH]; intros batch usage Hr Hc; simpl; [done|].
  assert (Hsame : ∀ v, v ∈ ready → remaining !! ID v = Some v) by set_solver.
  destruct (_ <=? _); [done|]. destruct (intersectsBatch _ _ _) eqn:Hint; [by apply IH|].
  pose proof (proj1 (intersectsBatch_false _ _ _) Hint) as Hd.
  assert (exceedsQuota q (MutationKeys u) usage = exceedsQuota (closed_quotas q) (MutationKeys u) usage) as ->.
  {
    pose proof (exceedsQuota_fresh q _ _ _ _ Hc Hd) as H1.
    pose proof (exceedsQuota_fresh (closed_quotas q) _ _ _ _ Hc Hd) as H2.
    rewrite open_keys_closed in H2.
    destruct (exceedsQuota q _ _), (exceedsQuota (closed_quotas q) _ _); intuition congruence. }
  destruct (exceedsQuota _ _ _); [by apply IH|].
  apply IH; [done|]. apply usage_covered_snoc; [apply Hr; set_solver|done].
Qed.

Lemma batch_loop_closed maxParallel q fuel remaining done batches :
  keyed remaining →
  batch_loop maxParallel q fuel remaining done batches
  = batch_loop maxParallel (closed_quotas q) fuel remaining done batches.
Proof.
  revert remaining done batches. induction fuel as [|fuel IH]; intros remaining done batches Hk; simpl; [reflexivity|].
  rewrite <-fill_batch_closed; [|intros u Hu; by eapply ready_lookup|by intros key n ?%lookup_empty_Some].
  do 3 (case_bool_decide; [done|]). apply IH.
  eapply keyed_sub; [|exact Hk]. apply map_subseteq_spec. intros i u.
  rewrite foldr_delete_lookup. by case_decide.
Qed.

(** ** The units of a schedule *)

Section claims.
Context (maxParallel : Z) (quotaByKey : gmap string Z) (units : list ExecutionUnit).

Lemma by_id_keyed : keyed (by_id ID units).
Proof. by intros id u [_ ?]%by_id_Some. Qed.

Lemma by_id_size : (size (by_id ID units) ≤ length units)%nat.
Proof.
  unfold by_id. induction units as [|u l IH] using rev_ind; [done|].
  rewrite fold_left_app, length_app. simpl. rewrite map_size_insert. case_match; simpl; lia.
Qed.

Lemma loop_init U : loop_inv maxParallel quotaByKey U U ∅ [].
Proof.
  split; [done| |done|constructor|].
  - by rewrite difference_diag_L.
  - by intros [] ???.
Qed.

Lemma makeBatches_loop batches :
  makeBatches maxParallel quotaByKey units = Ok batches →
  loop_inv maxParallel quotaByKey (by_id ID units) ∅ (dom (by_id ID units)) batches.
Proof.
  unfold makeBatches. destruct (batch_loop _ _ _ _ _ _) as [r|] eqn:E; simpl; [|done].
  intros ->. eapply batch_loop_sound; [apply by_id_keyed|apply loop_init|exact E].
Qed.

Lemma makeBatches_perm batches :
  NoDup (ID <$> units) → makeBatches maxParallel quotaByKey units = Ok batches →
  concat batches ≡ₚ ID <$> units.
Proof.
  intros Hnd H%makeBatches_loop. rewrite (loop_perm _ _ _ _ _ _ H).
  apply NoDup_Permutation; [apply NoDup_elements|done|].
  intros id. by rewrite elem_of_elements, elem_of_dom, by_id_is_Some.
Qed.

Lemma makeBatches_spec batches :
  NoDup (ID <$> units) → makeBatches maxParallel quotaByKey units = Ok batches →
  concat batches ≡ₚ ID <$> units ∧
  (∀ batch, batch ∈ batches → batch ≠ [] ∧ Z.of_nat (length batch) ≤ maxParallel) ∧
  (∀ batch u v, batch ∈ batches → u ∈ units → v ∈ units → ID u ∈ batch → ID v ∈ batch → ID u ≠ ID v →
     MutationKeys u ## MutationKeys v) ∧
  (∀ u key limit, u ∈ units → key ∈ MutationKeys u → quotaByKey !! key = Some limit → 1 ≤ limit) ∧
  (∀ before batch after u d, batches = before ++ batch :: after → u ∈ units → ID u ∈ batch →
     d ∈ DependsOn u → d ∈ concat before).
Proof.
  intros Hnd Hr. pose proof (makeBatches_perm batches Hnd Hr) as Hp.
  apply makeBatches_loop in Hr as [_ _ _ Hok Hdeps]. rewrite Forall_forall in Hok.
  assert (Hlook : ∀ u, u ∈ units → by_id ID units !! ID u = Some u) by (intros; by apply by_id_lookup).
  assert (Hkeys : ∀ u, u ∈ units → keys_of (by_id ID units) (ID u) = MutationKeys u).
  { intros u Hu. unfold keys_of. by rewrite Hlook. }
  split_and!; [done| | | |].
  - intros batch Hb. destruct (Hok batch Hb) as [Hne [Hlen _ _ _]]. split; [done|].
    destruct batch; [done|]. simpl in *. lia.
  - intros batch u v Hb Hu Hv Hub Hvb Huv. destruct (Hok batch Hb) as [_ Hi].
    rewrite <-(Hkeys u), <-(Hkeys v) by done. by apply (inv_disjoint _ _ _ _ Hi).
  - intros u key limit Hu. assert (ID u ∈ concat batches) as Hin.
    { rewrite Hp. by apply list_elem_of_fmap_2. }
    apply list_elem_of_In, in_concat in Hin as (batch&Hb%list_elem_of_In&Hub%list_elem_of_In). destruct (Hok batch Hb) as [_ Hi].
    rewrite <-(Hkeys u) by done. by apply (inv_open _ _ _ _ Hi).
  - intros before batch after u d -> Hu Hub Hd. eapply Hdeps; [done|exact Hub|by apply Hlook|done].
Qed.

(** The batches of a schedule.  Every unit is in exactly one batch; no batch
    is empty or larger than [maxParallel]; two units of one batch share no
    mutation key; no unit with a key of quota zero is scheduled; and every
    dependency of a unit is in a strictly earlier batch. *)
Theorem makeBatches_sound batches :
  NoDup (ID <$> units) → makeBatches maxParallel quotaByKey units = Ok batches →
  concat batches ≡ₚ ID <$> units ∧
  (∀ batch, batch ∈ batches → batch ≠ [] ∧ Z.of_nat (length batch) ≤ maxParallel) ∧
  (∀ batch u v, batch ∈ batches → u ∈ units → v ∈ units → ID u ∈ batch → ID v ∈ batch → ID u ≠ ID v →
     MutationKeys u ## MutationKeys v) ∧
  (∀ u key limit, u ∈ units → key ∈ MutationKeys u → quotaByKey !! key = Some limit → 1 ≤ limit) ∧
  (∀ before batch after u d, batches = before ++ batch :: after → u ∈ units → ID u ∈ batch →
     d ∈ DependsOn u → d ∈ concat before).
Proof. apply makeBatches_spec. Qed.

(** A schedule exists.  If the dependencies are units of the list and can be
    ranked, at least one unit may run and no key is closed by its quota, then
    [makeBatches] succeeds. *)
Theorem makeBatches_complete (rank : string → nat) :
  1 ≤ maxParallel →
  (∀ u d, u ∈ units → d ∈ DependsOn u → d ∈ ID <$> units ∧ (rank d < rank (ID u))%nat) →
  (∀ u key limit, u ∈ units → key ∈ MutationKeys u → quotaByKey !! key = Some limit → 1 ≤ limit) →
  ∃ batches, makeBatches maxParallel quotaByKey units = Ok batches.
Proof.
  intros Hm Hrank Hopen. unfold makeBatches.
  destruct (batch_loop_complete maxParallel quotaByKey (by_id ID units) (length units) (by_id ID units) ∅ []
    rank) as (r&->); eauto using by_id_keyed, loop_init, by_id_size.
  - intros u d [Hu _]%by_id_Some Hd. rewrite by_id_is_Some. by apply Hrank.
  - intros u [Hu _]%by_id_Some key limit. by apply Hopen.
Qed.

(** The loop of [makeBatches] ends within as many iterations as there are
    units, whatever the units, the dependencies and the quotas: it returns
    batches or one of its two errors. *)
Theorem makeBatches_terminates :
  batch_loop maxParallel quotaByKey (length units) (by_id ID units) ∅ [] ≠ None.
Proof. apply batch_loop_fuel; [apply by_id_keyed|apply by_id_size]. Qed.

(** A quota never lets two units share a key.  The batches are those of the
    quotas below one alone: a quota of one or more changes nothing, since units
    of one batch never share a mutation key. *)
Theorem makeBatches_quota :
  makeBatches maxParallel quotaByKey units
  = makeBatches maxParallel (closed_quotas quotaByKey) units.
Proof. unfold makeBatches. by rewrite <-batch_loop_closed by apply by_id_keyed. Qed.
End claims.

(** ** Witnesses *)

Module BatchExample.
Definition unit_of (id : string) (depends keys : list string) : ExecutionUnit :=
  {| ID := id; CellIDs := [id]; BaselineCellID := id; Fingerprint := ""; WarmBoundary := "";
     WarmTransition := ""; Coverage := None; OwnershipMarker := id; Cold := true; MigrationOwner := false;
     DependsOn := depends; MutationKeys := keys;
     Estimate := {| ExecutionEstimate.CloudOperationSeconds := 0;
       ExecutionEstimate.ResourceLifetimeSeconds := 0; ExecutionEstimate.EstimatedCostCents := 0;
       ExecutionEstimate.CleanupLatencySeconds := 0; ExecutionEstimate.CostKnown := true |};
     Required := true; ReuseSessionID := ""; ReuseFingerprint := None |}.

(** Two regions, a second unit in the first and one that follows both. *)
Definition units : list ExecutionUnit :=
  [unit_of "a" [] ["eu"]; unit_of "b" [] ["us"]; unit_of "c" [] ["eu"]; unit_of "d" ["a"; "b"] ["edge"]].
Definition quotas : gmap string Z := {["eu" := 2]}.
Definition batches : list (list string) := [["a"; "b"]; ["c"; "d"]].

Definition rank (id : string) : nat := if decide (id = "d") then 1 else 0.

Lemma makeBatches_sound_witness :
  makeBatches 2 quotas units = Ok batches ∧ concat batches ≡ₚ ID <$> units.
Proof.
  assert (makeBatches 2 quotas units = Ok batches) as Hr by by vm_compute.
  split; [done|]. eapply makeBatches_sound; [|exact Hr].
  apply (bool_decide_unpack _). by vm_compute.
Defined.

Lemma makeBatches_complete_witness : ∃ result, makeBatches 2 quotas units = Ok result.
Proof.
  apply (makeBatches_complete 2 quotas units rank); [lia| |].
  - assert (Forall (λ u, Forall (λ d, d ∈ ID <$> units ∧ (rank d < rank (ID u))%nat) (DependsOn u)) units) as H.
    { apply (bool_decide_unpack _). by vm_compute. }
    intros u d Hu. rewrite Forall_forall in H. specialize (H u Hu). rewrite Forall_forall in H. auto.
  - intros u key limit _ _. unfold quotas. rewrite lookup_singleton_Some. lia.
Defined.
End BatchExample.
