(* ===== verification/UnitClaims.v ===== *)
(** * Execution units: what grouping promises

    The invariant of the loop of [makeExecutionUnits] and the claims on units
    and their dependencies.  The ID of a unit is a 64-bit hash, which the
    sources call a display key: the claims ask that it tells the units of the
    given cells apart. *)

From S2P Require Import Prelude GoStrings Regex GoEncoding Sdk Coverage Sessions Schedule Units.
Import ExecutionUnit.

Local Open Scope Z_scope.

Implicit Types (cell : ScheduleCell) (cells : list ScheduleCell) (completed : gset string) (u : ExecutionUnit).

(** The unit a cell goes to, and its key in [groups]. *)
Definition unit_id cell : string :=
  if bool_decide (ScheduleCell.WarmFrom cell = "") then ID (executionUnitForBaseline cell)
  else ID (executionUnitForTransition cell).

Definition group_key cell : string :=
  if bool_decide (ScheduleCell.WarmFrom cell = "") then scheduleCellIdentity cell else unit_id cell.

(** Cells with one unit ID have one group, and a transition is alone in its. *)
Definition hash_separates cells : Prop :=
  Forall (λ a, Forall (λ b, unit_id a = unit_id b →
    group_key a = group_key b ∧
    (ScheduleCell.WarmFrom a ≠ "" → ScheduleCell.ID a = ScheduleCell.ID b)) cells) cells.

#[export] Instance hash_separates_dec cells : base.Decision (hash_separates cells).
Proof. apply _. Defined.

Definition members completed (key : string) cells : list ScheduleCell :=
  filter (λ c, scheduled completed c = true ∧ group_key c = key) cells.

(** ** Identities and unit IDs never meet as keys: identities hold a NUL *)

Lemma hex_digit_not_nul n : (n < 16)%N → Ascii.ascii_of_N 0 ≠ hex_digit n.
Proof.
  intros Hn. assert (N.to_nat n < 16)%nat as Hm by lia. rewrite <-(N2Nat.id n).
  revert Hm. generalize (N.to_nat n). intros m Hm.
  do 16 (destruct m as [|m]; [by vm_compute|]). lia.
Qed.

Lemma land_lt n k m : (m = 2 ^ k)%N → (N.land n (m - 1) < m)%N.
Proof. intros ->. rewrite N.sub_1_r, <-N.ones_equiv, N.land_ones. apply N.mod_lt. lia. Qed.

Lemma hex_encode_nul_free bytes : Forall (λ b, b < 256)%N bytes → nul_free (hex_encode bytes).
Proof.
  intros Hb. unfold nul_free, hex_encode. rewrite go_bytes_of_bytes, list_elem_of_bind.
  intros (b&Hin&Hbs). rewrite Forall_forall in Hb. specialize (Hb b Hbs).
  assert (N.shiftr b 4 < 16)%N by (rewrite N.shiftr_div_pow2; apply N.Div0.div_lt_upper_bound; simpl; lia).
  pose proof (land_lt b 4 16 eq_refl) as Hl. simpl in Hl.
  apply elem_of_cons in Hin as [Hin|Hin%list_elem_of_singleton]; by apply hex_digit_not_nul in Hin.
Qed.

Lemma shortHash_nul_free value : nul_free (shortHash value).
Proof.
  apply hex_encode_nul_free. unfold Sha256.be_bytes. apply Forall_fmap, Forall_true. intros i. simpl.
  apply (land_lt _ 8 256). done.
Qed.

Lemma unit_id_nul_free cell : nul_free (unit_id cell).
Proof.
  unfold nul_free, unit_id. case_bool_decide; cbv [executionUnitForBaseline executionUnitForTransition ID]; rewrite go_bytes_app, elem_of_app.
  all: intros [H'|H']; [|by apply shortHash_nul_free in H']; revert H'; apply (bool_decide_unpack _); by vm_compute.
Qed.

Lemma identity_not_unit_id cell other : scheduleCellIdentity cell ≠ unit_id other.
Proof.
  intros He. apply (unit_id_nul_free other). rewrite <-He. unfold scheduleCellIdentity.
  rewrite !go_bytes_app, go_bytes_nul. set_solver.
Qed.

(** ** The loop *)

(** What a unit takes from the cell that created it. *)
Record origin cell u : Prop := {
  origin_id : ID u = unit_id cell;
  origin_fingerprint : Fingerprint u = ScheduleCell.Fingerprint cell;
  origin_marker : OwnershipMarker u = ScheduleCell.OwnershipMarker cell;
  origin_coverage : Coverage u = ScheduleCell.Coverage cell;
  origin_reuse : ReuseFingerprint u = ScheduleCell.ReuseFingerprint cell;
  origin_estimate : Estimate u = ScheduleCell.Estimate cell;
  origin_depends : DependsOn u = [];
  origin_session : ReuseSessionID u = "";
}.

Section grouping.
Context (completed : gset string) (cells : list ScheduleCell).
Abbreviation members := (members completed).

Record described (seen : list ScheduleCell) (key : string) u : Prop := {
  described_cells : CellIDs u = ScheduleCell.ID <$> members key seen;
  described_origin : ∃ c, c ∈ members key seen ∧ origin c u;
  described_covers : ∀ c, c ∈ members key seen → ScheduleCell.MutationKeys c ⊆ MutationKeys u;
  described_keys : ∀ k, k ∈ MutationKeys u → ∃ c, c ∈ cells ∧ k ∈ ScheduleCell.MutationKeys c;
  described_nodup : (∀ c, c ∈ cells → NoDup (ScheduleCell.MutationKeys c)) → NoDup (MutationKeys u);
}.

Record grouping_ok (seen : list ScheduleCell) (groups : gmap string ExecutionUnit)
    (cellToUnit : gmap string string) : Prop := {
  grouping_some : ∀ key u, groups !! key = Some u → described seen key u;
  grouping_none : ∀ key, groups !! key = None → members key seen = [];
  grouping_units : ∀ id uid, cellToUnit !! id = Some uid ↔
    ∃ c, c ∈ seen ∧ scheduled completed c = true ∧ ScheduleCell.ID c = id ∧ unit_id c = uid;
}.

Lemma elem_of_members key seen c :
  c ∈ members key seen ↔ c ∈ seen ∧ scheduled completed c = true ∧ group_key c = key.
Proof. unfold UnitClaims.members. rewrite list_elem_of_filter. tauto. Qed.

Lemma members_snoc key seen c :
  members key (seen ++ [c]) =
  members key seen ++ (if decide (scheduled completed c = true ∧ group_key c = key) then [c] else []).
Proof.
  unfold UnitClaims.members. by rewrite filter_app.
Qed.

Lemma described_other seen key u c :
  ¬ (scheduled completed c = true ∧ group_key c = key) → described seen key u → described (seen ++ [c]) key u.
Proof.
  intros Hn [? ? ? ? ?]. pose proof (members_snoc key seen c) as Hm. rewrite decide_False, app_nil_r in Hm by done.
  split; rewrite ?Hm; done.
Qed.

Lemma unionSorted_elem l1 l2 k : k ∈ unionSorted l1 l2 ↔ k ∈ l1 ∨ k ∈ l2.
Proof. unfold unionSorted. rewrite elem_of_sort_strings, elem_of_dedup, elem_of_app. set_solver. Qed.

Lemma unionSorted_NoDup l1 l2 : NoDup (unionSorted l1 l2).
Proof. unfold unionSorted. rewrite sort_strings_perm. apply NoDup_dedup. Qed.

Lemma completed_baselines_elem key c : completed_baselines completed cells !! key = Some c → c ∈ cells.
Proof.
  unfold completed_baselines. induction cells as [|x l IH] using rev_ind; simpl; [done|].
  rewrite fold_left_app. simpl. case_match; [|set_solver].
  rewrite lookup_insert_Some. set_solver.
Qed.

Lemma new_baseline_keys c k :
  k ∈ MutationKeys (new_baseline (completed_baselines completed cells) c) →
  k ∈ ScheduleCell.MutationKeys c ∨ ∃ c', c' ∈ cells ∧ k ∈ ScheduleCell.MutationKeys c'.
Proof.
  unfold new_baseline. destruct (_ !! _) as [b|] eqn:E; simpl; [|by left].
  rewrite unionSorted_elem. intros [?|?]; [by left|right]. exists b. split; [by eapply completed_baselines_elem|done].
Qed.

Lemma new_baseline_cells baselines c : CellIDs (new_baseline baselines c) = [].
Proof. unfold new_baseline. by destruct (baselines !! _). Qed.

Lemma new_baseline_origin c :
  ScheduleCell.WarmFrom c = "" → origin c (new_baseline (completed_baselines completed cells) c).
Proof.
  intros Hw. unfold new_baseline. destruct (_ !! _); split; simpl; try done;
    unfold unit_id; by rewrite bool_decide_eq_true_2.
Qed.

Lemma group_key_baseline c d :
  ScheduleCell.WarmFrom c = "" → group_key d = group_key c →
  ScheduleCell.WarmFrom d = "" ∧ scheduleCellIdentity d = scheduleCellIdentity c.
Proof.
  intros Hw. unfold group_key. rewrite (bool_decide_eq_true_2 _ Hw). case_bool_decide; [done|].
  intros He. symmetry in He. by apply identity_not_unit_id in He.
Qed.

(** The unit a baseline cell joins. *)
Lemma join_described seen groups cellToUnit c :
  c ∈ cells → ScheduleCell.WarmFrom c = "" → scheduled completed c = true →
  grouping_ok seen groups cellToUnit →
  let u := join_unit c (default (new_baseline (completed_baselines completed cells) c)
             (groups !! scheduleCellIdentity c)) in
  described (seen ++ [c]) (scheduleCellIdentity c) u ∧ ID u = unit_id c.
Proof.
  intros Hc Hw Hs [Hsome Hnone _] u.
  assert (Hkey : group_key c = scheduleCellIdentity c).
  { unfold group_key. by rewrite bool_decide_eq_true_2. }
  pose proof (members_snoc (scheduleCellIdentity c) seen c) as Hm. rewrite decide_True in Hm by done.
  destruct (groups !! scheduleCellIdentity c) as [u0|] eqn:E; simpl in u.
  - destruct (Hsome _ _ E) as [Hcells (o&Ho&Hor) Hcov Hfrom _].
    split; [split; rewrite ?Hm; simpl|].
    + by rewrite Hcells, fmap_app.
    + exists o. split; [set_solver|]. destruct Hor; by split.
    + intros d Hd k Hk. apply unionSorted_elem. apply elem_of_app in Hd as [Hd| ->%list_elem_of_singleton]; [left|by right].
      by eapply Hcov.
    + intros k [Hk|Hk]%unionSorted_elem; eauto.
    + intros _. apply unionSorted_NoDup.
    + simpl. rewrite (origin_id _ _ Hor). apply elem_of_members in Ho as (_&_&Hok). rewrite <-Hkey in Hok.
      destruct (group_key_baseline c o Hw Hok) as [Hwo Hid]. unfold unit_id.
      rewrite !bool_decide_eq_true_2 by done. simpl. by rewrite Hid.
  - rewrite (Hnone _ E) in Hm. pose proof (new_baseline_origin c Hw) as Hor.
    split; [split; rewrite ?Hm; simpl|].
    + by rewrite new_baseline_cells.
    + exists c. split; [set_solver|]. destruct Hor; by split.
    + intros d ->%list_elem_of_singleton k Hk. apply unionSorted_elem. by right.
    + intros k [Hk|Hk]%unionSorted_elem; eauto. apply new_baseline_keys in Hk as [?|?]; eauto.
    + intros _. apply unionSorted_NoDup.
    + by apply Hor.
Qed.

Lemma transition_described seen c :
  members (unit_id c) seen = [] → ScheduleCell.WarmFrom c ≠ "" → c ∈ cells → scheduled completed c = true →
  described (seen ++ [c]) (unit_id c) (executionUnitForTransition c) ∧ ID (executionUnitForTransition c) = unit_id c.
Proof.
  intros Hn Hw Hc Hs.
  assert (Hkey : group_key c = unit_id c) by (unfold group_key; by rewrite bool_decide_eq_false_2).
  assert (Hid : ID (executionUnitForTransition c) = unit_id c) by (unfold unit_id; by rewrite bool_decide_eq_false_2).
  pose proof (members_snoc (unit_id c) seen c) as Hm. rewrite decide_True, Hn in Hm by done.
  split; [split; rewrite ?Hm; simpl|done].
  - done.
  - exists c. split; [set_solver|]. by split.
  - by intros d ->%list_elem_of_singleton.
  - eauto.
  - auto.
Qed.

(** Inserting a described unit under the key of the new cell. *)
Lemma grouping_insert seen groups cellToUnit c u :
  scheduled completed c = true → ScheduleCell.ID c ∉ ScheduleCell.ID <$> seen →
  grouping_ok seen groups cellToUnit → described (seen ++ [c]) (group_key c) u → ID u = unit_id c →
  grouping_ok (seen ++ [c]) (<[group_key c := u]> groups) (<[ScheduleCell.ID c := ID u]> cellToUnit).
Proof.
  intros Hs Hfresh [Hsome Hnone Hunits] Hd Hid. split.
  - intros key v [[<- <-]|[Hne Hv]]%lookup_insert_Some; [done|].
    apply described_other; [naive_solver|by apply Hsome].
  - intros key [Hk Hne]%lookup_insert_None. rewrite members_snoc, decide_False by naive_solver.
    by rewrite (Hnone _ Hk).
  - intros id uid. rewrite lookup_insert_Some, Hunits, Hid. split.
    + intros [[<- <-]|[Hne (d&?&?&?&?)]]; [exists c|exists d]; set_solver.
    + intros (d&[Hd'| ->%list_elem_of_singleton]%elem_of_app&Hsd&<-&<-); [right|by left].
      split; [|eauto]. intros He. apply Hfresh. rewrite He. by apply list_elem_of_fmap_2.
Qed.

(** An unscheduled cell changes nothing. *)
Lemma grouping_skip seen groups cellToUnit c :
  scheduled completed c = false → grouping_ok seen groups cellToUnit →
  grouping_ok (seen ++ [c]) groups cellToUnit.
Proof.
  intros Hs [Hsome Hnone Hunits]. split.
  - intros key v Hv. apply described_other; [by rewrite Hs; naive_solver|by apply Hsome].
  - intros key Hk. rewrite members_snoc, decide_False, (Hnone _ Hk) by (rewrite Hs; naive_solver). done.
  - intros id uid. rewrite Hunits. split; intros (d&Hd&?&?&?); exists d; split; try done; [set_solver|].
    apply elem_of_app in Hd as [?| ->%list_elem_of_singleton]; [done|congruence].
Qed.

Context (Hsep : hash_separates cells) (Hids : NoDup (ScheduleCell.ID <$> cells)).

Lemma separates a b :
  a ∈ cells → b ∈ cells → unit_id a = unit_id b →
  group_key a = group_key b ∧ (ScheduleCell.WarmFrom a ≠ "" → ScheduleCell.ID a = ScheduleCell.ID b).
Proof.
  intros Ha Hb. unfold hash_separates in Hsep. rewrite Forall_forall in Hsep.
  pose proof (Hsep a Ha) as H. rewrite Forall_forall in H. by apply H.
Qed.

Lemma grouping_step seen c rest groups cellToUnit :
  cells = seen ++ c :: rest → grouping_ok seen groups cellToUnit →
  let g := add_cell completed (completed_baselines completed cells) (groups, cellToUnit) c in
  grouping_ok (seen ++ [c]) g.1 g.2.
Proof.
  intros Hcells Hg. assert (Hc : c ∈ cells) by (rewrite Hcells; set_solver).
  assert (Hseen : ∀ d, d ∈ seen → d ∈ cells) by (rewrite Hcells; set_solver).
  assert (Hfresh : ScheduleCell.ID c ∉ ScheduleCell.ID <$> seen).
  { pose proof Hids as Hn. rewrite Hcells, fmap_app in Hn. apply NoDup_app in Hn as (_&Hn&_).
    intros Hin. apply (Hn _ Hin). simpl. set_solver. }
  unfold add_cell. destruct (scheduled completed c) eqn:Hs; cbn [negb]; [|by apply grouping_skip].
  case_bool_decide as Hw; cbn [negb fst snd].
  - destruct (join_described seen groups cellToUnit c Hc Hw Hs Hg) as [Hd Hid].
    assert (Hkey : group_key c = scheduleCellIdentity c) by (unfold group_key; by rewrite bool_decide_eq_true_2).
    rewrite <-Hkey in *. by apply grouping_insert.
  - assert (Hkey : group_key c = unit_id c) by (unfold group_key; by rewrite bool_decide_eq_false_2).
    destruct (transition_described seen c) as [Hd Hid]; [|done..|].
    + destruct (members (unit_id c) seen) as [|d ds] eqn:E; [done|].
      assert (d ∈ members (unit_id c) seen) as (Hds&_&Hdk)%elem_of_members by (rewrite E; set_solver).
      unfold group_key in Hdk. case_bool_decide; [by apply identity_not_unit_id in Hdk|].
      destruct (separates c d) as [_ He]; [done|auto|done|].
      exfalso. apply Hfresh. rewrite He by done. by apply list_elem_of_fmap_2.
    + rewrite <-Hkey in Hd. pose proof (grouping_insert seen groups cellToUnit c _ Hs Hfresh Hg Hd Hid) as H.
      by rewrite Hkey, <-Hid in H.
Qed.

Lemma grouping_fold seen rest groups cellToUnit :
  cells = seen ++ rest → grouping_ok seen groups cellToUnit →
  let g := fold_left (add_cell completed (completed_baselines completed cells)) rest (groups, cellToUnit) in
  grouping_ok cells g.1 g.2.
Proof.
  revert seen groups cellToUnit. induction rest as [|c rest IH]; intros seen groups cellToUnit Hc Hg; cbn [fold_left].
  { rewrite app_nil_r in Hc. by subst seen. }
  pose proof (grouping_step seen c rest groups cellToUnit Hc Hg) as Hs. cbv zeta in Hs.
  destruct (add_cell _ _ _ _) as [groups' cellToUnit']. apply (IH (seen ++ [c])); [by rewrite <-app_assoc|done].
Qed.

Lemma grouping_init : grouping_ok [] ∅ ∅.
Proof.
  split; intros *; [by rewrite lookup_empty|done|]. rewrite lookup_empty. split; [done|]. set_solver.
Qed.
End grouping.

(** ** The units *)

Lemma makeExecutionUnits_grouping completed cells :
  hash_separates cells → NoDup (ScheduleCell.ID <$> cells) →
  ∃ groups cellToUnit, grouping_ok completed cells cells groups cellToUnit ∧
    makeExecutionUnits cells completed
    = (sort_by unit_le (finish_unit <$> (map_to_list groups).*2), cellToUnit).
Proof.
  intros Hsep Hids.
  pose proof (grouping_fold completed cells Hsep Hids [] cells ∅ ∅ eq_refl
    (grouping_init completed cells Hsep Hids)) as H.
  unfold makeExecutionUnits. destruct (fold_left _ _ _) as [groups cellToUnit]. by exists groups, cellToUnit.
Qed.

Section units.
Context (completed : gset string) (cells : list ScheduleCell).
Context (Hsep : hash_separates cells) (Hids : NoDup (ScheduleCell.ID <$> cells)).
Context (groups : gmap string ExecutionUnit) (cellToUnit : gmap string string).
Context (Hg : grouping_ok completed cells cells groups cellToUnit).
Let units := sort_by unit_le (finish_unit <$> (map_to_list groups).*2).

Lemma cell_unique c d : c ∈ cells → d ∈ cells → ScheduleCell.ID c = ScheduleCell.ID d → c = d.
Proof.
  intros Hc Hd He. pose proof (by_id_lookup _ _ _ Hids Hc) as H1. pose proof (by_id_lookup _ _ _ Hids Hd) as H2.
  rewrite He in H1. congruence.
Qed.

Lemma elem_of_units u : u ∈ units ↔ ∃ key u0, groups !! key = Some u0 ∧ u = finish_unit u0.
Proof.
  unfold units. rewrite elem_of_sort_by, list_elem_of_fmap. split.
  - intros (u0&->&([key v]&->&Hv%elem_of_map_to_list)%list_elem_of_fmap). by exists key, v.
  - intros (key&u0&Hu&->). exists u0. split; [done|]. apply list_elem_of_fmap.
    exists (key, u0). by rewrite elem_of_map_to_list.
Qed.

Lemma group_of_cell c :
  c ∈ cells → scheduled completed c = true → ∃ u, groups !! group_key c = Some u.
Proof.
  intros Hc Hs. destruct (groups !! group_key c) eqn:E; [eauto|].
  pose proof (grouping_none _ _ _ _ _ Hg _ E) as Hn.
  assert (c ∈ members completed (group_key c) cells) as Hm by by apply elem_of_members.
  rewrite Hn in Hm. set_solver.
Qed.

Lemma group_members key u c :
  groups !! key = Some u → c ∈ cells → ScheduleCell.ID c ∈ CellIDs u ↔ scheduled completed c = true ∧ group_key c = key.
Proof.
  intros Hu Hc. rewrite (described_cells _ _ _ _ _ (grouping_some _ _ _ _ _ Hg _ _ Hu)), list_elem_of_fmap. split.
  - intros (d&He&(Hd&Hs)%elem_of_members). rewrite (cell_unique c d) by done. done.
  - intros Hs. exists c. by rewrite elem_of_members.
Qed.

Lemma group_id key u c : groups !! key = Some u → c ∈ members completed key cells → ID u = unit_id c.
Proof.
  intros Hu Hc. destruct (described_origin _ _ _ _ _ (grouping_some _ _ _ _ _ Hg _ _ Hu)) as (o&Ho&Hor).
  rewrite (origin_id _ _ Hor). apply elem_of_members in Hc as (Hc&_&Hkc), Ho as (Ho&_&Hko).
  unfold group_key in Hkc, Hko. unfold unit_id at 1 2. revert Hkc Hko. 
  case_bool_decide; case_bool_decide; cbv [ID executionUnitForBaseline executionUnitForTransition].
  - by intros -> ->.
  - intros <- He. symmetry in He. by apply identity_not_unit_id in He || (symmetry in He; by apply identity_not_unit_id in He).
  - intros <- He. by apply identity_not_unit_id in He.
  - unfold unit_id. rewrite !bool_decide_eq_false_2 by done. simpl. congruence.
Qed.

Lemma group_id_inj k1 k2 u1 u2 :
  groups !! k1 = Some u1 → groups !! k2 = Some u2 → ID u1 = ID u2 → k1 = k2.
Proof.
  intros H1 H2 He.
  destruct (described_origin _ _ _ _ _ (grouping_some _ _ _ _ _ Hg _ _ H1)) as (c1&(Hc1&_&Hk1)%elem_of_members&Ho1).
  destruct (described_origin _ _ _ _ _ (grouping_some _ _ _ _ _ Hg _ _ H2)) as (c2&(Hc2&_&Hk2)%elem_of_members&Ho2).
  rewrite (origin_id _ _ Ho1), (origin_id _ _ Ho2) in He.
  destruct (separates cells Hsep c1 c2 Hc1 Hc2 He) as [Hk _]. congruence.
Qed.

Lemma units_NoDup : NoDup (ID <$> units).
Proof.
  unfold units. rewrite sort_by_perm, <-!list_fmap_compose.
  apply NoDup_fmap_2_strong; [|apply NoDup_map_to_list].
  intros [k1 u1] [k2 u2] H1%elem_of_map_to_list H2%elem_of_map_to_list He.
  assert (k1 = k2) as -> by by eapply group_id_inj. congruence.
Qed.

Lemma finish_cells u id : id ∈ CellIDs (finish_unit u) ↔ id ∈ CellIDs u.
Proof. apply elem_of_sort_strings. Qed.

(** The cells of a unit are the scheduled cells of its ID. *)
Lemma unit_cells u c :
  u ∈ units → c ∈ cells → ScheduleCell.ID c ∈ CellIDs u ↔ scheduled completed c = true ∧ unit_id c = ID u.
Proof.
  intros (key&u0&Hu&->)%elem_of_units Hc. rewrite finish_cells, (group_members key u0 c Hu Hc).
  change (ID (finish_unit u0)) with (ID u0). split.
  - intros [Hs Hk]. split; [done|]. symmetry. eapply group_id; [done|]. by apply elem_of_members.
  - intros [Hs Hid]. split; [done|]. destruct (group_of_cell c Hc Hs) as (v&Hv).
    eapply group_id_inj; [exact Hv|exact Hu|]. rewrite <-Hid. eapply group_id; [done|]. by apply elem_of_members.
Qed.

Lemma unit_cells_from u id : u ∈ units → id ∈ CellIDs u → ∃ c, c ∈ cells ∧ ScheduleCell.ID c = id.
Proof.
  intros (key&u0&Hu&->)%elem_of_units. rewrite finish_cells.
  rewrite (described_cells _ _ _ _ _ (grouping_some _ _ _ _ _ Hg _ _ Hu)).
  intros (c&->&(?&_)%elem_of_members)%list_elem_of_fmap. eauto.
Qed.

Lemma unit_cells_NoDup u : u ∈ units → NoDup (CellIDs u).
Proof.
  intros (key&u0&Hu&->)%elem_of_units. simpl. rewrite sort_strings_perm.
  rewrite (described_cells _ _ _ _ _ (grouping_some _ _ _ _ _ Hg _ _ Hu)).
  eapply sublist_NoDup; [exact Hids|apply fmap_sublist, sublist_filter].
Qed.

Lemma unit_id_lookup u v : u ∈ units → v ∈ units → ID u = ID v → u = v.
Proof.
  intros Hu Hv He. pose proof (by_id_lookup _ _ _ units_NoDup Hu) as H1.
  pose proof (by_id_lookup _ _ _ units_NoDup Hv) as H2. rewrite He in H1. congruence.
Qed.

Lemma units_partition :
  units ≫= CellIDs ≡ₚ ScheduleCell.ID <$> filter (λ c, scheduled completed c = true) cells.
Proof.
  apply NoDup_Permutation.
  - apply NoDup_bind; [|apply unit_cells_NoDup|eapply NoDup_fmap_1, units_NoDup].
    intros u v id Hu Hv Hiu Hiv. destruct (unit_cells_from u id Hu Hiu) as (c&Hc&<-).
    apply unit_cells in Hiu as [_ Hiu], Hiv as [_ Hiv]; [|done..]. apply unit_id_lookup; congruence.
  - eapply sublist_NoDup; [exact Hids|apply fmap_sublist, sublist_filter].
  - intros id. rewrite list_elem_of_bind, list_elem_of_fmap. split.
    + intros (u&Hiu&Hu). destruct (unit_cells_from u id Hu Hiu) as (c&Hc&<-).
      exists c. rewrite list_elem_of_filter. by apply unit_cells in Hiu as [? _].
    + intros (c&->&[Hs Hc]%list_elem_of_filter). destruct (group_of_cell c Hc Hs) as (u0&Hu0).
      exists (finish_unit u0). rewrite finish_cells, (group_members _ u0 c Hu0 Hc). split; [done|].
      apply elem_of_units. eauto.
Qed.
End units.

(** ** Dependencies *)

(** The units a cell asks its unit to wait for. *)
Definition needs (cellToUnit : gmap string string) completed cell (other : string) : Prop :=
  (∃ d, d ∈ ScheduleCell.Dependencies cell ∧ d ∉ completed ∧ cellToUnit !! d = Some other) ∨
  (ScheduleCell.WarmFrom cell ≠ "" ∧ cellToUnit !! ScheduleCell.WarmFrom cell = Some other).

(** The units with their dependencies given by a relation. *)
Definition depends_ok (units0 units : list ExecutionUnit) (P : string → string → Prop) : Prop :=
  Forall2 (λ u v, v = set_depends (DependsOn v) u ∧ ∀ other, other ∈ DependsOn v ↔ P (ID u) other) units0 units.

Lemma depends_ok_iff units0 units (P Q : string → string → Prop) :
  (∀ i o, P i o ↔ Q i o) → depends_ok units0 units P → depends_ok units0 units Q.
Proof.
  intros HPQ H. eapply Forall2_impl; [exact H|]. intros u v [? Hd]. split; [done|].
  intros other. by rewrite Hd, HPQ.
Qed.

Lemma depends_ok_ids units0 units P : depends_ok units0 units P → ID <$> units = ID <$> units0.
Proof. induction 1 as [|u v us vs [-> _] _ IH]; csimpl; [done|]. by rewrite IH. Qed.

Lemma alter_unit_map f id units :
  NoDup (ID <$> units) → alter_unit f id units = map (λ u, if bool_decide (ID u = id) then f u else u) units.
Proof.
  induction units as [|u units IH]; intros Hnd; simpl; [done|]. apply NoDup_cons in Hnd as [Hu Hnd].
  case_bool_decide as He; simpl; [|by rewrite IH].
  rewrite bool_decide_eq_false_2 by by rewrite <-He. simpl. f_equal.
  rewrite <-(map_id units) at 1. apply map_ext_in. intros v Hv%list_elem_of_In.
  rewrite bool_decide_eq_false_2; [done|]. intros He'. apply Hu. rewrite He, <-He'. by apply list_elem_of_fmap_2.
Qed.

Lemma depend_on_ok units0 units P unitID other :
  NoDup (ID <$> units0) → depends_ok units0 units P →
  depends_ok units0 (depend_on unitID other units)
    (λ i o, P i o ∨ (i = unitID ∧ o = other ∧ o ≠ unitID)).
Proof.
  intros Hnd Hd. unfold depend_on. case_bool_decide as He.
  { eapply depends_ok_iff; [|exact Hd]. naive_solver. }
  rewrite alter_unit_map by by rewrite (depends_ok_ids _ _ _ Hd). clear Hnd.
  induction Hd as [|u v us vs [Hv Ho] _ IH]; constructor; [|exact IH].
  assert (ID v = ID u) as Hid by by rewrite Hv. case_bool_decide as Hu.
  - split; [by rewrite Hv|]. intros o. simpl. unfold appendUnique.
    case_bool_decide; rewrite ?elem_of_app, ?list_elem_of_singleton, Ho; [|naive_solver].
    split; [by left|]. intros [?|(_&->&_)]; [done|]. by apply Ho.
  - split; [done|]. intros o. rewrite Ho. naive_solver.
Qed.

Lemma add_dependencies_ok cellToUnit completed cellID unitID units0 dependencies units P units' :
  NoDup (ID <$> units0) → depends_ok units0 units P →
  add_dependencies cellToUnit completed cellID unitID dependencies units = Ok units' →
  depends_ok units0 units' (λ i o, P i o ∨ (i = unitID ∧ o ≠ unitID ∧
    ∃ d, d ∈ dependencies ∧ d ∉ completed ∧ cellToUnit !! d = Some o)).
Proof.
  intros Hnd. revert units P. induction dependencies as [|d ds IH]; intros units P Hd Hr; simpl in Hr.
  { injection Hr as <-. eapply depends_ok_iff; [|exact Hd]. set_solver. }
  case_bool_decide.
  { eapply depends_ok_iff; [|by eapply IH]. set_solver. }
  destruct (cellToUnit !! d) as [other|] eqn:E; [|done].
  eapply depends_ok_iff; [|eapply IH; [by apply depend_on_ok|exact Hr]].
  intros u o. simpl. setoid_rewrite elem_of_cons. naive_solver.
Qed.

Lemma add_baseline_ok cellToUnit completed cell unitID units0 units P units' :
  NoDup (ID <$> units0) → depends_ok units0 units P →
  add_baseline cellToUnit completed cell unitID units = Ok units' →
  depends_ok units0 units' (λ i o, P i o ∨ (i = unitID ∧ o ≠ unitID ∧
    ScheduleCell.WarmFrom cell ≠ "" ∧ cellToUnit !! ScheduleCell.WarmFrom cell = Some o)).
Proof.
  intros Hnd Hd. unfold add_baseline. case_bool_decide as Hw.
  { intros [= <-]. eapply depends_ok_iff; [|exact Hd]. naive_solver. }
  destruct (cellToUnit !! _) as [other|] eqn:E.
  - intros [= <-]. eapply depends_ok_iff; [|by apply depend_on_ok]. naive_solver.
  - intros H. inv_checks. injection H0 as <-. eapply depends_ok_iff; [|exact Hd]. naive_solver.
Qed.

Lemma add_cells_ok cellToUnit completed units0 cells units P units' :
  NoDup (ID <$> units0) → depends_ok units0 units P →
  add_cells_dependencies cellToUnit completed cells units = Ok units' →
  depends_ok units0 units' (λ i o, P i o ∨ (o ≠ i ∧
    ∃ c, c ∈ cells ∧ cellToUnit !! ScheduleCell.ID c = Some i ∧ needs cellToUnit completed c o)).
Proof.
  intros Hnd. revert units P. induction cells as [|c cells IH]; intros units P Hd Hr; simpl in Hr.
  { injection Hr as <-. eapply depends_ok_iff; [|exact Hd]. set_solver. }
  destruct (cellToUnit !! ScheduleCell.ID c) as [unitID|] eqn:E; cycle 1.
  { eapply depends_ok_iff; [|by eapply IH]. intros u o. simpl. setoid_rewrite elem_of_cons. naive_solver. }
  destruct (add_dependencies _ _ _ _ _ _) as [units1|] eqn:E1; simpl in Hr; [|done].
  destruct (add_baseline _ _ _ _ _) as [units2|] eqn:E2; simpl in Hr; [|done].
  pose proof (add_dependencies_ok _ _ _ _ _ _ _ _ _ Hnd Hd E1) as H1.
  pose proof (add_baseline_ok _ _ _ _ _ _ _ _ Hnd H1 E2) as H2.
  eapply depends_ok_iff; [|eapply IH; [exact H2|exact Hr]].
  intros u o. simpl. unfold needs. setoid_rewrite elem_of_cons. clear -E. naive_solver.
Qed.

Lemma addUnitDependencies_ok units cellToUnit cells completed units' :
  NoDup (ID <$> units) → (∀ u, u ∈ units → DependsOn u = []) →
  addUnitDependencies units cellToUnit cells completed = Ok units' →
  depends_ok units units' (λ i o, o ≠ i ∧
    ∃ c, c ∈ cells ∧ cellToUnit !! ScheduleCell.ID c = Some i ∧ needs cellToUnit completed c o).
Proof.
  intros Hnd Hnone. unfold addUnitDependencies.
  destruct (add_cells_dependencies _ _ _ _) as [units1|] eqn:E; simpl; [|done]. intros [= <-].
  assert (depends_ok units units (λ _ _, False)) as H0.
  { clear -Hnone. induction units as [|u units IH]; constructor; [|apply IH; set_solver].
    assert (DependsOn u = []) as Hu by (apply Hnone; set_solver). split; [by destruct u|]. rewrite Hu. set_solver. }
  pose proof (add_cells_ok _ _ _ _ _ _ _ Hnd H0 E) as H1.
  clear -H1. induction H1 as [|u v us vs [Hv Ho] _ IH]; constructor; [|exact IH].
  split; [by rewrite Hv|]. intros o. simpl. rewrite elem_of_sort_strings, Ho. tauto.
Qed.

Lemma depends_ok_elem units0 units P u :
  depends_ok units0 units P → u ∈ units →
  ∃ u0, u0 ∈ units0 ∧ u = set_depends (DependsOn u) u0 ∧ ∀ other, other ∈ DependsOn u ↔ P (ID u0) other.
Proof.
  intros Hd Hu. apply list_elem_of_lookup in Hu as [i Hi].
  destruct (Forall2_lookup_r _ _ _ _ _ Hd Hi) as (u0&Hu0&Heq&Ho).
  exists u0. split; [by eapply list_elem_of_lookup_2|done].
Qed.

Lemma units_of_cell completed cells groups cellToUnit u c :
  hash_separates cells → NoDup (ScheduleCell.ID <$> cells) →
  grouping_ok completed cells cells groups cellToUnit →
  u ∈ sort_by unit_le (finish_unit <$> (map_to_list groups).*2) → c ∈ cells →
  cellToUnit !! ScheduleCell.ID c = Some (ID u) ↔ ScheduleCell.ID c ∈ CellIDs u.
Proof.
  intros Hsep Hids Hg Hu Hc. rewrite (grouping_units _ _ _ _ _ Hg).
  rewrite (unit_cells completed cells Hsep Hids groups cellToUnit Hg u c Hu Hc). split.
  - intros (d&Hd&Hs&He&Hi). assert (d = c) as -> by by eapply cell_unique. done.
  - intros [Hs Hi]. by exists c.
Qed.

(** ** Claims *)

(** Grouping is a partition.  Every cell that is neither completed nor out of
    the run is in exactly one unit, and no other cell is in any; units have
    distinct IDs; a unit holds every mutation key of its cells and no key that
    no cell has; and [cellToUnit] sends each cell to its unit. *)
Theorem makeExecutionUnits_partition completed cells units cellToUnit :
  hash_separates cells → NoDup (ScheduleCell.ID <$> cells) →
  makeExecutionUnits cells completed = (units, cellToUnit) →
  NoDup (ID <$> units) ∧
  units ≫= CellIDs ≡ₚ ScheduleCell.ID <$> filter (λ c, scheduled completed c = true) cells ∧
  (∀ u c, u ∈ units → c ∈ cells → ScheduleCell.ID c ∈ CellIDs u →
     ScheduleCell.MutationKeys c ⊆ MutationKeys u ∧ cellToUnit !! ScheduleCell.ID c = Some (ID u)) ∧
  (∀ u k, u ∈ units → k ∈ MutationKeys u → ∃ c, c ∈ cells ∧ k ∈ ScheduleCell.MutationKeys c).
Proof.
  intros Hsep Hids Hm.
  destruct (makeExecutionUnits_grouping completed cells Hsep Hids) as (groups&cellToUnit'&Hg&Hm').
  rewrite Hm in Hm'. injection Hm' as -> ->.
  split_and!; [by eapply units_NoDup|by eapply units_partition| |].
  - intros u c Hu Hc Hin. pose proof Hin as Hin'. eapply unit_cells in Hin' as [Hs Hid]; [|done..].
    split; [|apply (grouping_units _ _ _ _ _ Hg); eauto].
    apply elem_of_units in Hu as (key&u0&Hu0&->).
    apply (described_covers _ _ _ _ _ (grouping_some _ _ _ _ _ Hg _ _ Hu0)).
    apply elem_of_members. split; [done|]. 
    apply (group_members completed cells Hids groups cellToUnit' Hg key u0 c Hu0 Hc). by apply finish_cells.
  - intros u k (key&u0&Hu0&->)%elem_of_units.
    apply (described_keys _ _ _ _ _ (grouping_some _ _ _ _ _ Hg _ _ Hu0)).
Qed.

(** The dependencies of units are those of their cells.  A unit waits for
    exactly the other units that hold a dependency of one of its cells which is
    not completed, or the baseline one of its cells warms from. *)
Theorem addUnitDependencies_exact completed cells units cellToUnit units' :
  hash_separates cells → NoDup (ScheduleCell.ID <$> cells) →
  makeExecutionUnits cells completed = (units, cellToUnit) →
  addUnitDependencies units cellToUnit cells completed = Ok units' →
  ID <$> units' = ID <$> units ∧
  ∀ u other, u ∈ units' → other ∈ DependsOn u ↔
    other ≠ ID u ∧ ∃ c, c ∈ cells ∧ ScheduleCell.ID c ∈ CellIDs u ∧ needs cellToUnit completed c other.
Proof.
  intros Hsep Hids Hm Hr.
  destruct (makeExecutionUnits_grouping completed cells Hsep Hids) as (groups&cellToUnit'&Hg&Hm').
  rewrite Hm in Hm'. injection Hm' as -> ->.
  apply addUnitDependencies_ok in Hr; [|by eapply units_NoDup|].
  - split; [by eapply depends_ok_ids|]. intros u other Hu.
    destruct (depends_ok_elem _ _ _ u Hr Hu) as (u0&Hu0&->&Hd). rewrite Hd. simpl.
    apply and_iff_compat_l, exist_proper. intros c. split; intros (Hc&Hin&Hn); split_and!; try done.
    + by eapply units_of_cell.
    + by eapply units_of_cell.
  - intros u (key&u0&Hu0&->)%elem_of_units.
    destruct (described_origin _ _ _ _ _ (grouping_some _ _ _ _ _ Hg _ _ Hu0)) as (o&_&Ho). apply Ho.
Qed.

(** ** Witnesses *)

(** Two cells of one identity, a transition from the first and a cell of
    another scope that follows the second; the last cell does not run. *)
Module UnitExample.
Definition digest (c : ascii) : string := of_bytes (replicate 64 c).

Definition estimate : ExecutionEstimate :=
  {| ExecutionEstimate.CloudOperationSeconds := 600; ExecutionEstimate.ResourceLifetimeSeconds := 3600;
     ExecutionEstimate.EstimatedCostCents := 250; ExecutionEstimate.CleanupLatencySeconds := 120;
     ExecutionEstimate.CostKnown := true |}.

Definition cell (id : string) (fingerprint : ascii) (warm marker status : string)
    (dependencies keys : list string) : ScheduleCell :=
  {| ScheduleCell.ID := id; ScheduleCell.Fingerprint := digest fingerprint;
     ScheduleCell.ReuseFingerprint := None; ScheduleCell.WarmBoundary := "eu/" +:+ marker;
     ScheduleCell.WarmFrom := warm; ScheduleCell.WarmTransition := ""; ScheduleCell.Coverage := None;
     ScheduleCell.Dependencies := dependencies; ScheduleCell.MutationKeys := keys;
     ScheduleCell.OwnershipMarker := marker; ScheduleCell.Estimate := estimate;
     ScheduleCell.Status := status; ScheduleCell.Required := true |}.

Definition cells : list ScheduleCell :=
  [cell "php-83" "a" "" "run-a" CapabilityCompatible [] ["eu"];
   cell "redis" "a" "" "run-a" CapabilityCompatible [] ["eu"; "cache"];
   cell "php-84" "b" "php-83" "run-a" CapabilityExperimental [] ["eu"];
   cell "edge" "c" "" "run-b" CapabilityCompatible ["redis"] ["edge"];
   cell "arm" "d" "" "run-c" CapabilityUnavailable [] ["us"]].

Definition grouped := Eval vm_compute in makeExecutionUnits cells ∅.
Definition linked : list ExecutionUnit := Eval vm_compute in
  match addUnitDependencies grouped.1 grouped.2 cells ∅ with Ok units => units | Err _ => [] end.

Lemma cells_separated : hash_separates cells.
Proof. apply (bool_decide_unpack _). vm_cast_no_check I. Qed.

Lemma cells_ids : NoDup (ScheduleCell.ID <$> cells).
Proof. apply (bool_decide_unpack _). vm_cast_no_check I. Qed.

Lemma cells_grouped : makeExecutionUnits cells ∅ = (grouped.1, grouped.2).
Proof. vm_cast_no_check (eq_refl (grouped.1, grouped.2)). Qed.

Lemma makeExecutionUnits_partition_witness :
  CellIDs <$> grouped.1 = [["php-84"]; ["php-83"; "redis"]; ["edge"]] ∧ NoDup (ID <$> grouped.1).
Proof.
  split; [by vm_compute|].
  exact (proj1 (makeExecutionUnits_partition ∅ cells _ _ cells_separated cells_ids cells_grouped)).
Defined.

Lemma addUnitDependencies_exact_witness :
  (length ∘ DependsOn) <$> linked = [1; 0; 1]%nat ∧ ID <$> linked = ID <$> grouped.1.
Proof.
  split; [by vm_compute|].
  assert (addUnitDependencies grouped.1 grouped.2 cells ∅ = Ok linked) as Hr by by vm_compute.
  exact (proj1 (addUnitDependencies_exact ∅ cells _ _ _ cells_separated cells_ids cells_grouped Hr)).
Defined.
End UnitExample.
