(* ===== verification/BuildSchedule.v ===== *)
(** * Building a schedule (internal/certification/scheduler.go)

    Session claims, totals and budgets, and [BuildSchedule] from the checks to
    the schedule.  The world [W] holds what the session registry and the
    admission probe keep.  An interface value is [None] when nil, [Some None]
    when it wraps a nil pointer; the owner that [uuid.NewString] gives is an
    argument.  A map of records is walked in the order of [map_to_list]. *)

From S2P Require Import Prelude GoStrings Sdk Coverage Sessions LocalCapacity Admission Schedule Units.

Local Open Scope Z_scope.

(** ** Data *)

Module SessionClaim.
(* internal/certification/scheduler.go, lines 140-144: SessionClaim *)
Record SessionClaim := { Fingerprint : ReuseFingerprint; Owner : string; SessionID : string }.
End SessionClaim.
Notation SessionClaim := SessionClaim.SessionClaim.

Module Schedule.
(* internal/certification/scheduler.go, lines 146-167: Schedule *)
Record Schedule := {
  Units : list ExecutionUnit;
  Batches : list (list string);
  LocalCapacity : option LocalCapacityRequest;
  ReuseClaims : list SessionClaim;
  CompletedCellIDs : list string;
  DeferredCellIDs : list string;
  BlockedCellIDs : list string;
  ColdUnitCount : Z;
  WarmTransitionCount : Z;
  ReusedCellCount : Z;
  CloudOperationSeconds : Z;
  ResourceLifetimeSeconds : Z;
  EstimatedCostCents : Z;
  CleanupLatencySeconds : Z;
  CostKnown : bool;
  ReusedSessionCount : Z;
}.
End Schedule.
Notation Schedule := Schedule.Schedule.

(** [LocalCapacityReservation] is only forwarded and [Now] only defaulted by
    [BuildSchedule]; both are left out. *)
(* internal/certification/scheduler.go, lines 80-103: SchedulerOptions *)
Record SchedulerOptions {W : Type} := {
  MaxParallel : Z;
  QuotaByKey : gmap string Z;
  OptRegistry : option (option (SessionRegistry W));
  OptClaimOwner : string;
  OptAdmission : option AdmissionInput;
  OptAdmissionProbe : option (option (AdmissionProbe W));
  OptAdmissionSnapshot : option (AdmissionProbe W);
  AdmissionContext : context;
  Checkpoints : list SchedulerCheckpoint;
  PendingDeletions : list PendingDeletion;
  Budget : CertificationBudget;
}.
Arguments SchedulerOptions : clear implicits.

(** The registry when it can be called. *)
Definition usable {W} (registry : option (option (SessionRegistry W))) : option (SessionRegistry W) :=
  registry ≫= λ r, r.

(** ** Sessions *)

(* internal/certification/scheduler.go, lines 695-700: contextOrBackground *)
Definition contextOrBackground (ctx : context) : context :=
  match ctx with None => Some None | _ => ctx end.

(** [context.WithoutCancel]: never done. *)
Definition without_cancel (ctx : context) : context := Some None.

(* internal/certification/scheduler.go, lines 702-713: resolveScheduleClaimOwner *)
Definition resolveScheduleClaimOwner {W} (uuid : string) (options : SchedulerOptions W) : result string :=
  let owner := OptClaimOwner options in
  if negb (bool_decide (owner = "")) then
    fail_if (blank owner || multiline owner)
      (ErrNew "scheduler claim owner must be a non-empty single-line value") ;;! Ok owner
  else match usable (OptRegistry options) with
  | None => Ok ""
  | Some _ => Ok ("certification-schedule/" +:+ uuid)
  end.

Section sessions.
Context {W : Type} (registry : SessionRegistry W).

(** The loop over the cells; the records claimed so far are returned with an
    error too. *)
(* internal/certification/scheduler.go, lines 729-752: findReusableScheduleSessions *)
Fixpoint find_sessions (ctx : context) (completed : gset string) (claimOwner : string)
    (result : gmap string SessionRecord) (cells : list ScheduleCell) (w : W)
    : gmap string SessionRecord * gerror * W :=
  match cells with
  | [] => (result, None, w)
  | cell :: cells =>
      let id := ScheduleCell.ID cell in
      match ScheduleCell.ReuseFingerprint cell with
      | None => find_sessions ctx completed claimOwner result cells w
      | Some fingerprint =>
          if negb (bool_decide (ScheduleCell.WarmFrom cell = "")) || bool_decide (id ∈ completed)
          then find_sessions ctx completed claimOwner result cells w
          else match ClaimReusableSession ctx (Some registry) fingerprint claimOwner w with
          | (Err e, w) => (result, Some (wrapf "lookup reusable session for cell %q: %w" [GStr id] e), w)
          | (Ok lookup, w) =>
              if bool_decide (Decision lookup = ReuseReady) then
                find_sessions ctx completed claimOwner (<[id := Found lookup]> result) cells w
              else if bool_decide (Decision lookup = ReuseMiss) then
                find_sessions ctx completed claimOwner result cells w
              else if bool_decide (Decision lookup = ReuseBlocked) then
                (result, Some (errorf "cell %q is blocked from session reuse: %s"
                   [GStr id; GStr (Reason lookup)]), w)
              else (result, Some (errorf "cell %q returned unknown session reuse decision %q"
                   [GStr id; GStr (Decision lookup)]), w)
          end
      end
  end.

(** The claims of the records, one per digest. *)
(* internal/certification/scheduler.go, lines 759-777: releaseReusableScheduleSessions *)
Fixpoint release_records (ctx : context) (released : list string) (problems : list gerror)
    (records : list SessionRecord) (w : W) : list gerror * W :=
  match records with
  | [] => (problems, w)
  | record :: records =>
      if bool_decide (SessionRecord.ClaimOwner record = "") then release_records ctx released problems records w
      else match ReuseFingerprint_Digest (SessionRecord.Fingerprint record) with
      | Err e => release_records ctx released (problems ++ [Some e]) records w
      | Ok digest =>
          if bool_decide (digest ∈ released) then release_records ctx released problems records w
          else
            let '(err, w) := ReleaseClaim registry ctx (SessionRecord.Fingerprint record)
                               (SessionRecord.ClaimOwner record) w in
            release_records ctx (digest :: released)
              (problems ++ [err_wrap (wrapf "release reusable session claim %q: %w"
                 [GStr (SessionRecord.SessionID record)]) err]) records w
      end
  end.

(* internal/certification/scheduler.go, lines 755-779: releaseReusableScheduleSessions *)
Definition releaseReusableScheduleSessions (ctx : context) (records : gmap string SessionRecord) (w : W)
    : gerror * W :=
  let '(problems, w) := release_records ctx [] [] (map_to_list records).*2 w in
  (errors_Join problems, w).

(** The checks on a claim before it is released. *)
(* internal/certification/scheduler.go, lines 363-379: ReleaseScheduleClaims *)
Definition check_claim (claim : SessionClaim) : result string :=
  let about := [GStr (SessionClaim.SessionID claim)] in
  fail_if (blank (SessionClaim.SessionID claim) || multiline (SessionClaim.SessionID claim))
    (ErrNew "release session claim requires a single-line session ID") ;;!
  fail_if (blank (SessionClaim.Owner claim) || multiline (SessionClaim.Owner claim))
    (errorf "release session claim %q requires a single-line owner" about) ;;!
  err_wrap (wrapf "release session claim %q: %w" about) (ReuseFingerprint_Validate (SessionClaim.Fingerprint claim)) ;;!
  map_err (wrapf "release session claim %q: %w" about) (ReuseFingerprint_Digest (SessionClaim.Fingerprint claim)).

(* internal/certification/scheduler.go, lines 360-387: ReleaseScheduleClaims *)
Fixpoint release_claims (ctx : context) (released : list string) (problems : list gerror)
    (claims : list SessionClaim) (w : W) : list gerror * W :=
  match claims with
  | [] => (problems, w)
  | claim :: claims =>
      match check_claim claim with
      | Err e => release_claims ctx released (problems ++ [Some e]) claims w
      | Ok digest =>
          if bool_decide (digest ∈ released) then release_claims ctx released problems claims w
          else
            let '(err, w) := ReleaseClaim registry ctx (SessionClaim.Fingerprint claim)
                               (SessionClaim.Owner claim) w in
            release_claims ctx (digest :: released)
              (problems ++ [err_wrap (wrapf "release session claim %q: %w"
                 [GStr (SessionClaim.SessionID claim)]) err]) claims w
      end
  end.
End sessions.

(* internal/certification/scheduler.go, lines 719-753: findReusableScheduleSessions *)
Definition findReusableScheduleSessions {W} (ctx : context) (cells : list ScheduleCell) (completed : gset string)
    (registry : option (option (SessionRegistry W))) (claimOwner : string) (w : W)
    : gmap string SessionRecord * gerror * W :=
  match registry, ctx with
  | None, _ => (∅, None, w)
  | Some None, _ => (∅, Some (ErrNew "session registry is required"), w)
  | Some (Some _), None => (∅, Some (ErrNew "session registry context is required"), w)
  | Some (Some registry), Some _ => find_sessions registry ctx completed claimOwner ∅ cells w
  end.

(* internal/certification/scheduler.go, lines 350-389: ReleaseScheduleClaims *)
Definition ReleaseScheduleClaims {W} (ctx : context) (registry : option (option (SessionRegistry W)))
    (claims : list SessionClaim) (w : W) : gerror * W :=
  if bool_decide (length claims = 0%nat) then (None, w)
  else match usable registry, ctx with
  | None, _ => (Some (ErrNew "session registry is required to release schedule claims"), w)
  | Some _, None => (Some (ErrNew "session registry context is required"), w)
  | Some registry, Some _ =>
      let '(problems, w) := release_claims registry ctx [] [] claims w in (errors_Join problems, w)
  end.

(* internal/certification/scheduler.go, lines 801-806: reusableSessionClaims *)
Definition claim_le (a b : SessionClaim) : Prop :=
  if bool_decide (SessionClaim.SessionID a = SessionClaim.SessionID b)
  then String.le (SessionClaim.Owner a) (SessionClaim.Owner b)
  else String.le (SessionClaim.SessionID a) (SessionClaim.SessionID b).

#[export] Instance claim_le_dec : RelDecision claim_le.
Proof. intros a b. unfold claim_le. destruct (bool_decide _); apply _. Defined.

(* internal/certification/scheduler.go, lines 787-800: reusableSessionClaims *)
Fixpoint claims_of (seen : list string) (records : list SessionRecord) : list SessionClaim :=
  match records with
  | [] => []
  | record :: records =>
      if bool_decide (SessionRecord.ClaimOwner record = "") then claims_of seen records
      else match ReuseFingerprint_Digest (SessionRecord.Fingerprint record) with
      | Err _ => claims_of seen records
      | Ok digest =>
          if bool_decide (digest ∈ seen) then claims_of seen records
          else {| SessionClaim.Fingerprint := SessionRecord.Fingerprint record;
                  SessionClaim.Owner := SessionRecord.ClaimOwner record;
                  SessionClaim.SessionID := SessionRecord.SessionID record |} :: claims_of (digest :: seen) records
      end
  end.

(* internal/certification/scheduler.go, lines 781-808: reusableSessionClaims *)
Definition reusableSessionClaims (records : gmap string SessionRecord) : list SessionClaim :=
  sort_by claim_le (claims_of [] (map_to_list records).*2).

(** ** Totals and budgets *)

Definition max_int64 : Z := 2 ^ 63 - 1.

(* internal/certification/scheduler.go, lines 655-664: addScheduleEstimate *)
Definition addScheduleEstimate (total value : Z) (name : string) : result Z :=
  fail_if (value <? 0) (errorf "scheduler %s estimate cannot be negative" [GStr name]) ;;!
  fail_if (max_int64 - value <? total) (errorf "scheduler %s estimate overflows int64" [GStr name]) ;;!
  Ok (total + value).

Section totals.
Import Schedule.

(** One iteration of the loop over the units. *)
(* internal/certification/scheduler.go, lines 308-339: BuildSchedule *)
Definition add_unit (s : Schedule) (u : ExecutionUnit) : result Schedule :=
  let estimate := ExecutionUnit.Estimate u in
  let reused := negb (bool_decide (ExecutionUnit.ReuseSessionID u = "")) in
  let one (b : bool) : Z := if b then 1 else 0 in
  cloud ← addScheduleEstimate (CloudOperationSeconds s) (ExecutionEstimate.CloudOperationSeconds estimate)
            "cloud operation time";
  lifetime ← addScheduleEstimate (ResourceLifetimeSeconds s)
               (ExecutionEstimate.ResourceLifetimeSeconds estimate) "resource lifetime";
  cost ← addScheduleEstimate (EstimatedCostCents s) (ExecutionEstimate.EstimatedCostCents estimate)
           "estimated cost";
  cleanup ← addScheduleEstimate (CleanupLatencySeconds s) (ExecutionEstimate.CleanupLatencySeconds estimate)
              "cleanup latency";
  Ok {| Units := Units s; Batches := Batches s; LocalCapacity := LocalCapacity s; ReuseClaims := ReuseClaims s;
        CompletedCellIDs := CompletedCellIDs s; DeferredCellIDs := DeferredCellIDs s;
        BlockedCellIDs := BlockedCellIDs s;
        ColdUnitCount := ColdUnitCount s + one (ExecutionUnit.Cold u && negb reused);
        WarmTransitionCount := WarmTransitionCount s + one (negb (ExecutionUnit.Cold u) && negb reused);
        ReusedCellCount := ReusedCellCount s + (Z.max 1 (Z.of_nat (length (ExecutionUnit.CellIDs u))) - 1)
          + one (negb (ExecutionUnit.Cold u));
        CloudOperationSeconds := cloud; ResourceLifetimeSeconds := lifetime; EstimatedCostCents := cost;
        CleanupLatencySeconds := cleanup; CostKnown := CostKnown s && ExecutionEstimate.CostKnown estimate;
        ReusedSessionCount := ReusedSessionCount s + one reused |}.

Fixpoint add_units (s : Schedule) (units : list ExecutionUnit) : result Schedule :=
  match units with
  | [] => Ok s
  | u :: units => s ← add_unit s u; add_units s units
  end.

(* internal/certification/scheduler.go, lines 631-653: enforceCertificationBudget *)
Definition enforceCertificationBudget (s : Schedule) (budget : CertificationBudget) : gerror :=
  let exceeds max value := (0 <? max) && (max <? value) in
  let over text value max := errorf text [GInt value; GInt max] in
  fail_if (exceeds (MaxCloudOperationSeconds budget) (CloudOperationSeconds s))
    (over "scheduler cloud operation time budget exceeded: %d seconds > %d"
       (CloudOperationSeconds s) (MaxCloudOperationSeconds budget))
  ;;? fail_if (exceeds (MaxResourceLifetimeSeconds budget) (ResourceLifetimeSeconds s))
        (over "scheduler resource lifetime budget exceeded: %d seconds > %d"
           (ResourceLifetimeSeconds s) (MaxResourceLifetimeSeconds budget))
  ;;? fail_if (RequireCostEstimate budget && negb (CostKnown s))
        (ErrNew "scheduler requires a known cost estimate for every scheduled unit")
  ;;? (if 0 <? MaxEstimatedCostCents budget then
         fail_if (negb (CostKnown s))
           (ErrNew "scheduler cannot enforce a spend budget because the cost estimate is unknown")
         ;;? fail_if (MaxEstimatedCostCents budget <? EstimatedCostCents s)
               (over "scheduler spend budget exceeded: %d cents > %d"
                  (EstimatedCostCents s) (MaxEstimatedCostCents budget))
       else None)
  ;;? fail_if (exceeds (MaxCleanupLatencySeconds budget) (CleanupLatencySeconds s))
        (over "scheduler cleanup latency budget exceeded: %d seconds > %d"
           (CleanupLatencySeconds s) (MaxCleanupLatencySeconds budget)).
End totals.

(** ** BuildSchedule *)

Section build.
Context {W : Type} (url_Parse : string → result url) (Quote : string → string) (uuid : string) (clock : Z).
Context (options : SchedulerOptions W).

(** The runner capacity a unit needs, when the admission asks for some. *)
Definition requested_capacity : result (option LocalCapacityRequest) :=
  match OptAdmission options with
  | None => Ok None
  | Some input =>
      let request := {| CPUMilli := AdmissionInput.RequiredLocalCPUMilli input;
                        MemoryMB := AdmissionInput.RequiredLocalMemoryMB input |} in
      err_wrap (wrapf "scheduler local capacity: %w" []) (LocalCapacityRequest_Validate request) ;;!
      Ok (if request_empty request then None else Some request)
  end.

(** The checks before admission: the capacity and the owner of the claims. *)
(* internal/certification/scheduler.go, lines 173-206: BuildSchedule *)
Definition check_options (cells : list ScheduleCell) : result (option LocalCapacityRequest * string) :=
  fail_if (MaxParallel options <? 1) (ErrNew "scheduler max parallel must be at least one") ;;!
  validateScheduleCells cells ;;!
  validateCertificationBudget (Budget options) ;;!
  capacity ← requested_capacity;
  owner ← resolveScheduleClaimOwner uuid options;
  fail_if (bool_decide (is_Some (OptAdmissionSnapshot options)) && bool_decide (is_Some (OptAdmissionProbe options)))
    (ErrNew "scheduler admission probe and snapshot are mutually exclusive") ;;!
  fail_if (bool_decide (is_Some (OptAdmissionSnapshot options)) && negb (bool_decide (is_Some (OptAdmission options))))
    (ErrNew "scheduler admission snapshot requires admission input") ;;!
  Ok (capacity, owner).

(* internal/certification/scheduler.go, lines 207-230: BuildSchedule *)
Definition check_admission (w : W) : gerror * W :=
  match OptAdmission options with
  | None => (None, w)
  | Some input =>
      let probe := match OptAdmissionSnapshot options with
                   | Some snapshot => Some (Some snapshot)
                   | None => OptAdmissionProbe options
                   end in
      let '(answer, w) :=
        match probe with
        | Some probe =>
            CheckAdmissionWithProbe url_Parse Quote (contextOrBackground (AdmissionContext options)) input probe w
        | None => (CheckAdmission url_Parse Quote input, w)
        end in
      (match answer with
       | Err e => Some (wrapf "scheduler admission: %w" [] e)
       | Ok report =>
           fail_if (negb (Ready report))
             (errorf "scheduler admission blocked: %s" [GStr (strings_Join (BlockingReasons report) "; ")])
       end, w)
  end.

(** The cells a checkpoint reports as passed. *)
Definition passed (checkpoints : gmap string SchedulerCheckpoint) (cells : list ScheduleCell) : gset string :=
  list_to_set (ScheduleCell.ID <$> filter (λ c,
    SchedulerCheckpoint.Status <$> checkpoints !! ScheduleCell.ID c = Some "PASS") cells).

(** The completed cells, after the checks of the checkpoints, of the pending
    deletions and of the dependencies. *)
(* internal/certification/scheduler.go, lines 231-265: BuildSchedule *)
Definition resume (cells : list ScheduleCell) : result (gset string) :=
  checkpoints ← validateCheckpoints clock cells (Checkpoints options);
  validatePendingDeletions (PendingDeletions options) ;;!
  let completed := passed checkpoints cells in
  check_runnable_dependencies cells completed ;;!
  rejectPendingDeletionReuse cells completed (PendingDeletions options) ;;!
  Ok completed.

(** Units, batches and totals from the claimed sessions. *)
(* internal/certification/scheduler.go, lines 282-343: BuildSchedule *)
Definition plan (cells : list ScheduleCell) (completed : gset string) (capacity : option LocalCapacityRequest)
    (sessions : gmap string SessionRecord) : result Schedule :=
  let deferred := ScheduleCell.ID <$> filter (λ c, not_runnable (ScheduleCell.Status c) = true) cells in
  let '(units, cellToUnit) := makeExecutionUnits cells completed in
  units ← applyReusableSessions units cells sessions;
  units ← addUnitDependencies units cellToUnit cells completed;
  batches ← makeBatches (MaxParallel options) (QuotaByKey options) units;
  schedule ← add_units
    {| Schedule.Units := units; Schedule.Batches := batches; Schedule.LocalCapacity := capacity;
       Schedule.ReuseClaims := reusableSessionClaims sessions;
       Schedule.CompletedCellIDs := sort_strings (elements completed);
       Schedule.DeferredCellIDs := sortedScheduleStrings deferred; Schedule.BlockedCellIDs := [];
       Schedule.ColdUnitCount := 0; Schedule.WarmTransitionCount := 0; Schedule.ReusedCellCount := 0;
       Schedule.CloudOperationSeconds := 0; Schedule.ResourceLifetimeSeconds := 0;
       Schedule.EstimatedCostCents := 0; Schedule.CleanupLatencySeconds := 0;
       Schedule.CostKnown := negb (bool_decide (length units = 0%nat)); Schedule.ReusedSessionCount := 0 |} units;
  enforceCertificationBudget schedule (Budget options) ;;! Ok schedule.

(** The deferred function: the claims of a failed build are released. *)
(* internal/certification/scheduler.go, lines 266-277: BuildSchedule *)
Definition fail_releasing (err : error) (sessions : gmap string SessionRecord) (w : W) : result Schedule * W :=
  match usable (OptRegistry options) with
  | None => (Err err, w)
  | Some registry =>
      let '(released, w) := releaseReusableScheduleSessions registry
        (without_cancel (contextOrBackground (AdmissionContext options))) sessions w in
      (Err (match released with
            | None => err
            | Some e => default err (errors_Join [Some err; Some e])
            end), w)
  end.

(* internal/certification/scheduler.go, lines 172-345: BuildSchedule *)
Definition BuildSchedule (cells : list ScheduleCell) (w : W) : result Schedule * W :=
  match check_options cells with
  | Err e => (Err e, w)
  | Ok (capacity, owner) =>
      let '(refused, w) := check_admission w in
      match refused ;;! resume cells with
      | Err e => (Err e, w)
      | Ok completed =>
          let '(sessions, err, w) := findReusableScheduleSessions
            (contextOrBackground (AdmissionContext options)) cells completed (OptRegistry options) owner w in
          match err ;;! plan cells completed capacity sessions with
          | Err e => fail_releasing e sessions w
          | Ok schedule => (Ok schedule, w)
          end
      end
  end.
End build.
