(* ===== verification/BuildClaims.v ===== *)
(** * Building a schedule: what [BuildSchedule] promises

    The facts validated cells satisfy, the totals and budgets of a schedule,
    the fate of every cell, and the claims on sessions. *)

From S2P Require Import Prelude GoStrings Regex GoEncoding Dfs Sdk Coverage Sessions LocalCapacity Admission Schedule Units Batches UnitClaims BuildSchedule.

Local Open Scope Z_scope.

(** ** Validated cells *)

(** What [validateScheduleCells] establishes about one cell. *)
Record valid_cell (c : ScheduleCell) : Prop := {
  valid_id : blank (ScheduleCell.ID c) = false;
  valid_marker : blank (ScheduleCell.OwnershipMarker c) = false;
  valid_keys : hasDuplicate (ScheduleCell.MutationKeys c) = false;
  valid_keys_some : ScheduleCell.MutationKeys c ≠ [];
  valid_reuse : ∀ f, ScheduleCell.ReuseFingerprint c = Some f → check_reuse c f = None;
  valid_coverage : ∀ b, ScheduleCell.Coverage c = Some b → CoverageBoundary_Validate b = None;
  valid_estimate : validateExecutionEstimate (ScheduleCell.ID c) (ScheduleCell.Estimate c) = None;
}.

Lemma check_cell_valid known c :
  check_cell known c = None → valid_cell c ∧ ScheduleCell.ID c ∉ known.
Proof.
  unfold check_cell. intros H. inv_checks.
  repeat match goal with H : bool_decide _ = false |- _ => apply bool_decide_eq_false in H end.
  split; [|done]. split; try done.
  - intros f Hf. by rewrite Hf in *.
  - intros b Hb. rewrite Hb in *. by inv_checks.
Qed.

Lemma check_cells_valid known estimates cells :
  check_cells known estimates cells = None →
  NoDup (ScheduleCell.ID <$> cells) ∧ ∀ c, c ∈ cells → valid_cell c ∧ ScheduleCell.ID c ∉ known.
Proof.
  revert known estimates. induction cells as [|c cells IH]; intros known estimates H; simpl in H.
  { split; [constructor|set_solver]. }
  apply err_seq_None in H as [Hc H]. apply err_seq_None in H as [_ H].
  apply check_cell_valid in Hc as [Hc Hk]. apply IH in H as [Hnd H]. split.
  - csimpl. constructor; [|done]. intros (d&He&Hd)%list_elem_of_fmap.
    destruct (H d Hd) as [_ Hd']. rewrite He in Hd'. set_solver.
  - intros d [->|Hd]%elem_of_cons; [done|]. destruct (H d Hd). set_solver.
Qed.

Lemma hasDuplicate_from_false seen l :
  hasDuplicate_from seen l = false ↔ NoDup l ∧ "" ∉ l ∧ ∀ x, x ∈ l → x ∉ seen.
Proof.
  revert seen. induction l as [|x l IH]; intros seen; simpl.
  { split; [intros _; split_and!; [constructor|set_solver|set_solver]|done]. }
  rewrite !orb_false_iff, !bool_decide_eq_false, IH, NoDup_cons. setoid_rewrite elem_of_cons.
  split.
  - intros ([Hx Hs]&Hnd&He&Hl). split_and!; [|done|naive_solver|naive_solver].
    intros Hin. apply (Hl x Hin). by left.
  - intros ([Hx Hnd]&He&Hs). split_and!; [naive_solver|naive_solver|done|naive_solver|].
    intros y Hy [->|Hy']; [done|]. naive_solver.
Qed.

Lemma hasDuplicate_false l : hasDuplicate l = false ↔ NoDup l ∧ "" ∉ l.
Proof. unfold hasDuplicate. rewrite hasDuplicate_from_false. set_solver. Qed.

(** ** Totals *)

(** The exact sum of one dimension over the units. *)
Definition total_of (dimension : ExecutionEstimate → Z) (units : list ExecutionUnit) : Z :=
  foldr (λ u acc, dimension (ExecutionUnit.Estimate u) + acc) 0 units.

Lemma total_of_cons d u units : total_of d (u :: units) = d (ExecutionUnit.Estimate u) + total_of d units.
Proof. done. Qed.

Lemma total_of_one d u : total_of d [u] = d (ExecutionUnit.Estimate u).
Proof. unfold total_of. simpl. lia. Qed.

Lemma addScheduleEstimate_Ok total value name r :
  addScheduleEstimate total value name = Ok r → r = total + value ∧ 0 ≤ value ∧ r ≤ max_int64.
Proof.
  unfold addScheduleEstimate. intros H. inv_checks. injection H1 as <-.
  apply Z.ltb_ge in H, H0. lia.
Qed.

(** The totals of a schedule and the sums they stand for. *)
Record counted (s s' : Schedule) (units : list ExecutionUnit) : Prop := {
  counted_cloud : Schedule.CloudOperationSeconds s' =
    Schedule.CloudOperationSeconds s + total_of ExecutionEstimate.CloudOperationSeconds units;
  counted_lifetime : Schedule.ResourceLifetimeSeconds s' =
    Schedule.ResourceLifetimeSeconds s + total_of ExecutionEstimate.ResourceLifetimeSeconds units;
  counted_cost : Schedule.EstimatedCostCents s' =
    Schedule.EstimatedCostCents s + total_of ExecutionEstimate.EstimatedCostCents units;
  counted_cleanup : Schedule.CleanupLatencySeconds s' =
    Schedule.CleanupLatencySeconds s + total_of ExecutionEstimate.CleanupLatencySeconds units;
  counted_known : Schedule.CostKnown s' =
    Schedule.CostKnown s && forallb (λ u, ExecutionEstimate.CostKnown (ExecutionUnit.Estimate u)) units;
  counted_sessions : Schedule.ReusedSessionCount s' = Schedule.ReusedSessionCount s +
    Z.of_nat (length (filter (λ u, ExecutionUnit.ReuseSessionID u ≠ "") units));
  counted_kinds : Schedule.ColdUnitCount s' + Schedule.WarmTransitionCount s' + Schedule.ReusedSessionCount s' =
    Schedule.ColdUnitCount s + Schedule.WarmTransitionCount s + Schedule.ReusedSessionCount s +
    Z.of_nat (length units);
  counted_units : Schedule.Units s' = Schedule.Units s;
  counted_batches : Schedule.Batches s' = Schedule.Batches s;
  counted_capacity : Schedule.LocalCapacity s' = Schedule.LocalCapacity s;
  counted_claims : Schedule.ReuseClaims s' = Schedule.ReuseClaims s;
  counted_completed : Schedule.CompletedCellIDs s' = Schedule.CompletedCellIDs s;
  counted_deferred : Schedule.DeferredCellIDs s' = Schedule.DeferredCellIDs s;
}.

Lemma within_budget max value : (0 <? max) && (max <? value) = false → 0 < max → value ≤ max.
Proof. intros H Hm. apply andb_false_iff in H as [H%Z.ltb_ge|H%Z.ltb_ge]; lia. Qed.

(** No total exceeds a signed 64-bit integer. *)
Definition in_int64 (s : Schedule) : Prop :=
  Schedule.CloudOperationSeconds s ≤ max_int64 ∧ Schedule.ResourceLifetimeSeconds s ≤ max_int64 ∧
  Schedule.EstimatedCostCents s ≤ max_int64 ∧ Schedule.CleanupLatencySeconds s ≤ max_int64.

Lemma add_unit_counted s u s' : add_unit s u = Ok s' → counted s s' [u] ∧ in_int64 s'.
Proof.
  unfold add_unit.
  destruct (addScheduleEstimate (Schedule.CloudOperationSeconds _) _ _) as [cloud|] eqn:E1; simpl; [|done].
  destruct (addScheduleEstimate (Schedule.ResourceLifetimeSeconds _) _ _) as [life|] eqn:E2; simpl; [|done].
  destruct (addScheduleEstimate (Schedule.EstimatedCostCents _) _ _) as [cost|] eqn:E3; simpl; [|done].
  destruct (addScheduleEstimate (Schedule.CleanupLatencySeconds _) _ _) as [clean|] eqn:E4; simpl; [|done].
  intros [= <-].
  apply addScheduleEstimate_Ok in E1 as (->&_&?), E2 as (->&_&?), E3 as (->&_&?), E4 as (->&_&?).
  split; [|done]. split; rewrite ?total_of_one; try done; simpl; rewrite ?andb_true_r; try done.
  - rewrite filter_cons. case_bool_decide as Hr; simpl; [rewrite decide_False by tauto|rewrite decide_True by done]; simpl; lia.
  - case_bool_decide; destruct (ExecutionUnit.Cold u); simpl; lia.
Qed.

Lemma counted_trans s s1 s2 u units : counted s s1 [u] → counted s1 s2 units → counted s s2 (u :: units).
Proof.
  intros [? ? ? ? Hk Hs ? ? ? ? ? ? ?] [? ? ? ? Hk' Hs' ? ? ? ? ? ? ?].
  split; rewrite ?total_of_cons; rewrite ?total_of_one in *; cbn [length] in *; try congruence; try lia.
  - rewrite Hk', Hk. simpl. by rewrite andb_true_r, andb_assoc.
  - rewrite Hs', Hs, !filter_cons, filter_nil. case_decide; simpl; lia.
Qed.

Lemma add_units_counted s units s' : in_int64 s → add_units s units = Ok s' → counted s s' units ∧ in_int64 s'.
Proof.
  revert s. induction units as [|u units IH]; intros s Hi H; simpl in H.
  - injection H as <-. split; [|done]. split; simpl; rewrite ?andb_true_r; lia || done.
  - destruct (add_unit s u) as [s1|] eqn:E; simpl in H; [|done].
    apply add_unit_counted in E as [E Hi1]. apply IH in H as [H Hi']; [|done].
    split; [|done]. by eapply counted_trans.
Qed.

(** ** The steps of a successful build *)

(** What planning never changes in a unit. *)
Definition core (u : ExecutionUnit) :=
  (ExecutionUnit.ID u, ExecutionUnit.CellIDs u, ExecutionUnit.MutationKeys u, ExecutionUnit.Fingerprint u,
   ExecutionUnit.OwnershipMarker u, ExecutionUnit.Coverage u, ExecutionUnit.ReuseFingerprint u,
   ExecutionUnit.Estimate u).

Lemma apply_session_Ok byCell records u v :
  apply_session byCell records u = Ok v → core v = core u ∧ ExecutionUnit.DependsOn v = ExecutionUnit.DependsOn u.
Proof.
  unfold apply_session. destruct (reused_session _ _ _ _) as [reused|] eqn:E0; cbn [mbind result_bind]; [|done].
  case_bool_decide; [by intros [= <-]|].
  destruct (ReuseFingerprint_Digest _) eqn:E; [|done]. intros H1. inv_checks. by injection H2 as <-.
Qed.

Lemma try_map_Ok {A B} (f : A → result B) l l' : try_map f l = Ok l' → Forall2 (λ x y, f x = Ok y) l l'.
Proof.
  revert l'. induction l as [|x l IH]; intros l' H; simpl in H; [injection H as <-; constructor|].
  destruct (f x) eqn:E; simpl in H; [|done]. destruct (try_map f l) eqn:El; simpl in H; [|done].
  injection H as <-. constructor; [done|by apply IH].
Qed.

Lemma applyReusableSessions_core units cells records units' :
  applyReusableSessions units cells records = Ok units' →
  core <$> units' = core <$> units ∧
  ((∀ u, u ∈ units → ExecutionUnit.DependsOn u = []) → ∀ u, u ∈ units' → ExecutionUnit.DependsOn u = []).
Proof.
  unfold applyReusableSessions. case_bool_decide; [by intros [= <-]|]. intros H1%try_map_Ok. clear H.
  induction H1 as [|u v us vs Hv _ [IH IHd]]; [done|]. apply apply_session_Ok in Hv as [Hc Hd]. split.
  - csimpl. by rewrite Hc, IH.
  - intros Hn w [->|Hw]%elem_of_cons; [|apply IHd; set_solver]. rewrite Hd. apply Hn. set_solver.
Qed.

Lemma depends_ok_core units units' P : depends_ok units units' P → core <$> units' = core <$> units.
Proof. induction 1 as [|u v us vs [-> _] _ IH]; [done|]. csimpl. by rewrite IH. Qed.

(** A unit with the same core, in a list with the same cores. *)
Lemma core_elem (units units' : list ExecutionUnit) u :
  core <$> units' = core <$> units → u ∈ units' → ∃ v, v ∈ units ∧ core u = core v.
Proof.
  intros He Hu. assert (core u ∈ core <$> units) as (v&?&?)%list_elem_of_fmap.
  { rewrite <-He. by apply list_elem_of_fmap_2. }
  eauto.
Qed.

Lemma core_ids (units units' : list ExecutionUnit) :
  core <$> units' = core <$> units → ExecutionUnit.ID <$> units' = ExecutionUnit.ID <$> units.
Proof.
  intros He. assert (∀ l : list ExecutionUnit, ExecutionUnit.ID <$> l = (λ c, c.1.1.1.1.1.1.1) <$> (core <$> l)) as Hm.
  { intros l. by rewrite <-list_fmap_compose. }
  by rewrite !Hm, He.
Qed.

Lemma core_cells (units units' : list ExecutionUnit) :
  core <$> units' = core <$> units → units' ≫= ExecutionUnit.CellIDs = units ≫= ExecutionUnit.CellIDs.
Proof.
  intros He. assert (∀ l : list ExecutionUnit, l ≫= ExecutionUnit.CellIDs = (core <$> l) ≫= (λ c, c.1.1.1.1.1.1.2)) as Hm.
  { induction l as [|u l IH]; [done|]. csimpl. by rewrite IH. }
  by rewrite !Hm, He.
Qed.

Section build.
Context {W : Type} (url_Parse : string → result url) (Quote : string → string) (uuid : string) (clock : Z).
Context (options : SchedulerOptions W) (cells : list ScheduleCell).
Abbreviation BuildSchedule := (BuildSchedule url_Parse Quote uuid clock options).

Record planned (completed : gset string) (capacity : option LocalCapacityRequest)
    (sessions : gmap string SessionRecord) (schedule : Schedule)
    (units : list ExecutionUnit) (cellToUnit : gmap string string) (reused : list ExecutionUnit) : Prop := {
  planned_units : makeExecutionUnits cells completed = (units, cellToUnit);
  planned_sessions : applyReusableSessions units cells sessions = Ok reused;
  planned_links : addUnitDependencies reused cellToUnit cells completed = Ok (Schedule.Units schedule);
  planned_batches : makeBatches (MaxParallel options) (QuotaByKey options) (Schedule.Units schedule)
    = Ok (Schedule.Batches schedule);
  planned_budget : enforceCertificationBudget schedule (Budget options) = None;
  planned_capacity : Schedule.LocalCapacity schedule = capacity;
  planned_claims : Schedule.ReuseClaims schedule = reusableSessionClaims sessions;
  planned_completed : Schedule.CompletedCellIDs schedule = sort_strings (elements completed);
  planned_deferred : Schedule.DeferredCellIDs schedule =
    sort_strings (ScheduleCell.ID <$> filter (λ c, not_runnable (ScheduleCell.Status c) = true) cells);
  planned_totals : ∀ d (project : Schedule → Z),
    (d, project) ∈ [(ExecutionEstimate.CloudOperationSeconds, Schedule.CloudOperationSeconds);
                    (ExecutionEstimate.ResourceLifetimeSeconds, Schedule.ResourceLifetimeSeconds);
                    (ExecutionEstimate.EstimatedCostCents, Schedule.EstimatedCostCents);
                    (ExecutionEstimate.CleanupLatencySeconds, Schedule.CleanupLatencySeconds)] →
    project schedule = total_of d (Schedule.Units schedule) ∧ project schedule ≤ max_int64;
  planned_known : Schedule.CostKnown schedule = negb (bool_decide (length (Schedule.Units schedule) = 0%nat))
    && forallb (λ u, ExecutionEstimate.CostKnown (ExecutionUnit.Estimate u)) (Schedule.Units schedule);
  planned_kinds : Schedule.ColdUnitCount schedule + Schedule.WarmTransitionCount schedule
    + Schedule.ReusedSessionCount schedule = Z.of_nat (length (Schedule.Units schedule));
}.

(** The pure part of a build. *)
Lemma plan_Ok completed capacity sessions schedule :
  plan options cells completed capacity sessions = Ok schedule →
  ∃ units cellToUnit reused, planned completed capacity sessions schedule units cellToUnit reused.
Proof.
  unfold plan. destruct (makeExecutionUnits cells completed) as [units cellToUnit] eqn:E1.
  destruct (applyReusableSessions _ _ _) as [reused|] eqn:E2; cbn [mbind result_bind]; [|done].
  destruct (addUnitDependencies _ _ _ _) as [linked|] eqn:E3; cbn [mbind result_bind]; [|done].
  destruct (makeBatches _ _ _) as [batches|] eqn:E4; cbn [mbind result_bind]; [|done].
  destruct (add_units _ _) as [s|] eqn:E5; cbn [mbind result_bind]; [|done].
  intros H. apply lift_check_Ok in H as [Hb [= <-]].
  apply add_units_counted in E5 as [[] (?&?&?&?)]; [|by vm_compute]. simpl in *.
  exists units, cellToUnit, reused. split; try congruence; try done.
  - intros d project Hin. rewrite !elem_of_cons in Hin.
    destruct Hin as [[= -> ->]|[[= -> ->]|[[= -> ->]|[[= -> ->]|Hin]]]]; 
      [split; [rewrite counted_units0; lia|done] ..|set_solver].
  - by rewrite counted_known0, counted_units0.
  - by rewrite counted_units0, counted_kinds0.
Qed.

Lemma BuildSchedule_Ok w schedule w' :
  BuildSchedule cells w = (Ok schedule, w') →
  ∃ capacity owner completed sessions w1 units cellToUnit reused,
    check_options uuid options cells = Ok (capacity, owner) ∧
    check_admission url_Parse Quote options w = (None, w1) ∧
    resume clock options cells = Ok completed ∧
    findReusableScheduleSessions (contextOrBackground (AdmissionContext options)) cells completed
      (OptRegistry options) owner w1 = (sessions, None, w') ∧
    planned completed capacity sessions schedule units cellToUnit reused.
Proof.
  unfold BuildSchedule.BuildSchedule. destruct (check_options _ _ _) as [[capacity owner]|] eqn:E1; [|done].
  destruct (check_admission _ _ _ _) as [refused w1] eqn:E2.
  destruct (refused ;;! _) as [completed|] eqn:E3; [|done]. apply lift_check_Ok in E3 as [-> E3].
  destruct (findReusableScheduleSessions _ _ _ _ _ _) as [[sessions err] w2] eqn:E4.
  destruct (err ;;! _) as [schedule'|] eqn:E5.
  - apply lift_check_Ok in E5 as [-> E5]. intros [= -> ->].
    apply plan_Ok in E5 as (units&cellToUnit&reused&Hp).
    exists capacity, owner, completed, sessions, w1, units, cellToUnit, reused. done.
  - unfold fail_releasing. destruct (usable _); [|done].
    by destruct (releaseReusableScheduleSessions _ _ _ _).
Qed.

Lemma check_options_cells capacity owner :
  check_options uuid options cells = Ok (capacity, owner) → validateScheduleCells cells = None ∧ 1 ≤ MaxParallel options.
Proof.
  unfold check_options. intros H. apply lift_check_Ok in H as [Hm H]. apply lift_check_Ok in H as [Hc H].
  apply fail_if_None, Z.ltb_ge in Hm. done.
Qed.

Lemma validated_cells :
  validateScheduleCells cells = None →
  NoDup (ScheduleCell.ID <$> cells) ∧ (∀ c, c ∈ cells → valid_cell c) ∧
  (∀ c, c ∈ cells → check_dependencies (by_id ScheduleCell.ID cells) (ScheduleCell.ID c) [] (ScheduleCell.Dependencies c) = None
     ∧ check_warm (by_id ScheduleCell.ID cells) c = None).
Proof.
  unfold validateScheduleCells. intros H. apply err_seq_None in H as [_ H]. apply err_seq_None in H as [Hc H].
  apply err_seq_None in H as [Hd _]. apply check_cells_valid in Hc as [Hnd Hc].
  split_and!; [done|by intros; apply Hc|].
  rewrite first_error_None, Forall_forall in Hd. intros c Hin. by apply err_seq_None, Hd.
Qed.
End build.

(** ** Dependencies of a planned schedule *)

Lemma add_dependencies_total cellToUnit completed cellID unitID dependencies units units' :
  add_dependencies cellToUnit completed cellID unitID dependencies units = Ok units' →
  ∀ d, d ∈ dependencies → d ∉ completed → is_Some (cellToUnit !! d).
Proof.
  revert units. induction dependencies as [|x ds IH]; intros units H d; simpl in H; [set_solver|].
  intros [->|Hd]%elem_of_cons Hc; case_bool_decide; [done| |by eapply IH|].
  - destruct (cellToUnit !! x); [by eexists|done].
  - destruct (cellToUnit !! x); [by eapply IH|done].
Qed.

Lemma add_cells_total cellToUnit completed cells units units' :
  add_cells_dependencies cellToUnit completed cells units = Ok units' →
  ∀ c, c ∈ cells → is_Some (cellToUnit !! ScheduleCell.ID c) →
  (∀ d, d ∈ ScheduleCell.Dependencies c → d ∉ completed → is_Some (cellToUnit !! d)) ∧
  (ScheduleCell.WarmFrom c ≠ "" → ScheduleCell.WarmFrom c ∉ completed →
   is_Some (cellToUnit !! ScheduleCell.WarmFrom c)).
Proof.
  revert units. induction cells as [|x cells IH]; intros units H c; simpl in H; [set_solver|].
  destruct (cellToUnit !! ScheduleCell.ID x) as [unitID|] eqn:E; cycle 1.
  { intros [->|Hc]%elem_of_cons [? Hs]; [congruence|by eapply IH]. }
  destruct (add_dependencies _ _ _ _ _ _) as [units1|] eqn:E1; cbn [mbind result_bind] in H; [|done].
  destruct (add_baseline _ _ _ _ _) as [units2|] eqn:E2; cbn [mbind result_bind] in H; [|done].
  intros [->|Hc]%elem_of_cons Hs; [|by eapply IH]. split; [by eapply add_dependencies_total|].
  intros Hw Hn. unfold add_baseline in E2. rewrite bool_decide_eq_false_2 in E2 by done.
  destruct (cellToUnit !! ScheduleCell.WarmFrom x); [by eexists|].
  rewrite bool_decide_eq_false_2 in E2 by done. done.
Qed.

(** Everything the claims use of the units of a built schedule. *)
Record linked (completed : gset string) (cells : list ScheduleCell) (units : list ExecutionUnit) : Prop := {
  linked_ids : NoDup (ExecutionUnit.ID <$> units);
  linked_cells : units ≫= ExecutionUnit.CellIDs
    ≡ₚ ScheduleCell.ID <$> filter (λ c, scheduled completed c = true) cells;
  linked_keys : ∀ u c, u ∈ units → c ∈ cells → ScheduleCell.ID c ∈ ExecutionUnit.CellIDs u →
    ScheduleCell.MutationKeys c ⊆ ExecutionUnit.MutationKeys u;
  linked_order : ∀ u c d, u ∈ units → c ∈ cells → ScheduleCell.ID c ∈ ExecutionUnit.CellIDs u →
    d ∈ ScheduleCell.Dependencies c ∨ (ScheduleCell.WarmFrom c ≠ "" ∧ d = ScheduleCell.WarmFrom c) →
    d ∈ completed ∨ d ∈ ExecutionUnit.CellIDs u ∨
    ∃ v, v ∈ units ∧ d ∈ ExecutionUnit.CellIDs v ∧ ExecutionUnit.ID v ∈ ExecutionUnit.DependsOn u;
  linked_known : ∀ u other, u ∈ units → other ∈ ExecutionUnit.DependsOn u →
    other ∈ ExecutionUnit.ID <$> units;
}.

(** The units before sessions and dependencies were filled in. *)
Definition grouped_units (groups : gmap string ExecutionUnit) : list ExecutionUnit :=
  sort_by unit_le (finish_unit <$> (map_to_list groups).*2).

Section linked.
Context {W : Type} (options : SchedulerOptions W) (cells : list ScheduleCell) (completed : gset string).
Context (capacity : option LocalCapacityRequest) (sessions : gmap string SessionRecord) (schedule : Schedule).
Context (units reused : list ExecutionUnit) (cellToUnit : gmap string string).
Context (Hsep : hash_separates cells) (Hids : NoDup (ScheduleCell.ID <$> cells)).
Context (Hp : planned options cells completed capacity sessions schedule units cellToUnit reused).
Abbreviation final := (Schedule.Units schedule).

(** The units of the schedule are those of the groups, with dependencies. *)
Lemma planned_grouping :
  ∃ groups, grouping_ok completed cells cells groups cellToUnit ∧
    core <$> final = core <$> grouped_units groups ∧
    depends_ok reused final (λ uid other, other ≠ uid ∧ ∃ c, c ∈ cells ∧
      cellToUnit !! ScheduleCell.ID c = Some uid ∧ needs cellToUnit completed c other).
Proof using Hsep Hids Hp.
  destruct Hp as [Hm Hs Hl _ _ _ _ _ _ _ _ _].
  destruct (makeExecutionUnits_grouping completed cells Hsep Hids) as (groups&cellToUnit'&Hg&Hm').
  rewrite Hm in Hm'. injection Hm' as -> <-. exists groups.
  assert (Hnone : ∀ u, u ∈ grouped_units groups → ExecutionUnit.DependsOn u = []).
  { intros u (key&u0&Hu0&->)%elem_of_units.
    destruct (described_origin _ _ _ _ _ (grouping_some _ _ _ _ _ Hg _ _ Hu0)) as (o&_&Ho). apply Ho. }
  apply applyReusableSessions_core in Hs as [Hs Hnone']. specialize (Hnone' Hnone).
  apply addUnitDependencies_ok in Hl; [|rewrite (core_ids _ _ Hs); by eapply units_NoDup|done].
  split_and!; [done| |done]. by rewrite (depends_ok_core _ _ _ Hl), Hs.
Qed.

(** The unit a cell was grouped into. *)
Lemma planned_owner groups u c :
  grouping_ok completed cells cells groups cellToUnit → core <$> final = core <$> grouped_units groups →
  u ∈ final → c ∈ cells →
  cellToUnit !! ScheduleCell.ID c = Some (ExecutionUnit.ID u) ↔ ScheduleCell.ID c ∈ ExecutionUnit.CellIDs u.
Proof using Hsep Hids.
  intros Hg Hc Hu Hcc. destruct (core_elem _ _ _ Hc Hu) as (v&Hv&He). injection He as -> -> _ _ _ _ _ _.
  by eapply units_of_cell.
Qed.

Lemma planned_unit_of groups d other :
  grouping_ok completed cells cells groups cellToUnit → core <$> final = core <$> grouped_units groups →
  cellToUnit !! d = Some other → ∃ v, v ∈ final ∧ d ∈ ExecutionUnit.CellIDs v ∧ ExecutionUnit.ID v = other.
Proof using Hsep Hids.
  intros Hg Hc Hd. pose proof Hd as Hd'. apply (grouping_units _ _ _ _ _ Hg) in Hd' as (c&Hcc&Hsc&<-&<-).
  destruct (group_of_cell completed cells Hsep Hids groups cellToUnit Hg c Hcc Hsc) as (u0&Hu0).
  assert (core (finish_unit u0) ∈ core <$> final) as (v&He&Hv)%list_elem_of_fmap.
  { rewrite Hc. apply list_elem_of_fmap_2, elem_of_units. by exists (group_key c), u0. }
  assert (ExecutionUnit.ID v = unit_id c) as Hv'.
  { assert (ExecutionUnit.ID (finish_unit u0) = ExecutionUnit.ID v) as <- by by injection He.
    change (ExecutionUnit.ID (finish_unit u0)) with (ExecutionUnit.ID u0).
    eapply group_id; [exact Hg|exact Hu0|by apply elem_of_members]. }
  exists v. split_and!; [done| |done]. apply (planned_owner groups); try done. by rewrite Hv'.
Qed.

(** A unit and the cells it was grouped from. *)
Lemma planned_described groups u :
  grouping_ok completed cells cells groups cellToUnit → core <$> final = core <$> grouped_units groups →
  u ∈ final → ∃ key u0, groups !! key = Some u0 ∧ described completed cells cells key u0 ∧ core u = core (finish_unit u0).
Proof.
  intros Hg Hc Hu. destruct (core_elem _ _ _ Hc Hu) as (v&(key&u0&Hu0&->)%elem_of_units&He).
  exists key, u0. split_and!; [done| |done]. by apply (grouping_some _ _ _ _ _ Hg).
Qed.

(** Every dependency of a unit's cells is met by a unit of the schedule. *)
Lemma planned_total c d :
  c ∈ cells → is_Some (cellToUnit !! ScheduleCell.ID c) → d ∉ completed →
  d ∈ ScheduleCell.Dependencies c ∨ (ScheduleCell.WarmFrom c ≠ "" ∧ d = ScheduleCell.WarmFrom c) →
  is_Some (cellToUnit !! d).
Proof using Hp.
  intros Hcc Hsome Hn Hd. pose proof (planned_links _ _ _ _ _ _ _ _ _ Hp) as Hl. unfold addUnitDependencies in Hl.
  destruct (add_cells_dependencies _ _ _ _) as [mid|] eqn:Et; [|done].
  destruct (add_cells_total _ _ _ _ _ Et c Hcc Hsome) as [Hdeps Hwarm].
  destruct Hd as [Hd|[Hw ->]]; [by apply Hdeps|by apply Hwarm].
Qed.

Lemma planned_linked : linked completed cells final.
Proof using Hsep Hids Hp.
  destruct planned_grouping as (groups&Hg&Hc&Hl).
  assert (Hnd : NoDup (ExecutionUnit.ID <$> final)) by (rewrite (core_ids _ _ Hc); by eapply units_NoDup).
  split.
  - done.
  - rewrite (core_cells _ _ Hc). by eapply units_partition.
  - intros u c Hu Hcc Hin. destruct (planned_described groups u Hg Hc Hu) as (key&u0&Hu0&Hd&He).
    injection He as _ Hcv Hkv _ _ _ _ _. rewrite Hkv. rewrite Hcv in Hin.
    apply (described_covers _ _ _ _ _ Hd), elem_of_members. split; [done|].
    apply (group_members completed cells Hids groups cellToUnit Hg key u0 c Hu0 Hcc). by apply finish_cells.
  - intros u c d Hu Hcc Hin Hd. destruct (decide (d ∈ completed)); [by left|right].
    apply (planned_owner groups u c Hg Hc) in Hin; [|done|done].
    destruct (planned_total c d Hcc ltac:(by eexists) ltac:(done) Hd) as [other Ho].
    destruct (planned_unit_of groups d other Hg Hc Ho) as (v&Hv&Hdv&Hidv).
    destruct (decide (other = ExecutionUnit.ID u)) as [->|Hne].
    { left. assert (v = u) as ->; [|done].
      pose proof (by_id_lookup _ _ _ Hnd Hv) as H1. pose proof (by_id_lookup _ _ _ Hnd Hu) as H2.
      rewrite Hidv in H1. congruence. }
    right. exists v. split_and!; [done|done|]. rewrite Hidv.
    destruct (depends_ok_elem _ _ _ _ Hl Hu) as (u0&_&He&Hdep). apply Hdep.
    assert (ExecutionUnit.ID u0 = ExecutionUnit.ID u) as -> by by rewrite He.
    split; [done|]. exists c. split_and!; [done|done|]. unfold needs.
    destruct Hd as [Hd|[Hw ->]]; [left; by exists d|by right].
  - intros u other Hu Hd. destruct (depends_ok_elem _ _ _ _ Hl Hu) as (u0&_&_&Hdep).
    pose proof (proj1 (Hdep other) Hd) as (_&c&Hcc&_&Hn). clear Hd.
    assert (∃ d, cellToUnit !! d = Some other) as (d&Hd).
    { destruct Hn as [(d&_&_&?)|[_ ?]]; eauto. }
    destruct (planned_unit_of groups d other Hg Hc Hd) as (v&Hv&_&<-). by apply list_elem_of_fmap_2.
Qed.
End linked.

(** ** Checkpoints *)

(** A checkpoint that lets a cell be skipped. *)
Definition passes (values : list SchedulerCheckpoint) (c : ScheduleCell) : Prop :=
  ∃ checkpoint, checkpoint ∈ values ∧
    SchedulerCheckpoint.CellID checkpoint = ScheduleCell.ID c ∧
    SchedulerCheckpoint.Status checkpoint = "PASS" ∧
    SchedulerCheckpoint.Fingerprint checkpoint = ScheduleCell.Fingerprint c ∧
    SchedulerCheckpoint.OwnershipMarker checkpoint = ScheduleCell.OwnershipMarker c.

Lemma check_checkpoint_None clock known seen v :
  check_checkpoint clock known seen v = None → ∃ cell, known !! SchedulerCheckpoint.CellID v = Some cell ∧
    seen !! SchedulerCheckpoint.CellID v = None ∧
    SchedulerCheckpoint.Fingerprint v = ScheduleCell.Fingerprint cell ∧
    SchedulerCheckpoint.OwnershipMarker v = ScheduleCell.OwnershipMarker cell.
Proof.
  unfold check_checkpoint. intros H. apply err_seq_None in H as [_ H].
  destruct (known !! _) as [cell|]; [|done]. exists cell.
  apply err_seq_None in H as [Hs H]. apply err_seq_None in H as [Hf H]. apply err_seq_None in H as [Hm _].
  rewrite fail_if_None, negb_false_iff in Hs, Hf, Hm. apply bool_decide_eq_true in Hf, Hm.
  split_and!; try done. unfold absent in Hs. by destruct (seen !! _).
Qed.

Lemma validateCheckpoints_from_Ok clock cells values seen m :
  validateCheckpoints_from clock (by_id ScheduleCell.ID cells) seen values = Ok m →
  seen ⊆ m ∧ (∀ v, v ∈ values → m !! SchedulerCheckpoint.CellID v = Some v ∧
    ∃ c, c ∈ cells ∧ ScheduleCell.ID c = SchedulerCheckpoint.CellID v ∧
      SchedulerCheckpoint.Fingerprint v = ScheduleCell.Fingerprint c ∧
      SchedulerCheckpoint.OwnershipMarker v = ScheduleCell.OwnershipMarker c) ∧
  (∀ id v, m !! id = Some v → seen !! id = Some v ∨ (v ∈ values ∧ SchedulerCheckpoint.CellID v = id)).
Proof.
  revert seen. induction values as [|x values IH]; intros seen H; simpl in H.
  { injection H as <-. split_and!; [done|set_solver|by left]. }
  apply lift_check_Ok in H as [Hx H]. apply check_checkpoint_None in Hx as (c&Hc&Hs&Hf&Hm).
  apply by_id_Some in Hc as [Hc Hid]. apply IH in H as (Hsub&Hval&Hm'). split_and!.
  - etrans; [|exact Hsub]. by apply insert_subseteq.
  - intros v [->|Hv]%elem_of_cons; [|by apply Hval]. split; [|by exists c].
    eapply lookup_weaken; [|exact Hsub]. by rewrite lookup_insert_eq.
  - intros id v Hv. destruct (Hm' id v Hv) as [[[<- <-]|[_ ?]]%lookup_insert_Some|[? ?]]; [right; set_solver|by left|right; set_solver].
Qed.

Lemma resume_passes {W} clock (options : SchedulerOptions W) cells completed c :
  NoDup (ScheduleCell.ID <$> cells) → c ∈ cells → resume clock options cells = Ok completed →
  ScheduleCell.ID c ∈ completed ↔ passes (Checkpoints options) c.
Proof.
  intros Hids Hc. unfold resume, validateCheckpoints.
  destruct (validateCheckpoints_from _ _ _ _) as [m|] eqn:E; cbn [mbind result_bind]; [|done].
  intros H. apply lift_check_Ok in H as [_ H]. apply lift_check_Ok in H as [_ H].
  apply lift_check_Ok in H as [_ [= <-]].
  apply validateCheckpoints_from_Ok in E as (_&Hval&Hm).
  assert (Hun : ∀ d, d ∈ cells → ScheduleCell.ID d = ScheduleCell.ID c → d = c).
  { intros d Hd He. by eapply cell_unique. }
  unfold passed. rewrite elem_of_list_to_set, list_elem_of_fmap. split.
  - intros (d&He&[Hst Hd]%list_elem_of_filter). assert (d = c) as -> by by apply Hun. clear He.
    destruct (m !! ScheduleCell.ID c) as [v|] eqn:Ev; [|done]. injection Hst as Hst.
    destruct (Hm _ _ Ev) as [Hv|[Hv Hid]]; [by rewrite lookup_empty in Hv|].
    destruct (Hval v Hv) as (_&c'&Hc'&Hid'&Hf&Hmk). assert (c' = c) as ->.
    { eapply cell_unique; [exact Hids|done|done|congruence]. }
    exists v. by split_and!.
  - intros (v&Hv&Hid&Hst&_). exists c. split; [done|]. apply list_elem_of_filter. split; [|done].
    destruct (Hval v Hv) as [Hl _]. rewrite Hid in Hl. by rewrite Hl, <-Hst.
Qed.

(** ** Claims *)

Section claims.
Context {W : Type} (url_Parse : string → result url) (Quote : string → string) (uuid : string) (clock : Z).
Context (options : SchedulerOptions W) (cells : list ScheduleCell).
Abbreviation BuildSchedule := (BuildSchedule url_Parse Quote uuid clock options).

(** Every cell is accounted for.  A built schedule has each cell in exactly
    one unit, unless the cell is deferred because its status rules it out or
    completed by a PASS checkpoint of its own fingerprint and ownership marker;
    and each unit is in exactly one batch. *)
Theorem BuildSchedule_accounts w schedule w' :
  hash_separates cells → BuildSchedule cells w = (Ok schedule, w') →
  NoDup (Schedule.Units schedule ≫= ExecutionUnit.CellIDs) ∧
  (∀ c, c ∈ cells →
     (ScheduleCell.ID c ∈ Schedule.Units schedule ≫= ExecutionUnit.CellIDs ↔
      ScheduleCell.ID c ∉ Schedule.CompletedCellIDs schedule ∧
      ScheduleCell.ID c ∉ Schedule.DeferredCellIDs schedule) ∧
     (ScheduleCell.ID c ∈ Schedule.CompletedCellIDs schedule ↔ passes (Checkpoints options) c) ∧
     (ScheduleCell.ID c ∈ Schedule.DeferredCellIDs schedule ↔ not_runnable (ScheduleCell.Status c) = true)) ∧
  concat (Schedule.Batches schedule) ≡ₚ ExecutionUnit.ID <$> Schedule.Units schedule.
Proof.
  intros Hsep (capacity&owner&completed&sessions&w1&units&cellToUnit&reused&Ho&_&Hr&_&Hp)%BuildSchedule_Ok.
  apply check_options_cells in Ho as [Hv _]. apply validated_cells in Hv as (Hids&_&_).
  pose proof (planned_linked _ _ _ _ _ _ _ _ _ Hsep Hids Hp) as [Hnd Hcells _ _ _].
  split_and!.
  - rewrite Hcells. eapply sublist_NoDup; [exact Hids|apply fmap_sublist, sublist_filter].
  - intros c Hc. pose proof (resume_passes _ _ _ _ _ Hids Hc Hr) as Hpass.
    rewrite (planned_completed _ _ _ _ _ _ _ _ _ Hp), elem_of_sort_strings, elem_of_elements.
    assert (Hdef : ScheduleCell.ID c ∈ Schedule.DeferredCellIDs schedule ↔ not_runnable (ScheduleCell.Status c) = true).
    { rewrite (planned_deferred _ _ _ _ _ _ _ _ _ Hp), elem_of_sort_strings, list_elem_of_fmap. split.
      - intros (d&He&[Hd Hdc]%list_elem_of_filter). by rewrite (cell_unique cells Hids c d Hc Hdc He).
      - intros Hn. exists c. by rewrite list_elem_of_filter. }
    split_and!; [|done|done]. rewrite Hdef, Hcells, list_elem_of_fmap. unfold scheduled. split.
    + intros (d&He&[Hd Hdc]%list_elem_of_filter). rewrite (cell_unique cells Hids c d Hc Hdc He).
      apply andb_true_iff in Hd as [H1%negb_true_iff%bool_decide_eq_false H2%negb_true_iff].
      split; [done|congruence].
    + intros [H1 H2]. exists c. rewrite list_elem_of_filter. split_and!; [done| |done].
      apply andb_true_iff. rewrite !negb_true_iff, bool_decide_eq_false. split; [done|]. by apply not_true_is_false.
  - eapply makeBatches_perm; [exact Hnd|apply Hp].
Qed.

(** Batches respect cells.  When a scheduled cell runs, every dependency of
    it and the baseline it warms from is completed, in its own unit, or in a
    unit of a strictly earlier batch; and no cell of another unit of its batch
    shares a mutation key with it. *)
Theorem BuildSchedule_order w schedule w' u c before batch after :
  hash_separates cells → BuildSchedule cells w = (Ok schedule, w') →
  u ∈ Schedule.Units schedule → c ∈ cells → ScheduleCell.ID c ∈ ExecutionUnit.CellIDs u →
  Schedule.Batches schedule = before ++ batch :: after → ExecutionUnit.ID u ∈ batch →
  (∀ d, d ∈ ScheduleCell.Dependencies c ∨ (ScheduleCell.WarmFrom c ≠ "" ∧ d = ScheduleCell.WarmFrom c) →
     d ∈ Schedule.CompletedCellIDs schedule ∨ d ∈ ExecutionUnit.CellIDs u ∨
     ∃ v, v ∈ Schedule.Units schedule ∧ d ∈ ExecutionUnit.CellIDs v ∧ ExecutionUnit.ID v ∈ concat before) ∧
  (∀ v c', v ∈ Schedule.Units schedule → c' ∈ cells → ScheduleCell.ID c' ∈ ExecutionUnit.CellIDs v →
     ExecutionUnit.ID v ∈ batch → ExecutionUnit.ID v ≠ ExecutionUnit.ID u →
     ScheduleCell.MutationKeys c ## ScheduleCell.MutationKeys c').
Proof.
  intros Hsep Hb Hu Hc Hin Hbatch Hub.
  apply BuildSchedule_Ok in Hb as (capacity&owner&completed&sessions&w1&units&cellToUnit&reused&Ho&_&Hr&_&Hp).
  apply check_options_cells in Ho as [Hv _]. apply validated_cells in Hv as (Hids&_&_).
  pose proof (planned_linked _ _ _ _ _ _ _ _ _ Hsep Hids Hp) as [Hnd _ Hkeys Hord _].
  destruct (makeBatches_spec _ _ _ _ Hnd (planned_batches _ _ _ _ _ _ _ _ _ Hp)) as (_&_&Hdisj&_&Hdep).
  split.
  - intros d Hd. rewrite (planned_completed _ _ _ _ _ _ _ _ _ Hp), elem_of_sort_strings, elem_of_elements.
    destruct (Hord u c d Hu Hc Hin Hd) as [?|[?|(v&Hv&Hdv&Hvu)]]; [by left|right; by left|right; right].
    exists v. split_and!; [done|done|]. exact (Hdep _ _ _ _ _ Hbatch Hu Hub Hvu).
  - intros v c' Hv Hc' Hin' Hvb Hne k Hk Hk'.
    eapply (Hdisj batch u v); [rewrite Hbatch; set_solver|done..|by apply not_eq_sym| |].
    + by eapply (Hkeys u c).
    + by eapply (Hkeys v c').
Qed.

(** C40: budgets hold exactly.  The totals of a built schedule are the sums of
    the estimates of its units, none exceeds a signed 64-bit integer, each is
    within its budget when one is set, and a spend budget or a required cost
    estimate means that there are units and that every cost is known. *)
Theorem BuildSchedule_budget w schedule w' :
  BuildSchedule cells w = (Ok schedule, w') →
  (∀ d project max,
     (d, project, max) ∈
       [(ExecutionEstimate.CloudOperationSeconds, Schedule.CloudOperationSeconds, MaxCloudOperationSeconds);
        (ExecutionEstimate.ResourceLifetimeSeconds, Schedule.ResourceLifetimeSeconds, MaxResourceLifetimeSeconds);
        (ExecutionEstimate.EstimatedCostCents, Schedule.EstimatedCostCents, MaxEstimatedCostCents);
        (ExecutionEstimate.CleanupLatencySeconds, Schedule.CleanupLatencySeconds, MaxCleanupLatencySeconds)] →
     project schedule = total_of d (Schedule.Units schedule) ∧ project schedule ≤ max_int64 ∧
     (0 < max (Budget options) → project schedule ≤ max (Budget options))) ∧
  (RequireCostEstimate (Budget options) = true ∨ 0 < MaxEstimatedCostCents (Budget options) →
     Schedule.Units schedule ≠ [] ∧
     ∀ u, u ∈ Schedule.Units schedule → ExecutionEstimate.CostKnown (ExecutionUnit.Estimate u) = true).
Proof.
  intros (capacity&owner&completed&sessions&w1&units&cellToUnit&reused&_&_&_&_&Hp)%BuildSchedule_Ok.
  pose proof (planned_totals _ _ _ _ _ _ _ _ _ Hp) as Ht.
  pose proof (planned_budget _ _ _ _ _ _ _ _ _ Hp) as Hb. unfold enforceCertificationBudget in Hb.
  apply err_seq_None in Hb as [Hcloud Hb]. apply err_seq_None in Hb as [Hlife Hb].
  apply err_seq_None in Hb as [Hreq Hb]. apply err_seq_None in Hb as [Hcost Hclean].
  rewrite fail_if_None in Hcloud, Hlife, Hreq, Hclean.
  assert (Hknown : RequireCostEstimate (Budget options) = true ∨ 0 < MaxEstimatedCostCents (Budget options) →
    Schedule.CostKnown schedule = true).
  { intros [Hr|Hm].
    - rewrite Hr in Hreq. by apply negb_false_iff in Hreq.
    - apply Z.ltb_lt in Hm. rewrite Hm in Hcost. apply err_seq_None in Hcost as [Hk _].
      by apply fail_if_None, negb_false_iff in Hk. }
  split.
  - intros d project max Hin. rewrite !elem_of_cons in Hin.
    assert (project schedule = total_of d (Schedule.Units schedule) ∧ project schedule ≤ max_int64) as [Hsum Hmax].
    { apply Ht. destruct Hin as [[= -> -> _]|[[= -> -> _]|[[= -> -> _]|[[= -> -> _]|Hin]]]];
        [repeat constructor ..|set_solver]. }
    split_and!; [done|done|]. clear Hsum Hmax. destruct Hin as [[= -> -> ->]|[[= -> -> ->]|[[= -> -> ->]|[[= -> -> ->]|Hin]]]]; [| | | |set_solver].
    all: intros Hm.
    1, 2, 4: by eapply within_budget.
    apply Z.ltb_lt in Hm. rewrite Hm in Hcost. apply err_seq_None in Hcost as [_ Hc].
    by apply fail_if_None, Z.ltb_ge in Hc.
  - intros Hk%Hknown. rewrite (planned_known _ _ _ _ _ _ _ _ _ Hp) in Hk.
    apply andb_true_iff in Hk as [Hl Hall]. apply negb_true_iff, bool_decide_eq_false in Hl.
    split; [intros He; by rewrite He in Hl|]. intros u Hu. rewrite forallb_forall in Hall. by apply Hall, list_elem_of_In.
Qed.
End claims.

(** ** Examples *)

Module BuildExample.
Import UnitExample.

Definition budget : CertificationBudget :=
  {| MaxCloudOperationSeconds := 3000; MaxResourceLifetimeSeconds := 0; MaxEstimatedCostCents := 800;
     MaxCleanupLatencySeconds := 480; RequireCostEstimate := true |}.

(** [php-83] was certified by an earlier run. *)
Definition checkpoint : SchedulerCheckpoint :=
  {| SchedulerCheckpoint.CellID := "php-83"; SchedulerCheckpoint.Fingerprint := digest "a";
     SchedulerCheckpoint.ReuseFingerprint := None; SchedulerCheckpoint.OwnershipMarker := "run-a";
     SchedulerCheckpoint.Status := "PASS"; SchedulerCheckpoint.StackID := "stack-1";
     SchedulerCheckpoint.OperationIDs := []; SchedulerCheckpoint.ResourceRefs := [];
     SchedulerCheckpoint.BackupRefs := []; SchedulerCheckpoint.RestoreRefs := [];
     SchedulerCheckpoint.TelemetryRefs := []; SchedulerCheckpoint.EdgeRefs := [];
     SchedulerCheckpoint.ReuseMode := ""; SchedulerCheckpoint.CleanupState := "";
     SchedulerCheckpoint.UpdatedAt := "" |}.

Definition options : SchedulerOptions unit :=
  {| MaxParallel := 4; QuotaByKey := ∅; OptRegistry := None; OptClaimOwner := ""; OptAdmission := None;
     OptAdmissionProbe := None; OptAdmissionSnapshot := None; AdmissionContext := Some None;
     Checkpoints := [checkpoint]; PendingDeletions := []; Budget := budget |}.

Definition url_Parse (value : string) : result url := Err (ErrNew value).
Definition build := BuildSchedule url_Parse id "uuid-1" 0 options cells ().
Definition schedule : Schedule := Eval vm_compute in
  match build.1 with
  | Ok schedule => schedule
  | Err _ => {| Schedule.Units := []; Schedule.Batches := []; Schedule.LocalCapacity := None;
      Schedule.ReuseClaims := []; Schedule.CompletedCellIDs := []; Schedule.DeferredCellIDs := [];
      Schedule.BlockedCellIDs := []; Schedule.ColdUnitCount := 0; Schedule.WarmTransitionCount := 0;
      Schedule.ReusedCellCount := 0; Schedule.CloudOperationSeconds := 0; Schedule.ResourceLifetimeSeconds := 0;
      Schedule.EstimatedCostCents := 0; Schedule.CleanupLatencySeconds := 0; Schedule.CostKnown := false;
      Schedule.ReusedSessionCount := 0 |}
  end.

Lemma built : build = (Ok schedule, ()).
Proof. vm_cast_no_check (eq_refl (Ok schedule, ())). Qed.

Lemma BuildSchedule_accounts_witness :
  Schedule.CompletedCellIDs schedule = ["php-83"] ∧ Schedule.DeferredCellIDs schedule = ["arm"] ∧
  NoDup (Schedule.Units schedule ≫= ExecutionUnit.CellIDs).
Proof.
  split_and!; [done..|].
  exact (proj1 (BuildSchedule_accounts url_Parse id "uuid-1" 0 options cells () schedule () cells_separated built)).
Defined.

(** The unit of [edge], which depends on [redis]. *)
Definition edge : ExecutionUnit :=
  Eval vm_compute in default (executionUnitForBaseline (cell "" "a" "" "" "" [] []))
    (Schedule.Units schedule !! 2%nat).

Definition edge_cell : ScheduleCell :=
  cell "edge" "c" "" "run-b" CapabilityCompatible ["redis"] ["edge"].

Lemma edge_scheduled :
  edge ∈ Schedule.Units schedule ∧ edge_cell ∈ cells ∧ ScheduleCell.ID edge_cell ∈ ExecutionUnit.CellIDs edge.
Proof. split_and!; [do 2 right; left|do 3 right; left|left]. Qed.

Lemma BuildSchedule_order_witness :
  "redis" ∈ Schedule.CompletedCellIDs schedule ∨ "redis" ∈ ExecutionUnit.CellIDs edge ∨
  ∃ v, v ∈ Schedule.Units schedule ∧ "redis" ∈ ExecutionUnit.CellIDs v ∧
    ExecutionUnit.ID v ∈ concat (take 2 (Schedule.Batches schedule)).
Proof.
  refine (proj1 (BuildSchedule_order url_Parse id "uuid-1" 0 options cells () schedule () edge edge_cell
    (take 2 (Schedule.Batches schedule)) [ExecutionUnit.ID edge] [] cells_separated built
    (proj1 edge_scheduled) (proj1 (proj2 edge_scheduled)) (proj2 (proj2 edge_scheduled)) eq_refl _) "redis" _).
  - left.
  - left. left.
Defined.

Lemma BuildSchedule_budget_witness :
  Schedule.EstimatedCostCents schedule = 750 ∧ Schedule.EstimatedCostCents schedule ≤ 800.
Proof.
  split; [done|].
  refine (proj2 (proj2 (proj1 (BuildSchedule_budget url_Parse id "uuid-1" 0 options cells () schedule () built)
    ExecutionEstimate.EstimatedCostCents Schedule.EstimatedCostCents MaxEstimatedCostCents _)) _); [|done].
  rewrite !elem_of_cons. right; right; by left.
Defined.
End BuildExample.
