(* ===== verification/ScheduleSessions.v ===== *)
(** * Building a schedule: the fate of session claims

    A failed build releases what it claimed.  The proof follows the memory
    registry through the claims of [find_sessions] and the releases of the
    deferred function: at every moment the registry is the initial one with the
    claims of a set of digests. *)

From S2P Require Import Prelude GoStrings GoEncoding Sdk Sessions LocalCapacity Admission Schedule Units BuildSchedule BuildClaims UnitClaims.

Local Open Scope Z_scope.

Implicit Types (R : MemorySessionRegistry) (owner : string) (D : gset string) (r : SessionRecord).

Abbreviation with_claim := SessionRecord.with_claim.
Abbreviation ClaimOwner := SessionRecord.ClaimOwner.
Abbreviation FingerprintHash := SessionRecord.FingerprintHash.
Abbreviation memory := (NewMemorySessionRegistry : SessionRegistry MemorySessionRegistry).

(** [R] with the sessions of [D] claimed by [owner]. *)
Definition claimed_at R owner D : MemorySessionRegistry :=
  map_imap (λ k r, Some (if decide (k ∈ D) then with_claim owner r else r)) R.

Lemma claimed_at_lookup R owner D k :
  claimed_at R owner D !! k = (λ r, if decide (k ∈ D) then with_claim owner r else r) <$> R !! k.
Proof. unfold claimed_at. rewrite map_lookup_imap. by destruct (R !! k). Qed.

Lemma claimed_at_empty R owner : claimed_at R owner ∅ = R.
Proof. apply map_eq. intros k. rewrite claimed_at_lookup. by destruct (R !! k). Qed.

Lemma claimed_at_insert R owner D d r :
  R !! d = Some r → <[d := with_claim owner r]> (claimed_at R owner D) = claimed_at R owner ({[d]} ∪ D).
Proof.
  intros Hr. apply map_eq. intros k. rewrite claimed_at_lookup. destruct (decide (d = k)) as [<-|Hne].
  - rewrite lookup_insert_eq, Hr. simpl. by rewrite decide_True by set_solver.
  - rewrite lookup_insert_ne, claimed_at_lookup by done. destruct (R !! k); simpl; [|done].
    do 2 case_decide; set_solver.
Qed.

Lemma claimed_at_remove R owner D d r :
  R !! d = Some r → <[d := r]> (claimed_at R owner D) = claimed_at R owner (D ∖ {[d]}).
Proof.
  intros Hr. apply map_eq. intros k. rewrite claimed_at_lookup. destruct (decide (d = k)) as [<-|Hne].
  - rewrite lookup_insert_eq, Hr. simpl. by rewrite decide_False by set_solver.
  - rewrite lookup_insert_ne, claimed_at_lookup by done. destruct (R !! k); simpl; [|done].
    do 2 case_decide; set_solver.
Qed.

Lemma with_claim_twice o o' r : with_claim o (with_claim o' r) = with_claim o r.
Proof. done. Qed.

Lemma with_claim_own r : ClaimOwner r = "" → with_claim "" r = r.
Proof. destruct r; simpl; intros ->; done. Qed.

Lemma valid_hash r : SessionRecord_Validate r = None → ReuseFingerprint_Digest (SessionRecord.Fingerprint r) = Ok (FingerprintHash r).
Proof.
  unfold SessionRecord_Validate. intros H. apply err_seq_None in H as [_ H]. apply err_seq_None in H as [_ H].
  apply err_seq_None in H as [_ H]. apply err_seq_None in H as [H _].
  destruct (ReuseFingerprint_Digest _) as [d|e]; [|done].
  by apply fail_if_None, negb_false_iff, bool_decide_eq_true in H as ->.
Qed.

Section claims.
Context R owner (Hok : registry_ok R) (Hfree : ∀ k r, R !! k = Some r → ClaimOwner r ≠ owner).
Context (Howner : owner ≠ "").

(** The claimed digests are free sessions of [R]. *)
Definition from_free D : Prop := ∀ d, d ∈ D → ∃ r, R !! d = Some r ∧ ClaimOwner r = "".

(** What a claim does to the registry. *)
Lemma claim_locked_step D digest answer R' :
  from_free D → claim_locked digest owner (claimed_at R owner D) = (answer, R') →
  (R' = claimed_at R owner D ∧ (∀ lookup, answer = Ok lookup → Decision lookup ≠ ReuseReady)) ∨
  (∃ r, R !! digest = Some r ∧ ClaimOwner r = "" ∧ R' = claimed_at R owner ({[digest]} ∪ D) ∧
     answer = Ok {| Decision := ReuseReady; Found := with_claim owner r; Reason := "" |} ∧
     SessionRecord_Validate (with_claim owner r) = None).
Proof.
  intros HD. unfold claim_locked. rewrite claimed_at_lookup.
  destruct (R !! digest) as [r|] eqn:Hr; cbn [fmap option_fmap option_map]; cycle 1.
  { intros [= <- <-]. left. split; [done|]. by intros ? [= <-]. }
  set (now := if decide (digest ∈ D) then with_claim owner r else r).
  destruct (SessionRecord_Validate now); [intros [= <- <-]; by left|].
  case_bool_decide as Hs; cycle 1.
  { intros [= <- <-]. left. split; [done|]. intros ? [= <-]. by repeat case_bool_decide. }
  destruct (negb _ && negb _) eqn:Hc.
  { intros [= <- <-]. left. split; [done|]. by intros ? [= <-]. }
  assert (Hnow : with_claim owner now = with_claim owner r) by (unfold now; destruct (decide _); reflexivity).
  assert (Hfree' : ClaimOwner r = "").
  { destruct (decide (digest ∈ D)) as [Hd|Hd].
    - destruct (HD digest Hd) as (r'&?&?). congruence.
    - apply andb_false_iff in Hc as [Hc|Hc]; apply negb_false_iff, bool_decide_eq_true in Hc; unfold now in Hc;
        [exact Hc|]. by destruct (Hfree digest r Hr). }
  rewrite Hnow. unfold putLocked. destruct (Hok digest r Hr) as [Hh _].
  destruct (SessionRecord_Validate (with_claim owner r)) eqn:Hv; [intros [= <- <-]; by left|].
  intros [= <- <-]. right. exists r. split_and!; [done|done| |done|done].
  change (SessionRecord.FingerprintHash (with_claim owner r)) with (FingerprintHash r). rewrite Hh.
  by apply claimed_at_insert.
Qed.

Lemma ClaimReusableSession_step ctx f D answer R' :
  from_free D → ClaimReusableSession ctx (Some memory) f owner (claimed_at R owner D) = (answer, R') →
  (R' = claimed_at R owner D ∧ (∀ lookup, answer = Ok lookup → Decision lookup ≠ ReuseReady)) ∨
  (∃ digest r, R !! digest = Some r ∧ ClaimOwner r = "" ∧ R' = claimed_at R owner ({[digest]} ∪ D) ∧
     answer = Ok {| Decision := ReuseReady; Found := with_claim owner r; Reason := "" |}).
Proof.
  intros HD. unfold ClaimReusableSession. destruct ctx as [err|]; [|intros [= <- <-]; by left].
  destruct (check_owner owner ;;? _) eqn:Hchk; [intros [= <- <-]; by left|].
  apply err_seq_None in Hchk as [Ho Hchk]. apply err_seq_None in Hchk as [Hf ->].
  change (Claim memory) with mem_Claim. unfold mem_Claim. rewrite Ho. cbn [err_seq lift_check].
  destruct (ReuseFingerprint_Digest f) as [digest|e] eqn:Hd; [|intros [= <- <-]; by left].
  destruct (claim_locked digest owner _) as [ans R1] eqn:Hl.
  destruct (claim_locked_step D digest ans R1 HD Hl) as [[-> Hn]|(r&Hr&Hown&->&->&Hv)].
  - intros [= <- <-]. left. split; [done|]. intros lookup Hans.
    destruct ans as [l|]; cbn [mbind result_bind] in Hans; [|done]. apply lift_check_Ok in Hans as [_ [= <-]]. by apply Hn.
  - destruct (Hok digest r Hr) as [Hh Hv0].
    assert (validateClaimedSessionRecord (with_claim owner r) f owner = None) as Hvc.
    { unfold validateClaimedSessionRecord, validateSessionRecordFingerprint.
      change (SessionRecord.Fingerprint (with_claim owner r)) with (SessionRecord.Fingerprint r).
      rewrite Hv, Hd, (valid_hash r Hv0), Hh. rewrite bool_decide_eq_false_2 by (by intros [? [=]]).
      by rewrite !bool_decide_eq_true_2. }
    cbn [mbind result_bind Decision Found]. rewrite bool_decide_eq_true_2, Hvc by done. cbn [lift_check].
    intros Heq. apply pair_equal_spec in Heq as [<- <-]. right. by exists digest, r.
Qed.

(** The records collected so far are the claims made so far. *)
Record collected (result : gmap string SessionRecord) D : Prop := {
  collected_free : from_free D;
  collected_records : ∀ id record, result !! id = Some record →
    ∃ d r, d ∈ D ∧ R !! d = Some r ∧ ClaimOwner r = "" ∧ record = with_claim owner r;
  collected_all : ∀ d, d ∈ D → ∃ id r, R !! d = Some r ∧ result !! id = Some (with_claim owner r);
}.

Lemma find_sessions_collected ctx completed result cells D result' err R' :
  NoDup (ScheduleCell.ID <$> cells) → (∀ c, c ∈ cells → result !! ScheduleCell.ID c = None) →
  collected result D → find_sessions memory ctx completed owner result cells (claimed_at R owner D) = (result', err, R') →
  ∃ D', R' = claimed_at R owner D' ∧ collected result' D'.
Proof.
  revert result D. induction cells as [|c cells IH]; intros result D Hnd Hfresh Hcol H; cbn [find_sessions] in H.
  { injection H as <- _ <-. by exists D. }
  csimpl in Hnd. apply NoDup_cons in Hnd as [Hc Hnd].
  assert (Hrest : ∀ d, d ∈ cells → result !! ScheduleCell.ID d = None) by set_solver.
  destruct (ScheduleCell.ReuseFingerprint c) as [f|]; [|by eapply IH].
  destruct (_ || _); [by eapply IH|].
  destruct (ClaimReusableSession _ _ _ _ _) as [answer R1] eqn:Ec.
  destruct (ClaimReusableSession_step ctx f D answer R1 (collected_free _ _ Hcol) Ec)
    as [[-> Hn]|(digest&r&Hr&Hown&->&->)].
  - destruct answer as [lookup|]; [|injection H as <- _ <-; by exists D].
    rewrite bool_decide_eq_false_2 in H by by apply Hn.
    case_bool_decide; [by eapply IH|]. case_bool_decide; injection H as <- _ <-; by exists D.
  - cbn [Decision Found] in H. rewrite bool_decide_eq_true_2 in H by done.
    eapply IH; [exact Hnd| | |exact H].
    + intros d Hd. rewrite lookup_insert_ne; [by apply Hrest|]. intros He. apply Hc. rewrite He. by apply list_elem_of_fmap_2.
    + destruct Hcol as [HD Hrec Hall]. split.
      * intros d [->%elem_of_singleton|Hd]%elem_of_union; [by exists r|by apply HD].
      * intros id record [[<- <-]|[_ Hid]]%lookup_insert_Some; [exists digest, r; set_solver|].
        destruct (Hrec id record Hid) as (d&r'&?&?&?&?). exists d, r'. set_solver.
      * intros d [->%elem_of_singleton|Hd]%elem_of_union.
        { exists (ScheduleCell.ID c), r. by rewrite lookup_insert_eq. }
        destruct (Hall d Hd) as (id&r'&?&Hid). exists id, r'. split; [done|].
        rewrite lookup_insert_ne; [done|]. intros <-. rewrite Hfresh in Hid; [done|]. set_solver.
Qed.

(** A release takes the claim of its record back. *)
Lemma release_step D digest r :
  R !! digest = Some r → ClaimOwner r = "" → digest ∈ D →
  mem_ReleaseClaim (Some None) (SessionRecord.Fingerprint r) owner (claimed_at R owner D)
  = (None, claimed_at R owner (D ∖ {[digest]})) ∨
  ∃ e, check_owner owner = Some e ∧
  mem_ReleaseClaim (Some None) (SessionRecord.Fingerprint r) owner (claimed_at R owner D)
  = (Some e, claimed_at R owner D).
Proof.
  intros Hr Hown Hd. destruct (Hok digest r Hr) as [Hh Hv]. unfold mem_ReleaseClaim.
  destruct (check_owner owner) as [e|] eqn:Ho; [right; by exists e|left].
  cbn [err_seq lift_check]. rewrite (valid_hash r Hv), Hh, claimed_at_lookup, Hr. cbn [fmap option_fmap option_map].
  rewrite decide_True by done. change (ClaimOwner (with_claim owner r)) with owner.
  rewrite bool_decide_eq_false_2, bool_decide_eq_true_2 by done. cbn [negb].
  rewrite with_claim_twice, (with_claim_own r Hown). unfold putLocked. rewrite Hv, Hh. f_equal.
  by apply claimed_at_remove.
Qed.

Lemma release_records_step (records : list SessionRecord) released problems D problems' R' :
  check_owner owner = None →
  (∀ record, record ∈ records → ∃ d r, R !! d = Some r ∧ ClaimOwner r = "" ∧ record = with_claim owner r ∧
     (d ∈ D ∨ d ∈ released)) →
  (∀ d, d ∈ released → d ∉ D) →
  release_records memory (Some None) released problems records (claimed_at R owner D) = (problems', R') →
  ∃ D', R' = claimed_at R owner D' ∧ D' ⊆ D ∧
    ∀ d r, R !! d = Some r → with_claim owner r ∈ records → d ∉ D'.
Proof.
  intros Ho. revert released problems D. induction records as [|record records IH]; intros released problems D Hrec Hrel H;
    cbn [release_records] in H.
  { injection H as _ <-. exists D. set_solver. }
  destruct (Hrec record (list_elem_of_here _ _)) as (d&r&Hr&Hown&->&Hd).
  change (ClaimOwner (with_claim owner r)) with owner in H.
  change (SessionRecord.Fingerprint (with_claim owner r)) with (SessionRecord.Fingerprint r) in H.
  destruct (Hok d r Hr) as [Hh Hv].
  rewrite bool_decide_eq_false_2, (valid_hash r Hv), Hh in H by done.
  assert (Hsame : ∀ d' r', R !! d' = Some r' → with_claim owner r' = with_claim owner r → d' = d).
  { intros d' r' Hr' He. destruct (Hok d' r' Hr') as [Hh' _].
    apply (f_equal SessionRecord.FingerprintHash) in He. simpl in He. congruence. }
  case_bool_decide as Hin.
  - destruct (IH released problems D) as (D'&->&Hsub&Hout); [set_solver|done|done|].
    exists D'. split_and!; [done|done|]. intros d' r' Hr' [He|?]%elem_of_cons; [|by eapply Hout].
    rewrite (Hsame d' r' Hr' He). intros HD'. by apply (Hrel d Hin), Hsub.
  - destruct Hd as [Hd|?]; [|done].
    change (ReleaseClaim memory) with mem_ReleaseClaim in H.
    destruct (release_step D d r Hr Hown Hd) as [Hs|(e&?&_)]; [|congruence]. rewrite Hs in H.
    destruct (IH (d :: released) (problems ++ [None]) (D ∖ {[d]})) as (D'&->&Hsub&Hout); [| |exact H|].
    + intros x Hx. destruct (Hrec x) as (d'&r'&?&?&?&Hd'); [set_solver|]. exists d', r'. split_and!; [done..|].
      destruct (decide (d' = d)); set_solver.
    + set_solver.
    + exists D'. split_and!; [done|set_solver|]. intros d' r' Hr' [He|?]%elem_of_cons; [|by eapply Hout].
      rewrite (Hsame d' r' Hr' He). set_solver.
Qed.

(** Releasing what was collected gives the initial registry back. *)
Lemma release_collected result D :
  check_owner owner = None → collected result D →
  (releaseReusableScheduleSessions memory (Some None) result (claimed_at R owner D)).2 = R.
Proof.
  intros Ho [HD Hrec Hall]. unfold releaseReusableScheduleSessions.
  destruct (release_records _ _ _ _ _ _) as [problems R'] eqn:H. cbn [snd].
  destruct (release_records_step (map_to_list result).*2 [] [] D problems R' Ho) as (D'&->&Hsub&Hout); [| |exact H|].
  - intros record ([id x]&->&Hx%elem_of_map_to_list)%list_elem_of_fmap.
    destruct (Hrec id x Hx) as (d&r&?&?&?&?). exists d, r. split_and!; [done..|by left].
  - set_solver.
  - assert (D' = ∅) as ->; [|apply claimed_at_empty].
    apply set_eq. intros d. split; [|set_solver]. intros Hd. exfalso.
    destruct (Hall d) as (id&r&Hr&Hid); [by apply Hsub|].
    apply (Hout d r Hr); [|done]. apply list_elem_of_fmap. exists (id, with_claim owner r).
    by rewrite elem_of_map_to_list.
Qed.
(** ** The claims of a schedule *)

Definition claim_of r : SessionClaim :=
  {| SessionClaim.Fingerprint := SessionRecord.Fingerprint r; SessionClaim.Owner := owner;
     SessionClaim.SessionID := SessionRecord.SessionID r |}.

(** A claim on one of the free sessions of [D]. *)
Definition claims_one D (claim : SessionClaim) : Prop :=
  ∃ d r, d ∈ D ∧ R !! d = Some r ∧ ClaimOwner r = "" ∧ claim = claim_of r.

Lemma claims_of_spec D (records : list SessionRecord) seen :
  (∀ record, record ∈ records → ∃ d r, d ∈ D ∧ R !! d = Some r ∧ ClaimOwner r = "" ∧ record = with_claim owner r) →
  (∀ claim, claim ∈ claims_of seen records → claims_one D claim) ∧
  (∀ d r, R !! d = Some r → with_claim owner r ∈ records → d ∉ seen → claim_of r ∈ claims_of seen records).
Proof.
  revert seen. induction records as [|record records IH]; intros seen Hrec; cbn [claims_of]; [set_solver|].
  destruct (Hrec record (list_elem_of_here _ _)) as (d&r&Hd&Hr&Hown&->).
  destruct (Hok d r Hr) as [Hh Hv].
  change (ClaimOwner (with_claim owner r)) with owner.
  change (SessionRecord.Fingerprint (with_claim owner r)) with (SessionRecord.Fingerprint r).
  change (SessionRecord.SessionID (with_claim owner r)) with (SessionRecord.SessionID r).
  rewrite bool_decide_eq_false_2, (valid_hash r Hv), Hh by done.
  assert (Hsame : ∀ d' r', R !! d' = Some r' → with_claim owner r' = with_claim owner r → d' = d).
  { intros d' r' Hr' He. destruct (Hok d' r' Hr') as [Hh' _].
    apply (f_equal SessionRecord.FingerprintHash) in He. simpl in He. congruence. }
  assert (Hrest : ∀ record, record ∈ records → ∃ d r, d ∈ D ∧ R !! d = Some r ∧ ClaimOwner r = "" ∧
    record = with_claim owner r) by (intros; apply Hrec; by right).
  case_bool_decide as Hin.
  - destruct (IH seen Hrest) as [H1 H2]. split; [exact H1|]. intros d' r' Hr' [He|Hin']%elem_of_cons Hs; [|by apply (H2 d')].
    destruct Hs. by rewrite (Hsame d' r' Hr' He).
  - destruct (IH (d :: seen) Hrest) as [H1 H2]. split.
    + intros claim [->|Hc]%elem_of_cons; [|by apply H1]. by exists d, r.
    + intros d' r' Hr' [He|Hin']%elem_of_cons Hs.
      * assert (d' = d) as -> by by eapply Hsame. assert (r' = r) as -> by congruence. left.
      * destruct (decide (d' = d)) as [->|Hne]; [assert (r' = r) as -> by congruence; left|].
        right. apply (H2 d'); [done|done|]. by intros [?|?]%elem_of_cons.
Qed.

Lemma check_claim_of d r :
  R !! d = Some r → check_owner owner = None → blank (SessionRecord.SessionID r) = false →
  check_claim (claim_of r) = Ok d.
Proof.
  intros Hr Ho Hb. destruct (Hok d r Hr) as [Hh Hv]. unfold check_claim, claim_of.
  cbn [SessionClaim.SessionID SessionClaim.Owner SessionClaim.Fingerprint].
  apply fail_if_None in Ho. rewrite Ho, Hb. cbn [orb fail_if].
  pose proof Hv as Hm. unfold SessionRecord_Validate in Hm. apply err_seq_None in Hm as [_ Hm].
  apply err_seq_None in Hm as [Hm Hf]. apply err_seq_None in Hf as [Hf _].
  rewrite first_error_None in Hm. apply Forall_cons in Hm as [Hm _].
  apply fail_if_None, orb_false_iff in Hm as [_ Hm]. cbn [snd] in Hm. rewrite Hm, Hf. cbn [lift_check err_wrap fmap option_fmap option_map].
  by rewrite (valid_hash r Hv), Hh.
Qed.

Lemma release_claims_step (claims : list SessionClaim) released problems D :
  check_owner owner = None →
  (∀ d r, R !! d = Some r → blank (SessionRecord.SessionID r) = false) →
  (∀ claim, claim ∈ claims → claims_one (D ∪ list_to_set released) claim) →
  (∀ d, d ∈ released → d ∉ D) → Forall (λ p : gerror, p = None) problems →
  ∃ problems' D', release_claims memory (Some None) released problems claims (claimed_at R owner D)
      = (problems', claimed_at R owner D') ∧ Forall (λ p : gerror, p = None) problems' ∧ D' ⊆ D ∧
    ∀ d r, R !! d = Some r → claim_of r ∈ claims → d ∉ D'.
Proof.
  intros Ho Hids. revert released problems D.
  induction claims as [|claim claims IH]; intros released problems D Hcl Hrel Hp; cbn [release_claims].
  { exists problems, D. set_solver. }
  destruct (Hcl claim (list_elem_of_here _ _)) as (d&r&Hd&Hr&Hown&->).
  assert (Hrest : ∀ claim, claim ∈ claims → claims_one (D ∪ list_to_set released) claim) by (intros; apply Hcl; by right).
  rewrite (check_claim_of d r Hr Ho (Hids d r Hr)). destruct (Hok d r Hr) as [Hh Hv].
  assert (Hsame : ∀ d' r', R !! d' = Some r' → claim_of r' = claim_of r → d' = d).
  { intros d' r' Hr' He. destruct (Hok d' r' Hr') as [Hh' Hv']. apply (f_equal SessionClaim.Fingerprint) in He. simpl in He.
    pose proof (valid_hash r Hv) as H1. pose proof (valid_hash r' Hv') as H2. rewrite He in H2. congruence. }
  case_bool_decide as Hin.
  - destruct (IH released problems D Hrest Hrel Hp) as (problems'&D'&->&?&Hsub&Hout). exists problems', D'. split_and!; [done..|].
    intros d' r' Hr' [He|?]%elem_of_cons; [|by eapply Hout]. rewrite (Hsame d' r' Hr' He). intros HD'.
    by apply (Hrel d Hin), Hsub.
  - assert (HdD : d ∈ D). { apply elem_of_union in Hd as [Hd|Hd]; [done|]. by apply elem_of_list_to_set in Hd. }
    change (ReleaseClaim memory) with mem_ReleaseClaim.
    change (SessionClaim.Fingerprint (claim_of r)) with (SessionRecord.Fingerprint r).
    change (SessionClaim.Owner (claim_of r)) with owner.
    destruct (release_step D d r Hr Hown HdD) as [->|(e&?&_)]; [|congruence]. cbn [err_wrap fmap option_fmap option_map].
    destruct (IH (d :: released) (problems ++ [None]) (D ∖ {[d]})) as (problems'&D'&->&?&Hsub&Hout).
    + intros claim Hclaim. destruct (Hrest claim Hclaim) as (d'&r'&Hd'&?&?&?). exists d', r'. split_and!; [|done..].
      destruct (decide (d' = d)) as [->|]; set_solver.
    + set_solver.
    + apply Forall_app. by split; [|constructor].
    + exists problems', D'. split_and!; [done|done|set_solver|]. intros d' r' Hr' [He|?]%elem_of_cons; [|by eapply Hout].
      rewrite (Hsame d' r' Hr' He). set_solver.
Qed.

Lemma release_schedule_claims result D :
  check_owner owner = None → (∀ d r, R !! d = Some r → blank (SessionRecord.SessionID r) = false) →
  collected result D →
  ReleaseScheduleClaims (Some None) (Some (Some memory)) (reusableSessionClaims result) (claimed_at R owner D) = (None, R).
Proof.
  intros Ho Hids [HD Hrec Hall]. set (records := (map_to_list result).*2).
  assert (Hspec : ∀ record, record ∈ records → ∃ d r, d ∈ D ∧ R !! d = Some r ∧ ClaimOwner r = "" ∧ record = with_claim owner r).
  { intros record ([id x]&->&Hx%elem_of_map_to_list)%list_elem_of_fmap. by apply (Hrec id). }
  destruct (claims_of_spec D records [] Hspec) as [Hone Hevery].
  destruct (release_claims_step (reusableSessionClaims result) [] [] D Ho Hids) as (problems&D'&Hrun&Hp&Hsub&Hout).
  - intros claim. unfold reusableSessionClaims. rewrite elem_of_sort_by. intros Hc.
    destruct (Hone claim Hc) as (d&r&?&?&?&?). exists d, r. set_solver.
  - set_solver.
  - constructor.
  - assert (D' = ∅) as ->.
    { apply set_eq. intros d. split; [|set_solver]. intros Hd. exfalso.
      destruct (Hall d) as (id&r&Hr&Hid); [by apply Hsub|]. apply (Hout d r Hr); [|done].
      unfold reusableSessionClaims. rewrite elem_of_sort_by. apply (Hevery d r Hr); [|set_solver].
      apply list_elem_of_fmap. exists (id, with_claim owner r). by rewrite elem_of_map_to_list. }
    rewrite claimed_at_empty in Hrun.
    unfold ReleaseScheduleClaims. case_bool_decide as He.
    + destruct (reusableSessionClaims result); [|done]. cbn [release_claims] in Hrun. by injection Hrun as _ ->.
    + cbn [usable mbind option_bind]. rewrite Hrun. f_equal. by apply errors_Join_None.
Qed.
End claims.

(** ** The claims of a build *)

Lemma fails_without_owner ctx completed owner result cells R :
  check_owner owner ≠ None → (find_sessions memory ctx completed owner result cells R).2 = R ∧
  (find_sessions memory ctx completed owner result cells R).1.1 = result.
Proof.
  intros Ho. revert result. induction cells as [|c cells IH]; intros result; cbn [find_sessions]; [done|].
  destruct (ScheduleCell.ReuseFingerprint c) as [f|]; [|apply IH]. destruct (_ || _); [apply IH|].
  unfold ClaimReusableSession. destruct ctx as [err|]; [|done]. by destruct (check_owner owner).
Qed.

Lemma live_owner {W} uuid (options : SchedulerOptions W) registry owner :
  OptRegistry options = Some (Some registry) → resolveScheduleClaimOwner uuid options = Ok owner → owner ≠ "".
Proof.
  intros Hr. unfold resolveScheduleClaimOwner. case_bool_decide; cbn [negb].
  - rewrite Hr. cbn [usable mbind option_bind]. by intros [= <-].
  - intros [_ [= <-]]%lift_check_Ok. done.
Qed.

Lemma collected_none R owner sessions : collected R owner sessions ∅ → sessions = ∅.
Proof.
  intros Hcol. apply map_empty. intros id. apply eq_None_not_Some. intros [record Hs].
  destruct (collected_records _ _ _ _ Hcol id record Hs) as (d&_&Hd&_). set_solver.
Qed.

Section build.
Context (url_Parse : string → result url) (Quote : string → string) (uuid : string) (clock : Z).
Context (options : SchedulerOptions MemorySessionRegistry) (cells : list ScheduleCell) (owner : string).
Context (w : MemorySessionRegistry).
Context (Hregistry : OptRegistry options = Some (Some memory)).
Context (Hadmit : (check_admission url_Parse Quote options w).2 = w).
Context (Hresolved : resolveScheduleClaimOwner uuid options = Ok owner).
Context (Hok : registry_ok w) (Hfree : ∀ k r, w !! k = Some r → ClaimOwner r ≠ owner).

(** A build that got past its checks claimed free sessions of the registry, and
    then either released them and failed or gave the schedule. *)
Lemma BuildSchedule_claims answer w' :
  BuildSchedule url_Parse Quote uuid clock options cells w = (answer, w') →
  ((∃ e, answer = Err e) ∧ w' = w) ∨
  ∃ completed capacity sessions D, collected w owner sessions D ∧
    (D = ∅ ∨ check_owner owner = None) ∧
    ((∃ e, fail_releasing options e sessions (claimed_at w owner D) = (answer, w')) ∨
     (∃ schedule, answer = Ok schedule ∧ plan options cells completed capacity sessions = Ok schedule ∧
        w' = claimed_at w owner D)).
Proof.
  unfold BuildSchedule. destruct (check_options _ _ _) as [[capacity o]|e] eqn:Eo; cycle 1.
  { intros [= <- <-]. left. split; [by exists e|done]. }
  assert (o = owner) as ->.
  { unfold check_options in Eo. do 3 apply lift_check_Ok in Eo as [_ Eo].
    destruct (requested_capacity _); cbn [mbind result_bind] in Eo; [|done]. rewrite Hresolved in Eo. cbn [mbind result_bind] in Eo.
    do 2 apply lift_check_Ok in Eo as [_ Eo]. by injection Eo. }
  apply check_options_cells in Eo as [Hv _]. apply validated_cells in Hv as (Hids&_&_).
  destruct (check_admission _ _ _ w) as [refused w1] eqn:Ea. simpl in Hadmit. subst w1.
  destruct (refused ;;! _) as [completed|e]; [|intros [= <- <-]; left; split; [by exists e|done]].
  destruct (findReusableScheduleSessions _ _ _ _ _ _) as [[sessions err] w2] eqn:Ef.
  assert (∃ D, w2 = claimed_at w owner D ∧ collected w owner sessions D ∧ (D = ∅ ∨ check_owner owner = None)) as (D&->&Hcol&HD).
  { unfold findReusableScheduleSessions in Ef. rewrite Hregistry in Ef.
    destruct (contextOrBackground _) as [ctx|] eqn:Ec; [|by destruct (AdmissionContext options)].
    destruct (check_owner owner) eqn:Ho.
    - exists ∅. pose proof (fails_without_owner (Some ctx) completed owner ∅ cells w) as [H1 H2]; [by rewrite Ho|].
      rewrite Ef in H1, H2. simpl in H1, H2. subst. rewrite claimed_at_empty. split_and!; [done| |by left].
      split; set_solver.
    - destruct (find_sessions_collected w owner Hok Hfree (live_owner _ _ _ _ Hregistry Hresolved) (Some ctx) completed ∅ cells ∅ sessions err w2)
        as (D&->&Hc); [done|done| | |].
      + split; set_solver.
      + by rewrite claimed_at_empty.
      + exists D. split_and!; [done|done|by right]. }
  destruct (err ;;! _) as [schedule|e] eqn:Ep; intros H; right; exists completed, capacity, sessions, D;
    (split; [done|split; [done|]]).
  - right. injection H as <- <-. apply lift_check_Ok in Ep as [_ Ep]. by exists schedule.
  - left. by exists e.
Qed.


(** Releasing the claims of a built schedule succeeds and gives back the
    registry of before the build. *)
Lemma BuildSchedule_release schedule w' :
  (∀ d r, w !! d = Some r → blank (SessionRecord.SessionID r) = false) →
  BuildSchedule url_Parse Quote uuid clock options cells w = (Ok schedule, w') →
  ReleaseScheduleClaims (Some None) (OptRegistry options) (Schedule.ReuseClaims schedule) w' = (None, w).
Proof.
  intros Hids [[[? [=]] ?]|(completed&capacity&sessions&D&Hcol&HD&[[e' H]|(s&[= <-]&Hplan&->)])]%BuildSchedule_claims.
  { unfold fail_releasing in H. rewrite Hregistry in H. cbn [usable mbind option_bind] in H.
    by destruct (releaseReusableScheduleSessions _ _ _ _). }
  apply plan_Ok in Hplan as (units&cellToUnit&reused&Hp). rewrite (planned_claims _ _ _ _ _ _ _ _ _ Hp), Hregistry.
  destruct HD as [->|Ho].
  - apply collected_none in Hcol as ->. by rewrite claimed_at_empty.
  - by eapply (release_schedule_claims w owner Hok Hfree (live_owner _ _ _ _ Hregistry Hresolved)).
Qed.
End build.

(** ** Examples *)

Module ReuseExample.
Import SessionsExample.

Definition print_of (fixture : string) : ReuseFingerprint :=
  {| ReuseFingerprint.Architecture := "arch-1"; ReuseFingerprint.Fixture := fixture;
     ReuseFingerprint.BackupSet := "backup-1"; ReuseFingerprint.Observability := "none";
     ReuseFingerprint.Edge := "none"; ReuseFingerprint.ArtifactDigest := "sha256:aa";
     ReuseFingerprint.SchemaFingerprint := "schema-1";
     ReuseFingerprint.MigrationFingerprint := "migration-1";
     ReuseFingerprint.OwnershipMarker := "run-" +:+ fixture; ReuseFingerprint.StateBackend := "s3" |}.

Definition hash_of (fixture : string) : string :=
  match ReuseFingerprint_Digest (print_of fixture) with Ok d => d | Err _ => "" end.
Definition hash1 : string := Eval vm_compute in hash_of "fixture-1".
Definition hash2 : string := Eval vm_compute in hash_of "fixture-2".

(** A ready session per fixture. *)
Definition session_of (id fixture hash : string) : SessionRecord :=
  {| SessionRecord.SessionID := id; SessionRecord.Fingerprint := print_of fixture;
     SessionRecord.FingerprintHash := hash; SessionRecord.StackID := "stack-1";
     SessionRecord.WriterID := "writer-1"; SessionRecord.ClaimOwner := "";
     SessionRecord.State := SessionReady; SessionRecord.Live := true;
     SessionRecord.CleanupComplete := false; SessionRecord.OperationIDs := [];
     SessionRecord.ResourceRefs := ["db-1"]; SessionRecord.FixtureRefs := [fixture];
     SessionRecord.MigrationRefs := ["migration-1"]; SessionRecord.BackupRefs := ["backup-1"];
     SessionRecord.TelemetryRefs := []; SessionRecord.EdgeRefs := []; SessionRecord.PendingRefs := [] |}.

Definition registry : MemorySessionRegistry :=
  {[hash1 := session_of "session-1" "fixture-1" hash1; hash2 := session_of "session-2" "fixture-2" hash2]}.

Definition cell_of (id fixture hash key : string) : ScheduleCell :=
  {| ScheduleCell.ID := id; ScheduleCell.Fingerprint := hash;
     ScheduleCell.ReuseFingerprint := Some (print_of fixture); ScheduleCell.WarmBoundary := "eu/" +:+ id;
     ScheduleCell.WarmFrom := ""; ScheduleCell.WarmTransition := ""; ScheduleCell.Coverage := None;
     ScheduleCell.Dependencies := []; ScheduleCell.MutationKeys := [key];
     ScheduleCell.OwnershipMarker := "run-" +:+ fixture; ScheduleCell.Estimate := UnitExample.estimate;
     ScheduleCell.Status := CapabilityCompatible; ScheduleCell.Required := true |}.

Definition cells : list ScheduleCell :=
  [cell_of "search" "fixture-1" hash1 "search"; cell_of "queue" "fixture-2" hash2 "queue"].

Definition options (seconds : Z) : SchedulerOptions MemorySessionRegistry :=
  {| MaxParallel := 2; QuotaByKey := ∅; OptRegistry := Some (Some memory); OptClaimOwner := "";
     OptAdmission := None; OptAdmissionProbe := None; OptAdmissionSnapshot := None;
     AdmissionContext := Some None; Checkpoints := []; PendingDeletions := [];
     Budget := {| MaxCloudOperationSeconds := seconds; MaxResourceLifetimeSeconds := 0;
       MaxEstimatedCostCents := 0; MaxCleanupLatencySeconds := 0; RequireCostEstimate := false |} |}.

Definition build (seconds : Z) :=
  BuildSchedule BuildExample.url_Parse id "run-7" 0 (options seconds) cells registry.

Definition ok_or {A} (a : A) (r : result A) : A := match r with Ok a => a | Err _ => a end.
Definition schedule : Schedule := Eval vm_compute in ok_or BuildExample.schedule (build 0).1.

Lemma reuse_built : build 0 = (Ok schedule, claimed_at registry "certification-schedule/run-7" {[hash1; hash2]}).
Proof. vm_cast_no_check (eq_refl (Ok (A:=Schedule) schedule, claimed_at registry "certification-schedule/run-7" {[hash1; hash2]})). Qed.

Lemma registry_cases k r :
  registry !! k = Some r → r = session_of "session-1" "fixture-1" hash1 ∨ r = session_of "session-2" "fixture-2" hash2.
Proof.
  unfold registry. rewrite lookup_insert_Some, lookup_singleton_Some. intros [[_ <-]|[_ [_ <-]]]; [by left|by right].
Qed.

Lemma registry_unowned k r : registry !! k = Some r → ClaimOwner r ≠ "certification-schedule/run-7".
Proof. by intros [-> | ->]%registry_cases. Qed.

Lemma registry_valid : registry_ok registry.
Proof.
  intros k r. unfold registry. rewrite lookup_insert_Some, lookup_singleton_Some.
  intros [[<- <-]|[_ [<- <-]]]; (split; [done|vm_cast_no_check (eq_refl (None : gerror))]).
Qed.


End ReuseExample.
