(* ===== verification/Execution.v ===== *)
(** * Executing a schedule: results, checkpoints and validation
      (internal/certification/scheduler_run.go)

    The pure part of the executor: what a unit reports, the checkpoints written
    for its cells, and the checks a schedule passes before anything runs.  Maps
    the code ranges over in no order are lists in the order of the source, which
    only decides the error of an input with several. *)

From S2P Require Import Prelude GoStrings GoEncoding Secretsafe Sdk Coverage Sessions LocalCapacity Schedule Units BuildSchedule.

Local Open Scope Z_scope.

Module ScheduleExecutionResult.
(* internal/certification/scheduler_run.go, lines 17-29: ScheduleExecutionResult *)
Record ScheduleExecutionResult := {
  StackID : string;
  ReuseFingerprint : option ReuseFingerprint;
  OperationIDs : list string;
  ResourceRefs : list string;
  BackupRefs : list string;
  RestoreRefs : list string;
  TelemetryRefs : list string;
  EdgeRefs : list string;
  ReuseMode : string;
  CleanupState : string;
  OwnershipMarker : string;
}.

Definition zero : ScheduleExecutionResult :=
  {| StackID := ""; ReuseFingerprint := None; OperationIDs := []; ResourceRefs := []; BackupRefs := [];
     RestoreRefs := []; TelemetryRefs := []; EdgeRefs := []; ReuseMode := ""; CleanupState := "";
     OwnershipMarker := "" |}.

(** The struct has no tags: its fields print under their Go names. *)
Definition to_json (r : ScheduleExecutionResult) : json :=
  JObj (js "StackID" (StackID r)
    ++ [("ReuseFingerprint", default JNull (ReuseFingerprint.to_json <$> ReuseFingerprint r))]
    ++ jl "OperationIDs" (OperationIDs r) ++ jl "ResourceRefs" (ResourceRefs r)
    ++ jl "BackupRefs" (BackupRefs r) ++ jl "RestoreRefs" (RestoreRefs r)
    ++ jl "TelemetryRefs" (TelemetryRefs r) ++ jl "EdgeRefs" (EdgeRefs r)
    ++ js "ReuseMode" (ReuseMode r) ++ js "CleanupState" (CleanupState r)
    ++ js "OwnershipMarker" (OwnershipMarker r)).

Definition set_reuse (fingerprint : option Sessions.ReuseFingerprint) (mode : string)
    (r : ScheduleExecutionResult) : ScheduleExecutionResult :=
  {| StackID := StackID r; ReuseFingerprint := fingerprint; OperationIDs := OperationIDs r;
     ResourceRefs := ResourceRefs r; BackupRefs := BackupRefs r; RestoreRefs := RestoreRefs r;
     TelemetryRefs := TelemetryRefs r; EdgeRefs := EdgeRefs r; ReuseMode := mode;
     CleanupState := CleanupState r; OwnershipMarker := OwnershipMarker r |}.
End ScheduleExecutionResult.
Notation ScheduleExecutionResult := ScheduleExecutionResult.ScheduleExecutionResult.

(* internal/certification/scheduler_run.go, lines 63-67: ScheduleExecution *)
Record ScheduleExecution := {
  ExecutedCheckpoints : list SchedulerCheckpoint;
  CompletedUnitIDs : list string;
  FailedUnitID : string;
}.

(* internal/certification/scheduler_run.go, lines 179-182: scheduleUnitResult *)
Record scheduleUnitResult := { resultUnitID : string; resultErr : gerror }.

(** ** The checkpoints of a unit *)

Section unit.
Context (unit : ExecutionUnit).

(* internal/certification/scheduler_run.go, lines 313-323: executionReuseFingerprint *)
Definition executionReuseFingerprint (reported : option ReuseFingerprint) : option ReuseFingerprint :=
  match reported with
  | Some fingerprint => Some fingerprint
  | None => ExecutionUnit.ReuseFingerprint unit
  end.

(** [stamp] is [now.Format(time.RFC3339)]. *)
(* internal/certification/scheduler_run.go, lines 252-260: unitCheckpoints *)
Definition unitCheckpoint (status stamp : string) (execution : ScheduleExecutionResult) (cellID : string)
    : SchedulerCheckpoint :=
  {| SchedulerCheckpoint.CellID := cellID;
     SchedulerCheckpoint.Fingerprint := ExecutionUnit.Fingerprint unit;
     SchedulerCheckpoint.ReuseFingerprint :=
       executionReuseFingerprint (ScheduleExecutionResult.ReuseFingerprint execution);
     SchedulerCheckpoint.OwnershipMarker := ExecutionUnit.OwnershipMarker unit;
     SchedulerCheckpoint.Status := status;
     SchedulerCheckpoint.StackID := ScheduleExecutionResult.StackID execution;
     SchedulerCheckpoint.OperationIDs := ScheduleExecutionResult.OperationIDs execution;
     SchedulerCheckpoint.ResourceRefs := ScheduleExecutionResult.ResourceRefs execution;
     SchedulerCheckpoint.BackupRefs := ScheduleExecutionResult.BackupRefs execution;
     SchedulerCheckpoint.RestoreRefs := ScheduleExecutionResult.RestoreRefs execution;
     SchedulerCheckpoint.TelemetryRefs := ScheduleExecutionResult.TelemetryRefs execution;
     SchedulerCheckpoint.EdgeRefs := ScheduleExecutionResult.EdgeRefs execution;
     SchedulerCheckpoint.ReuseMode := ScheduleExecutionResult.ReuseMode execution;
     SchedulerCheckpoint.CleanupState := ScheduleExecutionResult.CleanupState execution;
     SchedulerCheckpoint.UpdatedAt := stamp |}.

(* internal/certification/scheduler_run.go, lines 248-263: unitCheckpoints *)
Definition unitCheckpoints (status stamp : string) (execution : ScheduleExecutionResult) : list SchedulerCheckpoint :=
  unitCheckpoint status stamp execution <$> ExecutionUnit.CellIDs unit.

(** What the executor answers, completed from the unit. *)
(* internal/certification/scheduler_run.go, lines 213-223: runScheduleUnit *)
Definition complete_result (execution : ScheduleExecutionResult) : ScheduleExecutionResult :=
  ScheduleExecutionResult.set_reuse
    (executionReuseFingerprint (ScheduleExecutionResult.ReuseFingerprint execution))
    (if bool_decide (ScheduleExecutionResult.ReuseMode execution = "") then
       if negb (bool_decide (ExecutionUnit.ReuseSessionID unit = "")) then "reused-session"
       else if ExecutionUnit.Cold unit then "cold" else "warm-transition"
     else ScheduleExecutionResult.ReuseMode execution) execution.

(** A list of references: none is blank or repeated. *)
(* internal/certification/scheduler_run.go, lines 293-302: validateScheduleExecutionResult *)
Fixpoint check_references (name : string) (seen values : list string) : gerror :=
  match values with
  | [] => None
  | value :: values =>
      fail_if (blank value || multiline value)
        (errorf "unit %q returned an invalid %s" [GStr (ExecutionUnit.ID unit); GStr name])
      ;;? fail_if (bool_decide (value ∈ seen))
            (errorf "unit %q returned duplicate %s %q" [GStr (ExecutionUnit.ID unit); GStr name; GStr value])
      ;;? check_references name (value :: seen) values
  end.

(** The reuse fingerprint of a unit and of its result name its identity. *)
Definition check_identity (fingerprint : ReuseFingerprint) (invalid : error) (digest_failed : error → error)
    (mismatch : error) : gerror :=
  match ReuseFingerprint_Validate fingerprint with
  | Some _ => Some invalid
  | None =>
      match ReuseFingerprint_Digest fingerprint with
      | Err e => Some (digest_failed e)
      | Ok digest =>
          fail_if (negb (bool_decide (digest = ExecutionUnit.Fingerprint unit))
                   || negb (bool_decide (ReuseFingerprint.OwnershipMarker fingerprint = ExecutionUnit.OwnershipMarker unit)))
            mismatch
      end
  end.

(* internal/certification/scheduler_run.go, lines 265-311: validateScheduleExecutionResult *)
Definition validateScheduleExecutionResult (result : ScheduleExecutionResult) : gerror :=
  let id := GStr (ExecutionUnit.ID unit) in
  let about text := errorf text [id] in
  fail_if (bool_decide (is_Some (ValidateSecretSafeValue (ScheduleExecutionResult.to_json result))))
    (about "unit %q returned secret-like material")
  ;;? fail_if (negb (bool_decide (ScheduleExecutionResult.OwnershipMarker result = ExecutionUnit.OwnershipMarker unit)))
        (errorf "unit %q returned ownership marker %q, want %q"
           [id; GStr (ScheduleExecutionResult.OwnershipMarker result); GStr (ExecutionUnit.OwnershipMarker unit)])
  ;;? match ScheduleExecutionResult.ReuseFingerprint result with
      | None => None
      | Some fingerprint =>
          check_identity fingerprint (about "unit %q returned an invalid reuse fingerprint")
            (wrapf "unit %q returned an invalid reuse fingerprint: %w" [id])
            (about "unit %q returned a reuse fingerprint different from its execution identity")
      end
  ;;? first_error (λ nv : string * string,
        fail_if (negb (bool_decide (nv.2 = "")) && multiline nv.2)
          (errorf "unit %q returned a %s containing a control character" [id; GStr nv.1]))
        [("stack ID", ScheduleExecutionResult.StackID result);
         ("ownership marker", ScheduleExecutionResult.OwnershipMarker result)]
  ;;? first_error (λ nv : string * list string, check_references nv.1 [] nv.2)
        [("operation ID", ScheduleExecutionResult.OperationIDs result);
         ("resource reference", ScheduleExecutionResult.ResourceRefs result);
         ("backup reference", ScheduleExecutionResult.BackupRefs result);
         ("restore reference", ScheduleExecutionResult.RestoreRefs result);
         ("telemetry reference", ScheduleExecutionResult.TelemetryRefs result);
         ("edge reference", ScheduleExecutionResult.EdgeRefs result)]
  ;;? fail_if (negb (bool_decide (ScheduleExecutionResult.ReuseMode result ∈
        ["cold"; "warm-transition"; "reused-session"])))
        (errorf "unit %q returned invalid reuse mode %q" [id; GStr (ScheduleExecutionResult.ReuseMode result)])
  ;;? fail_if (negb (bool_decide (ScheduleExecutionResult.CleanupState result ∈
        [""; "pending"; "complete"; "failed"; "protected"])))
        (errorf "unit %q returned invalid cleanup state %q" [id; GStr (ScheduleExecutionResult.CleanupState result)]).
End unit.

(** ** Validation of a schedule *)

(** One claim; [seen] holds the digests of the claims before it. *)
(* internal/certification/scheduler_run.go, lines 415-437: validateScheduleClaims *)
Fixpoint validateScheduleClaims (seen : list string) (claims : list SessionClaim) : gerror :=
  match claims with
  | [] => None
  | claim :: claims =>
      let about := [GStr (SessionClaim.SessionID claim)] in
      fail_if (blank (SessionClaim.SessionID claim) || multiline (SessionClaim.SessionID claim))
        (ErrNew "schedule session claims require a single-line session ID")
      ;;? fail_if (blank (SessionClaim.Owner claim) || multiline (SessionClaim.Owner claim))
            (errorf "schedule session claim %q requires a single-line owner" about)
      ;;? err_wrap (wrapf "schedule session claim %q fingerprint: %w" about)
            (ReuseFingerprint_Validate (SessionClaim.Fingerprint claim))
      ;;? match ReuseFingerprint_Digest (SessionClaim.Fingerprint claim) with
          | Err e => Some (wrapf "schedule session claim %q fingerprint digest: %w" about e)
          | Ok digest =>
              fail_if (bool_decide (digest ∈ seen))
                (errorf "schedule contains duplicate session claim for %q" [GStr digest])
              ;;? validateScheduleClaims (digest :: seen) claims
          end
  end.

(** The checks of one unit. *)
(* internal/certification/scheduler_run.go, lines 342-364: validateExecutionSchedule *)
Definition check_execution_unit (u : ExecutionUnit) : gerror :=
  let about := [GStr (ExecutionUnit.ID u)] in
  fail_if (blank (ExecutionUnit.ID u) || bool_decide (length (ExecutionUnit.CellIDs u) = 0%nat)
           || blank (ExecutionUnit.OwnershipMarker u))
    (ErrNew "schedule units require an ID, cell IDs, and ownership marker")
  ;;? match ExecutionUnit.Coverage u with
      | None => None
      | Some coverage => err_wrap (wrapf "schedule unit %q coverage boundary: %w" about) (CoverageBoundary_Validate coverage)
      end
  ;;? match ExecutionUnit.ReuseFingerprint u with
      | None => None
      | Some fingerprint =>
          err_wrap (wrapf "schedule unit %q reuse fingerprint: %w" about) (ReuseFingerprint_Validate fingerprint)
          ;;? match ReuseFingerprint_Digest fingerprint with
              | Err e => Some (wrapf "schedule unit %q reuse fingerprint digest: %w" about e)
              | Ok digest =>
                  fail_if (negb (bool_decide (digest = ExecutionUnit.Fingerprint u))
                           || negb (bool_decide (ReuseFingerprint.OwnershipMarker fingerprint = ExecutionUnit.OwnershipMarker u)))
                    (errorf "schedule unit %q reuse fingerprint does not match its execution identity" about)
              end
      end
  ;;? fail_if (hasDuplicate (ExecutionUnit.CellIDs u) || hasDuplicate (ExecutionUnit.MutationKeys u))
        (errorf "schedule unit %q contains duplicate cell or mutation IDs" about).

(** The units, one by one; [seen] holds the IDs before. *)
(* internal/certification/scheduler_run.go, lines 340-369: validateExecutionSchedule *)
Fixpoint check_execution_units (seen : list string) (units : list ExecutionUnit) : gerror :=
  match units with
  | [] => None
  | u :: units =>
      check_execution_unit u
      ;;? fail_if (bool_decide (ExecutionUnit.ID u ∈ seen))
            (errorf "schedule contains duplicate unit %q" [GStr (ExecutionUnit.ID u)])
      ;;? check_execution_units (ExecutionUnit.ID u :: seen) units
  end.

Section batches.
Context (units : gmap string ExecutionUnit).

(** The mutation keys of a unit join those of its batch. *)
(* internal/certification/scheduler_run.go, lines 386-393: validateExecutionSchedule *)
Fixpoint add_batch_keys (index : nat) (keys batchKeys : list string) : result (list string) :=
  match keys with
  | [] => Ok batchKeys
  | key :: keys =>
      fail_if (bool_decide (key ∈ batchKeys))
        (errorf "schedule batch %d overlaps mutation key %q" [GInt (Z.of_nat index); GStr key]) ;;!
      add_batch_keys index keys (batchKeys ++ [key])
  end.

(** [seenUnits] and [lastBatch] get their entries together: one map stands for
    both. *)
(* internal/certification/scheduler_run.go, lines 374-400: validateExecutionSchedule *)
Fixpoint check_batch (index : nat) (lastBatch : gmap string nat) (batchKeys batch : list string)
    : result (gmap string nat) :=
  match batch with
  | [] => Ok lastBatch
  | unitID :: batch =>
      match units !! unitID with
      | None => Err (errorf "schedule batch references unknown unit %q" [GStr unitID])
      | Some u =>
          fail_if (bool_decide (is_Some (lastBatch !! unitID)))
            (errorf "schedule unit %q appears more than once" [GStr unitID]) ;;!
          let lastBatch := <[unitID := index]> lastBatch in
          batchKeys ← add_batch_keys index (ExecutionUnit.MutationKeys u) batchKeys;
          first_error (λ dependency,
            fail_if (negb (bool_decide (is_Some (units !! dependency))))
              (errorf "schedule unit %q depends on unknown unit %q" [GStr unitID; GStr dependency])
            ;;? match lastBatch !! dependency with
                | Some dependencyBatch =>
                    fail_if (index <=? dependencyBatch)%nat
                      (errorf "schedule unit %q dependency %q is not ordered before its batch"
                         [GStr unitID; GStr dependency])
                | None => None
                end) (ExecutionUnit.DependsOn u) ;;!
          check_batch index lastBatch batchKeys batch
      end
  end.

(* internal/certification/scheduler_run.go, lines 370-402: validateExecutionSchedule *)
Fixpoint check_batches (index : nat) (lastBatch : gmap string nat) (batches : list (list string))
    : result (gmap string nat) :=
  match batches with
  | [] => Ok lastBatch
  | batch :: batches => lastBatch ← check_batch index lastBatch [] batch; check_batches (S index) lastBatch batches
  end.
End batches.

(** A missing entry of [lastBatch] reads as zero.  The last loop of the code
    ranges over a map: which of several errors it reports is the order of the
    schedule here, and any order in the code. *)
(* internal/certification/scheduler_run.go, lines 325-413: validateExecutionSchedule *)
Definition validateExecutionSchedule (s : Schedule) : gerror :=
  validateScheduleClaims [] (Schedule.ReuseClaims s)
  ;;? match Schedule.LocalCapacity s with
      | None => None
      | Some capacity => err_wrap (wrapf "schedule local capacity: %w" []) (LocalCapacityRequest_Validate capacity)
      end
  ;;? if bool_decide (length (Schedule.Units s) = 0%nat) then
        fail_if (negb (bool_decide (length (Schedule.Batches s) = 0%nat)))
          (ErrNew "schedule batches exist without executable units")
      else
        check_execution_units [] (Schedule.Units s)
        ;;? match check_batches (by_id ExecutionUnit.ID (Schedule.Units s)) 0 ∅ (Schedule.Batches s) with
            | Err e => Some e
            | Ok lastBatch =>
                fail_if (negb (bool_decide (size lastBatch = size (by_id ExecutionUnit.ID (Schedule.Units s)))))
                  (ErrNew "schedule batches do not cover every execution unit")
                ;;? first_error (λ u, first_error (λ dependency,
                      fail_if (default 0 (lastBatch !! ExecutionUnit.ID u) <=? default 0 (lastBatch !! dependency))%nat
                        (errorf "schedule unit %q dependency %q is not ordered before its batch"
                           [GStr (ExecutionUnit.ID u); GStr dependency])) (ExecutionUnit.DependsOn u))
                      (Schedule.Units s)
            end.

(** ** The end of a run *)

Definition checkpoint_le (a b : SchedulerCheckpoint) : Prop :=
  String.le (SchedulerCheckpoint.CellID a) (SchedulerCheckpoint.CellID b).

#[export] Instance checkpoint_le_dec : RelDecision checkpoint_le.
Proof. unfold checkpoint_le. solve_decision. Defined.

(* internal/certification/scheduler_run.go, lines 439-447: finishScheduleExecution *)
Definition finishScheduleExecution (checkpointByCell : gmap string SchedulerCheckpoint)
    (result : ScheduleExecution) (err : gerror) : ScheduleExecution * gerror :=
  ({| ExecutedCheckpoints := sort_by checkpoint_le (map_to_list checkpointByCell).*2;
      CompletedUnitIDs := sort_strings (CompletedUnitIDs result);
      FailedUnitID := FailedUnitID result |}, err).
