(* ===== verification/Certification.v ===== *)
(** * The certification ports (sdk/certification.go)

    What the core hands a provider to execute or to admit, what it takes back,
    and the validators of both directions.  A loop over a literal map checks its
    entries in the order they are written: the order only decides which error is
    reported first. *)

From S2P Require Import Prelude GoStrings GoEncoding Sdk Coverage Admission Resilience Lifecycle Edge.

Local Open Scope Z_scope.

(* sdk/certification.go, lines 15-15: CertificationExecute *)
Definition CertificationExecute := "execute".

(** ** Data *)

Module CertificationDescriptor.
(* sdk/certification.go, lines 19-26: CertificationAdapterDescriptor *)
Record CertificationAdapterDescriptor := {
  APIVersion : string;
  ID : string;
  Provider : string;
  Runtime : string;
  Version : string;
  Actions : list string;
}.
End CertificationDescriptor.
Notation CertificationAdapterDescriptor := CertificationDescriptor.CertificationAdapterDescriptor.

Module CertificationUnit.
(* sdk/certification.go, lines 32-48: CertificationExecutionUnit *)
Record CertificationExecutionUnit := {
  ID : string;
  CellIDs : list string;
  BaselineCellID : string;
  Fingerprint : string;
  WarmBoundary : string;
  WarmTransition : string;
  Coverage : option CoverageBoundary;
  OwnershipMarker : string;
  Cold : bool;
  MigrationOwner : bool;
  DependsOn : list string;
  MutationKeys : list string;
  Required : bool;
  ReuseSessionID : string;
  ReuseFingerprintDigest : string;
}.
End CertificationUnit.
Notation CertificationExecutionUnit := CertificationUnit.CertificationExecutionUnit.

Module CertificationRequest.
(* sdk/certification.go, lines 53-56: CertificationExecutionRequest *)
Record CertificationExecutionRequest := {
  Unit : CertificationExecutionUnit;
  IdempotencyKey : string;
}.
End CertificationRequest.
Notation CertificationExecutionRequest := CertificationRequest.CertificationExecutionRequest.

Module CertificationResult.
(* sdk/certification.go, lines 61-72: CertificationExecutionResult *)
Record CertificationExecutionResult := {
  StackID : string;
  OperationIDs : list string;
  ResourceRefs : list string;
  BackupRefs : list string;
  RestoreRefs : list string;
  TelemetryRefs : list string;
  EdgeRefs : list string;
  ReuseMode : string;
  CleanupState : string;
  OwnershipMarker : string;
}.

Definition to_json (r : CertificationExecutionResult) : json :=
  JObj (js_opt "stackId" (StackID r) ++ jl_opt "operationIds" (OperationIDs r)
    ++ jl_opt "resourceRefs" (ResourceRefs r) ++ jl_opt "backupRefs" (BackupRefs r)
    ++ jl_opt "restoreRefs" (RestoreRefs r) ++ jl_opt "telemetryRefs" (TelemetryRefs r)
    ++ jl_opt "edgeRefs" (EdgeRefs r) ++ js_opt "reuseMode" (ReuseMode r)
    ++ js_opt "cleanupState" (CleanupState r) ++ js "ownershipMarker" (OwnershipMarker r)).

(** Assignments to the two fields that get a default. *)
Definition with_defaults (marker mode : string) (r : CertificationExecutionResult) : CertificationExecutionResult :=
  {| StackID := StackID r; OperationIDs := OperationIDs r; ResourceRefs := ResourceRefs r; BackupRefs := BackupRefs r;
     RestoreRefs := RestoreRefs r; TelemetryRefs := TelemetryRefs r; EdgeRefs := EdgeRefs r;
     ReuseMode := if bool_decide (ReuseMode r = "") then mode else ReuseMode r; CleanupState := CleanupState r;
     OwnershipMarker := if bool_decide (OwnershipMarker r = "") then marker else OwnershipMarker r |}.
End CertificationResult.
Notation CertificationExecutionResult := CertificationResult.CertificationExecutionResult.

(** Its error comes with a result, partial or zero. *)
(* sdk/certification.go, lines 78-81: CertificationAdapter *)
Record CertificationAdapter (W : Type) := {
  CertificationDescriptorOf : CertificationAdapterDescriptor;
  ExecuteCertification : CertificationExecutionRequest → W → (CertificationExecutionResult * gerror) * W;
}.
Arguments CertificationDescriptorOf {W} _.
Arguments ExecuteCertification {W} _.

Module CertificationAdmissionDescriptor.
(* sdk/certification.go, lines 93-99: CertificationAdmissionAdapterDescriptor *)
Record CertificationAdmissionAdapterDescriptor := {
  APIVersion : string;
  ID : string;
  Provider : string;
  Runtime : string;
  Version : string;
}.
End CertificationAdmissionDescriptor.
Notation CertificationAdmissionAdapterDescriptor := CertificationAdmissionDescriptor.CertificationAdmissionAdapterDescriptor.

Module CertificationAdmission.
(* sdk/certification.go, lines 104-118: CertificationAdmissionRequest *)
Record CertificationAdmissionRequest := {
  Provider : string;
  AccountOrProjectRef : string;
  Region : string;
  NetworkRef : string;
  StateBackendRef : string;
  FixtureID : string;
  OwnershipMarker : string;
  CredentialRefs : list string;
  RequireCredentials : bool;
  RequiredQuota : gmap string Z;
  RequiredLocalCPUMilli : Z;
  RequiredLocalMemoryMB : Z;
  MutationKeys : list string;
}.
End CertificationAdmission.
Notation CertificationAdmissionRequest := CertificationAdmission.CertificationAdmissionRequest.

Module CertificationFacts.
(* sdk/certification.go, lines 123-134: CertificationAdmissionResult *)
Record CertificationAdmissionResult := {
  CredentialsReady : bool;
  AccountOrProjectReady : bool;
  NetworkReady : bool;
  StateBackendReady : bool;
  FixtureReady : bool;
  OwnershipReady : bool;
  AvailableQuota : gmap string Z;
  AvailableLocalCPUMilli : Z;
  AvailableLocalMemoryMB : Z;
  Reasons : gmap string string;
}.

Definition to_json (r : CertificationAdmissionResult) : json :=
  JObj (jb "credentialsReady" (CredentialsReady r) ++ jb "accountOrProjectReady" (AccountOrProjectReady r)
    ++ jb "networkReady" (NetworkReady r) ++ jb "stateBackendReady" (StateBackendReady r)
    ++ jb "fixtureReady" (FixtureReady r) ++ jb "ownershipReady" (OwnershipReady r)
    ++ AdmissionInput.quota_json "availableQuota" (AvailableQuota r)
    ++ ji "availableLocalCpuMilli" (AvailableLocalCPUMilli r) ++ ji "availableLocalMemoryMb" (AvailableLocalMemoryMB r)
    ++ (if bool_decide (Reasons r = ∅) then [] else [("reasons", json_map (Reasons r))])).
End CertificationFacts.
Notation CertificationAdmissionResult := CertificationFacts.CertificationAdmissionResult.

(* sdk/certification.go, lines 140-143: CertificationAdmissionAdapter *)
Record CertificationAdmissionAdapter (W : Type) := {
  CertificationAdmissionDescriptorOf : CertificationAdmissionAdapterDescriptor;
  AdmitCertification : CertificationAdmissionRequest → W → (CertificationAdmissionResult * gerror) * W;
}.
Arguments CertificationAdmissionDescriptorOf {W} _.
Arguments AdmitCertification {W} _.

(** ** Lines *)

(* sdk/certification.go, lines 235-240: validateAdmissionLine *)
Definition validateAdmissionLine (name value : string) : gerror :=
  fail_if (bad_reference value) (errorf "%s is required and must be single-line" [GStr name]).

Definition unique_lines (name : string) (values : list string) : gerror :=
  first_of (with_seen (λ seen value,
    [fail_if (bad_reference value) (errorf "%s values must be non-empty and single-line" [GStr name]);
     fail_if (bool_decide (value ∈ seen)) (errorf "duplicate %s %q" [GStr name; GStr value])]) [] values).

(* sdk/certification.go, lines 242-254: validateUniqueStringLines *)
Definition validateUniqueStringLines : string → list string → gerror := unique_lines.

(* sdk/certification.go, lines 367-379: validateUniqueLines *)
Definition validateUniqueLines : string → list string → gerror := unique_lines.

(** ** Descriptors *)

Section descriptors.

(* sdk/certification.go, lines 154-167: ValidateCertificationAdmissionAdapterDescriptor *)
Definition ValidateCertificationAdmissionAdapterDescriptor (d : CertificationAdmissionAdapterDescriptor) : gerror :=
  let version := CertificationAdmissionDescriptor.APIVersion d in
  errors_Join
    [fail_if (negb (bool_decide (version = "v1")))
       (errorf "certification admission adapter API version %q is not supported" [GStr version]);
     validateID "certification admission adapter ID" (CertificationAdmissionDescriptor.ID d);
     validateID "certification admission adapter provider ID" (CertificationAdmissionDescriptor.Provider d);
     validateID "certification admission adapter runtime ID" (CertificationAdmissionDescriptor.Runtime d);
     validateExtensionVersion (CertificationAdmissionDescriptor.Version d)].

(* sdk/certification.go, lines 258-283: ValidateCertificationAdapterDescriptor *)
Definition ValidateCertificationAdapterDescriptor (d : CertificationAdapterDescriptor) : gerror :=
  let version := CertificationDescriptor.APIVersion d in
  let actions := CertificationDescriptor.Actions d in
  errors_Join (
    [fail_if (negb (bool_decide (version = "v1")))
       (errorf "certification adapter API version %q is not supported" [GStr version]);
     validateID "certification adapter ID" (CertificationDescriptor.ID d);
     validateID "certification adapter provider ID" (CertificationDescriptor.Provider d);
     validateID "certification adapter runtime ID" (CertificationDescriptor.Runtime d);
     validateExtensionVersion (CertificationDescriptor.Version d);
     fail_if (bool_decide (actions = [])) (ErrNew "certification adapter must declare at least one action")]
    ++ known_values (λ action, bool_decide (action = CertificationExecute)) "invalid certification adapter action %q"
         "duplicate certification adapter action %q" actions).
End descriptors.

(** ** Admission *)

Section admission.
Context (url_Parse : string → result url).
Import CertificationAdmission.

(* sdk/certification.go, lines 171-211: ValidateCertificationAdmissionRequest *)
Definition ValidateCertificationAdmissionRequest (request : CertificationAdmissionRequest) : gerror :=
  errors_Join (
    [validateID "certification admission provider ID" (Provider request);
     validateAdmissionLine "certification admission account/project reference" (AccountOrProjectRef request);
     validateAdmissionLine "certification admission region" (Region request);
     validateAdmissionLine "certification admission network reference" (NetworkRef request);
     validateAdmissionLine "certification admission state backend reference" (StateBackendRef request);
     validateAdmissionLine "certification admission fixture ID" (FixtureID request);
     validateAdmissionLine "certification admission ownership marker" (OwnershipMarker request);
     fail_if (bool_decide (CredentialRefs request = []) && RequireCredentials request)
       (ErrNew "certification admission requires credential references")]
    ++ ((λ reference, err_wrap (wrapf "certification admission credential reference: %w" [])
           (ValidateCredentialReference url_Parse reference)) <$> CredentialRefs request)
    ++ [validateUniqueStringLines "certification admission credential reference" (CredentialRefs request);
        validateUniqueStringLines "certification admission mutation key" (MutationKeys request);
        fail_if (bool_decide (MutationKeys request = [])) (ErrNew "certification admission requires at least one mutation key")]
    ++ ((λ kv : string * Z, fail_if (blank kv.1 || (kv.2 <? 0) || multiline kv.1)
           (ErrNew "certification admission required quota contains an invalid entry")) <$> map_to_list (RequiredQuota request))
    ++ ((λ nv : string * Z, fail_if (nv.2 <? 0) (errorf "%s cannot be negative" [GStr nv.1])) <$>
          [("certification admission required local CPU", RequiredLocalCPUMilli request);
           ("certification admission required local memory", RequiredLocalMemoryMB request)])).
End admission.

(* sdk/certification.go, lines 215-233: ValidateCertificationAdmissionResult *)
Definition ValidateCertificationAdmissionResult (r : CertificationAdmissionResult) : gerror :=
  fail_if (CertificationFacts.AvailableLocalCPUMilli r <? 0)
    (ErrNew "certification admission result available local CPU cannot be negative")
  ;;? fail_if (CertificationFacts.AvailableLocalMemoryMB r <? 0)
        (ErrNew "certification admission result available local memory cannot be negative")
  ;;? first_error (λ kv : string * Z, fail_if (blank kv.1 || (kv.2 <? 0) || multiline kv.1)
        (ErrNew "certification admission result contains an invalid quota")) (map_to_list (CertificationFacts.AvailableQuota r))
  ;;? first_error (λ kv : string * string, fail_if (blank kv.1 || multiline (kv.1 +:+ kv.2))
        (ErrNew "certification admission result contains an invalid reason")) (map_to_list (CertificationFacts.Reasons r)).

(** ** Execution *)

Section execution.
Import CertificationUnit.

(* sdk/certification.go, lines 287-322: ValidateCertificationExecutionUnit *)
Definition ValidateCertificationExecutionUnit (unit : CertificationExecutionUnit) : gerror :=
  errors_Join (
    ((λ nv : string * string, fail_if (bad_reference nv.2) (errorf "%s is required and must be single-line" [GStr nv.1])) <$>
       [("certification unit ID", ID unit); ("certification unit fingerprint", Fingerprint unit);
        ("certification unit warm boundary", WarmBoundary unit); ("certification unit ownership marker", OwnershipMarker unit)])
    ++ [fail_if (bool_decide (CellIDs unit = [])) (ErrNew "certification unit requires at least one cell ID");
        validateUniqueLines "certification unit cell ID" (CellIDs unit);
        fail_if (negb (bool_decide (BaselineCellID unit = "")) && negb (bool_decide (BaselineCellID unit ∈ CellIDs unit)))
          (ErrNew "certification unit baseline cell ID must be one of its cell IDs");
        validateUniqueLines "certification unit dependency" (DependsOn unit);
        validateUniqueLines "certification unit mutation key" (MutationKeys unit);
        match Coverage unit with None => None | Some coverage => CoverageBoundary_Validate coverage end]
    ++ ((λ nv : string * string, fail_if (negb (bool_decide (nv.2 = "")) && multiline nv.2)
           (errorf "%s must be single-line and NUL-free" [GStr nv.1])) <$>
          [("certification unit reuse session ID", ReuseSessionID unit);
           ("certification unit reuse fingerprint digest", ReuseFingerprintDigest unit)])).

(* sdk/certification.go, lines 326-334: ValidateCertificationExecutionRequest *)
Definition ValidateCertificationExecutionRequest (request : CertificationExecutionRequest) : gerror :=
  ValidateCertificationExecutionUnit (CertificationRequest.Unit request)
  ;;? fail_if (bad_reference (CertificationRequest.IdempotencyKey request))
        (ErrNew "certification execution idempotency key is required and must be single-line").

(* sdk/certification.go, lines 343-365: ValidateCertificationExecutionResult *)
Definition ValidateCertificationExecutionResult (r : CertificationExecutionResult) (unit : CertificationExecutionUnit) : gerror :=
  ValidateCertificationExecutionUnit unit
  ;;? fail_if (negb (bool_decide (CertificationResult.OwnershipMarker r = OwnershipMarker unit)))
        (ErrNew "certification execution result ownership marker does not match the unit")
  ;;? first_error (λ nv : string * string,
        fail_if (multiline nv.2) (errorf "certification execution result %s contains a control character" [GStr nv.1]))
        [("stack ID", CertificationResult.StackID r); ("ownership marker", CertificationResult.OwnershipMarker r);
         ("reuse mode", CertificationResult.ReuseMode r); ("cleanup state", CertificationResult.CleanupState r)]
  ;;? fail_if (negb (bool_decide (CertificationResult.ReuseMode r ∈ ["cold"; "warm-transition"; "reused-session"])))
        (errorf "certification execution result has invalid reuse mode %q" [GStr (CertificationResult.ReuseMode r)])
  ;;? fail_if (negb (bool_decide (CertificationResult.CleanupState r ∈ [""; "pending"; "complete"; "failed"; "protected"])))
        (errorf "certification execution result has invalid cleanup state %q" [GStr (CertificationResult.CleanupState r)])
  ;;? first_error (λ nv : string * list string, validateUniqueLines ("certification execution " +:+ nv.1) nv.2)
        [("operation ID", CertificationResult.OperationIDs r); ("resource reference", CertificationResult.ResourceRefs r);
         ("backup reference", CertificationResult.BackupRefs r); ("restore reference", CertificationResult.RestoreRefs r);
         ("telemetry reference", CertificationResult.TelemetryRefs r); ("edge reference", CertificationResult.EdgeRefs r)].
End execution.
