(* ===== verification/CertificationBridge.v ===== *)
(** * The bridge to the certification ports (internal/platform/certification.go)

    A unit of the scheduler as the request a provider executes, its answer as the
    result the scheduler records, and the admission port of a provider as a probe
    of the admission gate.  Which adapter a module offers is for the modules to
    say: an adapter, or none, is an argument. *)

From S2P Require Import Prelude GoStrings GoEncoding Secretsafe Sdk Coverage Sessions Admission Resilience Lifecycle Edge Schedule Units Execution Certification.

Local Open Scope Z_scope.

(** ** The unit and the result *)

Section projection.
Import ExecutionUnit.

(* internal/platform/certification.go, lines 132-156: certificationExecutionUnit *)
Definition certificationExecutionUnit (unit : ExecutionUnit) : CertificationExecutionUnit :=
  {| CertificationUnit.ID := ID unit; CertificationUnit.CellIDs := CellIDs unit;
     CertificationUnit.BaselineCellID := BaselineCellID unit; CertificationUnit.Fingerprint := Fingerprint unit;
     CertificationUnit.WarmBoundary := WarmBoundary unit; CertificationUnit.WarmTransition := WarmTransition unit;
     CertificationUnit.Coverage := Coverage unit; CertificationUnit.OwnershipMarker := OwnershipMarker unit;
     CertificationUnit.Cold := Cold unit; CertificationUnit.MigrationOwner := MigrationOwner unit;
     CertificationUnit.DependsOn := DependsOn unit; CertificationUnit.MutationKeys := MutationKeys unit;
     CertificationUnit.Required := Required unit; CertificationUnit.ReuseSessionID := ReuseSessionID unit;
     CertificationUnit.ReuseFingerprintDigest :=
       match ReuseFingerprint unit with
       | None => ""
       | Some fingerprint => match ReuseFingerprint_Digest fingerprint with Ok digest => digest | Err _ => "" end
       end |}.

(* internal/platform/certification.go, lines 173-182: defaultCertificationReuseMode *)
Definition defaultCertificationReuseMode (unit : ExecutionUnit) : string :=
  if negb (bool_decide (ReuseSessionID unit = "")) then "reused-session"
  else if Cold unit then "cold" else "warm-transition".

(* internal/platform/certification.go, lines 26-29: CertificationExecutorFor *)
Definition certification_request (unit : ExecutionUnit) : CertificationExecutionRequest :=
  {| CertificationRequest.Unit := certificationExecutionUnit unit;
     CertificationRequest.IdempotencyKey := ID unit +:+ ":" +:+ Fingerprint unit |}.
End projection.

(* internal/platform/certification.go, lines 158-171: certificationExecutionResult *)
Definition certificationExecutionResult (r : CertificationExecutionResult) : ScheduleExecutionResult :=
  {| ScheduleExecutionResult.StackID := CertificationResult.StackID r; ScheduleExecutionResult.ReuseFingerprint := None;
     ScheduleExecutionResult.OperationIDs := CertificationResult.OperationIDs r;
     ScheduleExecutionResult.ResourceRefs := CertificationResult.ResourceRefs r;
     ScheduleExecutionResult.BackupRefs := CertificationResult.BackupRefs r;
     ScheduleExecutionResult.RestoreRefs := CertificationResult.RestoreRefs r;
     ScheduleExecutionResult.TelemetryRefs := CertificationResult.TelemetryRefs r;
     ScheduleExecutionResult.EdgeRefs := CertificationResult.EdgeRefs r;
     ScheduleExecutionResult.ReuseMode := CertificationResult.ReuseMode r;
     ScheduleExecutionResult.CleanupState := CertificationResult.CleanupState r;
     ScheduleExecutionResult.OwnershipMarker := CertificationResult.OwnershipMarker r |}.

(** ** The executor *)

(* sdk/certification.go, lines 78-81: CertificationAdapter *)
Inductive certification_event :=
  | EvExecuteCertification (request : CertificationExecutionRequest) (answer : CertificationExecutionResult * gerror).

Section executor.
Context {W : Type} (adapter : CertificationAdapter W) (unit : ExecutionUnit).
Abbreviation M := (eff certification_event W).
Abbreviation publicUnit := (certificationExecutionUnit unit).
Abbreviation refuse err := (ScheduleExecutionResult.zero, Some err).

(** What is kept of an answer that is an error: identities that pass every check,
    so that a retry can find the operation again. *)
(* internal/platform/certification.go, lines 34-53: CertificationExecutorFor *)
Definition keep_partial (r : CertificationExecutionResult) (executeErr : error) : ScheduleExecutionResult * gerror :=
  match ValidateSecretSafeValue (CertificationResult.to_json r) with
  | Some err => refuse (ErrJoin [executeErr; wrapf "provider returned secret-like certification state: %w" [] err])
  | None =>
      let r := CertificationResult.with_defaults (CertificationUnit.OwnershipMarker publicUnit)
                 (defaultCertificationReuseMode unit) r in
      match ValidateCertificationExecutionResult r publicUnit with
      | Some err => refuse (ErrJoin [executeErr; wrapf "provider returned invalid partial certification state: %w" [] err])
      | None => (certificationExecutionResult r, Some executeErr)
      end
  end.

(* internal/platform/certification.go, lines 54-60: CertificationExecutorFor *)
Definition accept_result (r : CertificationExecutionResult) : ScheduleExecutionResult * gerror :=
  let r := CertificationResult.with_defaults (CertificationResult.OwnershipMarker r) (defaultCertificationReuseMode unit) r in
  match ValidateCertificationExecutionResult r publicUnit with
  | Some err => refuse (wrapf "validate certification result for unit %q: %w" [GStr (ExecutionUnit.ID unit)] err)
  | None => (certificationExecutionResult r, None)
  end.

(* internal/platform/certification.go, lines 24-61: CertificationExecutorFor *)
Definition certification_executor : M (ScheduleExecutionResult * gerror) :=
  let request := certification_request unit in
  match ValidateCertificationExecutionRequest request with
  | Some err => mret (refuse (wrapf "validate certification unit %q: %w" [GStr (ExecutionUnit.ID unit)] err))
  | None =>
      executed ← call (EvExecuteCertification request) (ExecuteCertification adapter request);
      mret (match executed with
        | (r, Some executeErr) => keep_partial r executeErr
        | (r, None) => accept_result r
        end)
  end.
End executor.

(* internal/platform/certification.go, lines 16-62: CertificationExecutorFor *)
Definition CertificationExecutorFor {W} (module_adapter : result (option (CertificationAdapter W)))
    : result (option (ExecutionUnit → eff certification_event W (ScheduleExecutionResult * gerror))) :=
  match module_adapter with Ok adapter => Ok (certification_executor <$> adapter) | Err err => Err err end.

(** ** The probe *)

Section probe.
Context {W : Type} (url_Parse : string → result url).
Import AdmissionInput.

(* internal/platform/certification.go, lines 77-91: CertificationAdmissionFor *)
Definition admission_request (input : AdmissionInput) : CertificationAdmissionRequest :=
  {| CertificationAdmission.Provider := Provider input;
     CertificationAdmission.AccountOrProjectRef := AccountOrProjectRef input; CertificationAdmission.Region := Region input;
     CertificationAdmission.NetworkRef := NetworkRef input; CertificationAdmission.StateBackendRef := StateBackendRef input;
     CertificationAdmission.FixtureID := FixtureID input; CertificationAdmission.OwnershipMarker := OwnershipMarker input;
     CertificationAdmission.CredentialRefs := CredentialRefs input;
     CertificationAdmission.RequireCredentials := RequireCredentials input;
     CertificationAdmission.RequiredQuota := RequiredQuota input;
     CertificationAdmission.RequiredLocalCPUMilli := RequiredLocalCPUMilli input;
     CertificationAdmission.RequiredLocalMemoryMB := RequiredLocalMemoryMB input;
     CertificationAdmission.MutationKeys := MutationKeys input |}.

(* internal/platform/certification.go, lines 111-122: CertificationAdmissionFor *)
Definition probe_result (r : CertificationAdmissionResult) : AdmissionProbeResult :=
  {| AdmissionProbeResult.CredentialsReady := CertificationFacts.CredentialsReady r;
     AdmissionProbeResult.AccountOrProjectReady := CertificationFacts.AccountOrProjectReady r;
     AdmissionProbeResult.NetworkReady := CertificationFacts.NetworkReady r;
     AdmissionProbeResult.StateBackendReady := CertificationFacts.StateBackendReady r;
     AdmissionProbeResult.FixtureReady := CertificationFacts.FixtureReady r;
     AdmissionProbeResult.OwnershipReady := CertificationFacts.OwnershipReady r;
     AdmissionProbeResult.AvailableQuota := CertificationFacts.AvailableQuota r;
     AdmissionProbeResult.AvailableLocalCPUMilli := CertificationFacts.AvailableLocalCPUMilli r;
     AdmissionProbeResult.AvailableLocalMemoryMB := CertificationFacts.AvailableLocalMemoryMB r;
     AdmissionProbeResult.Reasons := CertificationFacts.Reasons r |}.

(** A result that is not fit to be seen hides the error that came with it. *)
(* internal/platform/certification.go, lines 98-122: CertificationAdmissionFor *)
Definition read_admission (answer : CertificationAdmissionResult * gerror) : result AdmissionProbeResult :=
  let '(r, admitErr) := answer in
  fail_if (bool_decide (is_Some (ValidateSecretSafeValue (CertificationFacts.to_json r))))
    (ErrNew "provider returned secret-like certification admission state") ;;!
  err_wrap (wrapf "validate certification admission result: %w" []) (ValidateCertificationAdmissionResult r) ;;!
  match admitErr with
  | Some err =>
      if errors_Is "context.Canceled" err || errors_Is "context.DeadlineExceeded" err then Err err
      else Err (ErrNew "provider certification admission is unavailable")
  | None => Ok (probe_result r)
  end.

(* internal/platform/certification.go, lines 76-123: CertificationAdmissionFor *)
Definition certification_probe (adapter : CertificationAdmissionAdapter W) : AdmissionProbe W := λ ctx input w,
  let request := admission_request input in
  match err_wrap (wrapf "validate certification admission request: %w" []) (ValidateCertificationAdmissionRequest url_Parse request)
        ;;? fail_if (bool_decide (ctx = None)) (ErrNew "certification admission context is required") with
  | Some err => (Err err, w)
  | None => let '(answer, w) := AdmitCertification adapter request w in (read_admission answer, w)
  end.

(* internal/platform/certification.go, lines 68-124: CertificationAdmissionFor *)
Definition CertificationAdmissionFor (module_adapter : result (option (CertificationAdmissionAdapter W)))
    : result (option (AdmissionProbe W)) :=
  match module_adapter with Ok adapter => Ok (certification_probe <$> adapter) | Err err => Err err end.
End probe.
