(* ===== verification/BridgeClaims.v ===== *)
(** * What the bridge to the certification ports promises

    A result the bridge hands to the scheduler passes the scheduler's own checks,
    a probe of a provider fails closed, and the units a schedule makes of warm
    cells never reach a provider. *)

From S2P Require Import Prelude GoStrings GoEncoding Secretsafe Sdk Coverage Sessions Admission Resilience Lifecycle LifecycleClaims Edge Schedule Units UnitClaims BuildSchedule BuildClaims Execution Certification CertificationBridge.

Local Open Scope Z_scope.

(** ** Lines *)

Lemma unique_lines_None name values : unique_lines name values = None ↔
  Forall (λ value, bad_reference value = false) values ∧ NoDup values.
Proof.
  unfold unique_lines. rewrite (unique_checks_None (λ value, fail_if (bad_reference value) _) (λ value, errorf _ _)).
  apply and_iff_compat_r. rewrite !Forall_forall. by setoid_rewrite fail_if_None.
Qed.

Lemma check_references_None unit name values : ∀ seen, check_references unit name seen values = None ↔
  Forall (λ value, bad_reference value = false) values ∧ Forall (λ value, value ∉ seen) values ∧ NoDup values.
Proof.
  induction values as [|v values IH]; intros seen; cbn [check_references].
  { split; [|done]. by repeat constructor. }
  rewrite !err_seq_None, !fail_if_None, bool_decide_eq_false, IH, !Forall_cons, NoDup_cons.
  rewrite !Forall_forall. fold (bad_reference v). setoid_rewrite not_elem_of_cons. split.
  - intros (Hb&Hs&Hv&Hn&Hnd). split_and!; try done; [by intros x Hx; apply Hn|]. intros Hin. by destruct (Hn v Hin).
  - intros ((Hb&Hv)&(Hs&Hn)&Hni&Hnd). split_and!; try done. intros x Hx. split; [|by apply Hn]. by intros ->.
Qed.

Lemma references_agree unit name seen_name values :
  unique_lines name values = None → check_references unit seen_name [] values = None.
Proof.
  rewrite unique_lines_None, check_references_None. intros [Hb Hn]. split_and!; [done| |done].
  apply Forall_forall. intros ? ? ?%elem_of_nil. done.
Qed.

(** ** Results *)

Section executor.
Context {W : Type} (adapter : CertificationAdapter W) (unit : ExecutionUnit).

(** A result that passes the provider's validator passes the scheduler's, but for
    secrets. *)
Lemma validated_accepted r : ValidateCertificationExecutionResult r (certificationExecutionUnit unit) = None →
  validateScheduleExecutionResult unit (certificationExecutionResult r) = None ↔
  ValidateSecretSafeValue (ScheduleExecutionResult.to_json (certificationExecutionResult r)) = None.
Proof.
  unfold ValidateCertificationExecutionResult. rewrite !err_seq_None, !fail_if_None, !negb_false_iff.
  intros (_&Hm&Hlines&Hmode&Hclean&Hrefs). unfold validateScheduleExecutionResult. cbv zeta.
  rewrite !err_seq_None, !fail_if_None, !negb_false_iff. apply first_error_None in Hlines, Hrefs. rewrite !first_error_None.
  rewrite !Forall_cons in Hlines. cbn [snd] in Hlines. destruct Hlines as (Hstack&Hmark&_). apply fail_if_None in Hstack, Hmark.
  split; [intros (Hs&_); apply bool_decide_eq_false in Hs; by destruct (ValidateSecretSafeValue _); [destruct Hs; eexists|]|].
  intros Hs. split_and!; try done.
  - rewrite Hs. by apply bool_decide_eq_false; intros [].
  - rewrite !Forall_cons. cbn [snd certificationExecutionResult ScheduleExecutionResult.StackID ScheduleExecutionResult.OwnershipMarker].
    rewrite Hstack, Hmark, !andb_false_r. by repeat constructor.
  - rewrite !Forall_cons in Hrefs. cbn [snd] in Hrefs. destruct Hrefs as (H1&H2&H3&H4&H5&H6&_).
    rewrite !Forall_cons. cbn [snd fst certificationExecutionResult ScheduleExecutionResult.OperationIDs ScheduleExecutionResult.ResourceRefs
      ScheduleExecutionResult.BackupRefs ScheduleExecutionResult.RestoreRefs ScheduleExecutionResult.TelemetryRefs ScheduleExecutionResult.EdgeRefs].
    split_and!; try (by eapply references_agree); done.
Qed.

(** What the executor answers: nothing at all, or what passed the provider's validator. *)
Lemma executor_answer w : let '(r, err) := outcome (certification_executor adapter unit) w in
  (r = ScheduleExecutionResult.zero ∧ err ≠ None) ∨
  ∃ answer, r = certificationExecutionResult answer ∧ ValidateCertificationExecutionResult answer (certificationExecutionUnit unit) = None ∧
    CertificationResult.OwnershipMarker answer = ExecutionUnit.OwnershipMarker unit.
Proof.
  unfold certification_executor. cbv zeta. destruct (ValidateCertificationExecutionRequest _); [by left|].
  rewrite outcome_bind, outcome_call, outcome_ret. destruct (ExecuteCertification adapter _ w).1 as [r [executeErr|]].
  - unfold keep_partial. cbv zeta. destruct (ValidateSecretSafeValue _); [by left|].
    destruct (ValidateCertificationExecutionResult _ _) eqn:Hv; [by left|]. right. eexists. split_and!; [done|done|].
    unfold ValidateCertificationExecutionResult in Hv. apply err_seq_None in Hv as [_ Hv]. apply err_seq_None in Hv as [Hv _].
    by apply fail_if_None, negb_false_iff, bool_decide_eq_true in Hv.
  - unfold accept_result. cbv zeta. destruct (ValidateCertificationExecutionResult _ _) eqn:Hv; [by left|]. right. eexists. split_and!; [done|done|].
    unfold ValidateCertificationExecutionResult in Hv. apply err_seq_None in Hv as [_ Hv]. apply err_seq_None in Hv as [Hv _].
    by apply fail_if_None, negb_false_iff, bool_decide_eq_true in Hv.
Qed.


(** A unit whose baseline is none of its cells never reaches the provider. *)
Lemma foreign_baseline_refused w : ExecutionUnit.BaselineCellID unit ≠ "" → ExecutionUnit.BaselineCellID unit ∉ ExecutionUnit.CellIDs unit →
  events (certification_executor adapter unit) w = [] ∧ (outcome (certification_executor adapter unit) w).2 ≠ None.
Proof.
  intros Hb Hn. unfold certification_executor. cbv zeta.
  destruct (ValidateCertificationExecutionRequest (certification_request unit)) eqn:Hv; [by rewrite events_ret, outcome_ret|].
  exfalso. unfold ValidateCertificationExecutionRequest, ValidateCertificationExecutionUnit in Hv. apply err_seq_None in Hv as [Hv _].
  rewrite errors_Join_None, !Forall_app, !Forall_cons in Hv. destruct Hv as (_&(_&_&Hbase&_)&_).
  apply fail_if_None, andb_false_iff in Hbase. rewrite !negb_false_iff, !bool_decide_eq_true in Hbase.
  cbn [certification_request CertificationRequest.Unit certificationExecutionUnit CertificationUnit.BaselineCellID CertificationUnit.CellIDs] in Hbase.
  by destruct Hbase.
Qed.
End executor.

(** ** Warm units *)

(** What a build never changes in a unit: its cells and its baseline. *)
Definition boundary (u : ExecutionUnit) : list string * string := (ExecutionUnit.CellIDs u, ExecutionUnit.BaselineCellID u).

Lemma alter_unit_boundary f id units : (∀ u, boundary (f u) = boundary u) → boundary <$> alter_unit f id units = boundary <$> units.
Proof.
  intros Hf. induction units as [|u units IH]; [done|]. cbn [alter_unit]. destruct (_ && _); rewrite !fmap_cons; [by rewrite Hf|by rewrite IH].
Qed.

Lemma depend_on_boundary unitID other units : boundary <$> depend_on unitID other units = boundary <$> units.
Proof. unfold depend_on. case_bool_decide; [done|]. by apply alter_unit_boundary. Qed.

Lemma add_dependencies_boundary cellToUnit completed cellID unitID dependencies : ∀ units units',
  add_dependencies cellToUnit completed cellID unitID dependencies units = Ok units' → boundary <$> units' = boundary <$> units.
Proof.
  induction dependencies as [|d ds IH]; intros units units'; cbn [add_dependencies]; [by intros [= ->]|].
  case_bool_decide; [by apply IH|]. destruct (cellToUnit !! d); [|done]. intros H1%IH. by rewrite H1, depend_on_boundary.
Qed.

Lemma add_cells_boundary cellToUnit completed cells : ∀ units units',
  add_cells_dependencies cellToUnit completed cells units = Ok units' → boundary <$> units' = boundary <$> units.
Proof.
  induction cells as [|c cells IH]; intros units units'; cbn [add_cells_dependencies]; [by intros [= ->]|].
  destruct (cellToUnit !! _) as [uid|]; [|by apply IH].
  destruct (add_dependencies _ _ _ _ _ _) as [units1|] eqn:E1; cbn [mbind result_bind]; [|done].
  destruct (add_baseline _ _ _ _ _) as [units2|] eqn:E2; cbn [mbind result_bind]; [|done].
  intros H%IH. rewrite H, <-(add_dependencies_boundary _ _ _ _ _ _ _ E1). clear -E2. revert E2. unfold add_baseline.
  case_bool_decide; [by intros [= ->]|]. destruct (cellToUnit !! _); [intros [= <-]; apply depend_on_boundary|].
  intros [_ [= ->]]%lift_check_Ok. done.
Qed.

Lemma addUnitDependencies_boundary units cellToUnit cells completed units' :
  addUnitDependencies units cellToUnit cells completed = Ok units' → boundary <$> units' = boundary <$> units.
Proof.
  unfold addUnitDependencies. destruct (add_cells_dependencies _ _ _ _) as [mid|] eqn:E; cbn [mbind result_bind]; [|done].
  intros [= <-]. rewrite <-(add_cells_boundary _ _ _ _ _ E). clear E. induction mid as [|u mid IH]; [done|]. cbn [map]. by rewrite !fmap_cons, IH.
Qed.

Lemma applyReusableSessions_boundary units cells records units' :
  applyReusableSessions units cells records = Ok units' → boundary <$> units' = boundary <$> units.
Proof.
  unfold applyReusableSessions. case_bool_decide; [by intros [= <-]|]. intros H1%try_map_Ok. clear H.
  induction H1 as [|u v us vs Hv _ IH]; [done|]. rewrite !fmap_cons, IH. f_equal. revert Hv. unfold apply_session.
  destruct (reused_session _ _ _ _); cbn [mbind result_bind]; [|done]. case_bool_decide; [by intros [= <-]|].
  destruct (ReuseFingerprint_Digest _); [|done]. intros Hv. inv_checks. by match goal with He : Ok _ = Ok v |- _ => injection He as <- end.
Qed.

Section warm.
Context (cells : list ScheduleCell) (completed : gset string).

(** A unit is one warm cell, with the cell it warms from for a baseline, or groups cells that are not warm. *)
Definition warm_or_not (key : string) (u : ExecutionUnit) : Prop :=
  (∃ c, c ∈ cells ∧ ScheduleCell.WarmFrom c ≠ "" ∧ key = unit_id c ∧
     ExecutionUnit.CellIDs u = [ScheduleCell.ID c] ∧ ExecutionUnit.BaselineCellID u = ScheduleCell.WarmFrom c) ∨
  Forall (λ id, ∃ c, c ∈ cells ∧ ScheduleCell.WarmFrom c = "" ∧ ScheduleCell.ID c = id) (ExecutionUnit.CellIDs u).

Lemma add_cell_warm baselines groups cellToUnit c : c ∈ cells → map_Forall warm_or_not groups →
  map_Forall warm_or_not (add_cell completed baselines (groups, cellToUnit) c).1.
Proof.
  intros Hc Hg. cbn [add_cell]. destruct (negb (scheduled completed c)); [done|]. case_bool_decide as Hw; cbn [negb fst].
  - apply map_Forall_insert_2; [|done]. right. unfold join_unit. cbv zeta. cbn [ExecutionUnit.set_cells ExecutionUnit.CellIDs]. apply Forall_app. split.
    + destruct (groups !! scheduleCellIdentity c) as [u|] eqn:Hu; cbn [default]; [|by rewrite new_baseline_cells].
      destruct (Hg _ _ Hu) as [(d&_&_&Hk&_)|Hf]; [|done]. by destruct (identity_not_unit_id c d).
    + repeat constructor. by exists c.
  - apply map_Forall_insert_2; [|done]. left. exists c. split_and!; [done|done| |done|done].
    unfold unit_id. by rewrite bool_decide_eq_false_2.
Qed.

Lemma makeExecutionUnits_warm units cellToUnit : makeExecutionUnits cells completed = (units, cellToUnit) →
  Forall (λ u, ∃ key, warm_or_not key u) units.
Proof.
  unfold makeExecutionUnits. destruct (fold_left _ _ _) as [groups m] eqn:Hf. intros [= <- _].
  assert (Hg : map_Forall warm_or_not groups).
  { change groups with (groups, m).1. rewrite <-Hf. clear Hf.
    assert (Hall : ∀ rest (g : gmap string ExecutionUnit * gmap string string), (∀ c, c ∈ rest → c ∈ cells) → map_Forall warm_or_not g.1 →
      map_Forall warm_or_not (fold_left (add_cell completed (completed_baselines completed cells)) rest g).1).
    { induction rest as [|c rest IH]; intros [groups' m'] Hin Hg; [done|]. cbn [fold_left]. apply IH; [set_solver|].
      apply add_cell_warm; [set_solver|done]. }
    apply Hall; [done|]. apply map_Forall_empty. }
  apply Forall_forall. intros u Hu. apply elem_of_sort_by, list_elem_of_fmap in Hu as (u0&->&Hu0).
  apply list_elem_of_fmap in Hu0 as ([key v]&->&Hv%elem_of_map_to_list). exists key. destruct (Hg _ _ Hv) as [(c&Hc&Hw&Hk&Hcs&Hb)|Hall].
  - left. exists c. split_and!; try done.
    + cbn [finish_unit ExecutionUnit.set_cells ExecutionUnit.CellIDs snd]. by rewrite Hcs.
    + cbn [finish_unit ExecutionUnit.set_cells ExecutionUnit.BaselineCellID snd]. rewrite Hb. by rewrite bool_decide_eq_false_2.
  - right. cbn [finish_unit ExecutionUnit.set_cells ExecutionUnit.CellIDs snd]. by rewrite sort_strings_perm.
Qed.
End warm.

Lemma check_cells_each cells : ∀ known estimates c, check_cells known estimates cells = None → c ∈ cells → ∃ known', check_cell known' c = None.
Proof.
  induction cells as [|d cells IH]; intros known estimates c H; [by intros ?%elem_of_nil|]. cbn [check_cells] in H.
  apply err_seq_None in H as [Hd H]. apply err_seq_None in H as [_ H]. intros [->|Hc]%elem_of_cons; [by exists known|by eapply IH].
Qed.

Lemma warm_from_other cells c : validateScheduleCells cells = None → c ∈ cells → ScheduleCell.WarmFrom c ≠ "" → ScheduleCell.WarmFrom c ≠ ScheduleCell.ID c.
Proof.
  unfold validateScheduleCells. intros H Hc Hw He. apply err_seq_None in H as [_ H]. apply err_seq_None in H as [H _].
  destruct (check_cells_each _ _ _ _ H Hc) as [known Hk]. unfold check_cell in Hk. repeat apply err_seq_None in Hk as [_ Hk].
  apply fail_if_None in Hk. rewrite andb_false_iff, negb_false_iff, bool_decide_eq_true, bool_decide_eq_false in Hk. tauto.
Qed.

(** C19: A warm cell is planned and never executed.  The scheduler gives the unit of a cell that warms from another one that
    other cell for its baseline; the provider's port wants the baseline among the cells of the unit.  So in whatever schedule
    is built, and whatever the provider offers, the executor refuses such a unit before the provider is called. *)
Theorem warm_units_refused {W W' : Type} url_Parse Quote uuid clock (options : SchedulerOptions W) cells w schedule w' u c
    (adapter : CertificationAdapter W') w0 :
  BuildSchedule url_Parse Quote uuid clock options cells w = (Ok schedule, w') →
  u ∈ Schedule.Units schedule → c ∈ cells → ScheduleCell.ID c ∈ ExecutionUnit.CellIDs u → ScheduleCell.WarmFrom c ≠ "" →
  events (certification_executor adapter u) w0 = [] ∧ (outcome (certification_executor adapter u) w0).2 ≠ None.
Proof.
  intros (capacity&owner&completed&sessions&w1&units&cellToUnit&reused&Ho&_&_&_&Hp)%BuildSchedule_Ok Hu Hc Hin Hw.
  apply check_options_cells in Ho as [Hv _]. pose proof (warm_from_other _ _ Hv Hc Hw) as Hself.
  apply validated_cells in Hv as (Hids&_&_). destruct Hp as [Hm Hs Hl _ _ _ _ _ _ _ _ _].
  apply applyReusableSessions_boundary in Hs. apply addUnitDependencies_boundary in Hl. rewrite Hs in Hl.
  assert (Hb : boundary u ∈ boundary <$> units) by (rewrite <-Hl; by apply list_elem_of_fmap_2).
  apply list_elem_of_fmap in Hb as (v&Hb&Hvu). injection Hb as Hcells Hbase.
  apply makeExecutionUnits_warm in Hm. rewrite Forall_forall in Hm. destruct (Hm v Hvu) as [key [(d&Hd&Hdw&_&Hdc&Hdb)|Hall]].
  - rewrite Hcells, Hdc in Hin. apply list_elem_of_singleton in Hin. rewrite (cell_unique cells Hids c d Hc Hd Hin) in Hself.
    apply foreign_baseline_refused; rewrite Hbase, Hdb; [done|]. by rewrite Hcells, Hdc, list_elem_of_singleton.
  - rewrite Hcells in Hin. rewrite Forall_forall in Hall. destruct (Hall _ Hin) as (d&Hd&Hdw&He).
    by rewrite <-(cell_unique cells Hids d c Hd Hc He) in Hw.
Qed.

(** ** The probe *)

Section probe.
Context {W : Type} (url_Parse : string → result url) (Quote : string → string) (adapter : CertificationAdmissionAdapter W).

(** The facts a provider was asked for and that were found fit to use. *)
Definition answered_facts (input : AdmissionInput) (w : W) (facts : CertificationAdmissionResult) : Prop :=
  ValidateCertificationAdmissionRequest url_Parse (admission_request input) = None ∧
  (AdmitCertification adapter (admission_request input) w).1 = (facts, None) ∧
  ValidateCertificationAdmissionResult facts = None ∧ ValidateSecretSafeValue (CertificationFacts.to_json facts) = None.

Lemma certification_probe_Ok input w facts : (certification_probe url_Parse adapter (Some None) input w).1 = Ok facts →
  ∃ r, answered_facts input w r ∧ facts = probe_result r.
Proof.
  unfold certification_probe. cbv zeta. destruct (_ ;;? _) eqn:Hv; [done|]. rewrite err_seq_None, err_wrap_None in Hv. destruct Hv as [Hv _].
  destruct (AdmitCertification adapter _ w) as [[r admitErr] w'] eqn:Ha. cbn [fst]. unfold read_admission.
  intros [Hs Hr]%lift_check_Ok. apply lift_check_Ok in Hr as [Hvr Hr]. apply err_wrap_None in Hvr. apply fail_if_None, bool_decide_eq_false in Hs.
  destruct admitErr as [e|]; [by destruct (_ || _)|]. injection Hr as <-. exists r. split; [|done]. unfold answered_facts. rewrite Ha. split_and!; try done.
  destruct (ValidateSecretSafeValue _); [|done]. destruct Hs. by eexists.
Qed.

(** The probe of a provider fails closed through the admission gate.  A report made with it is ready only when the request
    was valid and the provider answered it without an error, with facts that pass its validator and hold no secret shape; and
    then those facts say that credentials, account, network, state, fixture and ownership are ready, and every quota asked for
    is available.  A provider that fails, or says nothing of a fact, blocks. *)
Theorem bridge_admission_fails_closed ctx input w report :
  (CheckAdmissionWithProbe url_Parse Quote ctx input (Some (certification_probe url_Parse adapter)) w).1 = Ok report →
  Ready report = true → ∃ facts, answered_facts input w facts ∧
    (AdmissionInput.RequireCredentials input = true → CertificationFacts.CredentialsReady facts = true) ∧
    CertificationFacts.AccountOrProjectReady facts = true ∧ CertificationFacts.NetworkReady facts = true ∧
    CertificationFacts.StateBackendReady facts = true ∧ CertificationFacts.FixtureReady facts = true ∧
    CertificationFacts.OwnershipReady facts = true ∧
    ∀ key required, AdmissionInput.RequiredQuota input !! key = Some required →
      ∃ available, CertificationFacts.AvailableQuota facts !! key = Some available ∧ required ≤ available.
Proof.
  intros Hr Hready. pose proof (CheckAdmissionWithProbe_fails_closed url_Parse Quote ctx input (certification_probe url_Parse adapter) w) as H.
  destruct (CheckAdmissionWithProbe _ _ _ _ _ _) as [answer w']. cbn [fst] in Hr. rewrite Hr in H. destruct H as (_&->&_&Hiff).
  apply Hiff in Hready as (facts&Hf&_&Hp). apply certification_probe_Ok in Hf as (r&Ha&->). exists r. split; [done|].
  destruct Hp as [_ _ Hc Hacc Hn Hs Hfix Hown Hq]. by split_and!.
Qed.
End probe.

(** ** Examples *)

Module BridgeExample.
Import UnitExample BuildExample.

Definition answered : CertificationExecutionResult :=
  {| CertificationResult.StackID := "stack-2"; CertificationResult.OperationIDs := ["op-1"]; CertificationResult.ResourceRefs := ["res-1"];
     CertificationResult.BackupRefs := []; CertificationResult.RestoreRefs := []; CertificationResult.TelemetryRefs := [];
     CertificationResult.EdgeRefs := []; CertificationResult.ReuseMode := ""; CertificationResult.CleanupState := "complete";
     CertificationResult.OwnershipMarker := "run-b" |}.

Definition provider : CertificationAdapter nat :=
  {| CertificationDescriptorOf := {| CertificationDescriptor.APIVersion := "v1"; CertificationDescriptor.ID := "aws.certification";
       CertificationDescriptor.Provider := "aws"; CertificationDescriptor.Runtime := "ecs"; CertificationDescriptor.Version := "1.0.0";
       CertificationDescriptor.Actions := [CertificationExecute] |};
     ExecuteCertification := λ _ w, (answered, None, S w) |}.

(** The unit of a cell. *)
Definition unit_with (id : string) : ExecutionUnit :=
  default ExecutionUnit.zero (head (filter (λ u, id ∈ ExecutionUnit.CellIDs u) (Schedule.Units schedule))).
Definition cold_unit : ExecutionUnit := Eval vm_compute in unit_with "edge".
Definition warm_unit : ExecutionUnit := Eval vm_compute in unit_with "php-84".
Definition warm_cell : ScheduleCell := cell "php-84" "b" "php-83" "run-a" CapabilityExperimental [] ["eu"].

Definition recorded : ScheduleExecutionResult := Eval vm_compute in (outcome (certification_executor provider cold_unit) 0%nat).1.


Lemma warm_units_refused_witness : events (certification_executor provider warm_unit) 0%nat = [].
Proof.
  refine (proj1 (warm_units_refused url_Parse id "uuid-1" 0 options cells () schedule () warm_unit warm_cell provider 0%nat built _ _ _ _)).
  - apply (list_elem_of_lookup_2 _ 0). reflexivity.
  - apply (list_elem_of_lookup_2 _ 2). reflexivity.
  - apply (bool_decide_unpack _). vm_compute. exact I.
  - discriminate.
Defined.

Definition input : AdmissionInput :=
  {| AdmissionInput.Provider := "aws"; AdmissionInput.AccountOrProjectRef := "123456789012"; AdmissionInput.Region := "eu-west-3";
     AdmissionInput.NetworkRef := "vpc-1"; AdmissionInput.StateBackendRef := "s3://state/shop"; AdmissionInput.FixtureID := "fixture-1";
     AdmissionInput.OwnershipMarker := "run-b"; AdmissionInput.CredentialRefs := []; AdmissionInput.RequireCredentials := false;
     AdmissionInput.RequiredQuota := {["stacks" := 2]}; AdmissionInput.AvailableQuota := ∅;
     AdmissionInput.RequiredLocalCPUMilli := 0; AdmissionInput.AvailableLocalCPUMilli := 0;
     AdmissionInput.RequiredLocalMemoryMB := 0; AdmissionInput.AvailableLocalMemoryMB := 0; AdmissionInput.MutationKeys := ["edge"] |}.

Definition facts : CertificationAdmissionResult :=
  {| CertificationFacts.CredentialsReady := true; CertificationFacts.AccountOrProjectReady := true; CertificationFacts.NetworkReady := true;
     CertificationFacts.StateBackendReady := true; CertificationFacts.FixtureReady := true; CertificationFacts.OwnershipReady := true;
     CertificationFacts.AvailableQuota := {["stacks" := 5]}; CertificationFacts.AvailableLocalCPUMilli := 0;
     CertificationFacts.AvailableLocalMemoryMB := 0; CertificationFacts.Reasons := ∅ |}.

Definition admission : CertificationAdmissionAdapter nat :=
  {| CertificationAdmissionDescriptorOf := {| CertificationAdmissionDescriptor.APIVersion := "v1";
       CertificationAdmissionDescriptor.ID := "aws.admission"; CertificationAdmissionDescriptor.Provider := "aws";
       CertificationAdmissionDescriptor.Runtime := "ecs"; CertificationAdmissionDescriptor.Version := "1.0.0" |};
     AdmitCertification := λ _ w, (facts, None, S w) |}.

Definition gate : result AdmissionReport :=
  (CheckAdmissionWithProbe url_Parse id (Some None) input (Some (certification_probe url_Parse admission)) 0%nat).1.
Definition report : AdmissionReport := Eval vm_compute in match gate with Ok report => report | Err _ => no_checks end.

Lemma bridge_admission_fails_closed_witness : ∃ r, answered_facts url_Parse admission input 0%nat r.
Proof.
  destruct (bridge_admission_fails_closed url_Parse id admission (Some None) input 0%nat report) as (r&Hr&_).
  - vm_compute. reflexivity.
  - reflexivity.
  - exists r. exact Hr.
Defined.
End BridgeExample.
