(* ===== verification/ScheduleRun.v ===== *)
(** * Executing a schedule: the interleaving of its units
      (internal/certification/scheduler_run.go)

    The goroutine of a unit is a program over the calls it makes: the context,
    the capacity reservation, the checkpoint writer and the provider executor.
    The environment answers the calls, in any way and in any order: an
    execution is a list of actions, and [perform] says what each does to the
    state of [ExecuteSchedule].  The provider executor runs while others do, so
    its call and its return are two actions; a checkpoint write happens under
    the write mutex and a reservation returns at one moment, so they are one.
    Timeouts and cancellations are errors the environment answers with. *)

From S2P Require Import Prelude GoStrings Sdk Sessions LocalCapacity Schedule Units BuildSchedule Execution.

Local Open Scope Z_scope.

(** ** Programs *)

Inductive prog (A : Type) : Type :=
  | Ret (a : A)
  | CtxErr (k : gerror → prog A)
  | Acquire (request : LocalCapacityRequest) (k : result bool → prog A)
  | Write (detached : bool) (checkpoints : list SchedulerCheckpoint) (k : gerror → prog A)
  | Execute (unit : ExecutionUnit) (k : ScheduleExecutionResult * gerror → prog A)
  | ReleaseLease (k : gerror → prog A).
Arguments Ret {A} a.
Arguments CtxErr {A} k.
Arguments Acquire {A} request k.
Arguments Write {A} detached checkpoints k.
Arguments Execute {A} unit k.
Arguments ReleaseLease {A} k.

#[export] Instance prog_ret : MRet prog := λ A a, Ret a.
#[export] Instance prog_bind : MBind prog := λ A B f,
  fix bind p :=
    match p with
    | Ret a => f a
    | CtxErr k => CtxErr (λ x, bind (k x))
    | Acquire r k => Acquire r (λ x, bind (k x))
    | Write d cs k => Write d cs (λ x, bind (k x))
    | Execute u k => Execute u (λ x, bind (k x))
    | ReleaseLease k => ReleaseLease (λ x, bind (k x))
    end.

Section unit.
Context (stamp : string).

(** [write] and [terminalWrite] differ in their context. *)
Definition write (checkpoints : list SchedulerCheckpoint) : prog gerror := Write false checkpoints Ret.
Definition terminalWrite (checkpoints : list SchedulerCheckpoint) : prog gerror := Write true checkpoints Ret.

(* internal/certification/scheduler_run.go, lines 201-246: runScheduleUnit *)
Definition runScheduleUnit (unit : ExecutionUnit) : prog scheduleUnitResult :=
  let id := GStr (ExecutionUnit.ID unit) in
  let answer err := Ret {| resultUnitID := ExecutionUnit.ID unit; resultErr := err |} in
  cancelled ← CtxErr Ret;
  match cancelled with
  | Some e => answer (Some e)
  | None =>
      started ← write (unitCheckpoints unit "IN_PROGRESS" stamp ScheduleExecutionResult.zero);
      match started with
      | Some e => answer (Some (wrapf "checkpoint unit %q in progress: %w" [id] e))
      | None =>
          '(execution, err) ← Execute unit Ret;
          let execution := complete_result unit execution in
          let failed := unitCheckpoints unit "FAIL" stamp execution in
          match err with
          | Some e =>
              let e := wrapf "execute unit %q: %w" [id] e in
              checkpointErr ← terminalWrite failed;
              match checkpointErr with
              | Some e' => answer (errors_Join [Some e; Some (wrapf "checkpoint unit %q failure: %w" [id] e')])
              | None => answer (Some e)
              end
          | None =>
              match validateScheduleExecutionResult unit execution with
              | Some e =>
                  checkpointErr ← terminalWrite failed;
                  match checkpointErr with
                  | Some e' =>
                      answer (errors_Join [Some e; Some (wrapf "checkpoint unit %q validation failure: %w" [id] e')])
                  | None => answer (Some e)
                  end
              | None =>
                  passed ← terminalWrite (unitCheckpoints unit "PASS" stamp execution);
                  answer (err_wrap (wrapf "checkpoint unit %q passed: %w" [id]) passed)
              end
          end
      end
  end.

(** [acquireLocalCapacity] of local_capacity.go over the calls: whether there is
    a lease to give back.  The reservation answers [Ok false] with a nil lease. *)
Definition acquire_capacity (hasReservation : bool) (request : option LocalCapacityRequest) : prog (result bool) :=
  match request with
  | None => Ret (Ok false)
  | Some request =>
      match LocalCapacityRequest_Validate request with
      | Some e => Ret (Err e)
      | None =>
          if request_empty request then Ret (Ok false)
          else if negb hasReservation then Ret (Err (ErrNew "local capacity reservation is required"))
          else
            lease ← Acquire request Ret;
            Ret (match lease with
                 | Err e => Err (wrapf "acquire local capacity: %w" [] e)
                 | Ok false => Err (ErrNew "local capacity reservation returned a nil lease")
                 | Ok true => Ok true
                 end)
      end
  end.

(** The lease is released by a deferred function, after the unit. *)
(* internal/certification/scheduler_run.go, lines 184-199: runScheduleUnitWithLocalCapacity *)
Definition runScheduleUnitWithLocalCapacity (hasReservation : bool) (request : option LocalCapacityRequest)
    (unit : ExecutionUnit) : prog scheduleUnitResult :=
  let id := GStr (ExecutionUnit.ID unit) in
  lease ← acquire_capacity hasReservation request;
  match lease with
  | Err e => Ret {| resultUnitID := ExecutionUnit.ID unit;
                    resultErr := Some (wrapf "reserve local capacity for unit %q: %w" [id] e) |}
  | Ok leased =>
      '(Build_scheduleUnitResult unitID err) ← runScheduleUnit unit;
      if leased : bool then
        releaseErr ← ReleaseLease Ret;
        Ret {| resultUnitID := unitID;
               resultErr := match releaseErr with
                            | None => err
                            | Some e => errors_Join [err; Some (wrapf "release local capacity for unit %q: %w" [id] e)]
                            end |}
      else Ret {| resultUnitID := unitID; resultErr := err |}
  end.
End unit.

(** ** The state of a run *)

(** A goroutine is about to make a call, or inside the provider executor. *)
Inductive goroutine :=
  | Run (p : prog scheduleUnitResult)
  | Busy (unit : ExecutionUnit) (k : ScheduleExecutionResult * gerror → prog scheduleUnitResult).

Inductive event :=
  | EvWrite (checkpoints : list SchedulerCheckpoint) (err : gerror)
  | EvExecute (unit : ExecutionUnit)
  | EvReturn (unit : ExecutionUnit) (execution : ScheduleExecutionResult) (err : gerror)
  | EvRelease (err : gerror).

(** What the environment does: it answers the call of goroutine [i], lets it
    enter the executor, and schedules the main loop. *)
Inductive answer :=
  | AErr (err : gerror)
  | ALease (lease : result bool)
  | AStart
  | AExec (execution : ScheduleExecutionResult) (err : gerror).

Inductive action :=
  | Next (err : gerror)
  | Answer (i : nat) (a : answer)
  | Send (i : nat)
  | Collect
  | Finish.

Record system := {
  todo : list (list string);
  running : bool;
  pool : gmap nat goroutine;
  results : list scheduleUnitResult;
  checkpointByCell : gmap string SchedulerCheckpoint;
  progress : ScheduleExecution;
  outcome : option (ScheduleExecution * gerror);
  log : list event;
}.

(* internal/certification/scheduler_run.go, lines 131-133: ExecuteSchedule *)
Definition record_all (checkpoints : list SchedulerCheckpoint) (m : gmap string SchedulerCheckpoint)
    : gmap string SchedulerCheckpoint :=
  fold_left (λ m c, <[SchedulerCheckpoint.CellID c := c]> m) checkpoints m.

(** One call of a goroutine and what it logs and records. *)
(* internal/certification/scheduler_run.go, lines 123-135: ExecuteSchedule *)
Definition goroutine_step (g : goroutine) (a : answer) (m : gmap string SchedulerCheckpoint)
    : option (goroutine * list event * gmap string SchedulerCheckpoint) :=
  match g, a with
  | Run (CtxErr k), AErr err => Some (Run (k err), [], m)
  | Run (Acquire _ k), ALease lease => Some (Run (k lease), [], m)
  | Run (Write _ checkpoints k), AErr err =>
      Some (Run (k err), [EvWrite checkpoints err],
            match err with None => record_all checkpoints m | Some _ => m end)
  | Run (Execute unit k), AStart => Some (Busy unit k, [EvExecute unit], m)
  | Busy unit k, AExec execution err => Some (Run (k (execution, err)), [EvReturn unit execution err], m)
  | Run (ReleaseLease k), AErr err => Some (Run (k err), [EvRelease err], m)
  | _, _ => None
  end.

(** The results of a batch in the order they were sent. *)
(* internal/certification/scheduler_run.go, lines 160-170: ExecuteSchedule *)
Fixpoint collect_results (items : list scheduleUnitResult) (batchErr : gerror) (result : ScheduleExecution)
    : gerror * ScheduleExecution :=
  match items with
  | [] => (batchErr, result)
  | item :: items =>
      match resultErr item with
      | Some e =>
          collect_results items (errors_Join [batchErr; Some e])
            {| ExecutedCheckpoints := ExecutedCheckpoints result; CompletedUnitIDs := CompletedUnitIDs result;
               FailedUnitID := if bool_decide (FailedUnitID result = "") then resultUnitID item else FailedUnitID result |}
      | None =>
          collect_results items batchErr
            {| ExecutedCheckpoints := ExecutedCheckpoints result;
               CompletedUnitIDs := CompletedUnitIDs result ++ [resultUnitID item];
               FailedUnitID := FailedUnitID result |}
      end
  end.

Section run.
Context (schedule : Schedule) (hasReservation : bool) (stamp : string).

(* internal/certification/scheduler_run.go, lines 114-117: ExecuteSchedule *)
Definition units : gmap string ExecutionUnit := by_id ExecutionUnit.ID (Schedule.Units schedule).

(* internal/certification/scheduler_run.go, lines 148-156: ExecuteSchedule *)
Definition spawn (unit : ExecutionUnit) : goroutine :=
  Run (runScheduleUnitWithLocalCapacity stamp hasReservation (Schedule.LocalCapacity schedule) unit).

(** [units[unitID]]; validation rules the zero unit out. *)
Definition unit_at (unitID : string) : ExecutionUnit :=
  default (ExecutionUnit.zero) (units !! unitID).

(* internal/certification/scheduler_run.go, lines 145-157: ExecuteSchedule *)
Definition start_batch (batch : list string) : gmap nat goroutine :=
  map_seq 0 (spawn <$> (unit_at <$> batch)).

Definition finish (err : gerror) (s : system) : system :=
  {| todo := todo s; running := false; pool := pool s; results := []; checkpointByCell := checkpointByCell s;
     progress := progress s; outcome := Some (finishScheduleExecution (checkpointByCell s) (progress s) err);
     log := log s |}.

(* internal/certification/scheduler_run.go, lines 137-177: ExecuteSchedule *)
Definition perform (s : system) (a : action) : option system :=
  match outcome s with
  | Some _ => None
  | None =>
      if running s then
        match a with
        | Answer i a =>
            g ← pool s !! i;
            '(g, events, m) ← goroutine_step g a (checkpointByCell s);
            Some {| todo := todo s; running := true; pool := <[i := g]> (pool s); results := results s;
                    checkpointByCell := m; progress := progress s; outcome := None; log := log s ++ events |}
        | Send i =>
            match pool s !! i with
            | Some (Run (Ret result)) =>
                Some {| todo := todo s; running := true; pool := delete i (pool s);
                        results := results s ++ [result]; checkpointByCell := checkpointByCell s;
                        progress := progress s; outcome := None; log := log s |}
            | _ => None
            end
        | Collect =>
            if bool_decide (pool s = ∅) then
              let '(batchErr, result) := collect_results (results s) None (progress s) in
              let s := {| todo := todo s; running := false; pool := ∅; results := [];
                          checkpointByCell := checkpointByCell s; progress := result; outcome := None;
                          log := log s |} in
              Some (match batchErr with Some e => finish (Some e) s | None => s end)
            else None
        | _ => None
        end
      else
        match a, todo s with
        | Next None, batch :: rest =>
            Some {| todo := rest; running := true; pool := start_batch batch; results := [];
                    checkpointByCell := checkpointByCell s; progress := progress s; outcome := None; log := log s |}
        | Next (Some e), _ :: _ => Some (finish (Some e) s)
        | Finish, [] => Some (finish None s)
        | _, _ => None
        end
  end.

Definition initial : system :=
  {| todo := Schedule.Batches schedule; running := false; pool := ∅; results := []; checkpointByCell := ∅;
     progress := {| ExecutedCheckpoints := []; CompletedUnitIDs := []; FailedUnitID := "" |};
     outcome := None; log := [] |}.

Fixpoint performs (s : system) (actions : list action) : option system :=
  match actions with
  | [] => Some s
  | a :: actions => s ← perform s a; performs s actions
  end.
End run.

(** ** ExecuteSchedule *)

(** The callbacks are either there or nil; the writer and the executor are the
    environment's answers.  The timeouts are nanoseconds. *)
(* internal/certification/scheduler_run.go, lines 41-55: ScheduleExecutionOptions *)
Record ScheduleExecutionOptions {W : Type} := {
  HasExecutor : bool;
  HasCheckpointWriter : bool;
  RunSessionRegistry : option (option (SessionRegistry W));
  HasReservation : bool;
  ClaimReleaseTimeout : Z;
  CheckpointWriteTimeout : Z;
  Stamp : string;
}.
Arguments ScheduleExecutionOptions : clear implicits.

Section execute.
Context {W : Type} (options : ScheduleExecutionOptions W) (ctx : context) (schedule : Schedule).

(** The checks before the claims are known to be released. *)
(* internal/certification/scheduler_run.go, lines 75-98: ExecuteSchedule *)
Definition check_call : gerror :=
  fail_if (negb (bool_decide (is_Some ctx))) (ErrNew "schedule execution context is required")
  ;;? fail_if (negb (HasExecutor options)) (ErrNew "schedule executor is required")
  ;;? fail_if (negb (HasCheckpointWriter options)) (ErrNew "schedule checkpoint writer is required")
  ;;? fail_if (ClaimReleaseTimeout options <? 0) (ErrNew "schedule claim release timeout cannot be negative")
  ;;? fail_if (CheckpointWriteTimeout options <? 0) (ErrNew "schedule checkpoint write timeout cannot be negative").

(* internal/certification/scheduler_run.go, lines 107-112: ExecuteSchedule *)
Definition check_schedule : gerror :=
  validateExecutionSchedule schedule
  ;;? fail_if (match Schedule.LocalCapacity schedule with
               | Some capacity => negb (request_empty capacity) && negb (HasReservation options)
               | None => false
               end) (ErrNew "schedule local capacity reservation is required").

(** The deferred release of the claims, under a context of its own. *)
(* internal/certification/scheduler_run.go, lines 99-106: ExecuteSchedule *)
Definition release_claims_after (err : gerror) (w : W) : gerror * W :=
  match RunSessionRegistry options with
  | None => (err, w)
  | Some registry =>
      if bool_decide (length (Schedule.ReuseClaims schedule) = 0%nat) then (err, w)
      else
        let '(released, w) := ReleaseScheduleClaims (Some None) (Some registry) (Schedule.ReuseClaims schedule) w in
        (errors_Join [err; released], w)
  end.

(** The answer when the environment acts as [actions] say; [None] when these
    actions are not a complete run. *)
(* internal/certification/scheduler_run.go, lines 74-177: ExecuteSchedule *)
Definition ExecuteSchedule (actions : list action) (w : W) : option (ScheduleExecution * gerror * W) :=
  let nothing := {| ExecutedCheckpoints := []; CompletedUnitIDs := []; FailedUnitID := "" |} in
  match check_call with
  | Some e => Some (nothing, Some e, w)
  | None =>
      match check_schedule with
      | Some e => let '(err, w) := release_claims_after (Some e) w in Some (nothing, err, w)
      | None =>
          s ← performs schedule (HasReservation options) (Stamp options) (initial schedule) actions;
          '(result, err) ← outcome s;
          let '(err, w) := release_claims_after err w in
          Some (result, err, w)
      end
  end.
End execute.
