(* ===== verification/ValidSchedule.v ===== *)
(** * Which schedules run

    The specification of an executable schedule, the proof that
    [validateExecutionSchedule] decides it, and that what [BuildSchedule]
    returns satisfies it. *)

From S2P Require Import Prelude GoStrings GoEncoding Sdk Coverage Sessions LocalCapacity Schedule Units Batches UnitClaims BuildSchedule BuildClaims ScheduleSessions Execution.

Local Open Scope Z_scope.

Abbreviation ID := ExecutionUnit.ID.
Abbreviation MutationKeys := ExecutionUnit.MutationKeys.
Abbreviation DependsOn := ExecutionUnit.DependsOn.

(** What the batches promise: every unit once, no mutation key twice in a
    batch, every dependency in an earlier batch. *)
Record executable (units : list ExecutionUnit) (batches : list (list string)) : Prop := {
  executable_ids : NoDup (ID <$> units);
  executable_perm : concat batches ≡ₚ ID <$> units;
  executable_keys : ∀ batch u v, batch ∈ batches → u ∈ units → v ∈ units →
    ID u ∈ batch → ID v ∈ batch → ID u ≠ ID v → MutationKeys u ## MutationKeys v;
  executable_order : ∀ before batch after u d, batches = before ++ batch :: after →
    u ∈ units → ID u ∈ batch → d ∈ DependsOn u → d ∈ concat before;
}.

(** ** The loops of the validation *)

Section loops.
Context (units : gmap string ExecutionUnit).

Lemma add_batch_keys_Ok index keys batchKeys result :
  add_batch_keys index keys batchKeys = Ok result ↔
  result = batchKeys ++ keys ∧ NoDup keys ∧ keys ## batchKeys.
Proof.
  revert batchKeys. induction keys as [|key keys IH]; intros batchKeys; simpl.
  - rewrite app_nil_r. split; [intros [= <-]; split_and!; [done|constructor|set_solver]|by intros [-> _]].
  - rewrite lift_check_Ok, fail_if_None, bool_decide_eq_false, IH, NoDup_cons, <-app_assoc. set_solver.
Qed.

(** The dependencies that are known when a unit is checked. *)
Definition dependency_ok (index : nat) (lastBatch : gmap string nat) (d : string) : Prop :=
  is_Some (units !! d) ∧ ∀ k, lastBatch !! d = Some k → (k < index)%nat.

Lemma check_batch_cons index lastBatch keys id batch result :
  check_batch units index lastBatch keys (id :: batch) = Ok result ↔
  ∃ u, units !! id = Some u ∧ lastBatch !! id = None ∧ NoDup (MutationKeys u) ∧ MutationKeys u ## keys ∧
    (∀ d, d ∈ DependsOn u → dependency_ok index (<[id := index]> lastBatch) d) ∧
    check_batch units index (<[id := index]> lastBatch) (keys ++ MutationKeys u) batch = Ok result.
Proof.
  cbn [check_batch]. destruct (units !! id) as [u|]; [|split; [done|by intros (?&?&_)]].
  rewrite lift_check_Ok, fail_if_None, bool_decide_eq_false, <-eq_None_not_Some.
  destruct (add_batch_keys _ _ _) as [keys'|e] eqn:Ek; cbn [mbind result_bind]; cycle 1.
  { split; [by intros [_ ?]|]. intros (?&[= <-]&_&Hnd&Hd&_).
    assert (add_batch_keys index (MutationKeys u) keys = Ok (keys ++ MutationKeys u)) by by apply add_batch_keys_Ok. congruence. }
  apply add_batch_keys_Ok in Ek as (->&Hnd&Hd). rewrite lift_check_Ok, first_error_None, Forall_forall.
  assert (Hdep : (∀ d, d ∈ DependsOn u → (fail_if (negb (bool_decide (is_Some (units !! d))))
        (errorf "schedule unit %q depends on unknown unit %q" [GStr id; GStr d])
      ;;? match <[id:=index]> lastBatch !! d with
          | Some dependencyBatch =>
              fail_if (index <=? dependencyBatch)%nat
                (errorf "schedule unit %q dependency %q is not ordered before its batch" [GStr id; GStr d])
          | None => None
          end) = None) ↔ ∀ d, d ∈ DependsOn u → dependency_ok index (<[id := index]> lastBatch) d).
  { apply forall_proper. intros d. apply imp_iff_compat_l. unfold dependency_ok.
    rewrite err_seq_None, fail_if_None, negb_false_iff, bool_decide_eq_true.
    destruct (<[id:=index]> lastBatch !! d) as [k|]; [rewrite fail_if_None, Nat.leb_gt|]; naive_solver. }
  rewrite Hdep. naive_solver.
Qed.

(** A checked batch: what it says, and what it adds to [lastBatch]. *)
Record batch_ok (lastBatch : gmap string nat) (batch : list string) : Prop := {
  batch_ok_nodup : NoDup batch;
  batch_ok_fresh : ∀ id, id ∈ batch → lastBatch !! id = None;
  batch_ok_known : ∀ id, id ∈ batch → is_Some (units !! id);
  batch_ok_keys : ∀ id id' u v, id ∈ batch → id' ∈ batch → id ≠ id' → units !! id = Some u → units !! id' = Some v →
    MutationKeys u ## MutationKeys v;
  batch_ok_depends : ∀ id u d, id ∈ batch → units !! id = Some u → d ∈ DependsOn u → is_Some (units !! d);
}.

Lemma check_batch_sound index lastBatch keys batch result :
  check_batch units index lastBatch keys batch = Ok result →
  batch_ok lastBatch batch ∧ (∀ id u, id ∈ batch → units !! id = Some u → MutationKeys u ## keys) ∧
  ∀ id, result !! id = if bool_decide (id ∈ batch) then Some index else lastBatch !! id.
Proof.
  revert lastBatch keys. induction batch as [|id batch IH]; intros lastBatch keys.
  { intros [= <-]. split_and!; [split; [constructor|set_solver..]|set_solver|done]. }
  rewrite check_batch_cons. intros (u&Hu&Hl&Hnd&Hk&Hdep&([Hbn Hbf Hbk Hbd Hbe]&Hkeys&Hres)%IH).
  assert (Hid : id ∉ batch). { intros Hin. apply Hbf in Hin. by rewrite lookup_insert_eq in Hin. }
  split_and!; [split| |].
  - by constructor.
  - intros i [->|Hi]%elem_of_cons; [done|]. apply Hbf in Hi. apply lookup_insert_None in Hi. tauto.
  - intros i [->|Hi]%elem_of_cons; [by eexists|by apply Hbk].
  - intros i i' v v' [->|Hi]%elem_of_cons [->|Hi']%elem_of_cons Hne Hv Hv'; [done| | |exact (Hbd i i' v v' Hi Hi' Hne Hv Hv')].
    + assert (v = u) as -> by congruence. pose proof (Hkeys i' v' Hi' Hv'). set_solver.
    + assert (v' = u) as -> by congruence. pose proof (Hkeys i v Hi Hv). set_solver.
  - intros i v d [->|Hi]%elem_of_cons Hv Hd; [|exact (Hbe i v d Hi Hv Hd)]. assert (v = u) as -> by congruence. by apply Hdep.
  - intros i v [->|Hi]%elem_of_cons Hv; [by assert (v = u) as -> by congruence|].
    pose proof (Hkeys i v Hi Hv). set_solver.
  - intros i. rewrite Hres. destruct (decide (i = id)) as [->|Hne].
    + rewrite bool_decide_eq_false_2, lookup_insert_eq by done. by rewrite bool_decide_eq_true_2 by set_solver.
    + rewrite lookup_insert_ne by done. erewrite (bool_decide_ext (i ∈ id :: batch)); [done|set_solver].
Qed.

Lemma check_batch_complete index lastBatch keys batch :
  batch_ok lastBatch batch → (∀ id u, id ∈ batch → units !! id = Some u → MutationKeys u ## keys ∧ NoDup (MutationKeys u)) →
  (∀ id u d, id ∈ batch → units !! id = Some u → d ∈ DependsOn u → d ∉ batch ∧ ∀ k, lastBatch !! d = Some k → (k < index)%nat) →
  ∃ result, check_batch units index lastBatch keys batch = Ok result.
Proof.
  revert lastBatch keys. induction batch as [|id batch IH]; intros lastBatch keys [Hbn Hbf Hbk Hbd Hbe] Hkeys Hdeps.
  { by eexists. }
  apply NoDup_cons in Hbn as [Hid Hbn]. destruct (Hbk id (list_elem_of_here _ _)) as [u Hu].
  destruct (Hkeys id u (list_elem_of_here _ _) Hu) as [Hk Hnd].
  destruct (IH (<[id := index]> lastBatch) (keys ++ MutationKeys u)) as [result Hr].
  - split; [done| | | |].
    + intros i Hi. rewrite lookup_insert_ne by (intros ->; done). apply Hbf. set_solver.
    + intros i Hi. apply Hbk. set_solver.
    + intros i i' v v' Hi Hi'. apply Hbd; set_solver.
    + intros i v d Hi. apply Hbe. set_solver.
  - intros i v Hi Hv. destruct (Hkeys i v) as [? ?]; [set_solver|done|]. split; [|done].
    assert (MutationKeys u ## MutationKeys v); [|set_solver].
    apply (Hbd id i u v); [set_solver..| |done|done]. by intros ->.
  - intros i v d Hi Hv Hd. destruct (Hdeps i v d) as [Hnb Hlt]; [set_solver|done|done|]. split; [set_solver|].
    intros k. rewrite lookup_insert_ne by set_solver. apply Hlt.
  - exists result. apply check_batch_cons. exists u. split_and!; [done|apply Hbf; set_solver|done|done| |done].
    intros d Hd. destruct (Hdeps id u d) as [Hnb Hlt]; [set_solver|done|done|].
    split; [eapply (Hbe id u d); [set_solver|done|done]|]. intros k. rewrite lookup_insert_ne by set_solver. apply Hlt.
Qed.

(** What the batches put into [lastBatch]: the number of their batch. *)
Definition numbered (index : nat) (batches : list (list string)) (lastBatch result : gmap string nat) : Prop :=
  (∀ before batch after id, batches = before ++ batch :: after → id ∈ batch →
     result !! id = Some (index + length before)%nat) ∧
  (∀ id, id ∉ concat batches → result !! id = lastBatch !! id).

Lemma check_batches_sound index lastBatch batches result :
  check_batches units index lastBatch batches = Ok result →
  NoDup (concat batches) ∧ (∀ id, id ∈ concat batches → lastBatch !! id = None) ∧
  (∀ batch, batch ∈ batches → batch_ok ∅ batch) ∧ numbered index batches lastBatch result.
Proof.
  revert index lastBatch. induction batches as [|batch batches IH]; intros index lastBatch; cbn [check_batches].
  { intros [= <-]. split_and!; [constructor|set_solver|set_solver|]. split; [|done].
    intros before ? ? ? He. by destruct before. }
  destruct (check_batch _ _ _ _ _) as [middle|] eqn:Eb; [|done]. cbn [mbind result_bind].
  apply check_batch_sound in Eb as (Hb&_&Hmid). intros (Hnd&Hfresh&Hall&Hnum&Hrest)%IH. simpl.
  assert (Hsep : ∀ id, id ∈ batch → id ∉ concat batches).
  { intros id Hin Hin'. pose proof (Hfresh id Hin') as He. by rewrite Hmid, bool_decide_eq_true_2 in He. }
  split_and!.
  - apply NoDup_app. split_and!; [apply Hb|done|done].
  - intros id [Hin|Hin]%elem_of_app; [by apply Hb|]. pose proof (Hfresh id Hin) as He.
    rewrite Hmid, bool_decide_eq_false_2 in He; [done|]. intros Hid. by apply (Hsep id).
  - intros b [->|Hin]%elem_of_cons; [|by apply Hall]. destruct Hb. by split.
  - split; [|intros id Hid].
    + intros [|b before] b' after id; intros [= -> He] Hin; cbn [length].
      * rewrite Hrest, Hmid, bool_decide_eq_true_2 by auto. f_equal. lia.
      * rewrite (Hnum before b' after id) by done. f_equal. lia.
    + cbn [concat] in Hid. rewrite elem_of_app in Hid. rewrite Hrest, Hmid, bool_decide_eq_false_2 by tauto. done.
Qed.

(** Batches that respect the specification pass. *)
Lemma check_batches_complete index lastBatch batches :
  NoDup (concat batches) → (∀ id, id ∈ concat batches → lastBatch !! id = None) →
  (∀ id k, lastBatch !! id = Some k → (k < index)%nat) →
  (∀ batch, batch ∈ batches → batch_ok ∅ batch) →
  (∀ id u, units !! id = Some u → NoDup (MutationKeys u)) →
  (∀ batch id u d, batch ∈ batches → id ∈ batch → units !! id = Some u → d ∈ DependsOn u → d ∉ batch) →
  ∃ result, check_batches units index lastBatch batches = Ok result.
Proof.
  intros Hnd Hfresh Hlt Hall Hkeys Hdeps. revert index lastBatch Hnd Hfresh Hlt Hall Hdeps.
  induction batches as [|batch batches IH]; intros index lastBatch Hnd Hfresh Hlt Hall Hdeps; cbn [check_batches]; [by eexists|].
  simpl in Hnd, Hfresh. apply NoDup_app in Hnd as (Hb&Hsep&Hnd).
  destruct (check_batch_complete index lastBatch [] batch) as [middle Hm].
  - destruct (Hall batch (list_elem_of_here _ _)). split; try done. intros id Hin. apply Hfresh. by apply elem_of_app; left.
  - intros id u Hin Hu. split; [set_solver|by eapply Hkeys].
  - intros id u d Hin Hu Hd. split; [exact (Hdeps batch id u d (list_elem_of_here _ _) Hin Hu Hd)|]. apply Hlt.
  - rewrite Hm. cbn [mbind result_bind]. apply check_batch_sound in Hm as (_&_&Hmid). apply IH.
    + done.
    + intros id Hin. rewrite Hmid, bool_decide_eq_false_2; [apply Hfresh; set_solver|]. intros ?. by apply (Hsep id).
    + intros id k. rewrite Hmid. case_bool_decide; [intros [= <-]; lia|]. intros ?%Hlt. lia.
    + intros b ?. apply Hall. by right.
    + intros b id u d ?. apply Hdeps. by right.
Qed.
End loops.

(** ** The units *)

Lemma check_execution_units_None seen (units : list ExecutionUnit) :
  check_execution_units seen units = None ↔
  Forall (λ u, check_execution_unit u = None) units ∧ NoDup (ID <$> units) ∧ ∀ u, u ∈ units → ID u ∉ seen.
Proof.
  revert seen. induction units as [|u units IH]; intros seen; cbn [check_execution_units].
  { split; [|done]. intros _. split_and!; [constructor|constructor|set_solver]. }
  rewrite !err_seq_None, fail_if_None, bool_decide_eq_false, IH, Forall_cons. csimpl. rewrite NoDup_cons. split.
  - intros (Hu&Hs&Hall&Hnd&Hseen). split_and!; [done|done| |done|].
    + intros (v&He&Hv)%list_elem_of_fmap. apply (Hseen v Hv). rewrite <-He. by left.
    + intros v [->|Hv]%elem_of_cons; [done|]. specialize (Hseen v Hv). set_solver.
  - intros ((Hu&Hall)&(Hn&Hnd)&Hseen). split_and!; [done|by apply Hseen; left|done|done|].
    intros v Hv [He|Hs]%elem_of_cons; [|by apply (Hseen v); [right|]]. apply Hn. rewrite <-He. by apply list_elem_of_fmap_2.
Qed.

Lemma check_execution_unit_keys u : check_execution_unit u = None → NoDup (MutationKeys u) ∧ NoDup (ExecutionUnit.CellIDs u).
Proof.
  unfold check_execution_unit. intros H. do 3 apply err_seq_None in H as [_ H].
  apply fail_if_None, orb_false_iff in H as [H1%hasDuplicate_false H2%hasDuplicate_false]. by destruct H1, H2.
Qed.

(** ** The specification is decided *)

Lemma split_before {A} (before before' after after' : list A) x x' :
  before ++ x :: after = before' ++ x' :: after' → (length before' < length before)%nat → x' ∈ before.
Proof.
  intros He Hl. assert ((before ++ x :: after) !! length before' = Some x') as Hx.
  { rewrite He. by apply list_lookup_middle. }
  rewrite lookup_app_l in Hx by done. by eapply list_elem_of_lookup_2.
Qed.

Lemma elem_of_concat {A} (x : A) ls : x ∈ concat ls ↔ ∃ l, l ∈ ls ∧ x ∈ l.
Proof. induction ls as [|l ls IH]; simpl; [set_solver|]. rewrite elem_of_app, IH. set_solver. Qed.

Section decided.
Context (s : Schedule).
Abbreviation units := (Schedule.Units s).
Abbreviation batches := (Schedule.Batches s).
Abbreviation by_ids := (by_id ID units).

Lemma known_unit id : is_Some (by_ids !! id) ↔ id ∈ ID <$> units.
Proof. apply by_id_is_Some. Qed.

(** The checks after the claims and the capacity. *)
Definition check_order : gerror :=
  match check_batches by_ids 0 ∅ batches with
  | Err e => Some e
  | Ok lastBatch =>
      fail_if (negb (bool_decide (size lastBatch = size by_ids)))
        (ErrNew "schedule batches do not cover every execution unit")
      ;;? first_error (λ u, first_error (λ dependency,
            fail_if (default 0 (lastBatch !! ID u) <=? default 0 (lastBatch !! dependency))%nat
              (errorf "schedule unit %q dependency %q is not ordered before its batch"
                 [GStr (ID u); GStr dependency])) (DependsOn u)) units
  end.

Lemma numbered_dom result : numbered 0 batches ∅ result → dom result = list_to_set (concat batches).
Proof.
  intros [Hin Hout]. apply set_eq. intros id. rewrite elem_of_dom, elem_of_list_to_set. split.
  - intros [k Hk]. destruct (decide (id ∈ concat batches)) as [|Hn]; [done|]. by rewrite Hout, lookup_empty in Hk.
  - intros (batch&(before&after&He)%list_elem_of_split&Hb)%elem_of_concat. rewrite (Hin _ _ _ _ He Hb). by eexists.
Qed.

Lemma check_order_sound : NoDup (ID <$> units) → check_order = None → executable units batches.
Proof.
  intros Hids. unfold check_order. destruct (check_batches _ _ _ _) as [last|] eqn:Eb; [|done].
  apply check_batches_sound in Eb as (Hnd&_&Hall&Hnum). rewrite err_seq_None, fail_if_None, negb_false_iff, bool_decide_eq_true.
  intros [Hsize Hord]. rewrite first_error_None, Forall_forall in Hord.
  assert (Hdom : dom last = dom by_ids).
  { apply set_eq, set_equiv_subseteq. rewrite (numbered_dom _ Hnum). assert (list_to_set (concat batches) ⊆ dom by_ids) as Hsub.
    { intros id (batch&Hb&Hid)%elem_of_list_to_set%elem_of_concat. apply elem_of_dom. by apply (Hall batch Hb). }
    split; [done|]. rewrite <-!size_dom, (numbered_dom _ Hnum) in Hsize.
    by rewrite (set_subseteq_size_eq _ _ Hsub) by lia. }
  assert (Hperm : concat batches ≡ₚ ID <$> units).
  { apply NoDup_Permutation; [done|done|]. intros id. rewrite <-known_unit, <-elem_of_dom, <-Hdom, (numbered_dom _ Hnum).
    by rewrite elem_of_list_to_set. }
  split; [done|done| |].
  - intros batch u v Hb Hu Hv Hub Hvb Hne.
    exact (batch_ok_keys _ _ _ (Hall batch Hb) (ID u) (ID v) u v Hub Hvb Hne (by_id_lookup ID units u Hids Hu) (by_id_lookup ID units v Hids Hv)).
  - intros before batch after u d He Hu Hub Hd.
    assert (Hknown : is_Some (by_ids !! d)).
    { assert (batch ∈ batches) as Hb by (rewrite He; set_solver).
      exact (batch_ok_depends _ _ _ (Hall batch Hb) (ID u) u d Hub (by_id_lookup ID units u Hids Hu) Hd). }
    rewrite known_unit, <-Hperm, elem_of_concat in Hknown. destruct Hknown as (batch'&(before'&after'&He')%list_elem_of_split&Hd').
    specialize (Hord u Hu). rewrite first_error_None, Forall_forall in Hord. specialize (Hord d Hd).
    destruct Hnum as [Hnum _]. rewrite fail_if_None, (Hnum _ _ _ _ He Hub), (Hnum _ _ _ _ He' Hd'), Nat.leb_gt in Hord. simpl in Hord.
    apply elem_of_concat. exists batch'. split; [|done]. eapply split_before; [|exact Hord]. by rewrite <-He.
Qed.

Lemma check_order_complete :
  executable units batches → Forall (λ u, check_execution_unit u = None) units → check_order = None.
Proof.
  intros [Hids Hperm Hkeys Hord] Hunits. rewrite Forall_forall in Hunits.
  assert (Hof : ∀ id u, by_ids !! id = Some u → u ∈ units ∧ ID u = id) by (intros id u; apply by_id_Some).
  assert (Hnd : NoDup (concat batches)) by by rewrite Hperm.
  assert (Hearly : ∀ before batch after id u d, batches = before ++ batch :: after → id ∈ batch →
    by_ids !! id = Some u → d ∈ DependsOn u → d ∈ concat before).
  { intros before batch after id u d He Hid [Hu <-]%Hof Hd. by eapply Hord. }
  assert (Hok : ∀ batch, batch ∈ batches → batch_ok by_ids ∅ batch).
  { intros batch Hb. apply list_elem_of_split in Hb as (before&after&He). split.
    - rewrite He, concat_app in Hnd. apply NoDup_app in Hnd as (_&_&Hnd). simpl in Hnd. by apply NoDup_app in Hnd as [? _].
    - intros. apply lookup_empty.
    - intros id Hid. apply known_unit. rewrite <-Hperm, elem_of_concat. exists batch. split; [|done]. rewrite He. set_solver.
    - intros id id' u v Hid Hid' Hne [Hu Eu]%Hof [Hv Ev]%Hof. subst id id'.
      apply (Hkeys batch); try done. rewrite He. set_solver.
    - intros id u d Hid Hu Hd. apply known_unit. rewrite <-Hperm, He, concat_app, elem_of_app. left. by eapply Hearly. }
  unfold check_order. destruct (check_batches_complete by_ids 0 ∅ batches) as [last Hl]; [done|intros; apply lookup_empty|by intros ? ? ?%lookup_empty_Some|done| | |].
  - intros id u [Hu _]%Hof. by apply check_execution_unit_keys, Hunits.
  - intros batch id u d Hb Hid Hu Hd Hin. apply list_elem_of_split in Hb as (before&after&He).
    rewrite He, concat_app in Hnd. apply NoDup_app in Hnd as (_&Hsep&_). apply (Hsep d); [exact (Hearly _ _ _ _ _ _ He Hid Hu Hd)|].
    simpl. set_solver.
  - rewrite Hl. apply check_batches_sound in Hl as (_&_&_&Hnum).
    rewrite err_seq_None, fail_if_None, negb_false_iff, bool_decide_eq_true, first_error_None, Forall_forall. split.
    + rewrite <-!size_dom, (numbered_dom _ Hnum). f_equal. apply set_eq. intros id.
      by rewrite elem_of_list_to_set, elem_of_dom, known_unit, Hperm.
    + intros u Hu. rewrite first_error_None, Forall_forall. intros d Hd.
      assert (ID u ∈ concat batches) as (batch&(before&after&He)%list_elem_of_split&Hub)%elem_of_concat.
      { rewrite Hperm. by apply list_elem_of_fmap_2. }
      pose proof (Hord _ _ _ _ _ He Hu Hub Hd) as (batch'&(before'&after'&He')%list_elem_of_split&Hd')%elem_of_concat.
      destruct Hnum as [Hnum _]. rewrite (Hnum _ _ _ _ He Hub), fail_if_None, Nat.leb_gt.
      rewrite (Hnum before' batch' (after' ++ batch :: after) d); [|by rewrite He, He', <-app_assoc|done].
      rewrite He', length_app. simpl. lia.
Qed.
End decided.

(** The validation is the checks on claims, capacity and units, and the order. *)
Lemma validateExecutionSchedule_None s :
  validateExecutionSchedule s = None ↔
  validateScheduleClaims [] (Schedule.ReuseClaims s) = None ∧
  (∀ capacity, Schedule.LocalCapacity s = Some capacity → LocalCapacityRequest_Validate capacity = None) ∧
  (Schedule.Units s = [] → Schedule.Batches s = []) ∧
  Forall (λ u, check_execution_unit u = None) (Schedule.Units s) ∧
  executable (Schedule.Units s) (Schedule.Batches s).
Proof.
  unfold validateExecutionSchedule. fold (check_order s). rewrite !err_seq_None. apply and_iff_compat_l, Morphisms_Prop.and_iff_morphism.
  { destruct (Schedule.LocalCapacity s); [rewrite err_wrap_None|]; naive_solver. }
  case_bool_decide as Hl.
  - apply nil_length_inv in Hl. rewrite Hl, fail_if_None, negb_false_iff, bool_decide_eq_true. split.
    + intros Hb%nil_length_inv. rewrite Hb. split_and!; [done|constructor|]. split; [constructor|done|set_solver|].
      intros before batch after ? ? He. by destruct before.
    + intros [Hb _]. by rewrite Hb.
  - rewrite err_seq_None, check_execution_units_None. split.
    + intros [(Hu&Hnd&_) Ho]. split_and!; [by intros He; rewrite He in Hl|done|by apply check_order_sound].
    + intros (_&Hu&He). split_and!; [done|apply He|set_solver|by apply check_order_complete].
Qed.

(** C10: the validation decides the specification.  A schedule passes
    [validateExecutionSchedule] exactly when its session claims, its capacity
    and each of its units are valid and its batches are executable: every unit
    runs once, no two units of a batch share a mutation key, and every
    dependency is in a strictly earlier batch. *)
Theorem validateExecutionSchedule_exact s :
  validateExecutionSchedule s = None ↔
  validateScheduleClaims [] (Schedule.ReuseClaims s) = None ∧
  (∀ capacity, Schedule.LocalCapacity s = Some capacity → LocalCapacityRequest_Validate capacity = None) ∧
  (Schedule.Units s = [] → Schedule.Batches s = []) ∧
  Forall (λ u, check_execution_unit u = None) (Schedule.Units s) ∧
  executable (Schedule.Units s) (Schedule.Batches s).
Proof. apply validateExecutionSchedule_None. Qed.

(** ** What BuildSchedule returns passes *)

Section built.
Context {W : Type} (options : SchedulerOptions W) (cells : list ScheduleCell) (completed : gset string).
Context (capacity : option LocalCapacityRequest) (sessions : gmap string SessionRecord) (schedule : Schedule).
Context (units reused : list ExecutionUnit) (cellToUnit : gmap string string).
Context (Hsep : hash_separates cells) (Hids : NoDup (ScheduleCell.ID <$> cells)).
Context (Hvalid : ∀ c, c ∈ cells → valid_cell c).
Context (Hp : planned options cells completed capacity sessions schedule units cellToUnit reused).

Lemma check_reuse_unit c f :
  check_reuse c f = None → ReuseFingerprint_Validate f = None ∧
  ReuseFingerprint_Digest f = Ok (ScheduleCell.Fingerprint c) ∧
  ReuseFingerprint.OwnershipMarker f = ScheduleCell.OwnershipMarker c.
Proof.
  unfold check_reuse. rewrite !err_seq_None, err_wrap_None, fail_if_None, negb_false_iff, bool_decide_eq_true.
  intros (Hv&Hm&Hd). destruct (ReuseFingerprint_Digest f) as [d|]; [|done].
  by apply fail_if_None, negb_false_iff, bool_decide_eq_true in Hd as ->.
Qed.

Lemma unit_id_nonblank c : blank (unit_id c) = false.
Proof.
  apply (visible_not_blank _ "t"%char); [by vm_compute|]. unfold unit_id.
  case_bool_decide; cbv [executionUnitForBaseline executionUnitForTransition ExecutionUnit.ID]; rewrite go_bytes_app, elem_of_app;
    left; apply (bool_decide_unpack _); by vm_compute.
Qed.

Lemma built_unit_ok u : u ∈ Schedule.Units schedule → check_execution_unit u = None.
Proof.
  intros Hu. destruct (planned_grouping _ _ _ _ _ _ _ _ _ Hsep Hids Hp) as (groups&Hg&Hc&_).
  destruct (planned_described cells completed schedule cellToUnit groups u Hg Hc Hu) as (key&u0&Hu0&[Hcells (o&Ho&Hor) _ Hkeys Hnd]&He).
  injection He as Hid Hcu Hku Hfu Hmu Hcov Hreuse _.
  apply elem_of_members in Ho as Hom. destruct Hom as (Hoc&_&_). destruct (Hvalid o Hoc) as [_ Hmark _ _ Hru Hco _].
  unfold check_execution_unit. rewrite !err_seq_None, !fail_if_None, !orb_false_iff. split_and!.
  - rewrite Hid. rewrite (origin_id _ _ Hor). apply unit_id_nonblank.
  - rewrite bool_decide_eq_false, Hcu. intros Hl%nil_length_inv.
    assert (ScheduleCell.ID o ∈ ExecutionUnit.CellIDs (finish_unit u0)) as Hin.
    { apply finish_cells. rewrite Hcells. by apply list_elem_of_fmap_2. }
    simpl in Hin, Hl. rewrite Hl in Hin. by apply elem_of_nil in Hin.
  - rewrite Hmu.
    by rewrite (origin_marker _ _ Hor).
  - rewrite Hcov. rewrite (origin_coverage _ _ Hor).
    destruct (ScheduleCell.Coverage o) as [b|]; [|done]. by rewrite (Hco b).
  - rewrite Hreuse, Hfu, Hmu.
    rewrite (origin_reuse _ _ Hor), (origin_fingerprint _ _ Hor), (origin_marker _ _ Hor).
    destruct (ScheduleCell.ReuseFingerprint o) as [f|]; [|done].
    destruct (check_reuse_unit o f (Hru f eq_refl)) as (->&->&->). by rewrite !bool_decide_eq_true_2.
  - apply hasDuplicate_false. rewrite Hcu. split.
    + change (NoDup (ExecutionUnit.CellIDs (finish_unit u0))). eapply unit_cells_NoDup; [done..|]. apply elem_of_units. by exists key, u0.
    + intros Hin. destruct (unit_cells_from completed cells groups cellToUnit Hg (finish_unit u0) "") as (c&Hcc&Hcid); [|done|].
      * apply elem_of_units. by exists key, u0.
      * pose proof (valid_id c (Hvalid c Hcc)) as Hb. by rewrite Hcid in Hb.
  - apply hasDuplicate_false. rewrite Hku. split.
    + apply Hnd. intros c Hcc. pose proof (valid_keys c (Hvalid c Hcc)) as Hk. by apply hasDuplicate_false in Hk as [? _].
    + intros (c&Hcc&Hk)%Hkeys. pose proof (valid_keys c (Hvalid c Hcc)) as Hv. by apply hasDuplicate_false in Hv as [_ ?].
Qed.
End built.

(** ** The claims of a build *)

Definition digest_of (claim : SessionClaim) : string :=
  match ReuseFingerprint_Digest (SessionClaim.Fingerprint claim) with Ok digest => digest | Err _ => "" end.

Record claim_ok (claim : SessionClaim) : Prop := {
  claim_session : blank (SessionClaim.SessionID claim) || multiline (SessionClaim.SessionID claim) = false;
  claim_owner : blank (SessionClaim.Owner claim) || multiline (SessionClaim.Owner claim) = false;
  claim_print : ReuseFingerprint_Validate (SessionClaim.Fingerprint claim) = None;
  claim_digest : ReuseFingerprint_Digest (SessionClaim.Fingerprint claim) = Ok (digest_of claim);
}.

Lemma validateScheduleClaims_complete seen claims :
  Forall claim_ok claims → NoDup (digest_of <$> claims) → (∀ c, c ∈ claims → digest_of c ∉ seen) →
  validateScheduleClaims seen claims = None.
Proof.
  revert seen. induction claims as [|c claims IH]; intros seen Hok Hnd Hseen; cbn [validateScheduleClaims]; [done|].
  apply Forall_cons in Hok as [[Hs Ho Hf Hd] Hok]. csimpl in Hnd. apply NoDup_cons in Hnd as [Hn Hnd].
  rewrite Hs, Ho, Hf, Hd. cbn [fail_if err_seq err_wrap fmap option_fmap option_map].
  rewrite bool_decide_eq_false_2 by (apply Hseen; left). cbn [fail_if err_seq]. apply IH; [done|done|].
  intros x Hx [He|Hin]%elem_of_cons; [|by apply (Hseen x); [right|]]. apply Hn. rewrite <-He. by apply list_elem_of_fmap_2.
Qed.

(** A record [find_sessions] collects. *)
Definition collectable (owner : string) (r : SessionRecord) : Prop :=
  SessionRecord_Validate r = None ∧ SessionRecord.ClaimOwner r = owner ∧ check_owner owner = None.

Lemma find_sessions_collectable {W} (registry : SessionRegistry W) ctx completed owner result cells w result' err w' :
  map_Forall (λ _, collectable owner) result →
  find_sessions registry ctx completed owner result cells w = (result', err, w') →
  map_Forall (λ _, collectable owner) result'.
Proof.
  revert result w. induction cells as [|c cells IH]; intros result w Hr H; cbn [find_sessions] in H.
  { by injection H as <- _ _. }
  destruct (ScheduleCell.ReuseFingerprint c) as [f|]; [|by eapply IH].
  destruct (_ || _); [by eapply IH|].
  destruct (ClaimReusableSession _ _ _ _ _) as [answer w1] eqn:Ec. destruct answer as [lookup|]; [|by injection H as <- _ _].
  case_bool_decide as Hready; [|case_bool_decide; [by eapply IH|case_bool_decide; by injection H as <- _ _]].
  eapply IH; [|exact H]. apply map_Forall_insert_2; [|done].
  by destruct (ClaimReusableSession_ready _ _ _ _ _ _ _ Ec Hready) as (_&_&?&?&?&_).
Qed.

Lemma findReusableScheduleSessions_collectable {W} ctx cells completed
    (registry : option (option (SessionRegistry W))) owner w sessions err w' :
  findReusableScheduleSessions ctx cells completed registry owner w = (sessions, err, w') →
  map_Forall (λ _, collectable owner) sessions.
Proof.
  unfold findReusableScheduleSessions. destruct registry as [[registry|]|].
  - destruct ctx as [ctx|]; [|intros [= <- _ _]; apply map_Forall_empty].
    apply find_sessions_collectable, map_Forall_empty.
  - destruct ctx; intros [= <- _ _]; apply map_Forall_empty.
  - destruct ctx; intros [= <- _ _]; apply map_Forall_empty.
Qed.

Lemma SessionRecord_single_line r :
  SessionRecord_Validate r = None →
  multiline (SessionRecord.SessionID r) = false ∧ ReuseFingerprint_Validate (SessionRecord.Fingerprint r) = None.
Proof.
  unfold SessionRecord_Validate. intros H. apply err_seq_None in H as [_ H]. apply err_seq_None in H as [H1 H].
  apply err_seq_None in H as [H2 _]. rewrite first_error_None in H1. apply Forall_cons in H1 as [H1 _].
  by apply fail_if_None, orb_false_iff in H1 as [_ H1].
Qed.

Lemma check_options_capacity {W} uuid (options : SchedulerOptions W) cells capacity owner :
  check_options uuid options cells = Ok (Some capacity, owner) → LocalCapacityRequest_Validate capacity = None.
Proof.
  unfold check_options. intros H. do 3 apply lift_check_Ok in H as [_ H].
  destruct (requested_capacity options) as [asked|] eqn:Ea; cbn [mbind result_bind] in H; [|done].
  destruct (resolveScheduleClaimOwner _ _); cbn [mbind result_bind] in H; [|done].
  do 2 apply lift_check_Ok in H as [_ H]. injection H as -> _. unfold requested_capacity in Ea.
  destruct (OptAdmission options) as [input|]; [|done]. apply lift_check_Ok in Ea as [Hv%err_wrap_None Ea].
  by case_match; simplify_eq.
Qed.

(** One claim per digest. *)
Lemma claims_of_ok owner seen records :
  Forall (collectable owner) records →
  (∀ claim, claim ∈ claims_of seen records → blank (SessionClaim.SessionID claim) = false) →
  Forall claim_ok (claims_of seen records) ∧ NoDup (digest_of <$> claims_of seen records) ∧
  ∀ c, c ∈ claims_of seen records → digest_of c ∉ seen.
Proof.
  revert seen. induction records as [|r records IH]; intros seen Hr Hids; cbn [claims_of] in *.
  { split_and!; [constructor|constructor|set_solver]. }
  apply Forall_cons in Hr as [(Hv&Ho&Hchk) Hr]. case_bool_decide; [by apply IH|].
  rewrite (valid_hash r Hv) in *. case_bool_decide as Hin; [by apply IH|].
  set (claim := {| SessionClaim.Fingerprint := _ |}) in *.
  assert (Hdig : digest_of claim = SessionRecord.FingerprintHash r) by (unfold digest_of; simpl; by rewrite (valid_hash r Hv)).
  destruct (IH (SessionRecord.FingerprintHash r :: seen) Hr) as (Hok&Hnd&Hseen); [intros; apply Hids; by right|].
  split_and!.
  - constructor; [|done]. split.
    + rewrite (Hids claim) by left. simpl. apply SessionRecord_single_line in Hv. apply Hv.
    + simpl. rewrite Ho. by apply fail_if_None in Hchk.
    + by apply SessionRecord_single_line in Hv as (_&?).
    + simpl. by rewrite Hdig, (valid_hash r Hv).
  - csimpl. apply NoDup_cons. split; [|done]. intros (x&He&Hx)%list_elem_of_fmap. apply (Hseen x Hx). rewrite <-He, Hdig. left.
  - intros c [->|Hc]%elem_of_cons; [by rewrite Hdig|]. specialize (Hseen c Hc). set_solver.
Qed.

(** C9: what is built runs.  When the unit hashes tell the cells apart and no
    claimed session has a blank ID, the schedule [BuildSchedule] returns passes
    the validation of [ExecuteSchedule]: the two halves of the engine agree on
    units, batches, capacity and session claims. *)
Theorem BuildSchedule_validates {W} url_Parse Quote uuid clock (options : SchedulerOptions W) cells w schedule w' :
  hash_separates cells → BuildSchedule url_Parse Quote uuid clock options cells w = (Ok schedule, w') →
  (∀ claim, claim ∈ Schedule.ReuseClaims schedule → blank (SessionClaim.SessionID claim) = false) →
  validateExecutionSchedule schedule = None.
Proof.
  intros Hsep Hb Hclaims.
  apply BuildSchedule_Ok in Hb as (capacity&owner&completed&sessions&w1&units&cellToUnit&reused&Ho&_&_&Hf&Hp).
  apply check_options_cells in Ho as Hv. destruct Hv as [Hv _]. apply validated_cells in Hv as (Hids&Hcells&_).
  pose proof (planned_linked _ _ _ _ _ _ _ _ _ Hsep Hids Hp) as Hl.
  destruct (makeBatches_spec _ _ _ _ (linked_ids _ _ _ Hl) (planned_batches _ _ _ _ _ _ _ _ _ Hp)) as (Hperm&Hne&Hkeys&_&Hord).
  apply validateExecutionSchedule_None. split_and!.
  - rewrite (planned_claims _ _ _ _ _ _ _ _ _ Hp) in *. unfold reusableSessionClaims in *.
    destruct (claims_of_ok owner [] (map_to_list sessions).*2) as (H1&H2&_).
    + apply Forall_forall. intros r ([id x]&->&Hx%elem_of_map_to_list)%list_elem_of_fmap.
      by eapply findReusableScheduleSessions_collectable.
    + intros claim Hc. apply Hclaims. by apply elem_of_sort_by.
    + apply validateScheduleClaims_complete; [by rewrite sort_by_perm|by rewrite sort_by_perm|set_solver].
  - rewrite (planned_capacity _ _ _ _ _ _ _ _ _ Hp). intros c ->. by eapply check_options_capacity.
  - intros He. destruct (Schedule.Batches schedule) as [|batch batches] eqn:Eb; [done|].
    destruct (Hne batch) as [Hn _]; [left|]. rewrite He in Hperm. simpl in Hperm.
    apply Permutation_nil_r, app_eq_nil in Hperm as [? _]. done.
  - apply Forall_forall. intros u Hu. by eapply built_unit_ok.
  - split; [apply Hl|done|done|done].
Qed.

Module ValidExample.
Import BuildExample.

Lemma BuildSchedule_validates_witness :
  concat (Schedule.Batches schedule) = ID <$> Schedule.Units schedule ∧ validateExecutionSchedule schedule = None.
Proof.
  split; [done|].
  apply (BuildSchedule_validates url_Parse id "uuid-1" 0 options UnitExample.cells () schedule () UnitExample.cells_separated built).
  intros claim Hin. by apply elem_of_nil in Hin.
Defined.
End ValidExample.
