(* ===== verification/RunProtocol.v ===== *)
(** * The protocol of a unit's goroutine

    Which calls the program of a unit makes and in which order, as a type: a
    phase per point of the program and, per phase, the only calls that may come
    next.  [runScheduleUnitWithLocalCapacity] has this type. *)

From S2P Require Import Prelude GoStrings Sessions LocalCapacity Schedule Units BuildSchedule ScheduleSessions Execution ScheduleRun.

Local Open Scope Z_scope.

(** How far the checkpoints of a unit got when it is over: nothing was written,
    the terminal write failed, or the terminal status was recorded for what the
    executor answered. *)
Inductive verdict :=
  | Untouched
  | Unrecorded
  | Recorded (execution : ScheduleExecutionResult) (err : gerror).

(** [leased] tells whether a lease has to be released, [ok] whether the unit
    succeeds so far. *)
Inductive phase :=
  | Ready (leased : bool)
  | Started (leased : bool)
  | Executing (leased : bool)
  | Returned (leased : bool) (execution : ScheduleExecutionResult) (err : gerror)
  | Settled (leased : bool) (v : verdict) (ok : bool).

(** Where a program may end, and whether it succeeded. *)
Definition over (ph : phase) : option bool :=
  match ph with
  | Ready false => Some false
  | Settled false _ ok => Some ok
  | _ => None
  end.

Section protocol.
Context (stamp : string) (u : ExecutionUnit).

(** The status the terminal checkpoint gets. *)
Definition passes_execution (execution : ScheduleExecutionResult) (err : gerror) : bool :=
  bool_decide (err = None) && bool_decide (validateScheduleExecutionResult u (complete_result u execution) = None).

Definition terminal_status execution err : string := if passes_execution execution err then "PASS" else "FAIL".

Definition terminal_checkpoints execution err : list SchedulerCheckpoint :=
  unitCheckpoints u (terminal_status execution err) stamp (complete_result u execution).

Definition in_progress : list SchedulerCheckpoint := unitCheckpoints u "IN_PROGRESS" stamp ScheduleExecutionResult.zero.

Fixpoint follows (ph : phase) (p : prog scheduleUnitResult) : Prop :=
  match p with
  | Ret r =>
      ∃ ok, over ph = Some ok ∧ resultUnitID r = ExecutionUnit.ID u ∧ (resultErr r = None ↔ ok = true)
  | CtxErr k =>
      ∃ l, ph = Ready l ∧ ∀ e, follows (match e with None => Ready l | Some _ => Settled l Untouched false end) (k e)
  | Acquire _ k =>
      ph = Ready false ∧ ∀ a, follows (match a with Ok true => Ready true | _ => Settled false Untouched false end) (k a)
  | Write detached checkpoints k =>
      (∃ l, ph = Ready l ∧ detached = false ∧ checkpoints = in_progress ∧
         ∀ e, follows (match e with None => Started l | Some _ => Settled l Untouched false end) (k e)) ∨
      (∃ l x err, ph = Returned l x err ∧ detached = true ∧ checkpoints = terminal_checkpoints x err ∧
         ∀ e, follows (match e with
                       | None => Settled l (Recorded x err) (passes_execution x err)
                       | Some _ => Settled l Unrecorded false
                       end) (k e))
  | Execute unit k =>
      ∃ l, ph = Started l ∧ unit = u ∧ ∀ x e, follows (Returned l x e) (k (x, e))
  | ReleaseLease k =>
      ∃ v ok, ph = Settled true v ok ∧
        ∀ e, follows (Settled false v (ok && bool_decide (e = None))) (k e)
  end.

(** A program that follows the protocol up to the release of the lease. *)
Lemma runScheduleUnit_follows l (k : scheduleUnitResult → prog scheduleUnitResult) :
  (∀ v ok r, resultUnitID r = ExecutionUnit.ID u → (resultErr r = None ↔ ok = true) → follows (Settled l v ok) (k r)) →
  follows (Ready l) (runScheduleUnit stamp u ≫= k).
Proof.
  intros Hk. unfold runScheduleUnit, write, terminalWrite. cbn [mbind prog_bind follows].
  exists l. split; [done|]. intros [e|]; cbn [mbind prog_bind].
  { by apply Hk. }
  left. exists l. split_and!; [done..|]. intros [e|]; cbn [mbind prog_bind]; [by apply Hk|].
  exists l. split_and!; [done..|]. intros x err. unfold terminal_checkpoints, terminal_status.
  destruct err as [e|]; cbn [mbind prog_bind].
  { right. exists l, x, (Some e). split_and!; [done..|]. intros [e'|]; cbn [mbind prog_bind]; by apply Hk. }
  destruct (validateScheduleExecutionResult u (complete_result u x)) as [e|] eqn:Ev; cbn [mbind prog_bind].
  - assert (passes_execution x None = false) as Hf by (unfold passes_execution; by rewrite Ev).
    right. exists l, x, None. unfold terminal_checkpoints, terminal_status. rewrite Hf. split_and!; [done..|].
    intros [e'|]; cbn [mbind prog_bind]; by apply Hk.
  - assert (passes_execution x None = true) as Ht by (unfold passes_execution; by rewrite Ev).
    right. exists l, x, None. unfold terminal_checkpoints, terminal_status. rewrite Ht. split_and!; [done..|].
    intros [e'|]; cbn [mbind prog_bind]; by apply Hk.
Qed.

Lemma unit_follows hasReservation request :
  follows (Ready false) (runScheduleUnitWithLocalCapacity stamp hasReservation request u).
Proof.
  unfold runScheduleUnitWithLocalCapacity, acquire_capacity.
  set (after := λ lease, _). (* what comes after the reservation *)
  assert (Hno : follows (Ready false) (after (Ok false))).
  { apply runScheduleUnit_follows. intros v ok [id err] Hid He. by exists ok. }
  assert (Hyes : follows (Ready true) (after (Ok true))).
  { apply runScheduleUnit_follows. intros v ok [id err] Hid He. exists v, ok. split; [done|]. simpl in *. subst id.
    intros [e|]; eexists; (split_and!; [done|done|]); simpl.
    - rewrite andb_false_r. split; [|done]. intros Hj. apply errors_Join_None in Hj. by inversion_clear Hj as [|??? H]; inversion_clear H.
    - by rewrite andb_true_r. }
  assert (Herr : ∀ ph e, over ph = Some false → follows ph (after (Err e))).
  { intros ph e Hover. by exists false. }
  clearbody after. destruct request as [request|]; [|exact Hno].
  destruct (LocalCapacityRequest_Validate request) as [e|]; [by apply Herr|].
  destruct (request_empty request); [exact Hno|]. destruct hasReservation; [|by apply Herr].
  split; [done|]. intros [[]|e]; [exact Hyes|by apply Herr..].
Qed.
(** ** The calls of a goroutine *)

(** The goroutine's steps, alone: its calls in order. *)
Fixpoint steps (g : goroutine) (answers : list answer) (m : gmap string SchedulerCheckpoint)
    : option (goroutine * list event) :=
  match answers with
  | [] => Some (g, [])
  | a :: answers =>
      '(g, events, m) ← goroutine_step g a m;
      '(g, rest) ← steps g answers m;
      Some (g, events ++ rest)
  end.

Definition typed (ph : phase) (g : goroutine) : Prop :=
  match g with
  | Run p => follows ph p
  | Busy v k => v = u ∧ ∃ l, ph = Executing l ∧ ∀ x e, follows (Returned l x e) (k (x, e))
  end.

(** The events left to a goroutine that succeeds when [ok], phase by phase. *)
Definition released (l ok : bool) (events : list event) (final : bool) : Prop :=
  if l then ∃ e, events = [EvRelease e] ∧ final = ok && bool_decide (e = None) else events = [] ∧ final = ok.

Definition settled (l : bool) (x : ScheduleExecutionResult) (err : gerror) (events : list event) (final : bool) : Prop :=
  ∃ e rest, events = EvWrite (terminal_checkpoints x err) e :: rest ∧
    released l (passes_execution x err && bool_decide (e = None)) rest final.

Definition returned (l : bool) (events : list event) (final : bool) : Prop :=
  ∃ x err rest, events = EvReturn u x err :: rest ∧ settled l x err rest final.

Definition entered (l : bool) (events : list event) (final : bool) : Prop :=
  ∃ rest, events = EvExecute u :: rest ∧ returned l rest final.

Definition started (l : bool) (events : list event) (final : bool) : Prop :=
  released l false events final ∨
  ∃ e rest, events = EvWrite in_progress e :: rest ∧
    match e with None => entered l rest final | Some _ => released l false rest final end.

Definition remaining (ph : phase) (answers : list answer) (events : list event) (final : bool) : Prop :=
  let leased := ALease (Ok true) ∈ answers in
  match ph with
  | Ready l => ∃ l' : bool, (l' = true ↔ l = true ∨ leased) ∧ started l' events final
  | Started l => ¬ leased ∧ entered l events final
  | Executing l => ¬ leased ∧ returned l events final
  | Returned l x err => ¬ leased ∧ settled l x err events final
  | Settled l _ ok => ¬ leased ∧ released l ok events final
  end.

(** No other answer is a lease. *)
Lemma leased_cons a answers :
  ALease (Ok true) ∈ a :: answers ↔ a = ALease (Ok true) ∨ ALease (Ok true) ∈ answers.
Proof. rewrite elem_of_cons. naive_solver. Qed.

(** A step keeps the type, and what is left after it is what was left before. *)
Lemma step_typed ph g a m g' events m' :
  typed ph g → goroutine_step g a m = Some (g', events, m') →
  ∃ ph', typed ph' g' ∧
    ∀ answers rest ok, remaining ph' answers rest ok → remaining ph (a :: answers) (events ++ rest) ok.
Proof.
  intros Ht Hs. destruct g as [[r|k|q k|d cs k|v k|k]|v k]; [done| | | | | |]; destruct a as [e|lease| |x e]; simplify_eq/=.
  - destruct Ht as (l&->&Hk). eexists. split; [exact (Hk e)|]. intros answers rest ok. destruct e as [e|]; simpl.
    + intros [Hn Hr]. exists l. split; [rewrite leased_cons; intuition congruence|by left].
    + intros (l'&Hl&Hr). exists l'. split; [|done]. rewrite leased_cons. intuition congruence.
  - destruct Ht as [-> Hk]. eexists. split; [exact (Hk lease)|]. intros answers rest ok.
    destruct lease as [[]|e]; simpl; setoid_rewrite leased_cons; [intros (l'&Hl&Hr); exists l'; intuition congruence|..];
      intros [Hn Hr]; exists false; (split; [intuition congruence|by left]).
  - destruct Ht as [(l&->&->&->&Hk)|(l&x&err&->&->&->&Hk)]; (eexists; split; [exact (Hk e)|]); intros answers rest ok;
      destruct e as [e|]; simpl; intros [Hn Hr].
    + exists l. split; [rewrite leased_cons; intuition congruence|]. right. by exists (Some e), rest.
    + exists l. split; [rewrite leased_cons; intuition congruence|]. right. by exists None, rest.
    + split; [rewrite leased_cons; intuition congruence|]. exists (Some e), rest. by rewrite andb_false_r.
    + split; [rewrite leased_cons; intuition congruence|]. exists None, rest. by rewrite andb_true_r.
  - destruct Ht as (l&->&->&Hk). exists (Executing l). split; [split; [done|by exists l]|]. simpl.
    intros answers rest ok [Hn Hr]. rewrite leased_cons. split; [intuition congruence|by exists rest].
  - destruct Ht as (v&b&->&Hk). eexists. split; [exact (Hk e)|]. simpl. intros answers rest ok [Hn [-> ->]].
    rewrite leased_cons. split; [intuition congruence|by exists e].
  - destruct Ht as (->&l&->&Hk). eexists. split; [exact (Hk x e)|]. simpl. intros answers rest ok [Hn Hr].
    rewrite leased_cons. split; [intuition congruence|by exists x, e, rest].
Qed.

Lemma steps_remaining answers : ∀ ph g m r events,
  typed ph g → steps g answers m = Some (Run (Ret r), events) →
  ∃ ok, (resultErr r = None ↔ ok = true) ∧ remaining ph answers events ok.
Proof.
  induction answers as [|a answers IH]; intros ph g m r events Ht H; simpl in H.
  { injection H as -> <-. destruct Ht as (ok&Hover&_&Hr). exists ok. split; [done|].
    destruct ph as [[]| | | |[] v b]; simplify_eq/=; [|split; [apply not_elem_of_nil|done]].
    exists false. split; [|by left]. split; [done|]. by intros [?|?%not_elem_of_nil]. }
  destruct (goroutine_step g a m) as [[[g' evs] m1]|] eqn:Es; [|done]. cbn [mbind option_bind] in H.
  destruct (steps g' answers m1) as [[g2 rest]|] eqn:Er; [|done]. cbn [mbind option_bind] in H.
  injection H as -> <-. destruct (step_typed _ _ _ _ _ _ _ Ht Es) as (ph'&Ht'&Hrem).
  destruct (IH _ _ _ _ _ Ht' Er) as (ok&Hok&Hr). exists ok. split; [done|by apply Hrem].
Qed.

(** C7: the calls of a unit.  Whatever the checkpoint writer, the executor and the
    reservation answer, the goroutine of a unit that ends has made no call, or
    only failed to write its IN_PROGRESS checkpoints, or has written them,
    entered the executor once, and written the terminal checkpoints of exactly
    what the executor returned; it then released its lease once, if it had been
    given one, and it succeeds exactly when it ran, the result is valid and
    neither the terminal write nor the release failed. *)
Theorem unit_calls hasReservation request answers m r events :
  steps (Run (runScheduleUnitWithLocalCapacity stamp hasReservation request u)) answers m = Some (Run (Ret r), events) →
  ∃ calls releases (done : bool), events = calls ++ releases ∧
    (calls = [] ∧ done = false ∨
     (∃ e, calls = [EvWrite in_progress (Some e)] ∧ done = false) ∨
     ∃ x err written, done = passes_execution x err && bool_decide (written = None) ∧
       calls = [EvWrite in_progress None; EvExecute u; EvReturn u x err; EvWrite (terminal_checkpoints x err) written]) ∧
    (ALease (Ok true) ∈ answers → ∃ e, releases = [EvRelease e]) ∧
    (ALease (Ok true) ∉ answers → releases = []) ∧
    (resultErr r = None ↔ done = true ∧ ∀ e, EvRelease e ∈ releases → e = None).
Proof.
  intros H. destruct (steps_remaining answers (Ready false) _ m r events (unit_follows hasReservation request : typed _ (Run _)) H)
    as (ok&Hok&l&Hl&Hs).
  assert (Hl' : l = true ↔ ALease (Ok true) ∈ answers) by (rewrite Hl; intuition congruence). clear Hl.
  assert (Hrel : ∀ b rest, released l b rest ok →
    (ALease (Ok true) ∈ answers → ∃ e, rest = [EvRelease e]) ∧ (ALease (Ok true) ∉ answers → rest = []) ∧
    (resultErr r = None ↔ b = true ∧ ∀ e, EvRelease e ∈ rest → e = None)).
  { intros b rest. rewrite Hok. destruct l; simpl.
    - intros (e&->&->). rewrite andb_true_iff, bool_decide_eq_true. split_and!; [by exists e|naive_solver|].
      setoid_rewrite list_elem_of_singleton. naive_solver.
    - intros [-> ->]. split_and!; [naive_solver|done|]. setoid_rewrite elem_of_nil. naive_solver. }
  destruct Hs as [Hr|([e|]&rest&->&Hr)].
  - exists [], events, false. split_and!; [done|by left|by apply (Hrel false)..].
  - exists [EvWrite in_progress (Some e)], rest, false. split_and!; [done|by right; left; exists e|by apply (Hrel false)..].
  - destruct Hr as (rest1&->&x&err&rest2&->&e&rest3&->&Hr). do 3 eexists. split_and!; [|right; right; by exists x, err, e|by apply (Hrel _ _ Hr)..].
    done.
Qed.
End protocol.

(** ** Example *)

(** The first unit of [ReuseExample.schedule] gets a lease and passes. *)
Module ProtocolExample.
Import ReuseExample.

Definition unit_1 : ExecutionUnit := Eval vm_compute in nth 0 (Schedule.Units schedule) ExecutionUnit.zero.

Definition passed : ScheduleExecutionResult :=
  {| ScheduleExecutionResult.StackID := "stack-1"; ScheduleExecutionResult.ReuseFingerprint := None;
     ScheduleExecutionResult.OperationIDs := ["op-1"]; ScheduleExecutionResult.ResourceRefs := [];
     ScheduleExecutionResult.BackupRefs := []; ScheduleExecutionResult.RestoreRefs := [];
     ScheduleExecutionResult.TelemetryRefs := []; ScheduleExecutionResult.EdgeRefs := [];
     ScheduleExecutionResult.ReuseMode := ""; ScheduleExecutionResult.CleanupState := "complete";
     ScheduleExecutionResult.OwnershipMarker := ExecutionUnit.OwnershipMarker unit_1 |}.

Definition request : LocalCapacityRequest := {| CPUMilli := 500; MemoryMB := 256 |}.

Definition answers : list answer :=
  [ALease (Ok true); AErr None; AErr None; AStart; AExec passed None; AErr None; AErr None].

Definition answered := steps (Run (runScheduleUnitWithLocalCapacity "" true (Some request) unit_1)) answers ∅.

Definition no_result : scheduleUnitResult := {| resultUnitID := ""; resultErr := None |}.
Definition result_of (o : goroutine * list event) : scheduleUnitResult :=
  match o.1 with Run (Ret r) => r | _ => no_result end.

Definition unit_result : scheduleUnitResult := Eval vm_compute in from_option result_of no_result answered.
Definition unit_events : list event := Eval vm_compute in from_option snd [] answered.

Lemma unit_answered :
  steps (Run (runScheduleUnitWithLocalCapacity "" true (Some request) unit_1)) answers ∅ = Some (Run (Ret unit_result), unit_events).
Proof. vm_cast_no_check (eq_refl answered). Qed.

Lemma unit_calls_witness : resultErr unit_result = None ∧ length unit_events = 5%nat ∧ ∃ e, EvRelease e ∈ unit_events.
Proof.
  split; [reflexivity|]. split; [reflexivity|].
  destruct (unit_calls "" unit_1 true (Some request) answers ∅ unit_result unit_events unit_answered)
    as (calls&releases&success&Hev&_&Hl&_&_).
  destruct Hl as [e He]; [constructor|]. exists e. rewrite Hev, He. apply elem_of_app. right. constructor.
Defined.
End ProtocolExample.
