(* ===== verification/RunInvariant.v ===== *)
(** * The invariant of a run

    Each unit that was started has a phase of its protocol; what the checkpoint
    store and the log hold of the unit follows from it.  The main loop starts a
    batch when every unit of the batches before succeeded. *)

From S2P Require Import Prelude GoStrings Sdk Sessions LocalCapacity Schedule Units BuildSchedule Execution ScheduleRun ValidSchedule RunProtocol.

Local Open Scope Z_scope.

Abbreviation CellIDs := ExecutionUnit.CellIDs.

Section invariant.
Context (schedule : Schedule) (hasReservation : bool) (stamp : string).
Abbreviation all_units := (Schedule.Units schedule).
Abbreviation follows := (follows stamp).

(** ** What a phase says about a unit *)

Definition recorded (u : ExecutionUnit) (ph : phase) : option (string * ScheduleExecutionResult) :=
  match ph with
  | Ready _ | Settled _ Untouched _ => None
  | Started _ | Executing _ | Returned _ _ _ | Settled _ Unrecorded _ =>
      Some ("IN_PROGRESS", ScheduleExecutionResult.zero)
  | Settled _ (Recorded x err) _ => Some (terminal_status u x err, complete_result u x)
  end.

(** The checkpoint of a cell of the unit. *)
Definition record_at (u : ExecutionUnit) (ph : phase) (cell : string) : option SchedulerCheckpoint :=
  (λ r, unitCheckpoint u r.1 stamp r.2 cell) <$> recorded u ph.

Definition executed (ph : phase) : bool :=
  match ph with
  | Executing _ | Returned _ _ _ | Settled _ Unrecorded _ | Settled _ (Recorded _ _) _ => true
  | _ => false
  end.

(** How often a unit entered the executor. *)
Definition is_execution (id : string) (e : event) : bool :=
  match e with EvExecute u => bool_decide (ID u = id) | _ => false end.

Definition executions (id : string) (log : list event) : nat :=
  foldr (λ e n, if is_execution id e then S n else n) 0%nat log.

(** What the executor answered is in the log, and success was recorded. *)
Definition phase_ok (u : ExecutionUnit) (ph : phase) (log : list event) : Prop :=
  match ph with
  | Returned _ x err => EvReturn u x err ∈ log
  | Settled _ v ok =>
      (∀ x err, v = Recorded x err → EvReturn u x err ∈ log) ∧
      (ok = true → ∃ x, v = Recorded x None ∧ passes_execution u x None = true)
  | _ => True
  end.

Definition goroutine_follows (u : ExecutionUnit) (ph : phase) (g : goroutine) : Prop :=
  match g with
  | Run p => follows u ph p
  | Busy v k => ∃ l, ph = Executing l ∧ v = u ∧ ∀ x e, follows u (Returned l x e) (k (x, e))
  end.

Lemma executions_app id l1 l2 : executions id (l1 ++ l2) = (executions id l1 + executions id l2)%nat.
Proof. induction l1 as [|e l1 IH]; simpl; [done|]. destruct (is_execution id e); by rewrite IH. Qed.

Lemma record_all_lookup u status x m c :
  record_all (unitCheckpoints u status stamp x) m !! c =
  if decide (c ∈ CellIDs u) then Some (unitCheckpoint u status stamp x c) else m !! c.
Proof.
  unfold record_all, unitCheckpoints. induction (CellIDs u) as [|d cells IH] using rev_ind.
  { rewrite decide_False by set_solver. done. }
  rewrite fmap_app, fold_left_app. simpl. destruct (decide (d = c)) as [->|Hne].
  - rewrite lookup_insert_eq. by rewrite decide_True by set_solver.
  - rewrite lookup_insert_ne, IH by done. do 2 case_decide; set_solver.
Qed.

(** What one step of a unit's goroutine does. *)
Record unit_step (u : ExecutionUnit) (ph ph' : phase) (m m' : gmap string SchedulerCheckpoint)
    (events : list event) : Prop := {
  step_cells : (∀ c, c ∈ CellIDs u → m !! c = record_at u ph c) → ∀ c, c ∈ CellIDs u → m' !! c = record_at u ph' c;
  step_others : ∀ c, c ∉ CellIDs u → m' !! c = m !! c;
  step_executions : (executions (ID u) events + (if executed ph then 1 else 0) = if executed ph' then 1 else 0)%nat;
  step_foreign : ∀ id, id ≠ ID u → executions id events = 0%nat;
  step_phase : ∀ log, phase_ok u ph log → phase_ok u ph' (log ++ events);
}.

Lemma phase_ok_app u ph log events : phase_ok u ph log → phase_ok u ph (log ++ events).
Proof.
  destruct ph as [| | | |l v ok]; simpl; try done; [set_solver|].
  intros [H1 H2]. split; [|done]. intros y err Hv. specialize (H1 y err Hv). set_solver.
Qed.

(** A step that neither records a checkpoint nor enters the executor. *)
Lemma unit_step_silent u ph ph' m events :
  recorded u ph' = recorded u ph → executed ph' = executed ph → (∀ id, executions id events = 0%nat) →
  (∀ log, phase_ok u ph log → phase_ok u ph' (log ++ events)) → unit_step u ph ph' m m events.
Proof.
  intros Hr He Hz Hp. split; try done.
  - intros Hm c Hc. rewrite (Hm c Hc). unfold record_at. by rewrite Hr.
  - by rewrite He, Hz.
Qed.

Lemma unit_step_write u ph ph' m status x :
  recorded u ph' = Some (status, x) → executed ph' = executed ph →
  (∀ log, phase_ok u ph log → phase_ok u ph' log) →
  unit_step u ph ph' m (record_all (unitCheckpoints u status stamp x) m)
    [EvWrite (unitCheckpoints u status stamp x) None].
Proof.
  intros Hr He Hp. split.
  - intros _ c Hc. rewrite record_all_lookup, decide_True by done. unfold record_at. by rewrite Hr.
  - intros c Hc. by rewrite record_all_lookup, decide_False.
  - simpl. by rewrite He.
  - done.
  - intros log H. by apply phase_ok_app, Hp.
Qed.

Lemma goroutine_step_ok u ph g a m g' events m' :
  goroutine_follows u ph g → goroutine_step g a m = Some (g', events, m') →
  ∃ ph', goroutine_follows u ph' g' ∧ unit_step u ph ph' m m' events.
Proof.
  destruct g as [p|v k]; [destruct p as [r|k|q k|d cs k|v k|k]|]; destruct a as [err|lease| |x err]; simpl; try done;
    intros Hf [= <- <- <-].
  - destruct Hf as (l&->&Hk). eexists. split; [apply (Hk err)|].
    by destruct err; apply unit_step_silent.
  - destruct Hf as [-> Hk]. eexists. split; [apply (Hk lease)|].
    by destruct lease as [[]|]; apply unit_step_silent.
  - destruct Hf as [(l&->&_&->&Hk)|(l&x&e&->&_&->&Hk)]; (eexists; split; [apply (Hk err)|]); destruct err as [e'|].
    + by apply unit_step_silent.
    + by apply (unit_step_write u).
    + by apply unit_step_silent.
    + apply (unit_step_write u); [done|done|]. intros log Hr. simpl in *. split.
      * by intros y err [= <- <-].
      * intros Hp. unfold passes_execution in Hp. pose proof Hp as [He%bool_decide_eq_true _]%andb_true_iff. subst e. by exists x.
  - destruct Hf as (l&->&->&Hk). exists (Executing l). split; [by exists l|]. split; try done.
    + simpl. by rewrite bool_decide_eq_true_2.
    + intros id Hne. simpl. by rewrite bool_decide_eq_false_2.
  - destruct Hf as (v&ok&->&Hk). eexists. split; [apply (Hk err)|]. apply unit_step_silent; try done.
    intros log [H1 H2]. split; [intros y e Hv; specialize (H1 y e Hv); set_solver|].
    intros [Hok _]%andb_true_iff. auto.
  - destruct Hf as (l&->&->&Hk). eexists. split; [apply (Hk x err)|]. apply unit_step_silent; try done.
    intros log _. simpl. set_solver.
Qed.

(** ** The state of the run *)

Context (Hexec : executable all_units (Schedule.Batches schedule)).
Context (Hcells : NoDup (all_units ≫= CellIDs)).

Definition succeeded (phases : gmap string phase) (id : string) : Prop :=
  ∃ v, phases !! id = Some (Settled false v true).

(** What holds of the units at every moment. *)
Record facts (phases : gmap string phase) (s : system) : Prop := {
  facts_stored : ∀ u c, u ∈ all_units → c ∈ CellIDs u →
    checkpointByCell s !! c = phases !! ID u ≫= λ ph, record_at u ph c;
  facts_cells : ∀ c, is_Some (checkpointByCell s !! c) → ∃ u, u ∈ all_units ∧ c ∈ CellIDs u;
  facts_log : ∀ u, u ∈ all_units →
    executions (ID u) (log s) = (if default false (executed <$> phases !! ID u) then 1 else 0)%nat;
  facts_phase : ∀ u ph, u ∈ all_units → phases !! ID u = Some ph → phase_ok u ph (log s);
  facts_order : ∀ before batch after id, Schedule.Batches schedule = before ++ batch :: after → id ∈ batch →
    is_Some (phases !! id) → ∀ id', id' ∈ concat before → succeeded phases id';
  facts_known : ∀ id, is_Some (phases !! id) → id ∈ concat (Schedule.Batches schedule);
}.

(** The goroutines of the current batch and the results they sent. *)
Record batch_state (current : list string) (phases : gmap string phase) (pool : gmap nat goroutine)
    (results : list scheduleUnitResult) : Prop := {
  batch_pool : ∀ i g, pool !! i = Some g → ∃ u ph, u ∈ all_units ∧ current !! i = Some (ID u) ∧
    phases !! ID u = Some ph ∧ goroutine_follows u ph g;
  batch_sent : ∀ r, r ∈ results → ∃ i ph ok, current !! i = Some (resultUnitID r) ∧ pool !! i = None ∧
    phases !! resultUnitID r = Some ph ∧ over ph = Some ok ∧ (resultErr r = None ↔ ok = true);
  batch_done : ∀ i id, current !! i = Some id → pool !! i = None → id ∈ resultUnitID <$> results;
  batch_results : NoDup (resultUnitID <$> results);
}.

Record main_ok (past : list (list string)) (current : list string) (phases : gmap string phase) (s : system) : Prop := {
  main_outcome : outcome s = None;
  main_batches : Schedule.Batches schedule = past ++ (if running s then [current] else []) ++ todo s;
  main_phases : ∀ id, is_Some (phases !! id) ↔ id ∈ concat past ∨ (running s = true ∧ id ∈ current);
  main_past : ∀ id, id ∈ concat past → succeeded phases id;
  main_batch : running s = true → batch_state current phases (pool s) (results s);
  main_idle : running s = false → pool s = ∅ ∧ results s = [];
  main_completed : CompletedUnitIDs (progress s) ≡ₚ concat past;
  main_failed : FailedUnitID (progress s) = "";
}.

Record finished_ok (phases : gmap string phase) (s : system) (r : ScheduleExecution) (err : gerror) : Prop := {
  finished_outcome : outcome s = Some (r, err);
  finished_pool : pool s = ∅;
  finished_checkpoints : ExecutedCheckpoints r = sort_by checkpoint_le (map_to_list (checkpointByCell s)).*2;
  finished_nodup : NoDup (CompletedUnitIDs r);
  finished_completed : ∀ id, id ∈ CompletedUnitIDs r → succeeded phases id;
  finished_success : err = None → CompletedUnitIDs r ≡ₚ concat (Schedule.Batches schedule);
  finished_failed : FailedUnitID r ≠ "" → is_Some err;
}.

Definition run_ok (phases : gmap string phase) (s : system) : Prop :=
  facts phases s ∧ ((∃ past current, main_ok past current phases s) ∨ ∃ r err, finished_ok phases s r err).

Lemma batches_NoDup : NoDup (concat (Schedule.Batches schedule)).
Proof using Hexec Hcells. rewrite (executable_perm _ _ Hexec). apply Hexec. Qed.

Lemma unit_of_batch batch id : batch ∈ Schedule.Batches schedule → id ∈ batch → ∃ u, u ∈ all_units ∧ ID u = id.
Proof using Hexec Hcells.
  intros Hb Hid. assert (id ∈ ID <$> all_units) as (u&->&Hu)%list_elem_of_fmap; [|by exists u].
  rewrite <-(executable_perm _ _ Hexec). apply elem_of_concat. by exists batch.
Qed.

Lemma unit_at_ID u : u ∈ all_units → unit_at schedule (ID u) = u.
Proof using Hexec Hcells. intros Hu. unfold unit_at, units. by rewrite (by_id_lookup ID _ u (executable_ids _ _ Hexec) Hu). Qed.

Lemma unit_ID_inj u v : u ∈ all_units → v ∈ all_units → ID u = ID v → u = v.
Proof using Hexec Hcells. intros Hu Hv He. rewrite <-(unit_at_ID u Hu), <-(unit_at_ID v Hv). by rewrite He. Qed.

Lemma same_unit u v : u ∈ all_units → v ∈ all_units → u = v ∨ u ≠ v.
Proof using Hexec Hcells.
  intros Hu Hv. destruct (decide (ID u = ID v)) as [He|Hne]; [left; by apply unit_ID_inj|right; congruence].
Qed.

Lemma cells_inj u v c : u ∈ all_units → v ∈ all_units → c ∈ CellIDs u → c ∈ CellIDs v → u = v.
Proof using Hexec Hcells.
  revert Hcells. clear Hexec. induction all_units as [|w l IH]; intros Hnd Hu Hv Hcu Hcv; [set_solver|].
  csimpl in Hnd. apply NoDup_app in Hnd as (_&Hdis&Hnd).
  assert (Hno : ∀ x, x ∈ l → c ∈ CellIDs w → c ∈ CellIDs x → False).
  { intros x Hx Hw Hc. apply (Hdis c Hw). apply list_elem_of_bind. by exists x. }
  apply elem_of_cons in Hu as [->|Hu], Hv as [->|Hv]; [done| | |by apply IH]; exfalso; by eapply Hno.
Qed.

(** A unit takes a step: the facts follow its phase. *)
Lemma facts_step phases s u ph ph' m events pool' :
  facts phases s → u ∈ all_units → phases !! ID u = Some ph →
  (∀ v ok, ph ≠ Settled false v ok) →
  unit_step u ph ph' (checkpointByCell s) m events →
  facts (<[ID u := ph']> phases)
    {| todo := todo s; running := running s; pool := pool'; results := results s; checkpointByCell := m;
       progress := progress s; outcome := outcome s; log := log s ++ events |}.
Proof using Hexec Hcells.
  intros [Hst Hce Hlog Hph Hord Hkn] Hu Hp Hns [Hc Ho Hx Hf Hk].
  assert (Hkeep : ∀ v, v ∈ all_units → v ≠ u → <[ID u := ph']> phases !! ID v = phases !! ID v).
  { intros v Hv Hne. rewrite lookup_insert_ne; [done|]. intros He. by apply Hne, unit_ID_inj. }
  split; simpl.
  - intros v c Hv Hcv. destruct (same_unit v u Hv Hu) as [->|Hne].
    + rewrite lookup_insert_eq. simpl. apply Hc; [|done]. intros d Hd. by rewrite (Hst u d Hu Hd), Hp.
    + rewrite (Hkeep v Hv Hne), <-(Hst v c Hv Hcv). apply Ho. intros Hcu. by apply Hne, (cells_inj v u c).
  - intros c Hsome. destruct (decide (c ∈ CellIDs u)); [by exists u|]. apply Hce. by rewrite <-(Ho c).
  - intros v Hv. rewrite executions_app, (Hlog v Hv). destruct (same_unit v u Hv Hu) as [->|Hne].
    + rewrite lookup_insert_eq, Hp. simpl. lia.
    + rewrite (Hkeep v Hv Hne), (Hf (ID v)); [lia|]. intros He. by apply Hne, unit_ID_inj.
  - intros v phv Hv. destruct (same_unit v u Hv Hu) as [->|Hne].
    + rewrite lookup_insert_eq. intros [= <-]. apply Hk. by apply Hph.
    + rewrite (Hkeep v Hv Hne). intros Hpv. apply phase_ok_app. by apply Hph.
  - intros before batch after id He Hid Hsome id' Hid'.
    assert (is_Some (phases !! id)) as Hsome'.
    { destruct (decide (id = ID u)) as [->|Hne]; [by eexists|]. by rewrite lookup_insert_ne in Hsome. }
    destruct (Hord before batch after id He Hid Hsome' id' Hid') as [v Hv]. exists v.
    destruct (decide (id' = ID u)) as [->|Hne]; [rewrite Hp in Hv; injection Hv as Hv; by destruct (Hns v true)|].
    by rewrite lookup_insert_ne.
  - intros id Hsome. destruct (decide (id = ID u)) as [->|Hne]; [apply Hkn; by eexists|].
    rewrite lookup_insert_ne in Hsome by done. by apply Hkn.
Qed.

(** ** The steps of the main loop *)

Lemma same_batch {A} (ls b1 b2 a1 a2 : list (list A)) x y i :
  NoDup (concat ls) → ls = b1 ++ x :: a1 → ls = b2 ++ y :: a2 → i ∈ x → i ∈ y → b1 = b2.
Proof.
  intros Hnd H1 H2 Hx Hy.
  assert (Hdis : ∀ (b a : list (list A)) z, ls = b ++ z :: a → i ∈ z → i ∉ concat b).
  { intros b a z He Hz Hb. rewrite He, concat_app in Hnd. apply NoDup_app in Hnd as (_&Hd&_).
    apply (Hd i Hb). simpl. set_solver. }
  destruct (Nat.lt_trichotomy (length b1) (length b2)) as [Hl|[Hl|Hl]].
  - destruct (Hdis b2 a2 y H2 Hy). apply elem_of_concat. exists x. split; [|done]. eapply split_before; [|exact Hl]. by rewrite <-H1.
  - rewrite H1 in H2. by apply app_inj_1 in H2 as [? _].
  - destruct (Hdis b1 a1 x H1 Hx). apply elem_of_concat. exists y. split; [|done]. eapply split_before; [|exact Hl]. by rewrite <-H2.
Qed.

Lemma current_disjoint past current rest id :
  Schedule.Batches schedule = past ++ current :: rest → id ∈ current → id ∉ concat past.
Proof using Hexec Hcells.
  intros He Hc Hp. pose proof batches_NoDup as Hnd. rewrite He, concat_app in Hnd. apply NoDup_app in Hnd as (_&Hd&_).
  apply (Hd id Hp). simpl. set_solver.
Qed.

Lemma current_NoDup past current rest : Schedule.Batches schedule = past ++ current :: rest → NoDup current.
Proof using Hexec Hcells.
  intros He. pose proof batches_NoDup as Hnd. rewrite He, concat_app in Hnd. apply NoDup_app in Hnd as (_&_&Hnd).
  simpl in Hnd. by apply NoDup_app in Hnd as [? _].
Qed.

(** The facts only look at the store and the log. *)
Lemma facts_same phases s s' :
  facts phases s → checkpointByCell s' = checkpointByCell s → log s' = log s → facts phases s'.
Proof. intros [? ? ? ? ? ?] Hm Hl. split; rewrite ?Hm, ?Hl; done. Qed.

Definition launch (batch : list string) (phases : gmap string phase) : gmap string phase :=
  foldr (λ id, <[id := Ready false]>) phases batch.

Lemma launch_lookup batch phases id :
  launch batch phases !! id = if decide (id ∈ batch) then Some (Ready false) else phases !! id.
Proof.
  induction batch as [|x batch IH].
  { rewrite decide_False by set_solver. done. }
  simpl. destruct (decide (x = id)) as [->|Hne].
  - rewrite lookup_insert_eq. by rewrite decide_True by set_solver.
  - rewrite lookup_insert_ne, IH by done. do 2 case_decide; set_solver.
Qed.

Lemma start_ok phases s past batch rest :
  facts phases s → main_ok past batch phases s → running s = false → todo s = batch :: rest →
  run_ok (launch batch phases)
    {| todo := rest; running := true; pool := start_batch schedule hasReservation stamp batch; results := [];
       checkpointByCell := checkpointByCell s; progress := progress s; outcome := None; log := log s |}.
Proof using Hexec Hcells.
  intros [Hst Hce Hlog Hph Hord Hkn] [Hout Hb Hphs Hpast Hbat Hidle Hcomp Hfail] Hrun Htodo.
  rewrite Hrun, Htodo in Hb. simpl in Hb.
  assert (Hnew : ∀ id, id ∈ batch → phases !! id = None).
  { intros id Hid. apply eq_None_not_Some. rewrite Hphs, Hrun. intros [Hp|[? _]]; [|done].
    by apply (current_disjoint past batch rest id). }
  assert (Hkeep : ∀ id, succeeded phases id → succeeded (launch batch phases) id).
  { intros id [v Hv]. exists v. rewrite launch_lookup, decide_False; [done|]. intros Hid. by rewrite (Hnew id Hid) in Hv. }
  split; [split; simpl|left; exists past, batch; split; simpl].
  - intros u c Hu Hc. rewrite launch_lookup, (Hst u c Hu Hc). case_decide as Hid; [|done]. by rewrite (Hnew _ Hid).
  - done.
  - intros u Hu. rewrite launch_lookup, (Hlog u Hu). case_decide as Hid; [|done]. by rewrite (Hnew _ Hid).
  - intros u ph Hu. rewrite launch_lookup. case_decide; [by intros [= <-]|by apply Hph].
  - intros before b after id He Hid. rewrite launch_lookup. case_decide as Hin.
    + intros _ id' Hid'. rewrite (same_batch _ _ _ _ _ _ _ id batches_NoDup He Hb Hid Hin) in Hid'. by apply Hkeep, Hpast.
    + intros Hsome id' Hid'. by eapply Hkeep, Hord.
  - intros id. rewrite launch_lookup. case_decide as Hid; [intros _|by apply Hkn].
    rewrite Hb, concat_app, elem_of_app. right. simpl. set_solver.
  - done.
  - done.
  - intros id. rewrite launch_lookup. case_decide as Hid; [split; [by right|by eexists]|].
    rewrite Hphs, Hrun. naive_solver.
  - intros id Hid. by apply Hkeep, Hpast.
  - intros _. split.
    + intros i g. unfold start_batch. rewrite lookup_map_seq_0, !list_lookup_fmap.
      destruct (batch !! i) as [id|] eqn:Hi; simpl; [|done]. intros [= <-].
      destruct (unit_of_batch batch id) as (u&Hu&<-); [rewrite Hb; set_solver|by eapply list_elem_of_lookup_2|].
      exists u, (Ready false). rewrite launch_lookup, decide_True, (unit_at_ID u Hu) by by eapply list_elem_of_lookup_2.
      split_and!; [done..|]. apply unit_follows.
    + set_solver.
    + intros i id Hi. unfold start_batch. rewrite lookup_map_seq_0, !list_lookup_fmap, Hi. done.
    + constructor.
  - done.
  - done.
  - done.
Qed.

Lemma settled_stuck u v ok g a m : goroutine_follows u (Settled false v ok) g → goroutine_step g a m = None.
Proof.
  destruct g as [[r|k|q k|d cs k|w k|k]|w k]; simpl; [done|naive_solver..].
Qed.

Lemma answer_ok phases s past current i g g' a events m :
  facts phases s → main_ok past current phases s → running s = true → pool s !! i = Some g →
  goroutine_step g a (checkpointByCell s) = Some (g', events, m) →
  ∃ phases', run_ok phases'
    {| todo := todo s; running := true; pool := <[i := g']> (pool s); results := results s; checkpointByCell := m;
       progress := progress s; outcome := None; log := log s ++ events |}.
Proof using Hexec Hcells.
  intros Hfacts [Hout Hb Hphs Hpast Hbat Hidle Hcomp Hfail] Hrun Hg Hstep. rewrite Hrun in Hb. simpl in Hb.
  destruct (Hbat Hrun) as [Hpool Hsent Hdone Hres]. destruct (Hpool i g Hg) as (u&ph&Hu&Hi&Hp&Hf).
  destruct (goroutine_step_ok u ph g a _ g' events m Hf Hstep) as (ph'&Hf'&Hus).
  pose proof (current_NoDup _ _ _ Hb) as Hnd. exists (<[ID u := ph']> phases).
  assert (Hidx : ∀ j, current !! j = Some (ID u) → j = i) by (intros j Hj; by eapply NoDup_lookup).
  split; [|left; exists past, current; split; simpl].
  - rewrite <-Hrun, <-Hout. eapply facts_step; [done|done|exact Hp| |done].
    intros v ok ->. by rewrite (settled_stuck _ _ _ _ _ _ Hf) in Hstep.
  - done.
  - done.
  - intros id. trans (is_Some (phases !! id)); [|by rewrite Hphs, Hrun]. destruct (decide (id = ID u)) as [->|Hne]; [|by rewrite lookup_insert_ne].
    rewrite lookup_insert_eq, Hp. split; by eexists.
  - intros id Hid. destruct (Hpast id Hid) as [v Hv]. exists v. rewrite lookup_insert_ne; [done|]. intros <-.
    apply (current_disjoint past current (todo s) (ID u)); [done|by eapply list_elem_of_lookup_2|done].
  - intros _. split.
    + intros j gj [[<- <-]|[Hne Hj]]%lookup_insert_Some.
      * exists u, ph'. by rewrite lookup_insert_eq.
      * destruct (Hpool j gj Hj) as (w&phw&Hw&Hjw&Hpw&Hfw). exists w, phw. split_and!; [done|done| |done].
        rewrite lookup_insert_ne; [done|]. intros He. rewrite <-He in Hjw. by apply Hne, eq_sym, Hidx.
    + intros r Hr. destruct (Hsent r Hr) as (j&phr&ok&Hj&Hpj&Hpr&Hov&Hok). exists j, phr, ok.
      assert (j ≠ i) as Hji by congruence. split_and!; [done|by rewrite lookup_insert_ne| |done|done].
      rewrite lookup_insert_ne; [done|]. intros He. rewrite <-He in Hj. by apply Hji, Hidx.
    + intros j id Hj [Hpj _]%lookup_insert_None. by apply (Hdone j).
    + done.
  - done.
  - done.
  - done.
Qed.

Lemma send_ok phases s past current i r :
  facts phases s → main_ok past current phases s → running s = true → pool s !! i = Some (Run (Ret r)) →
  run_ok phases
    {| todo := todo s; running := true; pool := delete i (pool s); results := results s ++ [r];
       checkpointByCell := checkpointByCell s; progress := progress s; outcome := None; log := log s |}.
Proof using Hexec Hcells.
  intros Hfacts [Hout Hb Hphs Hpast Hbat Hidle Hcomp Hfail] Hrun Hg. rewrite Hrun in Hb. simpl in Hb.
  destruct (Hbat Hrun) as [Hpool Hsent Hdone Hres]. destruct (Hpool i _ Hg) as (u&ph&Hu&Hi&Hp&(ok&Hov&Hid&Hok)).
  pose proof (current_NoDup _ _ _ Hb) as Hnd.
  split; [by eapply facts_same|left; exists past, current; split; simpl; try done].
  - intros id. by rewrite Hphs, Hrun.
  - intros _. split.
    + intros j g [Hne Hj]%lookup_delete_Some. by apply Hpool.
    + intros r' [Hr'| ->%list_elem_of_singleton]%elem_of_app.
      * destruct (Hsent r' Hr') as (j&phr&ok'&?&Hpj&?&?&?). exists j, phr, ok'. split_and!; try done.
        apply lookup_delete_None. by right.
      * exists i, ph, ok. rewrite Hid. split_and!; try done. apply lookup_delete_eq.
    + intros j id Hj [<-|Hpj]%lookup_delete_None.
      * rewrite Hi in Hj. injection Hj as <-. rewrite <-Hid, fmap_app, elem_of_app. right. left.
      * rewrite fmap_app, elem_of_app. left. by apply (Hdone j).
    + rewrite fmap_app. apply NoDup_app. split_and!; [done| |apply NoDup_singleton].
      intros id Hin ->%list_elem_of_singleton. apply list_elem_of_fmap in Hin as (r'&He&Hr').
      destruct (Hsent r' Hr') as (j&_&_&Hj&Hpj&_). rewrite <-He, Hid in Hj.
      assert (j = i) as -> by by eapply NoDup_lookup. congruence.
Qed.

Lemma filter_all {A} (P : A → Prop) `{!∀ x, base.Decision (P x)} l : Forall P l → filter P l = l.
Proof. induction 1 as [|x l Hx _ IH]; [done|]. by rewrite filter_cons_True, IH. Qed.

(** What the results of a batch add. *)
Lemma collect_results_spec items b r b' r' :
  collect_results items b r = (b', r') →
  CompletedUnitIDs r' = CompletedUnitIDs r ++ (resultUnitID <$> filter (λ i, resultErr i = None) items) ∧
  (b' = None ↔ b = None ∧ Forall (λ i, resultErr i = None) items) ∧
  (b' = None → FailedUnitID r' = FailedUnitID r).
Proof.
  revert b r. induction items as [|item items IH]; intros b r H; cbn [collect_results] in H.
  { injection H as <- <-. simpl. rewrite app_nil_r. split_and!; [done|split; [by split; [|constructor]|by intros [? _]]|done]. }
  destruct (resultErr item) as [e|] eqn:He.
  - apply IH in H as (Hc&Hb&Hf). rewrite filter_cons_False by congruence. split_and!; [done| |].
    + rewrite Hb, errors_Join_None. split; [|by intros [_ [? _]%Forall_cons]; congruence].
      intros [Hj _]. inversion_clear Hj as [|??? Hj']. by inversion_clear Hj'.
    + intros Hn. exfalso. apply Hb in Hn as [Hj _]. apply errors_Join_None in Hj. inversion_clear Hj as [|??? Hj']. by inversion_clear Hj'.
  - apply IH in H as (Hc&Hb&Hf). rewrite filter_cons_True by done. split_and!.
    + rewrite Hc. cbn [CompletedUnitIDs]. by rewrite <-app_assoc.
    + rewrite Hb, Forall_cons. naive_solver.
    + done.
Qed.

(** The facts of a run that just ended. *)
Lemma finish_ok phases s err :
  facts phases s → pool s = ∅ → NoDup (CompletedUnitIDs (progress s)) →
  (∀ id, id ∈ CompletedUnitIDs (progress s) → succeeded phases id) →
  (err = None → CompletedUnitIDs (progress s) ≡ₚ concat (Schedule.Batches schedule)) →
  (FailedUnitID (progress s) ≠ "" → is_Some err) → run_ok phases (finish err s).
Proof using Hexec Hcells.
  intros Hf Hp Hnd Hc Hs Hfail. split; [by eapply facts_same|right]. eexists _, err.
  split; [done|done|done|cbn [CompletedUnitIDs]..|done].
  - by rewrite sort_strings_perm.
  - intros id. rewrite elem_of_sort_strings. apply Hc.
  - intros He. rewrite sort_strings_perm. by apply Hs.
Qed.

Lemma past_NoDup past rest : Schedule.Batches schedule = past ++ rest → NoDup (concat past).
Proof using Hexec Hcells.
  intros He. pose proof batches_NoDup as Hnd. rewrite He, concat_app in Hnd. by apply NoDup_app in Hnd as [? _].
Qed.

Lemma collect_ok phases s past current batchErr r :
  facts phases s → main_ok past current phases s → running s = true → pool s = ∅ →
  collect_results (results s) None (progress s) = (batchErr, r) →
  let s' := {| todo := todo s; running := false; pool := ∅; results := []; checkpointByCell := checkpointByCell s;
               progress := r; outcome := None; log := log s |} in
  run_ok phases (match batchErr with Some e => finish (Some e) s' | None => s' end).
Proof using Hexec Hcells.
  intros Hfacts [Hout Hb Hphs Hpast Hbat Hidle Hcomp Hfail] Hrun Hpool Hcol s'. rewrite Hrun in Hb. simpl in Hb.
  destruct (Hbat Hrun) as [_ Hsent Hdone Hres]. apply collect_results_spec in Hcol as (Hc&Hn&Hf).
  pose proof (current_NoDup _ _ _ Hb) as Hnd.
  assert (Hids : resultUnitID <$> results s ≡ₚ current).
  { apply NoDup_Permutation; [done|done|]. intros id. split.
    - intros (x&->&Hx)%list_elem_of_fmap. destruct (Hsent x Hx) as (j&_&_&Hj&_). by eapply list_elem_of_lookup_2.
    - intros (j&Hj)%list_elem_of_lookup. apply (Hdone j); [done|]. by rewrite Hpool. }
  assert (Hsucc : ∀ x, x ∈ results s → resultErr x = None → succeeded phases (resultUnitID x)).
  { intros x Hx Hnone. destruct (Hsent x Hx) as (_&ph&ok&_&_&Hp&Hov&Hok). apply Hok in Hnone. subst ok.
    destruct ph as [[]| | | |[] v ok]; try done. injection Hov as ->. by exists v. }
  assert (Hfacts' : facts phases s') by by eapply facts_same.
  assert (Hcurrent : NoDup (concat past ++ current)).
  { pose proof (past_NoDup (past ++ [current]) (todo s)) as H. rewrite concat_app in H. simpl in H.
    rewrite app_nil_r in H. apply H. by rewrite <-app_assoc. }
  destruct batchErr as [e|].
  - apply finish_ok; try done; simpl.
    + rewrite Hc, Hcomp. eapply sublist_NoDup; [rewrite <-Hids in Hcurrent; exact Hcurrent|].
      apply sublist_app; [done|]. apply fmap_sublist, sublist_filter.
    + intros id. rewrite Hc, elem_of_app, Hcomp. intros [Hid|(x&->&[Hnone Hx]%list_elem_of_filter)%list_elem_of_fmap]; [by apply Hpast|by apply Hsucc].
  - destruct (proj1 Hn eq_refl) as [_ Hall]. split; [done|left]. exists (past ++ [current]), []. split; simpl; try done.
    + by rewrite <-app_assoc.
    + intros id. rewrite Hphs, Hrun, concat_app, elem_of_app. simpl. rewrite app_nil_r. naive_solver.
    + intros id. rewrite concat_app, elem_of_app. simpl. rewrite app_nil_r. intros [Hid|Hid]; [by apply Hpast|].
      rewrite <-Hids in Hid. apply list_elem_of_fmap in Hid as (x&->&Hx). apply Hsucc; [done|].
      rewrite Forall_forall in Hall. by apply Hall.
    + rewrite Hc, Hcomp, concat_app. simpl. rewrite app_nil_r, <-Hids. apply Permutation_app_head, fmap_Permutation.
      by rewrite filter_all.
    + by rewrite Hf.
Qed.

(** ** The invariant holds in every reachable state *)

Lemma perform_ok phases s a s' :
  run_ok phases s → perform schedule hasReservation stamp s a = Some s' → ∃ phases', run_ok phases' s'.
Proof using Hexec Hcells.
  intros [Hfacts [(past&current&Hm)|(r&err&Hfin)]] H; unfold perform in H; cycle 1.
  { by rewrite (finished_outcome _ _ _ _ Hfin) in H. }
  pose proof Hm as [Hout Hb Hphs Hpast Hbat Hidle Hcomp Hfail]. rewrite Hout in H.
  destruct (running s) eqn:Hrun.
  - destruct a as [e|i a|i| |]; try done.
    + destruct (pool s !! i) as [g|] eqn:Hg; simpl in H; [|done].
      destruct (goroutine_step g a _) as [[[g' events] m]|] eqn:Hs; simpl in H; [|done]. injection H as <-. by eapply answer_ok.
    + destruct (pool s !! i) as [[[r| | | | | ]|]|] eqn:Hg; try done. injection H as <-. exists phases. by eapply send_ok.
    + case_bool_decide as Hpool; [|done]. destruct (collect_results _ _ _) as [batchErr r] eqn:Hcol.
      injection H as <-. exists phases. by apply (collect_ok phases s past current).
  - destruct (Hidle eq_refl) as [Hpool Hres]. simpl in Hb.
    assert (Hnd : NoDup (CompletedUnitIDs (progress s))) by (rewrite Hcomp; by eapply past_NoDup).
    assert (Hsucc : ∀ id, id ∈ CompletedUnitIDs (progress s) → succeeded phases id) by (intros id; rewrite Hcomp; apply Hpast).
    destruct a as [[e|]| | | |], (todo s) as [|batch rest] eqn:Ht; try done; injection H as <-.
    + exists phases. apply finish_ok; try done.
    + exists (launch batch phases). apply (start_ok _ _ past); try done. split; try done; rewrite ?Hrun, ?Ht; try done.
      intros id. rewrite Hphs. naive_solver.
    + exists phases. apply finish_ok; try done.
      rewrite app_nil_r in Hb. intros _. by rewrite Hcomp, Hb.
Qed.

Lemma initial_ok : run_ok ∅ (initial schedule).
Proof using Hexec Hcells.
  split; [split; simpl|left; exists [], []; split; simpl]; try done.
  - by intros c [? ?].
  - intros ? ? ? ? ? ? [? ?]. done.
  - by intros id [? ?].
  - intros id. split; [by intros [? ?]|set_solver].
  - set_solver.
Qed.

Lemma performs_ok actions s : performs schedule hasReservation stamp (initial schedule) actions = Some s → ∃ phases, run_ok phases s.
Proof using Hexec Hcells.
  assert (Hgen : ∀ phases s0, run_ok phases s0 → performs schedule hasReservation stamp s0 actions = Some s → ∃ phases, run_ok phases s).
  { induction actions as [|a actions IH]; intros phases s0 H0 H; simpl in H; [injection H as <-; by exists phases|].
    destruct (perform _ _ _ _ _) as [s1|] eqn:E; simpl in H; [|done].
    destruct (perform_ok _ _ _ _ H0 E) as [phases' H1]. by eapply IH. }
  apply Hgen with ∅. apply initial_ok.
Qed.
End invariant.
