(* ===== verification/RunClaims.v ===== *)
(** * What executing a schedule promises

    The claims on [ExecuteSchedule], for every behaviour of the executor, the
    checkpoint writer, the reservation and the context, and every interleaving
    of the units of a batch. *)

From S2P Require Import Prelude GoStrings GoEncoding Sdk Sessions LocalCapacity Admission Schedule Units BuildSchedule BuildClaims ScheduleSessions Execution ScheduleRun ValidSchedule RunProtocol RunInvariant.

Local Open Scope Z_scope.

Section claims.
Context (schedule : Schedule) (hasReservation : bool) (stamp : string).
Abbreviation all_units := (Schedule.Units schedule).
Abbreviation performs := (performs schedule hasReservation stamp (initial schedule)).

Lemma valid_executable : validateExecutionSchedule schedule = None → executable all_units (Schedule.Batches schedule).
Proof. by intros (_&_&_&_&?)%validateExecutionSchedule_None. Qed.

Lemma reached actions s :
  validateExecutionSchedule schedule = None → NoDup (all_units ≫= CellIDs) → performs actions = Some s →
  ∃ phases, run_ok schedule stamp phases s.
Proof. intros Hv Hc. apply performs_ok; [by apply valid_executable|done]. Qed.

(** A unit that succeeded has its cells recorded as passed. *)
Lemma succeeded_passes phases s u c :
  facts schedule stamp phases s → u ∈ all_units → succeeded phases (ID u) → c ∈ CellIDs u →
  ∃ x, EvReturn u x None ∈ log s ∧ checkpointByCell s !! c = Some (unitCheckpoint u "PASS" stamp (complete_result u x) c).
Proof.
  intros Hf Hu [v Hv] Hc. destruct (facts_phase _ _ _ _ Hf u _ Hu Hv) as [Hret Hok].
  destruct (Hok eq_refl) as (x&->&Hp). exists x. split; [by apply Hret|].
  rewrite (facts_stored _ _ _ _ Hf u c Hu Hc), Hv. cbn [mbind option_bind].
  unfold record_at, recorded, terminal_status. by rewrite Hp.
Qed.

(** The pool of a reachable state belongs to one batch. *)
Lemma busy_phase phases s i u k :
  run_ok schedule stamp phases s → pool s !! i = Some (Busy u k) →
  u ∈ all_units ∧ (∃ l, phases !! ID u = Some (Executing l)) ∧
  ∃ batch, batch ∈ Schedule.Batches schedule ∧ batch !! i = Some (ID u) ∧
    ∀ j v k', pool s !! j = Some (Busy v k') → v ∈ all_units ∧ batch !! j = Some (ID v).
Proof.
  intros [Hf [(past&current&Hm)|(r&err&Hfin)]] Hi; [|by rewrite (finished_pool _ _ _ _ _ Hfin) in Hi].
  destruct (running s) eqn:Hrun; [|destruct (main_idle _ _ _ _ _ _ Hm Hrun) as [Hp _]; by rewrite Hp in Hi].
  pose proof (batch_pool _ _ _ _ _ _ (main_batch _ _ _ _ _ _ Hm Hrun)) as Hpool.
  destruct (Hpool i _ Hi) as (w&ph&Hw&Hc&Hp&(l&->&->&_)). split_and!; [done|by exists l|].
  exists current. split_and!; [|done|].
  - rewrite (main_batches _ _ _ _ _ _ Hm), Hrun. set_solver.
  - intros j v k' Hj. destruct (Hpool j _ Hj) as (w'&ph'&Hw'&Hc'&_&(_&_&->&_)). done.
Qed.



(** The checkpoints of a finished run are those of its cells. *)
Lemma stored_cell phases s c checkpoint :
  facts schedule stamp phases s → checkpointByCell s !! c = Some checkpoint → SchedulerCheckpoint.CellID checkpoint = c.
Proof.
  intros Hf Hs. destruct (facts_cells _ _ _ _ Hf c) as (u&Hu&Hc); [by eexists|].
  rewrite (facts_stored _ _ _ _ Hf u c Hu Hc) in Hs. destruct (phases !! ID u) as [ph|]; simpl in Hs; [|done].
  unfold record_at in Hs. destruct (recorded u ph); [|done]. by injection Hs as <-.
Qed.

Lemma stored_cells (m : gmap string SchedulerCheckpoint) :
  (∀ c checkpoint, m !! c = Some checkpoint → SchedulerCheckpoint.CellID checkpoint = c) →
  SchedulerCheckpoint.CellID <$> (map_to_list m).*2 = (map_to_list m).*1.
Proof.
  intros Hm. rewrite <-list_fmap_compose. apply list_fmap_ext. intros i [c checkpoint] Hi. simpl. apply Hm.
  apply elem_of_map_to_list. by eapply list_elem_of_lookup_2.
Qed.

Lemma finished_passes phases s r err u c :
  facts schedule stamp phases s → finished_ok schedule phases s r err → u ∈ all_units → ID u ∈ CompletedUnitIDs r →
  c ∈ CellIDs u → ∃ checkpoint, checkpoint ∈ ExecutedCheckpoints r ∧
    SchedulerCheckpoint.CellID checkpoint = c ∧ SchedulerCheckpoint.Status checkpoint = "PASS".
Proof.
  intros Hf Hfin Hu Hid Hc. pose proof (finished_completed _ _ _ _ _ Hfin _ Hid) as Hs.
  destruct (succeeded_passes _ _ _ _ Hf Hu Hs Hc) as (x&_&Hst).
  exists (unitCheckpoint u "PASS" stamp (complete_result u x) c). split; [|done]. rewrite (finished_checkpoints _ _ _ _ _ Hfin), elem_of_sort_by. apply list_elem_of_fmap.
  exists (c, unitCheckpoint u "PASS" stamp (complete_result u x) c). by rewrite elem_of_map_to_list.
Qed.
End claims.

Section outcome.
Context {W : Type} (options : ScheduleExecutionOptions W) (ctx : context) (schedule : Schedule).

(** What a call of [ExecuteSchedule] comes down to. *)
Lemma ExecuteSchedule_cases actions w r err w' :
  ExecuteSchedule options ctx schedule actions w = Some (r, err, w') →
  (CompletedUnitIDs r = [] ∧ FailedUnitID r = "" ∧ is_Some err) ∨
  ∃ s e, validateExecutionSchedule schedule = None ∧
    performs schedule (HasReservation options) (Stamp options) (initial schedule) actions = Some s ∧
    outcome s = Some (r, e) ∧ (err = None → e = None) ∧ (is_Some e → is_Some err).
Proof.
  assert (Hrel : ∀ e w err w', release_claims_after options schedule e w = (err, w') → (err = None → e = None) ∧ (is_Some e → is_Some err)).
  { intros e w0 err0 w0'. unfold release_claims_after. destruct (RunSessionRegistry options); [|intros [= -> _]; by split].
    case_bool_decide; [intros [= -> _]; by split|]. destruct (ReleaseScheduleClaims _ _ _ _) as [released w1]. intros [= <- _].
    split.
    - intros Hj. apply errors_Join_None in Hj. by inversion_clear Hj.
    - intros [x ->]. by destruct released; eexists. }
  unfold ExecuteSchedule. destruct (check_call options ctx); [intros [= <- <- _]; left; split_and!; [done|done|by eexists]|].
  destruct (check_schedule options schedule) as [e|] eqn:Ec.
  { destruct (release_claims_after _ _ _ _) as [err0 w0] eqn:Er. intros [= <- <- _]. left. split_and!; [done|done|].
    by eapply Hrel; [exact Er|eexists]. }
  unfold check_schedule in Ec. apply err_seq_None in Ec as [Hv _].
  destruct (performs _ _ _ _ _) as [s|] eqn:Ep; [|done]. cbn [mbind option_bind].
  destruct (outcome s) as [[r0 e]|] eqn:Eo; [|done]. cbn [mbind option_bind].
  destruct (release_claims_after _ _ _ _) as [err0 w0] eqn:Er. intros [= <- <- _]. right. exists s, e.
  split_and!; try done; by eapply Hrel.
Qed.

End outcome.

(** ** From the build to the end of the run *)


(** ** Examples *)

(** The two units of [ReuseExample.schedule], in one batch. *)
Module RunExample.
Import ReuseExample.

Definition stamp : string := "2026-01-02T03:04:05Z".

Definition done_by (fixture : string) : ScheduleExecutionResult :=
  {| ScheduleExecutionResult.StackID := "stack-1"; ScheduleExecutionResult.ReuseFingerprint := None;
     ScheduleExecutionResult.OperationIDs := ["op-" +:+ fixture]; ScheduleExecutionResult.ResourceRefs := [];
     ScheduleExecutionResult.BackupRefs := []; ScheduleExecutionResult.RestoreRefs := [];
     ScheduleExecutionResult.TelemetryRefs := []; ScheduleExecutionResult.EdgeRefs := [];
     ScheduleExecutionResult.ReuseMode := ""; ScheduleExecutionResult.CleanupState := "complete";
     ScheduleExecutionResult.OwnershipMarker := "run-" +:+ fixture |}.

(** Both units enter the executor ... *)
Definition both_busy : list action :=
  [Next None; Answer 0 (AErr None); Answer 1 (AErr None); Answer 1 (AErr None); Answer 0 (AErr None);
   Answer 0 AStart; Answer 1 AStart].

(** ... and both pass, the second one first. *)
Definition both_pass : list action :=
  both_busy ++ [Answer 1 (AExec (done_by "fixture-1") None); Answer 1 (AErr None); Send 1;
    Answer 0 (AExec (done_by "fixture-2") None); Answer 0 (AErr None); Send 0; Collect; Finish].

Definition run_options : ScheduleExecutionOptions MemorySessionRegistry :=
  {| HasExecutor := true; HasCheckpointWriter := true; RunSessionRegistry := Some (Some memory);
     HasReservation := false; ClaimReleaseTimeout := 0; CheckpointWriteTimeout := 0; Stamp := stamp |}.

Abbreviation run := (performs schedule false stamp (initial schedule)).

Lemma valid : validateExecutionSchedule schedule = None.
Proof. vm_cast_no_check (eq_refl (None : gerror)). Qed.

Lemma cells_once : NoDup (Schedule.Units schedule ≫= CellIDs).
Proof. apply (bool_decide_unpack _). vm_cast_no_check I. Qed.

Definition reached_by (actions : list action) : system := default (initial schedule) (run actions).

Lemma runs actions : bool_decide (is_Some (run actions)) = true → run actions = Some (reached_by actions).
Proof. intros [s Hs]%bool_decide_eq_true_1. unfold reached_by. by rewrite Hs. Qed.

Lemma busy_runs : run both_busy = Some (reached_by both_busy).
Proof. apply runs. vm_cast_no_check (eq_refl true). Qed.

Definition unit_1 : ExecutionUnit := nth 0 (Schedule.Units schedule) ExecutionUnit.zero.
Definition cell_1 : string := nth 0 (CellIDs unit_1) "".

Lemma unit_1_in : unit_1 ∈ Schedule.Units schedule.
Proof. apply list_elem_of_here. Qed.

Lemma cell_1_in : cell_1 ∈ CellIDs unit_1.
Proof. apply list_elem_of_here. Qed.

(** Both units are inside the executor. *)
Lemma both_inside : fst <$> map_to_list (pool (reached_by both_busy)) = [1; 0]%nat.
Proof. vm_compute. reflexivity. Qed.



(** The whole call, from the registry with both sessions claimed. *)
Definition claimed : MemorySessionRegistry := claimed_at registry "certification-schedule/run-7" {[hash1; hash2]}.
Definition executed := ExecuteSchedule run_options (Some None) schedule both_pass claimed.
Definition no_answer : ScheduleExecution := {| ExecutedCheckpoints := []; CompletedUnitIDs := []; FailedUnitID := "" |}.
Definition answer : ScheduleExecution := Eval vm_compute in from_option (λ o, o.1.1) no_answer executed.
Definition left_over : MemorySessionRegistry := from_option snd ∅ executed.

Lemma executed_answer :
  ExecuteSchedule run_options (Some None) schedule both_pass claimed = Some (answer, None, left_over).
Proof. vm_cast_no_check (eq_refl executed). Qed.


End RunExample.
