(* ===== verification/RunTermination.v ===== *)
(** * Every run ends

    A unit makes at most seven moves before it sends its result; a weight on
    the state of a run decreases with every action. *)

From S2P Require Import Prelude GoStrings Sessions LocalCapacity Schedule Units BuildSchedule ScheduleSessions Execution ScheduleRun.

Local Open Scope nat_scope.

(** [bounded n p]: [p] makes at most [n] moves; an execution is two. *)
Fixpoint bounded (n : nat) (p : prog scheduleUnitResult) : Prop :=
  match p with
  | Ret _ => True
  | CtxErr k => match n with S n => ∀ x, bounded n (k x) | O => False end
  | Acquire _ k => match n with S n => ∀ x, bounded n (k x) | O => False end
  | Write _ _ k => match n with S n => ∀ x, bounded n (k x) | O => False end
  | Execute _ k => match n with S (S n) => ∀ x, bounded n (k x) | _ => False end
  | ReleaseLease k => match n with S n => ∀ x, bounded n (k x) | O => False end
  end.

Definition goroutine_bounded (n : nat) (g : goroutine) : Prop :=
  match g with
  | Run p => bounded n p
  | Busy _ k => match n with S n => ∀ x, bounded n (k x) | O => False end
  end.

Lemma unit_bounded stamp hasReservation request u :
  bounded 7 (runScheduleUnitWithLocalCapacity stamp hasReservation request u).
Proof.
  unfold runScheduleUnitWithLocalCapacity, acquire_capacity.
  set (after := λ lease, _).
  assert (Hafter : ∀ lease, bounded 6 (after lease)).
  { intros [leased|e]; [|done]. subst after. cbn beta iota. unfold runScheduleUnit, write, terminalWrite. cbn [mbind prog_bind bounded].
    intros [e|]; cbn [mbind prog_bind]; [by destruct leased|].
    cbn [bounded]. intros [e|]; cbn [mbind prog_bind]; [by destruct leased|].
    cbn [bounded]. intros [x err]. cbn [mbind prog_bind].
    destruct err as [e|]; [|destruct (validateScheduleExecutionResult u _)]; cbn [mbind prog_bind bounded];
      intros [e'|]; cbn [mbind prog_bind]; by destruct leased. }
  assert (Hmore : ∀ lease, bounded 7 (after lease)).
  { assert (Hmono : ∀ p n, bounded n p → bounded (S n) p).
    { clear. induction p as [r|k IH|q k IH|d cs k IH|v k IH|k IH]; intros n; [done|..]; destruct n as [|n]; try done; try (intros H x; by apply IH).
      destruct n as [|n]; [done|]. intros H x. by apply IH. }
    intros lease. apply Hmono, Hafter. }
  clearbody after. destruct request as [request|]; [|apply Hmore].
  destruct (LocalCapacityRequest_Validate request); [apply Hmore|].
  destruct (request_empty request); [apply Hmore|]. destruct hasReservation; [|apply Hmore].
  cbn [negb mbind prog_bind bounded]. intros lease. apply Hafter.
Qed.

Lemma goroutine_step_bounded n g a m g' events m' :
  goroutine_bounded n g → goroutine_step g a m = Some (g', events, m') →
  ∃ n', n = S n' ∧ goroutine_bounded n' g'.
Proof.
  destruct g as [p|v k]; [destruct p as [r|k|q k|d cs k|v k|k]|]; destruct a as [err|lease| |x err]; simpl; try done;
    intros Hb [= <- <- <-]; destruct n as [|n]; try done;
    exists n; (split; [done|]); solve [apply Hb | exact Hb].
Qed.

Section termination.
Context (schedule : Schedule) (hasReservation : bool) (stamp : string).
Abbreviation perform := (perform schedule hasReservation stamp).

(** The moves left to the goroutines: each also sends its result. *)
Definition pool_weight (fuel : gmap nat nat) : nat := map_fold (λ _ n total, S n + total) 0 fuel.

Lemma pool_weight_insert fuel i n : fuel !! i = None → pool_weight (<[i := n]> fuel) = S n + pool_weight fuel.
Proof. intros Hi. unfold pool_weight. rewrite map_fold_insert_L; [done|intros; lia|done]. Qed.

Lemma pool_weight_delete fuel i n : fuel !! i = Some n → pool_weight fuel = S n + pool_weight (delete i fuel).
Proof. intros Hi. rewrite <-(pool_weight_insert (delete i fuel) i n) by apply lookup_delete_eq. by rewrite insert_delete_id. Qed.

(** The moves a batch that was not started yet takes at most. *)
Definition batches_weight (batches : list (list string)) : nat :=
  foldr (λ batch total, 2 + 8 * length batch + total) 0 batches.

(** [s] takes at most [n] more actions. *)
Definition weighs (s : system) (n : nat) : Prop :=
  match outcome s with
  | Some _ => n = 0
  | None => ∃ fuel, dom fuel = dom (pool s) ∧
      (∀ i g k, pool s !! i = Some g → fuel !! i = Some k → goroutine_bounded k g) ∧
      n = pool_weight fuel + (if running s then 1 else 0) + batches_weight (todo s) + 1
  end.

Lemma spawn_weight (gs : list goroutine) start :
  ∃ fuel : gmap nat nat, fuel = map_seq start (replicate (length gs) 7) ∧ pool_weight fuel = 8 * length gs.
Proof.
  eexists. split; [reflexivity|]. revert start. induction gs as [|g gs IH]; intros start; simpl; [done|].
  rewrite pool_weight_insert, IH; [lia|]. apply lookup_map_seq_None. lia.
Qed.

Lemma perform_weighs s a s' n : weighs s n → perform s a = Some s' → ∃ n', n = S n' ∧ ∃ m, m ≤ n' ∧ weighs s' m.
Proof.
  unfold weighs, ScheduleRun.perform. destruct (outcome s) as [o|] eqn:Hout; [done|]. intros (fuel&Hdom&Hb&->).
  assert (Hfuel : ∀ i g, pool s !! i = Some g → ∃ k, fuel !! i = Some k ∧ goroutine_bounded k g).
  { intros i g Hi. assert (is_Some (fuel !! i)) as [k Hk]; [|exists k; by eauto].
    apply elem_of_dom. rewrite Hdom. apply elem_of_dom. by eexists. }
  destruct (running s).
  - destruct a as [e|i a|i| |]; try done.
    + destruct (pool s !! i) as [g|] eqn:Hg; simpl; [|done].
      destruct (goroutine_step g a _) as [[[g' events] m]|] eqn:Hs; simpl; [|done]. intros [= <-]. simpl.
      destruct (Hfuel i g Hg) as (k&Hk&Hbk). destruct (goroutine_step_bounded _ _ _ _ _ _ _ Hbk Hs) as (k'&->&Hbk').
      eexists. split; [apply Nat.add_1_r|]. eexists. split; [|exists (<[i := k']> fuel); split_and!; [| |reflexivity]].
      * rewrite (pool_weight_delete fuel i (S k') Hk), <-(insert_delete_eq fuel i k'), pool_weight_insert by apply lookup_delete_eq. lia.
      * rewrite !dom_insert_L, Hdom. done.
      * intros j gj kj. destruct (decide (i = j)) as [<-|Hne].
        { rewrite !lookup_insert_eq. by intros [= <-] [= <-]. }
        rewrite !lookup_insert_ne by done. apply Hb.
    + destruct (pool s !! i) as [[[r| | | | | ]|]|] eqn:Hg; try done. intros [= <-]. simpl.
      destruct (Hfuel i _ Hg) as (k&Hk&_).
      eexists. split; [apply Nat.add_1_r|]. eexists. split; [|exists (delete i fuel); split_and!; [| |reflexivity]].
      * rewrite (pool_weight_delete fuel i k Hk). lia.
      * by rewrite !dom_delete_L, Hdom.
      * intros j gj kj [_ Hj]%lookup_delete_Some [_ Hkj]%lookup_delete_Some. by eapply Hb.
    + case_bool_decide as Hpool; [|done]. destruct (collect_results _ _ _) as [batchErr r]. intros [= <-].
      eexists. split; [apply Nat.add_1_r|]. destruct batchErr as [e|]; simpl.
      * exists 0. split; [lia|done].
      * eexists. split; [|exists ∅; split_and!; [by rewrite !dom_empty_L|by intros ? ? ? ?%lookup_empty_Some|reflexivity]].
        unfold pool_weight at 1. rewrite map_fold_empty. lia.
  - destruct a as [[e|]| | | |], (todo s) as [|batch rest]; try done; intros [= <-]; simpl;
      (eexists; split; [apply Nat.add_1_r|]); try (by exists 0; split; [lia|]).
    destruct (spawn_weight (spawn schedule hasReservation stamp <$> (unit_at schedule <$> batch)) 0) as (fuel'&->&Hw).
    eexists. split; [|eexists; split_and!; [| |reflexivity]].
    + rewrite Hw, !length_fmap. lia.
    + apply set_eq. intros i. rewrite !elem_of_dom. unfold start_batch.
      rewrite !lookup_map_seq_0, !lookup_lt_is_Some, length_replicate. done.
    + intros i g k. unfold start_batch. rewrite !lookup_map_seq_0, !list_lookup_fmap.
      destruct (batch !! i); simpl; [|done]. intros [= <-] [-> _]%lookup_replicate. apply unit_bounded.
Qed.

(** An unfinished run can go on. *)
Lemma perform_progress s : outcome s = None → ∃ a s', perform s a = Some s'.
Proof.
  intros Hout. unfold ScheduleRun.perform. rewrite Hout. destruct (running s).
  - destruct (map_choose_or_empty (pool s)) as [(i&g&Hg)|He].
    + destruct g as [[r|k|q k|d cs k|v k|k]|v k].
      * exists (Send i). rewrite Hg. by eexists.
      * exists (Answer i (AErr None)). rewrite Hg. by eexists.
      * exists (Answer i (ALease (Ok true))). rewrite Hg. by eexists.
      * exists (Answer i (AErr None)). rewrite Hg. by eexists.
      * exists (Answer i AStart). rewrite Hg. by eexists.
      * exists (Answer i (AErr None)). rewrite Hg. by eexists.
      * exists (Answer i (AExec ScheduleExecutionResult.zero None)). rewrite Hg. by eexists.
    + exists Collect. rewrite bool_decide_eq_true_2 by done. destruct (collect_results _ _ _) as [[e|] r]; by eexists.
  - destruct (todo s) as [|batch rest]; [exists Finish|exists (Next None)]; by eexists.
Qed.

Lemma performs_weighs actions s s' n :
  weighs s n → performs schedule hasReservation stamp s actions = Some s' → length actions ≤ n.
Proof.
  revert s n. induction actions as [|a actions IH]; intros s n Hw H; simpl in *; [lia|].
  destruct (ScheduleRun.perform _ _ _ _ _) as [s1|] eqn:E; [|done]. simpl in H.
  destruct (perform_weighs _ _ _ _ Hw E) as (n'&->&m&Hm&Hw'). pose proof (IH s1 m Hw' H). lia.
Qed.

(** C8: a run ends.  Whatever the environment answers and however the units
    interleave, a run takes at most one action plus two per batch and eight per
    unit, and a run that has not returned can always take another: no goroutine
    and no batch waits for something that never comes. *)
Theorem run_terminates actions s :
  performs schedule hasReservation stamp (initial schedule) actions = Some s →
  length actions ≤ 1 + 2 * length (Schedule.Batches schedule) + 8 * length (concat (Schedule.Batches schedule)) ∧
  (outcome s = None → ∃ a s', perform s a = Some s').
Proof.
  intros H. split; [|apply perform_progress].
  assert (Hb : ∀ batches, batches_weight batches = 2 * length batches + 8 * length (concat batches)).
  { induction batches as [|b bs IH]; simpl; [done|]. rewrite IH, length_app. lia. }
  eapply performs_weighs in H.
  - etrans; [exact H|]. apply Nat.eq_le_incl. reflexivity.
  - unfold weighs. simpl. exists ∅. split_and!; [done|by intros ? ? ? ?%lookup_empty_Some|].
    unfold pool_weight. rewrite map_fold_empty, Hb. lia.
Qed.
End termination.

(** ** Example *)

Module TerminationExample.
Import ReuseExample.

(** The run of the two units of [ReuseExample.schedule] starts its batch, and
    the first unit finds its context cancelled. *)
Definition interrupted : list action := [Next None; Answer 0 (AErr (Some (ErrSentinel "context.Canceled"))); Send 0].

Lemma interrupted_runs : bool_decide (is_Some (performs schedule false "" (initial schedule) interrupted)) = true.
Proof. vm_cast_no_check (eq_refl true). Qed.

Lemma run_terminates_witness : ∃ s,
  performs schedule false "" (initial schedule) interrupted = Some s ∧
  (outcome s = None → ∃ a s', perform schedule false "" s a = Some s').
Proof.
  destruct (performs schedule false "" (initial schedule) interrupted) as [s|] eqn:H.
  - exists s. split; [reflexivity|]. exact (proj2 (run_terminates schedule false "" interrupted s H)).
  - exfalso. destruct (bool_decide_eq_true_1 _ interrupted_runs) as [s Hs]. by rewrite H in Hs.
Defined.
End TerminationExample.
