(* ===== verification/Deploy.v ===== *)
(** * The deployment orchestrator (internal/deploy)

    [Orchestrator.Run] takes a deployment through its gates, takes the
    deployment lock, runs the seven steps with the lifecycle hooks around them,
    cleans the candidate up and releases the lock.  The lock, the steps and the
    hooks are clients over an arbitrary world; every call is an event. *)

From S2P Require Import Prelude GoStrings Regex Dfs Sdk.

Section deploy.
(** Payloads the orchestrator only passes on: the application, the preview
    metadata and the change summaries of the automation engine. *)
Context {Application PreviewMetadata ChangeSummary : Type} (NoChange : ChangeSummary).
(** The state behind the clients. *)
Context {W : Type}.

(** ** Data *)

(* internal/deploy/orchestrator.go, lines 29-40: Request *)
Record Request := {
  Target : TargetDescriptor;
  Preview : option PreviewMetadata;
  ImageDigest : string;
  App : Application;
  Artifact : BuildArtifact;
  Production : bool;
  Approved : bool;
  Rollback : bool;
  AcknowledgeForwardOnlyDB : bool;
  AcknowledgeMaintenanceDrain : bool;
}.

(* sdk/types.go, lines 336-339: LifecycleHookRequest *)
Record LifecycleHookRequest := {
  HookApp : Application;
  HookArtifact : BuildArtifact;
}.

(* internal/deploy/orchestrator.go, lines 58-61: Result *)
Record Result := { PreviewSummary : ChangeSummary; UpdateSummary : ChangeSummary }.

Definition NoResult : Result := {| PreviewSummary := NoChange; UpdateSummary := NoChange |}.

(** A client call changes the world and may fail. *)
Abbreviation action A := (W → A * W).

(** [release] is the function [Acquire] returns, which may be nil. *)
(* internal/deploy/orchestrator.go, lines 42-44: Lock *)
Record Lock := { Acquire : Request → action (result (option (action gerror))) }.

(* internal/deploy/orchestrator.go, lines 46-56: Steps *)
Record Steps := {
  StepValidate : Request → action gerror;
  StepPreview : Request → action (result ChangeSummary);
  RegisterCandidate : Request → action gerror;
  RunMigrations : Request → action gerror;
  CleanupCandidate : Request → action gerror;
  UpdateServices : Request → action (result ChangeSummary);
  Stabilize : Request → action gerror;
  Health : Request → action gerror;
  RecordResult : Request → Result → action gerror;
}.

(* sdk/types.go, lines 341-347: LifecycleHook *)
Record LifecycleHook := {
  Descriptor : LifecycleHookDescriptor;
  HookValidate : LifecycleHookRequest → action gerror;
  HookRun : LifecycleHookRequest → action gerror;
}.

(* internal/deploy/hooks.go, lines 23-25: hookPlan *)
Record hookPlan := { ordered : list LifecycleHook }.

(* internal/deploy/orchestrator.go, lines 63-67: Orchestrator *)
Record Orchestrator := {
  lock : option Lock;
  steps : option Steps;
  hooks : option hookPlan;
}.

(** The calls of a run, with their answers. *)
Inductive event :=
  | EvValidate (e : gerror)
  | EvHookValidate (id : string) (e : gerror)
  | EvAcquire (acquired : bool)
  | EvHook (id : string) (e : gerror)
  | EvStep (target : string) (e : gerror)
  | EvCleanup (e : gerror)
  | EvRelease (e : gerror).

Abbreviation M := (eff event W).

(** ** Errors *)

(* internal/deploy/orchestrator.go, lines 15-15: ErrApprovalRequired *)
Definition ErrApprovalRequired := ErrSentinel "deploy.ErrApprovalRequired".
(* internal/deploy/orchestrator.go, lines 16-16: ErrDigestRequired *)
Definition ErrDigestRequired := ErrSentinel "deploy.ErrDigestRequired".
(* internal/deploy/orchestrator.go, lines 17-17: ErrForwardOnlyRollbackAck *)
Definition ErrForwardOnlyRollbackAck := ErrSentinel "deploy.ErrForwardOnlyRollbackAck".
(* internal/deploy/orchestrator.go, lines 18-18: ErrMaintenanceDrainAck *)
Definition ErrMaintenanceDrainAck := ErrSentinel "deploy.ErrMaintenanceDrainAck".
(* internal/deploy/orchestrator.go, lines 19-19: ErrLockRelease *)
Definition ErrLockRelease := ErrSentinel "deploy.ErrLockRelease".

(* internal/deploy/orchestrator.go, lines 27-27: digestPattern *)
Definition digestPattern : re :=
  seqs [plus (Cls (none_of (either re_space (chr "@")))); lit "@sha256:";
        rep 64 (Cls (either (byte_in 97 102) digit))].

(** ** Hook plans *)

(* internal/deploy/hooks.go, lines 14-14: HookTargetPreview *)
Definition HookTargetPreview := "deploy.preview".
(* internal/deploy/hooks.go, lines 15-15: HookTargetCandidate *)
Definition HookTargetCandidate := "deploy.candidate".
(* internal/deploy/hooks.go, lines 16-16: HookTargetMigrations *)
Definition HookTargetMigrations := "deploy.migrations".
(* internal/deploy/hooks.go, lines 17-17: HookTargetUpdate *)
Definition HookTargetUpdate := "deploy.update".
(* internal/deploy/hooks.go, lines 18-18: HookTargetStabilize *)
Definition HookTargetStabilize := "deploy.stabilize".
(* internal/deploy/hooks.go, lines 19-19: HookTargetHealth *)
Definition HookTargetHealth := "post-deploy.health".
(* internal/deploy/hooks.go, lines 20-20: HookTargetRecord *)
Definition HookTargetRecord := "post-deploy.record".

(* internal/deploy/hooks.go, lines 145-152: validHookTarget *)
Definition validHookTarget (target : string) : bool :=
  bool_decide (target ∈ [HookTargetPreview; HookTargetCandidate; HookTargetMigrations;
    HookTargetUpdate; HookTargetStabilize; HookTargetHealth; HookTargetRecord]).

(* internal/deploy/hooks.go, lines 154-159: phaseForTarget *)
Definition phaseForTarget (target : string) : string :=
  if bool_decide (target = HookTargetHealth) || bool_decide (target = HookTargetRecord)
  then PhasePostDeploy else PhaseDeploy.

(** The dependencies of a descriptor; an unknown ID has none. *)
Definition descriptor_deps (byID : gmap string LifecycleHookDescriptor) (id : string) : list string :=
  match byID !! id with Some d => DependsOn d | None => [] end.

(** The walk sets [state[id]] to 1 while a hook is on the stack and to 2
    when it is appended to [ordered]. *)
(* internal/deploy/hooks.go, lines 107-143: topologicalHooks *)
Definition topologicalHooks (descriptors : list LifecycleHookDescriptor)
    (hooks : gmap string LifecycleHook) : result (list LifecycleHook) :=
  let byID := by_id HookID descriptors in
  let ids := sort_strings (HookID <$> descriptors) in
  let nodes := ids ++ (descriptors ≫= DependsOn) in
  match dfs (descriptor_deps byID) (length nodes) ids with
  | Some (Cycle id) => Err (errorf "deployment hook dependency cycle at %q" [GStr id])
  | Some (Visited order) => Ok (omap (λ id, hooks !! id) order)
  | None => Err (ErrNew "fuel")
  end.

(** The checks on one hook before it enters the plan. *)
(* internal/deploy/hooks.go, lines 37-46: newHookPlan *)
Definition check_hook (h : LifecycleHook) : gerror :=
  let d := Descriptor h in
  fail_if (negb (bool_decide (Phase d = PhaseDeploy)) && negb (bool_decide (Phase d = PhasePostDeploy)))
    (errorf "deployment hook %q must use deploy or post-deploy phase" [GStr (HookID d)])
  ;;? fail_if (negb (validHookTarget (RelativeTo d)))
    (errorf "deployment hook %q targets unknown operation %q" [GStr (HookID d); GStr (RelativeTo d)])
  ;;? fail_if (negb (bool_decide (Phase d = phaseForTarget (RelativeTo d))))
    (errorf "deployment hook %q uses phase %q for %q; expected %q"
       [GStr (HookID d); GStr (Phase d); GStr (RelativeTo d); GStr (phaseForTarget (RelativeTo d))]).

(** Collect the hooks in order, refusing nil and misplaced ones. *)
(* internal/deploy/hooks.go, lines 33-49: newHookPlan *)
Fixpoint collect_hooks (hooks : list (option LifecycleHook)) : result (list LifecycleHook) :=
  match hooks with
  | [] => Ok []
  | None :: _ => Err (ErrNew "lifecycle hook cannot be nil")
  | Some h :: hooks => check_hook h ;;! (rest ← collect_hooks hooks; mret (h :: rest))
  end.

(* internal/deploy/hooks.go, lines 27-65: newHookPlan *)
Definition newHookPlan (hooks : list (option LifecycleHook)) : result hookPlan :=
  match hooks with
  | [] => Ok {| ordered := [] |}
  | _ =>
      collected ← collect_hooks hooks;
      let descriptors := Descriptor <$> collected in
      let byID := by_id (λ h, HookID (Descriptor h)) collected in
      ValidateLifecycleHooks descriptors ;;!
      first_error (λ d,
        first_error (λ dependency,
          fail_if (absent byID dependency)
            (errorf "deployment hook %q depends on unregistered hook %q"
               [GStr (HookID d); GStr dependency])) (DependsOn d)) descriptors ;;!
      (hs ← topologicalHooks descriptors byID; mret {| ordered := hs |})
  end.

(** ** Running hooks *)

(** [for attempt := 0; attempt < attempts; attempt++], with [err] carried
    out of the loop. *)
(* internal/deploy/hooks.go, lines 89-96: hookPlan.run *)
Fixpoint attempt_hook (h : LifecycleHook) (request : LifecycleHookRequest)
    (attempts : nat) (err : gerror) : M gerror :=
  match attempts with
  | O => mret err
  | S attempts =>
      err ← call (EvHook (HookID (Descriptor h))) (HookRun h request);
      match err with
      | None => mret None
      | Some _ => attempt_hook h request attempts err
      end
  end.

(* internal/deploy/hooks.go, lines 84-87: hookPlan.run *)
Definition hook_attempts (d : LifecycleHookDescriptor) : nat :=
  Z.to_nat (if (MaxAttempts d <? 1)%Z then 1 else MaxAttempts d).

(* internal/deploy/hooks.go, lines 72-104: hookPlan.run *)
Fixpoint run_ordered (hs : list LifecycleHook) (request : LifecycleHookRequest)
    (target relationship : string) (skipped : bool) : M (result bool) :=
  match hs with
  | [] => mret (Ok skipped)
  | h :: hs =>
      let d := Descriptor h in
      if negb (bool_decide (RelativeTo d = target)) then
        run_ordered hs request target relationship skipped
      else if bool_decide (Relationship d = HookDisable) then
        run_ordered hs request target relationship true
      else if negb (bool_decide (Relationship d = relationship))
              && negb (bool_decide (relationship = HookBefore)
                       && bool_decide (Relationship d = HookReplace)) then
        run_ordered hs request target relationship skipped
      else
        err ← attempt_hook h request (hook_attempts d) None;
        match err with
        | Some e => mret (Err (wrapf "run lifecycle hook %q: %w" [GStr (HookID d)] e))
        | None =>
            run_ordered hs request target relationship
              (skipped || bool_decide (Relationship d = HookReplace))
        end
  end.

(* internal/deploy/hooks.go, lines 67-105: hookPlan.run *)
Definition run_plan (p : hookPlan) (request : LifecycleHookRequest)
    (target relationship : string) : M (result bool) :=
  run_ordered (ordered p) request target relationship false.

(* internal/deploy/orchestrator.go, lines 216-221: Orchestrator.runHooks *)
Definition runHooks (o : option hookPlan) (request : LifecycleHookRequest)
    (target relationship : string) : M (result bool) :=
  match o with
  | None => mret (Ok false)
  | Some p => run_plan p request target relationship
  end.

(** ** The run *)

(** The variables of [Run] the steps assign. *)
Record progress := { candidateRegistered : bool; runResult : Result }.

Definition step := Request → progress → M (gerror * progress).

(** A step that leaves the variables alone. *)
Definition plain_step (target : string) (client : Request → progress → action gerror) : step :=
  λ request p,
    err ← call (EvStep target) (client request p);
    mret (err, p).

(** A step whose change summary is kept. *)
(* internal/deploy/orchestrator.go, lines 143-146: Orchestrator.Run *)
Definition summary_step (target : string) (client : Request → action (result ChangeSummary))
    (keep : ChangeSummary → Result → Result) : step :=
  λ request p,
    r ← call (λ r, EvStep target (err_of r)) (client request);
    match r with
    | Err e => mret (Some e, p)
    | Ok summary =>
        mret (None, {| candidateRegistered := candidateRegistered p;
                       runResult := keep summary (runResult p) |})
    end.

(* internal/deploy/orchestrator.go, lines 154-157: Orchestrator.Run *)
Definition register_step (client : Request → action gerror) : step :=
  λ request p,
    err ← call (EvStep HookTargetCandidate) (client request);
    match err with
    | Some e => mret (Some e, p)
    | None => mret (None, {| candidateRegistered := true; runResult := runResult p |})
    end.

(** One block of [Run]: the hooks before a step, the step unless a hook
    replaces or disables it, the hooks after it. *)
(* internal/deploy/orchestrator.go, lines 140-150: Orchestrator.Run *)
Definition stage (plan : option hookPlan) (hookRequest : LifecycleHookRequest)
    (target : string) (run : step) : step :=
  λ request p,
    before ← runHooks plan hookRequest target HookBefore;
    match before with
    | Err e => mret (Some e, p)
    | Ok skip =>
        stepped ← (if skip : bool then mret (None, p) else run request p);
        match stepped.1 with
        | Some e => mret (Some e, stepped.2)
        | None =>
            after ← runHooks plan hookRequest target HookAfter;
            mret (err_of after, stepped.2)
        end
    end.

(** Blocks in sequence; the first error returns. *)
Fixpoint run_stages (stages : list step) : step :=
  λ request p,
    match stages with
    | [] => mret (None, p)
    | s :: stages =>
        r ← s request p;
        match r.1 with
        | Some e => mret (Some e, r.2)
        | None => run_stages stages request r.2
        end
    end.

Definition with_preview (s : ChangeSummary) (r : Result) : Result :=
  {| PreviewSummary := s; UpdateSummary := UpdateSummary r |}.
Definition with_update (s : ChangeSummary) (r : Result) : Result :=
  {| PreviewSummary := PreviewSummary r; UpdateSummary := s |}.

(** The seven blocks between taking the lock and the deferred functions. *)
(* internal/deploy/orchestrator.go, lines 140-213: Orchestrator.Run *)
Definition deploy_stages (s : Steps) (plan : option hookPlan) (hr : LifecycleHookRequest) : list step :=
  [ stage plan hr HookTargetPreview
      (summary_step HookTargetPreview (StepPreview s) with_preview);
    stage plan hr HookTargetCandidate (register_step (RegisterCandidate s));
    stage plan hr HookTargetMigrations
      (plain_step HookTargetMigrations (λ r _, RunMigrations s r));
    stage plan hr HookTargetUpdate
      (summary_step HookTargetUpdate (UpdateServices s) with_update);
    stage plan hr HookTargetStabilize (plain_step HookTargetStabilize (λ r _, Stabilize s r));
    stage plan hr HookTargetHealth (plain_step HookTargetHealth (λ r _, Health s r));
    stage plan hr HookTargetRecord
      (plain_step HookTargetRecord (λ r p, RecordResult s r (runResult p))) ].

(** [errors.Join(err, fmt.Errorf(..., deferredErr))] when the deferred call
    failed. *)
(* internal/deploy/orchestrator.go, lines 125-127: Orchestrator.Run *)
Definition join_deferred (err : gerror) (wrap : error → error) (deferred : gerror) : gerror :=
  match deferred with
  | None => err
  | Some e => errors_Join [err; Some (wrap e)]
  end.

(** The two deferred functions, in the order they run. *)
(* internal/deploy/orchestrator.go, lines 122-139: Orchestrator.Run *)
Definition deferred (s : Steps) (release : action gerror) (request : Request)
    (registered : bool) (err : gerror) : M gerror :=
  err ← (if registered then
           cleanup ← call EvCleanup (CleanupCandidate s request);
           mret (join_deferred err (wrapf "clean up deployment candidate: %w" []) cleanup)
         else mret err);
  releaseErr ← call EvRelease release;
  mret (join_deferred err (λ e, Errorf "%w: %w" [] [ErrLockRelease; e]) releaseErr).

(** The checks before any client is called. *)
(* internal/deploy/orchestrator.go, lines 85-99: Orchestrator.Run *)
Definition gates (request : Request) : gerror :=
  fail_if (negb (MatchString digestPattern (ImageDigest request))) ErrDigestRequired
  ;;? fail_if (Production request && negb (Approved request)) ErrApprovalRequired
  ;;? fail_if (Rollback request && negb (AcknowledgeForwardOnlyDB request))
        ErrForwardOnlyRollbackAck
  ;;? fail_if (Production request && negb (Rollback request)
               && negb (AcknowledgeMaintenanceDrain request)) ErrMaintenanceDrainAck
  ;;? ValidateTargetDescriptor (Target request).

(** [hook.Validate] for every hook of the plan. *)
(* internal/deploy/orchestrator.go, lines 108-112: Orchestrator.Run *)
Fixpoint validate_hooks (hs : list LifecycleHook) (hr : LifecycleHookRequest) : M gerror :=
  match hs with
  | [] => mret None
  | h :: hs =>
      err ← call (EvHookValidate (HookID (Descriptor h))) (HookValidate h hr);
      match err with
      | Some e => mret (Some (wrapf "validate lifecycle hook %q: %w" [GStr (HookID (Descriptor h))] e))
      | None => validate_hooks hs hr
      end
  end.

(* internal/deploy/orchestrator.go, lines 103-106: Orchestrator.Run *)
Definition hook_request (request : Request) : LifecycleHookRequest :=
  let a := Artifact request in
  {| HookApp := App request;
     HookArtifact :=
       if bool_decide (Sdk.ImageDigest a = "")
       then {| Sdk.ImageDigest := ImageDigest request; ManifestDigest := ManifestDigest a |}
       else a |}.

(** From the lock on: the blocks, then the deferred functions.  A failed run
    returns the zero result. *)
(* internal/deploy/orchestrator.go, lines 121-214: Orchestrator.Run *)
Definition run_locked (s : Steps) (plan : option hookPlan) (release : action gerror)
    (request : Request) : M (Result * gerror) :=
  body ← run_stages (deploy_stages s plan (hook_request request)) request
           {| candidateRegistered := false; runResult := NoResult |};
  err ← deferred s release request (candidateRegistered body.2) body.1;
  mret (match body.1 with None => runResult body.2 | Some _ => NoResult end, err).

(** The lock is held when [Acquire] returns a release function. *)
Definition granted {A} (r : result (option A)) : bool :=
  match r with Ok (Some _) => true | _ => false end.

(* internal/deploy/orchestrator.go, lines 81-214: Orchestrator.Run *)
Definition Run (o : option Orchestrator) (request : Request) : M (Result * gerror) :=
  match o with
  | Some {| lock := Some l; steps := Some s; hooks := plan |} =>
      match gates request with
      | Some e => mret (NoResult, Some e)
      | None =>
          err ← call EvValidate (StepValidate s request);
          match err with
          | Some e => mret (NoResult, Some e)
          | None =>
              err ← match plan with
                    | None => mret None
                    | Some p => validate_hooks (ordered p) (hook_request request)
                    end;
              match err with
              | Some e => mret (NoResult, Some e)
              | None =>
                  r ← call (λ r, EvAcquire (granted r)) (Acquire l request);
                  match r with
                  | Err e => mret (NoResult, Some e)
                  | Ok None => mret (NoResult, Some (ErrNew "deployment lock returned no release function"))
                  | Ok (Some release) => run_locked s plan release request
                  end
              end
          end
      end
  | _ => mret (NoResult, Some (ErrNew "deployment lock and steps are required"))
  end.

(** ** Shape of the call sequences *)

Definition is_validation (ev : event) : Prop :=
  match ev with EvValidate _ | EvHookValidate _ _ => True | _ => False end.
Definition is_hook (ev : event) : Prop :=
  match ev with EvHook _ _ => True | _ => False end.
Definition is_work (ev : event) : Prop :=
  match ev with EvHook _ _ | EvStep _ _ => True | _ => False end.

(** The hook plan replaces or disables a step. *)
Definition skips (plan : option hookPlan) (target : string) : Prop :=
  ∃ p h, plan = Some p ∧ h ∈ ordered p ∧ RelativeTo (Descriptor h) = target ∧
    (Relationship (Descriptor h) = HookReplace ∨ Relationship (Descriptor h) = HookDisable).

Definition step_of (ev : event) : option string :=
  match ev with EvStep t _ => Some t | _ => None end.
(** The steps that were run, in order. *)
Definition steps_run (evs : list event) : list string := omap step_of evs.

Lemma steps_run_hooks evs : Forall is_hook evs → steps_run evs = [].
Proof. unfold steps_run. induction 1 as [|[] evs H _ IH]; simpl in *; done. Qed.

Lemma emits_attempt h request n err : emits is_hook (attempt_hook h request n err).
Proof.
  revert err; induction n as [|n IH]; intros err; simpl; [auto with emits|].
  apply emits_bind; [by apply emits_call|]. intros [e|]; auto with emits.
Qed.

Lemma emits_run_ordered hs request target rel skipped :
  emits is_hook (run_ordered hs request target rel skipped).
Proof.
  revert skipped; induction hs as [|h hs IH]; intros skipped; simpl; [auto with emits|].
  repeat case_match; try done.
  apply emits_bind; [apply emits_attempt|]. intros [e|]; auto with emits.
Qed.

Lemma emits_runHooks plan request target rel : emits is_hook (runHooks plan request target rel).
Proof. destruct plan; [apply emits_run_ordered|apply emits_ret]. Qed.

(** Only a replacing or a disabling hook makes a block skip its step. *)
Lemma run_ordered_skipped hs request target skipped w :
  outcome (run_ordered hs request target HookBefore skipped) w = Ok true →
  skipped = true ∨ ∃ h, h ∈ hs ∧ RelativeTo (Descriptor h) = target ∧
    (Relationship (Descriptor h) = HookReplace ∨ Relationship (Descriptor h) = HookDisable).
Proof.
  revert skipped w; induction hs as [|h hs IH]; intros skipped w; simpl.
  { intros [= ->]. auto. }
  destruct (bool_decide (RelativeTo (Descriptor h) = target)) eqn:Ht; simpl; cycle 1.
  { intros [?|(h'&?&?)]%IH; [auto|]. right; exists h'. set_solver. }
  apply bool_decide_eq_true in Ht.
  destruct (bool_decide (Relationship (Descriptor h) = HookDisable)) eqn:Hd.
  { intros _. right; exists h. apply bool_decide_eq_true in Hd. set_solver. }
  destruct (negb _ && negb _) eqn:Hrel.
  { intros [?|(h'&?&?)]%IH; [auto|]. right; exists h'. set_solver. }
  run_eff. case_match; [done|].
  intros [Hs|(h'&?&?)]%IH; [|right; exists h'; set_solver].
  apply orb_true_iff in Hs as [?|Hr%bool_decide_eq_true]; [auto|].
  right; exists h. set_solver.
Qed.

Lemma runHooks_skips plan request target w :
  outcome (runHooks plan request target HookBefore) w = Ok true → skips plan target.
Proof.
  destruct plan as [p|]; [|done]. intros [[=]|(h&?&?&?)]%run_ordered_skipped.
  by exists p, h.
Qed.

(** A step reports exactly one call, and its error. *)
Definition reports (target : string) (run : step) : Prop :=
  ∀ request p w, ∃ e,
    events (run request p) w = [EvStep target e] ∧ (outcome (run request p) w).1 = e.

Lemma plain_step_reports target client : reports target (plain_step target client).
Proof. intros request p w. eexists. unfold plain_step. by run_eff. Qed.

Lemma summary_step_reports target client keep : reports target (summary_step target client keep).
Proof.
  intros request p w. unfold summary_step. run_eff.
  destruct (client request w).1; eexists; by run_eff.
Qed.

Lemma register_step_reports client : reports HookTargetCandidate (register_step client).
Proof.
  intros request p w. unfold register_step. run_eff.
  destruct (client request w).1; eexists; by run_eff.
Qed.

Lemma stage_cases plan hr target run request p w :
  reports target run →
  let m := stage plan hr target run request p in
  ∃ pre mid post, events m w = pre ++ mid ++ post ∧ Forall is_hook pre ∧ Forall is_hook post ∧
    ((mid = [] ∧ ((outcome m w).1 = None → skips plan target)) ∨
     ∃ e, mid = [EvStep target e] ∧ ∀ x, e = Some x → post = [] ∧ (outcome m w).1 = Some x).
Proof.
  intros Hrun m. unfold m, stage. run_eff.
  set (before := runHooks plan hr target HookBefore).
  destruct (outcome before w) as [skip|e] eqn:Hb.
  - destruct skip; run_eff.
    + set (after := runHooks plan hr target HookAfter).
      exists (events before w), [], (events after (final before w)).
      split_and!; try apply emits_runHooks; [by rewrite ?app_nil_r|].
      left. split; [done|]. intros _. by eapply runHooks_skips.
    + destruct (Hrun request p (final before w)) as (e&He&Ho). rewrite He, Ho.
      destruct e as [x|]; run_eff.
      * exists (events before w), [EvStep target (Some x)], [].
        split_and!; [by rewrite ?app_nil_r|apply emits_runHooks|constructor|].
        right. exists (Some x). split; [done|]. intros y [= ->]. done.
      * exists (events before w), [EvStep target None],
          (events (runHooks plan hr target HookAfter) (final (run request p) (final before w))).
        split_and!; [by rewrite ?app_nil_r|apply emits_runHooks|apply emits_runHooks|].
        right. by exists None.
  - exists (events before w), [], []. run_eff.
    split_and!; [done|apply emits_runHooks|constructor|]. by left.
Qed.

(** ** The seven blocks *)

Definition stage_list (s : Steps) : list (string * step) :=
  [ (HookTargetPreview, summary_step HookTargetPreview (StepPreview s) with_preview);
    (HookTargetCandidate, register_step (RegisterCandidate s));
    (HookTargetMigrations, plain_step HookTargetMigrations (λ r _, RunMigrations s r));
    (HookTargetUpdate, summary_step HookTargetUpdate (UpdateServices s) with_update);
    (HookTargetStabilize, plain_step HookTargetStabilize (λ r _, Stabilize s r));
    (HookTargetHealth, plain_step HookTargetHealth (λ r _, Health s r));
    (HookTargetRecord, plain_step HookTargetRecord (λ r p, RecordResult s r (runResult p))) ].

Definition step_order : list string :=
  [HookTargetPreview; HookTargetCandidate; HookTargetMigrations; HookTargetUpdate;
   HookTargetStabilize; HookTargetHealth; HookTargetRecord].

Lemma stage_list_targets s : (stage_list s).*1 = step_order.
Proof. done. Qed.

Lemma deploy_stages_list s plan hr :
  deploy_stages s plan hr = (λ tr, stage plan hr tr.1 tr.2) <$> stage_list s.
Proof. done. Qed.

Lemma stage_list_reports s : Forall (λ tr, reports tr.1 tr.2) (stage_list s).
Proof.
  repeat constructor; simpl;
    first [apply plain_step_reports | apply summary_step_reports | apply register_step_reports].
Qed.

Record body_spec (plan : option hookPlan) (targets : list string) (evs : list event)
    (err : gerror) : Prop := {
  body_work : Forall is_work evs;
  body_order : steps_run evs `sublist_of` targets;
  body_stops : ∀ t x, EvStep t (Some x) ∈ evs →
    err = Some x ∧ ∃ a, evs = a ++ [EvStep t (Some x)];
  body_complete : err = None → ∀ t, t ∈ targets → EvStep t None ∈ evs ∨ skips plan t;
}.

Lemma is_hook_work ev : is_hook ev → is_work ev.
Proof. by destruct ev. Qed.

Lemma hook_not_step evs t e : Forall is_hook evs → EvStep t e ∉ evs.
Proof. intros H Hin. rewrite Forall_forall in H. by specialize (H _ Hin). Qed.

(** The block [tr] followed by the blocks [rest]. *)
Lemma body_spec_cons plan t targets pre mid post rest err err' :
  Forall is_hook pre → Forall is_hook post →
  ((mid = [] ∧ (err = None → skips plan t)) ∨
   ∃ e, mid = [EvStep t e] ∧ ∀ x, e = Some x → post = [] ∧ err = Some x) →
  (match err with
   | Some x => rest = [] ∧ err' = Some x
   | None => body_spec plan targets rest err'
   end) →
  body_spec plan (t :: targets) ((pre ++ mid ++ post) ++ rest) err'.
Proof.
  intros Hpre Hpost Hmid Hrest.
  assert (steps_run ((pre ++ mid ++ post) ++ rest) = steps_run mid ++ steps_run rest) as Hsteps.
  { unfold steps_run. rewrite !omap_app. fold (steps_run pre) (steps_run post).
    rewrite (steps_run_hooks pre), (steps_run_hooks post) by done. by rewrite app_nil_r. }
  assert (Forall is_work mid) as Hm.
  { destruct Hmid as [[-> _]|(e&->&_)]; repeat constructor. }
  assert (∀ evs, Forall is_hook evs → Forall is_work evs) as Hw.
  { intros evs H. eapply Forall_impl; [exact H|apply is_hook_work]. }
  split.
  - rewrite !Forall_app. split_and!; auto. destruct err; [by destruct Hrest as [-> _]|apply Hrest].
  - rewrite Hsteps. assert (steps_run rest `sublist_of` targets) as Hr.
    { destruct err; [destruct Hrest as [-> _]; apply sublist_nil_l|apply Hrest]. }
    destruct Hmid as [[-> _]|(e&->&_)]; simpl; [by apply sublist_cons|by apply sublist_skip].
  - intros t' x Hin. rewrite !elem_of_app in Hin.
    destruct Hin as [[Hin|[Hin|Hin]]|Hin]; [by apply hook_not_step in Hin| |by apply hook_not_step in Hin|].
    + destruct Hmid as [[-> _]|(e&->&He)]; [set_solver|].
      apply list_elem_of_singleton in Hin. simplify_eq.
      destruct (He x eq_refl) as [-> ->]. destruct Hrest as [-> ->].
      split; [done|]. exists pre. by rewrite !app_nil_r.
    + destruct err; [destruct Hrest as [-> _]; set_solver|].
      destruct (body_stops _ _ _ _ Hrest t' x Hin) as [? [a ->]]. split; [done|].
      eexists. by rewrite app_assoc.
  - intros -> u Hu. destruct err as [x|]; [by destruct Hrest as [_ [=]]|].
    apply elem_of_cons in Hu as [->|Hu].
    + destruct Hmid as [[-> Hs]|([x|]&->&He)]; [right; auto| |left; set_solver].
      by destruct (He x eq_refl).
    + destruct (body_complete _ _ _ _ Hrest eq_refl u Hu); [left; set_solver|auto].
Qed.

Lemma run_stages_spec plan hr l request p w :
  Forall (λ tr, reports tr.1 tr.2) l →
  let m := run_stages ((λ tr, stage plan hr tr.1 tr.2) <$> l) request p in
  body_spec plan l.*1 (events m w) (outcome m w).1.
Proof.
  intros Hl; revert p w. induction Hl as [|[t run] l Ht Hl IH]; intros p w; simpl.
  { split; run_eff; set_solver by constructor. }
  destruct (stage_cases plan hr t run request p w Ht) as (pre&mid&post&He&Hpre&Hpost&Hmid).
  run_eff. rewrite He.
  destruct (outcome (stage plan hr t run request p) w) as [err p'] eqn:Ho; simpl in *.
  eapply body_spec_cons; [done|done|exact Hmid|].
  destruct err as [x|]; run_eff; [done|]. apply IH.
Qed.

Lemma deploy_body_spec s plan hr request p w :
  let m := run_stages (deploy_stages s plan hr) request p in
  body_spec plan step_order (events m w) (outcome m w).1.
Proof.
  rewrite <-(stage_list_targets s), deploy_stages_list.
  apply run_stages_spec, stage_list_reports.
Qed.

(** ** Registration of the candidate *)

Definition tracks (run : step) : Prop := ∀ request p w,
  candidateRegistered (outcome (run request p) w).2 = true ↔
  candidateRegistered p = true ∨ EvStep HookTargetCandidate None ∈ events (run request p) w.

Lemma plain_step_tracks target client :
  target ≠ HookTargetCandidate → tracks (plain_step target client).
Proof. intros Ht request p w. unfold plain_step. run_eff. set_solver. Qed.

Lemma summary_step_tracks target client keep :
  target ≠ HookTargetCandidate → tracks (summary_step target client keep).
Proof.
  intros Ht request p w. unfold summary_step. run_eff.
  destruct (client request w).1; run_eff; set_solver.
Qed.

Lemma register_step_tracks client : tracks (register_step client).
Proof.
  intros request p w. unfold register_step. run_eff.
  destruct (client request w).1; run_eff; set_solver.
Qed.

Lemma not_hook_event plan hr target rel w t e :
  EvStep t e ∉ events (runHooks plan hr target rel) w.
Proof. apply hook_not_step, emits_runHooks. Qed.

Lemma stage_tracks plan hr target run : tracks run → tracks (stage plan hr target run).
Proof.
  intros Hrun request p w. unfold stage. run_eff. rewrite elem_of_app.
  pose proof (not_hook_event plan hr target HookBefore w HookTargetCandidate None) as Hb.
  destruct (outcome (runHooks plan hr target HookBefore) w) as [[]|e]; run_eff; [| |set_solver].
  - pose proof (not_hook_event plan hr target HookAfter
      (final (runHooks plan hr target HookBefore) w) HookTargetCandidate None).
    rewrite ?elem_of_app. set_solver.
  - specialize (Hrun request p (final (runHooks plan hr target HookBefore) w)).
    rewrite elem_of_app.
    destruct (outcome (run request p) _) as [[x|] p']; run_eff; simpl in *; [set_solver|].
    pose proof (not_hook_event plan hr target HookAfter
      (final (run request p) (final (runHooks plan hr target HookBefore) w))
      HookTargetCandidate None).
    rewrite ?elem_of_app. set_solver.
Qed.

Lemma run_stages_tracks l : Forall tracks l → tracks (run_stages l).
Proof.
  induction 1 as [|run l Hrun Hl IH]; intros request p w; simpl; run_eff; [set_solver|].
  specialize (Hrun request p w). rewrite elem_of_app.
  destruct (outcome (run request p) w) as [[x|] p']; run_eff; simpl in *; [set_solver|].
  specialize (IH request p' (final (run request p) w)). tauto.
Qed.

Lemma deploy_stages_tracks s plan hr : tracks (run_stages (deploy_stages s plan hr)).
Proof.
  apply run_stages_tracks. unfold deploy_stages.
  repeat (apply Forall_cons; split; [apply stage_tracks;
    first [by apply plain_step_tracks | by apply summary_step_tracks | apply register_step_tracks]|]).
  apply Forall_nil; done.
Qed.

(** ** The whole run *)

Definition before_lock (ev : event) : Prop := is_validation ev ∨ ev = EvAcquire false.

Lemma emits_validate_hooks hs hr : emits is_validation (validate_hooks hs hr).
Proof.
  induction hs as [|h hs IH]; simpl; [auto with emits|].
  apply emits_bind; [by apply emits_call|]. intros [e|]; auto with emits.
Qed.

Inductive run_shape (o : option Orchestrator) (request : Request) (w : W) : Prop :=
  | run_refused e :
      Forall before_lock (events (Run o request) w) →
      outcome (Run o request) w = (NoResult, Some e) → run_shape o request w
  | run_nil_release pre e :
      events (Run o request) w = pre ++ [EvAcquire false] → Forall is_validation pre →
      outcome (Run o request) w = (NoResult, Some e) → run_shape o request w
  | run_held l s plan release pre w' :
      o = Some {| lock := Some l; steps := Some s; hooks := plan |} →
      gates request = None →
      events (Run o request) w = pre ++ EvAcquire true :: events (run_locked s plan release request) w' →
      Forall is_validation pre →
      outcome (Run o request) w = outcome (run_locked s plan release request) w' →
      run_shape o request w.

Lemma Run_cases o request w : run_shape o request w.
Proof.
  destruct o as [[[l|] [s|] plan]|];
    try by (eapply run_refused; [constructor|done]).
  destruct (gates request) as [e|] eqn:Hg.
  { eapply run_refused; unfold Run; rewrite Hg; [constructor|done]. }
  destruct (StepValidate s request w).1 as [e|] eqn:Hv.
  { eapply (run_refused _ _ _ e); unfold Run; rewrite Hg; run_eff; rewrite Hv; run_eff; [|done].
    repeat constructor. }
  set (w1 := (StepValidate s request w).2).
  set (validate := match plan with
                   | None => mret None
                   | Some p => validate_hooks (ordered p) (hook_request request)
                   end : M gerror).
  assert (emits is_validation validate) as Hval.
  { destruct plan; [apply emits_validate_hooks|apply emits_ret]. }
  destruct (outcome validate w1) as [e|] eqn:Hh.
  { eapply (run_refused _ _ _ e); unfold Run; rewrite Hg; run_eff; rewrite Hv; run_eff;
      fold validate; fold w1; rewrite Hh; run_eff; [|done].
    constructor; [by left|]. rewrite app_nil_r.
    eapply Forall_impl; [apply Hval|by left]. }
  set (w2 := final validate w1).
  assert (Forall is_validation (EvValidate None :: events validate w1)) as Hpre.
  { constructor; [done|apply Hval]. }
  destruct (Acquire l request w2).1 as [[release|]|e] eqn:Ha.
  - eapply (run_held _ _ _ l s plan release (EvValidate None :: events validate w1)
      (Acquire l request w2).2); try done; unfold Run; rewrite Hg; run_eff; rewrite Hv; run_eff;
      fold validate; fold w1; rewrite Hh; run_eff; fold w2; rewrite Ha; done.
  - eapply (run_nil_release _ _ _ (EvValidate None :: events validate w1)); [|done|];
      unfold Run; rewrite Hg; run_eff; rewrite Hv; run_eff;
      fold validate; fold w1; rewrite Hh; run_eff; fold w2; rewrite Ha; run_eff; [|done].
    by rewrite ?app_nil_r.
  - eapply (run_nil_release _ _ _ (EvValidate None :: events validate w1)); [|done|];
      unfold Run; rewrite Hg; run_eff; rewrite Hv; run_eff;
      fold validate; fold w1; rewrite Hh; run_eff; fold w2; rewrite Ha; run_eff; [|done].
    by rewrite ?app_nil_r.
Qed.

#[local] Arguments Run : simpl never.
#[local] Arguments run_locked : simpl never.

(** ** From the lock to its release *)

(** Errors of deferred calls are added to the error of the run. *)
Lemma join_deferred_keeps x e wrap d :
  wraps x e → ∃ e', join_deferred (Some e) wrap d = Some e' ∧ wraps x e'.
Proof. intros H. destruct d as [d|]; simpl; [by apply wraps_join_l|by exists e]. Qed.

Lemma join_deferred_None err wrap d : join_deferred err wrap d = None ↔ err = None ∧ d = None.
Proof. destruct err, d; simpl; naive_solver. Qed.

Record deferred_spec (registered : bool) (err : gerror) (evs : list event) (out : gerror) : Prop := {
  def_events : ∃ cleanup e, evs = cleanup ++ [EvRelease e] ∧
    (e = None ∨ ∃ x out', e = Some x ∧ out = Some out' ∧ wraps x out' ∧ wraps ErrLockRelease out') ∧
    (if registered
     then ∃ c, cleanup = [EvCleanup c] ∧
            (c = None ∨ ∃ x out', c = Some x ∧ out = Some out' ∧ wraps x out')
     else cleanup = []);
  def_keeps : ∀ x, err = Some x → ∃ out', out = Some out' ∧ wraps x out';
  def_ok : out = None → err = None ∧ ∃ cleanup, evs = cleanup ++ [EvRelease None];
}.

Lemma deferred_meets s release request registered err w :
  let m := deferred s release request registered err in
  deferred_spec registered err (events m w) (outcome m w).
Proof.
  set (wrapc := wrapf "clean up deployment candidate: %w" []).
  set (wrapl := λ e, Errorf "%w: %w" [] [ErrLockRelease; e]).
  assert (Hrel : ∀ base r, r = None ∨ ∃ x out', r = Some x ∧
    join_deferred base wrapl r = Some out' ∧ wraps x out' ∧ wraps ErrLockRelease out').
  { intros base [x|]; [right|by left].
    assert (∀ y, y = x ∨ y = ErrLockRelease → wraps y (wrapl x)) as Hw.
    { intros y Hy. apply (wraps_errorf _ _ _ _ y); [set_solver|constructor]. }
    assert (∃ out', join_deferred base wrapl (Some x) = Some out' ∧
              ∀ y, y = x ∨ y = ErrLockRelease → wraps y out') as (out'&Ho&H).
    { unfold join_deferred, errors_Join.
      destruct base as [b|]; simpl; (eexists; split; [reflexivity|]); intros y Hy;
        (apply (wraps_join _ _ (wrapl x)); [set_solver|auto]). }
    exists x, out'. split_and!; auto. }
  unfold deferred. destruct registered; run_eff; fold wrapc wrapl;
    [destruct (CleanupCandidate s request w) as [c w1]; simpl; destruct (release w1) as [r w2]
    |destruct (release w) as [r w2]]; simpl.
  - split.
    + exists [EvCleanup c], r. split_and!; [done|apply Hrel|]. exists c. split; [done|].
      destruct c as [x|]; [right|by left].
      destruct (wraps_join_r x err (wrapc x)) as (e1&He1&Hx).
      { apply (wraps_errorf _ _ _ _ x); [set_solver|constructor]. }
      simpl. rewrite He1. destruct (join_deferred_keeps x e1 wrapl r Hx) as (e2&->&?). eauto.
    + intros x ->. destruct (join_deferred_keeps x x wrapc c) as (e1&->&Hx); [constructor|].
      by apply join_deferred_keeps.
    + intros [[H ->]%join_deferred_None ->]%join_deferred_None. split; [done|].
      by exists [EvCleanup None].
  - split.
    + exists [], r. split_and!; [done|apply Hrel|done].
    + intros x ->. apply join_deferred_keeps. constructor.
    + intros [-> ->]%join_deferred_None. split; [done|]. by exists [].
Qed.

(** A run that holds the lock: the blocks, then the deferred functions. *)
Lemma run_locked_spec s plan release request w :
  let m := run_locked s plan release request in
  ∃ body_evs err registered def_evs,
    events m w = body_evs ++ def_evs ∧
    body_spec plan step_order body_evs err ∧
    (registered = true ↔ EvStep HookTargetCandidate None ∈ body_evs) ∧
    deferred_spec registered err def_evs (outcome m w).2 ∧
    (is_Some err → (outcome m w).1 = NoResult).
Proof.
  set (body := run_stages (deploy_stages s plan (hook_request request)) request
           {| candidateRegistered := false; runResult := NoResult |}).
  pose proof (deploy_body_spec s plan (hook_request request) request
    {| candidateRegistered := false; runResult := NoResult |} w) as Hbody.
  pose proof (deploy_stages_tracks s plan (hook_request request) request
    {| candidateRegistered := false; runResult := NoResult |} w) as Htr.
  fold body in Hbody, Htr. simpl in Htr. intros m.
  exists (events body w), (outcome body w).1, (candidateRegistered (outcome body w).2),
    (events (deferred s release request (candidateRegistered (outcome body w).2)
               (outcome body w).1) (final body w)).
  unfold m, run_locked. fold body. run_eff. rewrite app_nil_r. split_and!; [done|done| |apply deferred_meets|].
  - rewrite Htr. intuition done.
  - by intros [x ->].
Qed.

Definition is_deferred (ev : event) : Prop :=
  match ev with EvCleanup _ | EvRelease _ => True | _ => False end.

Lemma validation_no_step evs t e : Forall is_validation evs → EvStep t e ∉ evs.
Proof. intros H Hin. rewrite Forall_forall in H. by specialize (H _ Hin). Qed.

(** C1: no work without the lock, and the lock is given back.  Either the
    run stops before the lock is granted, with an error and with nothing but
    validations called; or its calls are the validations, the successful
    [Acquire], hooks and steps, at most one candidate cleanup and one
    release, in this order, and the candidate is cleaned up exactly when its
    registration succeeded. *)
Theorem Run_lock_bracket o request w :
  let evs := events (Run o request) w in
  (Forall before_lock evs ∧ (outcome (Run o request) w).2 ≠ None) ∨
  ∃ pre work cleanup e,
    evs = pre ++ EvAcquire true :: work ++ cleanup ++ [EvRelease e] ∧
    Forall is_validation pre ∧ Forall is_work work ∧
    (EvStep HookTargetCandidate None ∈ work ∧ (∃ c, cleanup = [EvCleanup c]) ∨
     EvStep HookTargetCandidate None ∉ work ∧ cleanup = []).
Proof.
  destruct (Run_cases o request w) as [e He Ho|pre e He Hpre Ho|l s plan rel pre w' -> Hg He Hpre Ho];
    simpl.
  - left. by rewrite Ho.
  - left. rewrite Ho, He, Forall_app. split; [|done].
    split; [|constructor; [by right|done]]. eapply Forall_impl; [exact Hpre|by left].
  - right. destruct (run_locked_spec s plan rel request w') as (body&err&reg&defs&Hev&Hb&Hreg&Hd&_).
    destruct (def_events _ _ _ _ Hd) as (cleanup&r&Hdefs&_&Hc).
    exists pre, body, cleanup, r. rewrite He, Hev, Hdefs. split_and!; try done; [apply Hb|].
    destruct reg; [left|right].
    + split; [by apply Hreg|]. destruct Hc as (c&->&_). by exists c.
    + split; [|done]. intros [=]%Hreg.
Qed.

(** Steps run in the order of the pipeline, each at most once, and the
    first failing step is the last: only the deferred cleanup and release
    follow it, its error stays reachable in the error of the run, and the
    zero result is returned. *)
Theorem Run_steps_stop o request w :
  let evs := events (Run o request) w in
  steps_run evs `sublist_of` step_order ∧
  ∀ t x, EvStep t (Some x) ∈ evs →
    (∃ before after, evs = before ++ EvStep t (Some x) :: after ∧ Forall is_deferred after) ∧
    ∃ e, outcome (Run o request) w = (NoResult, Some e) ∧ wraps x e.
Proof.
  assert (Hval : ∀ evs, Forall before_lock evs → steps_run evs = [] ∧ ∀ t e, EvStep t e ∉ evs).
  { intros evs H. split.
    - unfold steps_run. induction H as [|ev evs [Hv| ->] _ IH]; simpl; [done| |done].
      by destruct ev.
    - intros t e Hin. rewrite Forall_forall in H. destruct (H _ Hin) as [?|?]; done. }
  destruct (Run_cases o request w) as [e He Ho|pre e He Hpre Ho|l s plan rel pre w' -> Hg He Hpre Ho];
    simpl.
  - destruct (Hval _ He) as [-> Hn]. split; [apply sublist_nil_l|]. by intros t x ?%Hn.
  - destruct (Hval (events (Run o request) w)) as [-> Hn].
    { rewrite He. apply Forall_app. split; [|constructor; [by right|done]].
      eapply Forall_impl; [exact Hpre|by left]. }
    split; [apply sublist_nil_l|]. by intros t x ?%Hn.
  - destruct (run_locked_spec s plan rel request w') as (body&err&reg&defs&Hev&Hb&Hreg&Hd&Hz).
    destruct (def_events _ _ _ _ Hd) as (cleanup&r&Hdefs&_&Hc).
    assert (Forall is_deferred defs) as Hdd.
    { rewrite Hdefs, Forall_app. split; [|repeat constructor].
      destruct reg; [destruct Hc as (c&->&_)|rewrite Hc]; repeat constructor. }
    destruct (Hval pre) as [Hpre0 Hn].
    { eapply Forall_impl; [exact Hpre|by left]. }
    rewrite He, Hev. split.
    + unfold steps_run in *. rewrite omap_app, Hpre0. simpl. rewrite omap_app.
      replace (omap step_of defs) with (@nil string); [rewrite app_nil_r; apply Hb|].
      clear -Hdd. induction Hdd as [|[] ? H _ IH]; simpl in *; done.
    + intros t x Hin. rewrite elem_of_app, elem_of_cons, elem_of_app in Hin.
      destruct Hin as [?%Hn|[[=]|[Hin|Hin]]]; [done| |].
      * destruct (body_stops _ _ _ _ Hb t x Hin) as [Herr [a Ha]]. split.
        -- exists (pre ++ EvAcquire true :: a), defs. split; [|done].
           rewrite Ha. by rewrite <-?app_assoc; simpl; rewrite <-?app_assoc.
        -- destruct (def_keeps _ _ _ _ Hd x Herr) as (out&Hout&Hx). exists out.
           split; [|done]. rewrite Ho.
           destruct (outcome (run_locked s plan rel request) w') as [res oe]; simpl in *.
           rewrite Hout, Hz; [done|]. rewrite Herr. by eexists.
      * rewrite Forall_forall in Hdd. by specialize (Hdd _ Hin).
Qed.

(** A run without error did everything: every step of the pipeline ran
    and succeeded unless a hook of the plan replaces or disables it, and the
    lock was released without error. *)
Theorem Run_success_complete o request w :
  (outcome (Run o request) w).2 = None →
  gates request = None ∧
  (∃ before, events (Run o request) w = before ++ [EvRelease None]) ∧
  ∀ t, t ∈ step_order → EvStep t None ∈ events (Run o request) w ∨ skips (o ≫= hooks) t.
Proof.
  intros H.
  destruct (Run_cases o request w) as [e He Ho|pre e He Hpre Ho|l s plan rel pre w' -> Hg He Hpre Ho];
    [by rewrite Ho in H|by rewrite Ho in H|].
  destruct (run_locked_spec s plan rel request w') as (body&err&reg&defs&Hev&Hb&Hreg&Hd&Hz).
  rewrite Ho in H. destruct (def_ok _ _ _ _ Hd H) as [Herr [cleanup Hc]].
  split_and!; [done| |].
  - exists (pre ++ EvAcquire true :: body ++ cleanup).
    rewrite He, Hev, Hc. by rewrite <-?app_assoc; simpl; rewrite <-?app_assoc.
  - intros t Ht. rewrite He, Hev. simpl.
    destruct (body_complete _ _ _ _ Hb Herr t Ht) as [?|?]; [left; set_solver|by right].
Qed.

(** C2: nothing is called before the gates pass.  A configured orchestrator
    calls a client exactly when the image is pinned by digest, a production
    run is approved, a rollback acknowledges the forward-only database, a
    production roll-forward acknowledges the maintenance drain and the target
    descriptor is valid. *)
Theorem Run_gated o request w :
  events (Run o request) w ≠ [] ↔
  (∃ l s plan, o = Some {| lock := Some l; steps := Some s; hooks := plan |}) ∧
  matches digestPattern (go_bytes (ImageDigest request)) ∧
  (Production request = true → Approved request = true) ∧
  (Rollback request = true → AcknowledgeForwardOnlyDB request = true) ∧
  (Production request = true → Rollback request = false →
     AcknowledgeMaintenanceDrain request = true) ∧
  ValidateTargetDescriptor (Target request) = None.
Proof.
  assert (Hgates : gates request = None ↔
    matches digestPattern (go_bytes (ImageDigest request)) ∧
    (Production request = true → Approved request = true) ∧
    (Rollback request = true → AcknowledgeForwardOnlyDB request = true) ∧
    (Production request = true → Rollback request = false →
       AcknowledgeMaintenanceDrain request = true) ∧
    ValidateTargetDescriptor (Target request) = None).
  { unfold gates. rewrite !err_seq_None, !fail_if_None, negb_false_iff, MatchString_correct.
    destruct (Production request), (Approved request), (Rollback request),
      (AcknowledgeForwardOnlyDB request), (AcknowledgeMaintenanceDrain request);
      simpl; intuition congruence. }
  rewrite <-Hgates. split.
  - intros Hne. destruct o as [[[l|] [s|] plan]|]; try done. split; [eauto|].
    unfold Run in Hne. destruct (gates request) eqn:Hg; [|done]. done.
  - intros [(l&s&plan&->) Hg]. unfold Run. rewrite Hg. run_eff. done.
Qed.

(** A failed release is not silent: the run reports [ErrLockRelease]
    together with the error of the release. *)
Theorem Run_release_error o request w x :
  EvRelease (Some x) ∈ events (Run o request) w →
  ∃ e, (outcome (Run o request) w).2 = Some e ∧ wraps x e ∧
       errors_Is "deploy.ErrLockRelease" e = true.
Proof.
  intros Hin.
  destruct (Run_cases o request w) as [e He Ho|pre e He Hpre Ho|l s plan rel pre w' -> Hg He Hpre Ho].
  - rewrite Forall_forall in He. by destruct (He _ Hin).
  - rewrite He, elem_of_app, list_elem_of_singleton in Hin. destruct Hin as [Hin|[=]].
    rewrite Forall_forall in Hpre. by specialize (Hpre _ Hin).
  - destruct (run_locked_spec s plan rel request w') as (body&err&reg&defs&Hev&Hb&Hreg&Hd&Hz).
    destruct (def_events _ _ _ _ Hd) as (cleanup&r&Hdefs&Hr&Hc).
    rewrite He, Hev, Hdefs in Hin. rewrite !elem_of_app, elem_of_cons, !elem_of_app in Hin.
    destruct Hin as [Hin|[[=]|[Hin|[Hin|Hin]]]].
    + rewrite Forall_forall in Hpre. by specialize (Hpre _ Hin).
    + pose proof (body_work _ _ _ _ Hb) as Hw. rewrite Forall_forall in Hw. by specialize (Hw _ Hin).
    + destruct reg; [destruct Hc as (c&->&_)|rewrite Hc in Hin]; set_solver.
    + apply list_elem_of_singleton in Hin. injection Hin as <-.
      destruct Hr as [[=]|(y&out&[= <-]&Hout&Hx&Hl)].
      exists out. rewrite Ho. split_and!; [done|done|by apply wraps_errors_Is].
Qed.

(** ** Hook plans *)

Abbreviation hid h := (HookID (Descriptor h)).

Lemma collect_hooks_Ok hs l :
  collect_hooks hs = Ok l ↔ hs = Some <$> l ∧ Forall (λ h, check_hook h = None) l.
Proof.
  revert l; induction hs as [|[h|] hs IH]; intros l; simpl.
  - split; [by intros [= <-]|]. intros [H _]. by destruct l.
  - rewrite lift_check_Ok. destruct (collect_hooks hs) as [rest|e]; simpl.
    + split.
      * intros [Hc [= <-]]. destruct (proj1 (IH rest) eq_refl) as [-> ?]. by split; [|constructor].
      * destruct l as [|x l]; intros [[= -> ->] [? Hl]%Forall_cons].
        assert (Ok rest = Ok l) as [= ->] by (by apply IH). done.
    + split; [by intros [_ [=]]|]. destruct l as [|x l]; intros [[= -> ->] [? Hl]%Forall_cons].
      assert (Err e = Ok l) by (by apply IH). done.
  - split; [done|]. by destruct l; intros [? _].
Qed.

Section plan.
Context (l : list LifecycleHook).
Let ds := Descriptor <$> l.
Let reg := by_id (λ h, hid h) l.
Hypothesis distinct : NoDup (HookID <$> ds).
Hypothesis registered : ∀ h d, h ∈ l → d ∈ DependsOn (Descriptor h) → d ∈ HookID <$> ds.

Lemma plan_ids : HookID <$> ds = (λ h, hid h) <$> l.
Proof. unfold ds. by rewrite <-list_fmap_compose. Qed.

Lemma descriptor_deps_lookup h :
  h ∈ l → descriptor_deps (by_id HookID ds) (hid h) = DependsOn (Descriptor h).
Proof.
  intros Hh. unfold descriptor_deps. rewrite (by_id_lookup HookID ds (Descriptor h)); [done..|].
  by apply list_elem_of_fmap_2.
Qed.

Lemma reg_lookup h : h ∈ l → reg !! hid h = Some h.
Proof. apply (by_id_lookup (λ h, hid h)). by rewrite <-plan_ids. Qed.

(** Dependencies of known hooks are known: [descriptor_deps] and
    [hook_deps] agree. *)
Lemma descriptor_deps_hook_deps k :
  descriptor_deps (by_id HookID ds) k = hook_deps (by_id HookID ds) k.
Proof.
  unfold descriptor_deps, hook_deps.
  destruct (by_id HookID ds !! k) as [d|] eqn:E; [|done].
  apply by_id_Some in E as [Hd _]. apply list_elem_of_fmap in Hd as (h&->&Hh).
  symmetry. assert (Forall (λ d, is_Some (by_id HookID ds !! d)) (DependsOn (Descriptor h))) as Hf.
  { apply Forall_forall. intros d Hd. apply by_id_is_Some. by eapply registered. }
  induction Hf as [|x xs Hx _ IH]; [done|]. rewrite filter_cons_True by done. by f_equal.
Qed.

Lemma hooks_of_order order :
  NoDup order → (∀ k, k ∈ order ↔ k ∈ HookID <$> ds) →
  (λ h, hid h) <$> omap (λ id, reg !! id) order = order ∧
  omap (λ id, reg !! id) order ≡ₚ l.
Proof.
  intros Hnd Hall.
  assert (Hids : (λ h, hid h) <$> omap (λ id, reg !! id) order = order).
  { assert (∀ k, k ∈ order → ∃ h, reg !! k = Some h ∧ hid h = k) as Hk.
    { intros k Hk%Hall. rewrite plan_ids in Hk. apply list_elem_of_fmap in Hk as (h&->&Hh).
      exists h. by rewrite reg_lookup. }
    clear Hnd Hall. induction order as [|k order IH]; [done|].
    destruct (Hk k) as (h&Hh&Hid); [set_solver|]. simpl. rewrite Hh. simpl.
    rewrite Hid. f_equal. apply IH. set_solver. }
  split; [done|]. apply NoDup_Permutation.
  - apply (NoDup_fmap_1 (λ h, hid h)). by rewrite Hids.
  - apply (NoDup_fmap_1 (λ h, hid h)). by rewrite <-plan_ids.
  - intros h. rewrite list_elem_of_omap. split.
    + intros (k&_&Hk). by apply by_id_Some in Hk as [? _].
    + intros Hh. exists (hid h). split; [|by apply reg_lookup].
      apply Hall. rewrite plan_ids. apply list_elem_of_fmap. by exists h.
Qed.

Definition dependency_order (hs : list LifecycleHook) : Prop :=
  ∀ l1 h l2, hs = l1 ++ h :: l2 →
  ∀ d, d ∈ DependsOn (Descriptor h) → d ∈ (λ h, hid h) <$> l1.

Lemma topologicalHooks_spec :
  (∀ k, ¬ tc (edge (hook_deps (by_id HookID ds))) k k) →
  ∃ hs, topologicalHooks ds reg = Ok hs ∧ hs ≡ₚ l ∧ dependency_order hs.
Proof.
  intros Hac. unfold topologicalHooks.
  set (dd := descriptor_deps (by_id HookID ds)). set (ids := sort_strings (HookID <$> ds)).
  set (nodes := ids ++ (ds ≫= DependsOn)).
  assert (Hedge : ∀ k d, edge dd k d → d ∈ HookID <$> ds).
  { intros k d. unfold edge, dd, descriptor_deps.
    destruct (by_id HookID ds !! k) as [x|] eqn:E; [|set_solver].
    apply by_id_Some in E as [Hx _]. apply list_elem_of_fmap in Hx as (h&->&Hh).
    by apply registered. }
  assert (dfs dd (length nodes) ids ≠ None) as Hfuel.
  { apply dfs_fuel; [|intros d Hd; apply elem_of_app; by left].
    intros k d _ Hd%Hedge. apply elem_of_app. left. by apply elem_of_sort_strings. }
  destruct (dfs dd (length nodes) ids) as [[k|order]|] eqn:E; [| |done].
  { exfalso. apply dfs_cycle in E. apply (Hac k).
    eapply (tc_congruence (λ x, x)); [|exact E]. intros x y Hxy. unfold edge in *. simpl.
    by rewrite <-descriptor_deps_hook_deps. }
  pose proof (dfs_visited _ _ _ _ E) as [[Hnd Htop] Hroots].
  pose proof (dfs_sound dd (λ k, k ∈ HookID <$> ds) _ _ _ (λ k d _, Hedge k d)
    (proj2 (Forall_forall _ ids) (λ k, proj1 (elem_of_sort_strings k _))) E) as Hsound.
  rewrite Forall_forall in Hsound.
  destruct (hooks_of_order order Hnd) as [Hids Hperm].
  { intros k. split; [apply Hsound|]. intros Hk. by apply Hroots, elem_of_sort_strings. }
  eexists; split_and!; [reflexivity|done|].
  intros l1 h l2 Heq d Hd. rewrite Heq in Hids.
  rewrite fmap_app, fmap_cons in Hids.
  apply (Htop _ (hid h) _ (eq_sym Hids) d). unfold edge, dd.
  rewrite descriptor_deps_lookup; [done|]. rewrite <-Hperm, Heq. set_solver.
Qed.
End plan.

Lemma newHookPlan_spec hs p :
  newHookPlan hs = Ok p →
  ∃ l, hs = Some <$> l ∧ ordered p ≡ₚ l ∧ dependency_order (ordered p) ∧
    Forall (λ h, check_hook h = None) l ∧
    Forall (λ h, validateHookDescriptor (Descriptor h) = None) l ∧
    NoDup ((λ h, hid h) <$> l).
Proof.
  destruct hs as [|h0 hs0]; [intros [= <-]; exists []; split_and!; try done|].
  { by intros [] ???. }
  { constructor. }
  unfold newHookPlan. set (hs := h0 :: hs0).
  destruct (collect_hooks hs) as [l|e] eqn:Ec; [|done]. simpl.
  apply collect_hooks_Ok in Ec as [Hl Hc]. intros H. inv_checks.
  destruct (ValidateLifecycleHooks_None _ H) as (Hv&Hnd&Hac).
  destruct (topologicalHooks_spec l Hnd) as (out&Ht&Hperm&Hdep); [|done|].
  { intros h d Hh Hd. rewrite Forall_forall in H0.
    assert (Descriptor h ∈ Descriptor <$> l) as Hin by by apply list_elem_of_fmap_2.
    specialize (H0 _ Hin). inv_checks. rewrite Forall_forall in H0. specialize (H0 _ Hd).
    apply fail_if_None, absent_false, by_id_is_Some in H0.
    by rewrite <-list_fmap_compose. }
  rewrite Ht in H1. simpl in H1. injection H1 as <-.
  exists l. split_and!; try done; [by rewrite Forall_fmap in Hv|].
  by rewrite <-list_fmap_compose in Hnd.
Qed.

Lemma newHookPlan_nonempty hs :
  hs ≠ [] → newHookPlan hs =
  (collected ← collect_hooks hs;
   let descriptors := Descriptor <$> collected in
   let byID := by_id (λ h, hid h) collected in
   ValidateLifecycleHooks descriptors ;;!
   first_error (λ d,
     first_error (λ dependency,
       fail_if (absent byID dependency)
         (errorf "deployment hook %q depends on unregistered hook %q"
            [GStr (HookID d); GStr dependency])) (DependsOn d)) descriptors ;;!
   (hs ← topologicalHooks descriptors byID; mret {| ordered := hs |})).
Proof. by destruct hs. Qed.

(** A plan is built exactly from registered hooks that are placed at a
    known step, valid as a set, and depend only on each other; it holds each
    hook once, after all its dependencies. *)
Theorem newHookPlan_ordered hs :
  (∀ p, newHookPlan hs = Ok p →
     ∃ l, hs = Some <$> l ∧ ordered p ≡ₚ l ∧ dependency_order (ordered p)) ∧
  ((∃ p, newHookPlan hs = Ok p) ↔
   ∃ l, hs = Some <$> l ∧ Forall (λ h, check_hook h = None) l ∧
     ValidateLifecycleHooks (Descriptor <$> l) = None ∧
     ∀ h d, h ∈ l → d ∈ DependsOn (Descriptor h) → ∃ h', h' ∈ l ∧ hid h' = d).
Proof.
  split; [intros p (l&?&?&?&_)%newHookPlan_spec; eauto|]. split.
  - intros [p Hp]. destruct hs as [|h0 hs0]; [by exists []; repeat split; [constructor|set_solver]|].
    unfold newHookPlan in Hp. set (hs := h0 :: hs0) in *.
    destruct (collect_hooks hs) as [l|e] eqn:Ec; [|done]. simpl in Hp.
    apply collect_hooks_Ok in Ec as [Hl Hc]. inv_checks.
    exists l. split_and!; try done. intros h d Hh Hd.
    rewrite Forall_forall in H0. assert (Descriptor h ∈ Descriptor <$> l) as Hin by by apply list_elem_of_fmap_2.
    specialize (H0 _ Hin). inv_checks. rewrite Forall_forall in H0. specialize (H0 _ Hd).
    apply fail_if_None, absent_false, by_id_is_Some, list_elem_of_fmap in H0 as (h'&->&?). eauto.
  - intros (l&->&Hc&Hv&Hreg). destruct l as [|h0 l0]; [by eexists|]. set (l := h0 :: l0) in *.
    destruct (ValidateLifecycleHooks_None _ Hv) as (_&Hnd&Hac).
    assert (Hr : ∀ h d, h ∈ l → d ∈ DependsOn (Descriptor h) → d ∈ HookID <$> (Descriptor <$> l)).
    { intros h d Hh Hd. destruct (Hreg h d Hh Hd) as (h'&Hh'&<-).
      rewrite <-list_fmap_compose. apply list_elem_of_fmap. by exists h'. }
    destruct (topologicalHooks_spec l Hnd Hr Hac) as (out&Ht&_).
    exists {| ordered := out |}. rewrite newHookPlan_nonempty by done. clearbody l.
    rewrite (proj2 (collect_hooks_Ok (Some <$> l) l)) by done. simpl.
    apply lift_check_Ok. split; [done|]. apply lift_check_Ok. split.
    + apply first_error_None, Forall_forall. intros d Hd.
      apply list_elem_of_fmap in Hd as (h&->&Hh).
      apply first_error_None, Forall_forall. intros x Hx.
      apply fail_if_None, absent_false, by_id_is_Some.
      rewrite <-(plan_ids l). by eapply Hr.
    + rewrite Ht. done.
Qed.

(** ** How often a hook runs *)

Definition is_run (id : string) (ev : event) : bool :=
  match ev with EvHook id' _ => bool_decide (id' = id) | _ => false end.
(** The number of calls of the hook [id]. *)
Definition runs_of (id : string) (evs : list event) : nat := length (filter (is_run id) evs).

Lemma runs_of_app id a b : runs_of id (a ++ b) = runs_of id a + runs_of id b.
Proof. unfold runs_of. by rewrite filter_app, length_app. Qed.

Lemma runs_of_cons id ev evs :
  runs_of id (ev :: evs) = (if is_run id ev then 1 else 0) + runs_of id evs.
Proof. unfold runs_of. rewrite filter_cons. by destruct (is_run id ev). Qed.

Lemma runs_of_none id evs : (∀ e, EvHook id e ∉ evs) → runs_of id evs = 0.
Proof.
  intros H. unfold runs_of. induction evs as [|ev evs IH]; [done|].
  rewrite filter_cons. case_decide as Hev; [|apply IH; set_solver].
  destruct ev; simpl in Hev; try done. apply bool_decide_unpack in Hev as ->. set_solver.
Qed.

Lemma attempt_hook_runs h request n err w id :
  runs_of id (events (attempt_hook h request n err) w) ≤ if decide (hid h = id) then n else 0.
Proof.
  revert err w; induction n as [|n IH]; intros err w; simpl; [run_eff; case_decide; done|].
  run_eff. rewrite runs_of_cons. simpl. rewrite bool_decide_decide.
  destruct (HookRun h request w).1 as [e|]; run_eff.
  - specialize (IH (Some e) (HookRun h request w).2). revert IH. case_decide; lia.
  - unfold runs_of; simpl. case_decide; lia.
Qed.

(** The hook a pass may call. *)
Definition active (h : LifecycleHook) (target relationship : string) : Prop :=
  RelativeTo (Descriptor h) = target ∧
  (Relationship (Descriptor h) = relationship ∨
   relationship = HookBefore ∧ Relationship (Descriptor h) = HookReplace).

#[local] Instance active_dec h target relationship : Decision (active h target relationship).
Proof. unfold active. apply _. Defined.

Lemma run_ordered_runs hs request target rel skipped w h :
  NoDup ((λ h, hid h) <$> hs) → h ∈ hs →
  runs_of (hid h) (events (run_ordered hs request target rel skipped) w) ≤
  if decide (active h target rel) then hook_attempts (Descriptor h) else 0.
Proof.
  intros Hnd Hh. revert skipped w.
  assert (Hother : ∀ hs, hid h ∉ (λ h, hid h) <$> hs → ∀ skipped w,
    runs_of (hid h) (events (run_ordered hs request target rel skipped) w) = 0).
  { clear. induction hs as [|g hs IH]; intros Hn skipped w; simpl; [by run_eff|].
    rewrite fmap_cons, not_elem_of_cons in Hn. destruct Hn as [Hg Hn].
    repeat (case_match; auto). run_eff. rewrite runs_of_app.
    pose proof (attempt_hook_runs g request (hook_attempts (Descriptor g)) None w (hid h)) as Ha.
    rewrite decide_False in Ha by done. destruct (outcome _ _); run_eff; [unfold runs_of in *; simpl; lia|].
    rewrite IH by done. lia. }
  induction hs as [|g hs IH]; [set_solver|]. intros skipped w. rewrite fmap_cons in Hnd.
  apply NoDup_cons in Hnd as [Hg Hnd]. simpl.
  apply elem_of_cons in Hh as [->|Hh].
  - destruct (bool_decide (RelativeTo (Descriptor g) = target)) eqn:Ht; simpl;
      [|rewrite Hother by done; lia].
    destruct (bool_decide (Relationship (Descriptor g) = HookDisable)); [rewrite Hother by done; lia|].
    destruct (negb _ && negb _) eqn:Hrel; [rewrite Hother by done; lia|].
    rewrite decide_True; cycle 1.
    { apply bool_decide_eq_true in Ht. split; [done|].
      apply andb_false_iff in Hrel as [H|H]; apply negb_false_iff in H.
      - left. by apply bool_decide_eq_true in H.
      - right. apply andb_true_iff in H as [H1%bool_decide_eq_true H2%bool_decide_eq_true]. done. }
    run_eff. rewrite runs_of_app.
    pose proof (attempt_hook_runs g request (hook_attempts (Descriptor g)) None w (hid g)) as Ha.
    rewrite decide_True in Ha by done.
    destruct (outcome _ _); run_eff; [unfold runs_of at 2; simpl; lia|]. rewrite Hother by done. lia.
  - assert (hid g ≠ hid h).
    { intros Heq. apply Hg. rewrite Heq. apply list_elem_of_fmap. by exists h. }
    specialize (IH Hnd Hh).
    destruct (negb (bool_decide (RelativeTo _ = _))); [apply IH|].
    destruct (bool_decide (Relationship _ = HookDisable)); [apply IH|].
    destruct (negb _ && negb _); [apply IH|].
    run_eff. rewrite runs_of_app.
    pose proof (attempt_hook_runs g request (hook_attempts (Descriptor g)) None w (hid h)) as Ha.
    rewrite decide_False in Ha by done.
    destruct (outcome _ _); run_eff; [unfold runs_of at 2; simpl; lia|].
    etrans; [apply Nat.add_le_mono; [exact Ha|apply IH]|]. lia.
Qed.

#[local] Arguments runHooks : simpl never.

Section runs.
Context (p : hookPlan) (h : LifecycleHook).
Hypothesis Hnd : NoDup ((λ h, hid h) <$> ordered p).
Hypothesis Hh : h ∈ ordered p.

Lemma runHooks_runs request target rel w :
  runs_of (hid h) (events (runHooks (Some p) request target rel) w) ≤
  if decide (active h target rel) then hook_attempts (Descriptor h) else 0.
Proof. by apply run_ordered_runs. Qed.

Lemma active_once target :
  active h target HookBefore → active h target HookAfter → False.
Proof. unfold active. intros [_ [->|[_ ->]]] [_ [[=]|[[=] _]]]. Qed.

Lemma stage_runs hr target run request pr w :
  reports target run →
  runs_of (hid h) (events (stage (Some p) hr target run request pr) w) ≤
  if decide (RelativeTo (Descriptor h) = target) then hook_attempts (Descriptor h) else 0.
Proof.
  intros Hrun. unfold stage. run_eff. rewrite runs_of_app.
  pose proof (runHooks_runs hr target HookBefore w) as Hb.
  assert (Hsum : ∀ w', runs_of (hid h) (events (runHooks (Some p) hr target HookBefore) w) +
    runs_of (hid h) (events (runHooks (Some p) hr target HookAfter) w') ≤
    if decide (RelativeTo (Descriptor h) = target) then hook_attempts (Descriptor h) else 0).
  { intros w'. pose proof (runHooks_runs hr target HookAfter w') as Ha.
    revert Hb Ha. destruct (decide (active h target HookBefore)) as [H1|],
      (decide (active h target HookAfter)) as [H2|]; intros.
    - by destruct (active_once target).
    - rewrite decide_True by apply H1. lia.
    - rewrite decide_True by apply H2. lia.
    - lia. }
  assert (Hz : runs_of (hid h) [] = 0) by done.
  destruct (outcome (runHooks (Some p) hr target HookBefore) w) as [[]|e]; run_eff.
  - rewrite ?app_nil_r. apply Hsum.
  - destruct (Hrun request pr (final (runHooks (Some p) hr target HookBefore) w)) as (e&He&_).
    rewrite runs_of_app, He, runs_of_cons. simpl is_run. cbv iota.
    destruct (outcome (run request pr) _) as [[x|] pr']; run_eff; rewrite ?app_nil_r, ?Hz.
    + pose proof (Hsum w). lia.
    + apply Hsum.
  - pose proof (Hsum w). lia.
Qed.

Lemma run_stages_runs hr l request pr w :
  NoDup l.*1 → Forall (λ tr, reports tr.1 tr.2) l →
  runs_of (hid h) (events (run_stages ((λ tr, stage (Some p) hr tr.1 tr.2) <$> l) request pr) w) ≤
  if decide (RelativeTo (Descriptor h) ∈ l.*1) then hook_attempts (Descriptor h) else 0.
Proof.
  intros Hl Hr. revert pr w Hl. induction Hr as [|[t run] l Ht Hr IH]; intros pr w Hl.
  { apply Nat.le_0_l. }
  rewrite fmap_cons in Hl. apply NoDup_cons in Hl as [Hn Hl]. simpl in *. run_eff.
  rewrite runs_of_app. pose proof (stage_runs hr t run request pr w Ht) as Hs.
  assert (Hrest : ∀ pr' w', runs_of (hid h) (events (stage (Some p) hr t run request pr) w) +
    runs_of (hid h) (events (run_stages ((λ tr, stage (Some p) hr tr.1 tr.2) <$> l) request pr') w') ≤
    if decide (RelativeTo (Descriptor h) ∈ t :: l.*1) then hook_attempts (Descriptor h) else 0).
  { intros pr' w'. specialize (IH pr' w' Hl). revert Hs IH.
    set (rt := RelativeTo (Descriptor h)). fold rt in Hn |- *.
    destruct (decide (rt = t)) as [<-|], (decide (rt ∈ l.*1)), (decide (rt ∈ _ :: l.*1));
      intros; try lia; exfalso; set_solver. }
  destruct (outcome (stage (Some p) hr t run request pr) w) as [[x|] pr']; run_eff; [|apply Hrest].
  etrans; [|exact (Hrest pr' w)]. apply Nat.add_le_mono_l, Nat.le_0_l.
Qed.

Lemma no_runs evs :
  Forall (λ ev, ¬ is_hook ev) evs → runs_of (hid h) evs = 0.
Proof.
  intros H. apply runs_of_none. intros e Hin. rewrite Forall_forall in H.
  by apply (H _ Hin).
Qed.

Lemma run_locked_runs s release request w :
  runs_of (hid h) (events (run_locked s (Some p) release request) w) ≤ hook_attempts (Descriptor h).
Proof.
  set (pr := {| candidateRegistered := false; runResult := NoResult |}).
  set (body := run_stages (deploy_stages s (Some p) (hook_request request)) request pr).
  assert (runs_of (hid h) (events body w) ≤ hook_attempts (Descriptor h)) as Hb.
  { unfold body. rewrite deploy_stages_list. etrans; [apply run_stages_runs|].
    - rewrite stage_list_targets. apply (bool_decide_unpack _). by vm_compute.
    - apply stage_list_reports.
    - case_decide; lia. }
  unfold run_locked. fold pr body. run_eff. rewrite !runs_of_app.
  rewrite (no_runs (events (deferred _ _ _ _ _) _)); [unfold runs_of in *; simpl; lia|].
  unfold deferred. destruct (candidateRegistered _); run_eff; repeat constructor; by intros ?.
Qed.
End runs.

(** A hook of a plan is called at most [MaxAttempts] times in a whole
    deployment, whatever it is attached to, so a hook that is not idempotent
    is called at most once. *)
Theorem hook_runs_bounded hs p l s request w h :
  newHookPlan hs = Ok p → Some h ∈ hs →
  let evs := events (Run (Some {| lock := l; steps := s; hooks := Some p |}) request) w in
  (Z.of_nat (runs_of (hid h) evs) ≤ MaxAttempts (Descriptor h))%Z ∧
  (Idempotent (Descriptor h) = false → runs_of (hid h) evs ≤ 1).
Proof.
  intros (hooks&->&Hperm&_&_&Hv&Hnd)%newHookPlan_spec Hin evs.
  apply list_elem_of_fmap in Hin as (h'&[= <-]&Hin).
  rewrite Forall_forall in Hv.
  pose proof (validateHookDescriptor_attempts _ (Hv _ Hin)) as Ha.
  assert (runs_of (hid h) evs ≤ hook_attempts (Descriptor h)) as Hle; cycle 1.
  { unfold hook_attempts in Hle. destruct (MaxAttempts (Descriptor h) <? 1)%Z eqn:E.
    { apply Z.ltb_lt in E. lia. }
    split; [lia|]. intros Hi. destruct Ha as [_ Ha]. rewrite Ha in Hle by done. lia. }
  assert (Hval : ∀ evs, Forall before_lock evs → runs_of (hid h) evs = 0).
  { intros es Hes. apply no_runs. eapply Forall_impl; [exact Hes|]. intros ev [Hev| ->]; [destruct ev|]; simpl in *; tauto. }
  unfold evs. set (o := Some _).
  destruct (Run_cases o request w) as [e He Ho|pre e He Hpre Ho|l' s' plan rel pre w' Heq Hg He Hpre Ho].
  - rewrite Hval by done. lia.
  - rewrite He, runs_of_app, Hval; [unfold runs_of; simpl; lia|].
    eapply Forall_impl; [exact Hpre|by left].
  - injection Heq as -> -> <-. rewrite He, runs_of_app, runs_of_cons, Hval; cycle 1.
    { eapply Forall_impl; [exact Hpre|by left]. }
    apply run_locked_runs; [by rewrite Hperm|by rewrite Hperm].
Qed.
End deploy.

(** ** Concrete runs *)

Module DeployExample.
Definition ok (req : @Request unit unit) : unit → gerror * unit := λ w, (None, w).

Definition pinned : string :=
  "registry.example/app@sha256:" +:+ of_bytes (replicate 64 "a"%char).

Definition request : @Request unit unit := {|
  Target := {| TargetID := "aws.ecs"; TargetProvider := "aws"; TargetRuntime := "ecs" |};
  Preview := None; ImageDigest := pinned; App := tt;
  Artifact := {| Sdk.ImageDigest := ""; ManifestDigest := "" |};
  Production := true; Approved := true; Rollback := false;
  AcknowledgeForwardOnlyDB := false; AcknowledgeMaintenanceDrain := true |}.

Definition demo_steps : @Steps unit unit unit unit := {|
  StepValidate := ok; StepPreview := λ _ w, (Ok tt, w); RegisterCandidate := ok;
  RunMigrations := ok; CleanupCandidate := ok; UpdateServices := λ _ w, (Ok tt, w);
  Stabilize := ok; Health := ok; RecordResult := λ r _, ok r |}.

Definition demo_lock (released : gerror) : @Lock unit unit unit :=
  {| Acquire := λ _ w, (Ok (Some (λ w, (released, w))), w) |}.

Definition demo (released : gerror) (plan : option hookPlan) : @Orchestrator unit unit unit unit :=
  {| lock := Some (demo_lock released); steps := Some demo_steps; hooks := plan |}.

(** Two hooks; [warm] depends on [notify], and [notify] is not idempotent. *)
Definition hook (id relative : string) (deps : list string) (attempts : Z) (idempotent : bool)
    : @LifecycleHook unit unit := {|
  Descriptor := {| HookID := id; Phase := PhaseDeploy; Relationship := HookBefore;
    RelativeTo := relative; DependsOn := deps; Timeout := 5; MaxAttempts := attempts;
    Idempotent := idempotent |};
  HookValidate := λ _ w, (None, w);
  HookRun := λ _ w, (None, w) |}.

Definition notify := hook "notify" HookTargetUpdate [] 1 false.
Definition warm := hook "warm" HookTargetUpdate ["notify"] 3 true.
Definition demo_plan : hookPlan := {| ordered := [notify; warm] |}.

Example demo_plan_built : newHookPlan [Some warm; Some notify] = Ok demo_plan.
Proof. vm_compute. reflexivity. Qed.

Example demo_events :
  events (Run tt (Some (demo None (Some demo_plan))) request) tt =
  [EvValidate None; EvHookValidate "notify" None; EvHookValidate "warm" None; EvAcquire true;
   EvStep HookTargetPreview None; EvStep HookTargetCandidate None;
   EvStep HookTargetMigrations None; EvHook "notify" None; EvHook "warm" None;
   EvStep HookTargetUpdate None; EvStep HookTargetStabilize None; EvStep HookTargetHealth None;
   EvStep HookTargetRecord None; EvCleanup None; EvRelease None].
Proof. vm_compute. reflexivity. Qed.

Lemma Run_success_complete_witness :
  gates request = None ∧
  (∃ before, events (Run tt (Some (demo None None)) request) tt = before ++ [EvRelease None]) ∧
  ∀ t, t ∈ step_order →
    EvStep t None ∈ events (Run tt (Some (demo None None)) request) tt ∨
    skips (Some (demo None None) ≫= hooks) t.
Proof. apply (Run_success_complete tt (Some (demo None None)) request tt). vm_compute. reflexivity. Defined.

Lemma Run_release_error_witness :
  ∃ e, (outcome (Run tt (Some (demo (Some (ErrNew "lost")) None)) request) tt).2 = Some e ∧
    wraps (ErrNew "lost") e ∧ errors_Is "deploy.ErrLockRelease" e = true.
Proof.
  apply (Run_release_error tt (Some (demo (Some (ErrNew "lost")) None)) request tt).
  vm_compute. repeat constructor.
Defined.

Lemma hook_runs_bounded_witness :
  let evs := events (Run tt (Some (demo None (Some demo_plan))) request) tt in
  (Z.of_nat (runs_of "notify" evs) ≤ 1)%Z ∧ (false = false → runs_of "notify" evs ≤ 1).
Proof.
  apply (hook_runs_bounded tt [Some warm; Some notify] demo_plan (Some (demo_lock None))
    (Some demo_steps) request tt notify).
  - vm_compute. reflexivity.
  - right. left.
Defined.
End DeployExample.
