(* ===== verification/CleanupLedger.v ===== *)
(** * The cleanup ledger (sdk/cleanup_ledger.go)

    A durable document lists the cloud objects a run owns; [ReconcileCleanup]
    unions it with the inventory of the owning service and deletes what is
    owned and live, persisting the ledger at every step.  The inventory, the
    deleter and the persist function are clients over an arbitrary world; a
    slice the caller shares with the ledger is not tracked, since nothing here
    reads it again. *)

From S2P Require Import Prelude GoStrings Regex GoTime Sdk.

(** ** Data *)

(* sdk/cleanup_ledger.go, lines 12-12: CleanupLedgerVersion *)
Definition CleanupLedgerVersion : Z := 1.

(* sdk/cleanup_ledger.go, lines 16-23: CleanupStatusIntended *)
Definition CleanupStatusIntended := "intended".
(* sdk/cleanup_ledger.go, lines 18-18: CleanupStatusClaimed *)
Definition CleanupStatusClaimed := "claimed".
(* sdk/cleanup_ledger.go, lines 19-19: CleanupStatusDeleting *)
Definition CleanupStatusDeleting := "deleting".
(* sdk/cleanup_ledger.go, lines 20-20: CleanupStatusGone *)
Definition CleanupStatusGone := "gone".
(* sdk/cleanup_ledger.go, lines 21-21: CleanupStatusTombstone *)
Definition CleanupStatusTombstone := "tombstone".
(* sdk/cleanup_ledger.go, lines 22-22: CleanupStatusRefused *)
Definition CleanupStatusRefused := "refused".

Definition cleanup_statuses : list string :=
  [CleanupStatusIntended; CleanupStatusClaimed; CleanupStatusDeleting; CleanupStatusGone;
   CleanupStatusTombstone; CleanupStatusRefused].

(* sdk/cleanup_ledger.go, lines 25-29: CleanupRoleSource *)
Definition CleanupRoleSource := "source".
(* sdk/cleanup_ledger.go, lines 27-27: CleanupRoleRestore *)
Definition CleanupRoleRestore := "restore".
(* sdk/cleanup_ledger.go, lines 28-28: CleanupRoleSnapshot *)
Definition CleanupRoleSnapshot := "snapshot".

(* sdk/cleanup_ledger.go, lines 31-36: CleanupRankSnapshot *)
Definition CleanupRankSnapshot : Z := 10.
(* sdk/cleanup_ledger.go, lines 33-33: CleanupRankRestore *)
Definition CleanupRankRestore : Z := 20.
(* sdk/cleanup_ledger.go, lines 34-34: CleanupRankSource *)
Definition CleanupRankSource : Z := 30.
(* sdk/cleanup_ledger.go, lines 35-35: CleanupRankDefault *)
Definition CleanupRankDefault : Z := 50.

(* sdk/cleanup_ledger.go, lines 40-48: CleanupResource *)
Record CleanupResource := {
  Kind : string;
  Role : string;
  Name : string;
  Identity : string;
  Rank : Z;
  Status : string;
  Detail : string;
}.

(* sdk/cleanup_ledger.go, lines 52-62: CleanupLedger *)
Record CleanupLedger := {
  Version : Z;
  RunID : string;
  Marker : string;
  Provider : string;
  Region : string;
  Project : string;
  Profile : string;
  ClaimedAt : string;
  Resources : list CleanupResource;
}.

(* sdk/cleanup_ledger.go, lines 66-75: CleanupInventoryResource *)
Record CleanupInventoryResource := {
  InvKind : string;
  InvRole : string;
  InvName : string;
  InvIdentity : string;
  Owned : bool;
  Live : bool;
  Delayed : bool;
  Protected : bool;
}.

(* sdk/cleanup_ledger.go, lines 78-83: CleanupInventoryRequest *)
Record CleanupInventoryRequest := {
  ReqMarker : string;
  ReqProvider : string;
  ReqRegion : string;
  ReqProject : string;
}.

(** The key lists a pass over the ledger collects. *)
Record tally := {
  Deleted : list string;
  Gone : list string;
  Pending : list string;
  Refused : list string;
}.

(* sdk/cleanup_ledger.go, lines 105-117: CleanupReport *)
Record CleanupReport := {
  ReportStatus : string;
  ReportMarker : string;
  ReportProvider : string;
  ReportDryRun : bool;
  ReportKeys : tally;
  Remaining : list CleanupResource;
  ReportDetail : string;
  ReportLedger : CleanupLedger;
}.

Definition NoTally : tally := {| Deleted := []; Gone := []; Pending := []; Refused := [] |}.

#[export] Instance CleanupResource_eq_dec : EqDecision CleanupResource.
Proof. solve_decision. Defined.

(** Field updates. *)
Definition with_status (status : string) (r : CleanupResource) : CleanupResource :=
  {| Kind := Kind r; Role := Role r; Name := Name r; Identity := Identity r; Rank := Rank r;
     Status := status; Detail := Detail r |}.
Definition with_detail (detail : string) (r : CleanupResource) : CleanupResource :=
  {| Kind := Kind r; Role := Role r; Name := Name r; Identity := Identity r; Rank := Rank r;
     Status := Status r; Detail := detail |}.
Definition with_resources (rs : list CleanupResource) (l : CleanupLedger) : CleanupLedger :=
  {| Version := Version l; RunID := RunID l; Marker := Marker l; Provider := Provider l;
     Region := Region l; Project := Project l; Profile := Profile l; ClaimedAt := ClaimedAt l;
     Resources := rs |}.
(** [ledger.Resources[index] = current], with [index] in range. *)
Definition set_resource (index : nat) (r : CleanupResource) (l : CleanupLedger) : CleanupLedger :=
  with_resources (<[index := r]> (Resources l)) l.

Definition add_deleted (k : string) (t : tally) : tally :=
  {| Deleted := Deleted t ++ [k]; Gone := Gone t; Pending := Pending t; Refused := Refused t |}.
Definition add_gone (k : string) (t : tally) : tally :=
  {| Deleted := Deleted t; Gone := Gone t ++ [k]; Pending := Pending t; Refused := Refused t |}.
Definition add_pending (k : string) (t : tally) : tally :=
  {| Deleted := Deleted t; Gone := Gone t; Pending := Pending t ++ [k]; Refused := Refused t |}.
Definition add_refused (k : string) (t : tally) : tally :=
  {| Deleted := Deleted t; Gone := Gone t; Pending := Pending t; Refused := Refused t ++ [k] |}.
Definition set_pending (ks : list string) (t : tally) : tally :=
  {| Deleted := Deleted t; Gone := Gone t; Pending := ks; Refused := Refused t |}.

(** ** Pure helpers *)

(* sdk/cleanup_ledger.go, lines 122-139: DefaultCleanupRank *)
Definition DefaultCleanupRank (kind role : string) : Z :=
  let role := TrimSpace role in
  let kind := TrimSpace kind in
  if bool_decide (role = CleanupRoleSnapshot) then CleanupRankSnapshot
  else if bool_decide (role = CleanupRoleRestore) then CleanupRankRestore
  else if bool_decide (role = CleanupRoleSource) then CleanupRankSource
  else if bool_decide (kind ∈ ["rdb-snapshot"; "snapshot"; "backup"; "cloudsql-backup"])
  then CleanupRankSnapshot
  else if bool_decide (kind ∈ ["rdb-instance"; "instance"; "cloudsql-instance"; "database-instance"])
  then CleanupRankSource
  else CleanupRankDefault.

(* sdk/cleanup_ledger.go, lines 597-602: requireCleanupLine *)
Definition requireCleanupLine (name value : string) : gerror :=
  fail_if (blank value || multiline value)
    (errorf "%s is required and must be single-line" [GStr name]).

(* sdk/cleanup_ledger.go, lines 604-612: optionalCleanupLine *)
Definition optionalCleanupLine (name value : string) : gerror :=
  if bool_decide (value = "") then None
  else fail_if (blank value || multiline value) (errorf "%s must be single-line" [GStr name]).

(* sdk/cleanup_ledger.go, lines 536-544: cleanupResourceKey *)
Definition cleanupResourceKey (r : CleanupResource) : string :=
  if negb (blank (Identity r)) then Kind r +:+ ":" +:+ Identity r
  else if negb (blank (Name r)) then Kind r +:+ ":" +:+ Name r
  else "".

(* sdk/cleanup_ledger.go, lines 382-416: validateCleanupResource *)
Definition validateCleanupResource (r : CleanupResource) : gerror :=
  requireCleanupLine "kind" (Kind r)
  ;;? optionalCleanupLine "role" (Role r)
  ;;? optionalCleanupLine "name" (Name r)
  ;;? optionalCleanupLine "identity" (Identity r)
  ;;? optionalCleanupLine "detail" (Detail r)
  ;;? fail_if (Rank r <? 0)%Z (ErrNew "rank cannot be negative")
  ;;? fail_if (negb (bool_decide (Status r ∈ cleanup_statuses)))
        (errorf "unsupported cleanup status %q" [GStr (Status r)])
  ;;? fail_if (bool_decide (Status r = CleanupStatusIntended) && blank (Name r))
        (ErrNew "intended resources require a name")
  ;;? fail_if (negb (bool_decide (Status r = CleanupStatusIntended)) && blank (Identity r) && blank (Name r))
        (ErrNew "claimed resources require a name or identity")
  ;;? fail_if (MatchString sensitiveField (Kind r +:+ Role r +:+ Name r +:+ Identity r +:+ Detail r))
        (ErrNew "cleanup resource fields must not contain secret-bearing names").

(** The loop over the resources, with its index and the keys seen so far. *)
(* sdk/cleanup_ledger.go, lines 174-186: ValidateCleanupLedger *)
Fixpoint validate_resources (i : Z) (seen : list string) (rs : list CleanupResource) : gerror :=
  match rs with
  | [] => None
  | r :: rs =>
      err_wrap (wrapf "cleanup ledger resource %d: %w" [GInt i]) (validateCleanupResource r)
      ;;? let key := cleanupResourceKey r in
          fail_if (bool_decide (key = ""))
            (errorf "cleanup ledger resource %d needs a name or identity" [GInt i])
      ;;? fail_if (bool_decide (key ∈ seen))
            (errorf "cleanup ledger resource %q is duplicated" [GStr key])
      ;;? validate_resources (i + 1) (key :: seen) rs
  end.

(* sdk/cleanup_ledger.go, lines 142-188: ValidateCleanupLedger *)
Definition ValidateCleanupLedger (l : CleanupLedger) : gerror :=
  fail_if (negb (bool_decide (Version l = CleanupLedgerVersion)))
    (errorf "cleanup ledger version %d is unsupported" [GInt (Version l)])
  ;;? requireCleanupLine "cleanup ledger run ID" (RunID l)
  ;;? requireCleanupLine "cleanup ledger ownership marker" (Marker l)
  ;;? requireCleanupLine "cleanup ledger provider" (Provider l)
  ;;? optionalCleanupLine "cleanup ledger region" (Region l)
  ;;? optionalCleanupLine "cleanup ledger project" (Project l)
  ;;? optionalCleanupLine "cleanup ledger profile" (Profile l)
  ;;? requireCleanupLine "cleanup ledger claimed-at" (ClaimedAt l)
  ;;? fail_if (negb (is_rfc3339 (ClaimedAt l)))
        (wrapf "cleanup ledger claimed-at must be RFC3339: %w" [] (ErrTyped "time.ParseError" []))
  ;;? fail_if (MatchString sensitiveField
        (RunID l +:+ Marker l +:+ Provider l +:+ Region l +:+ Project l +:+ Profile l))
        (ErrNew "cleanup ledger identity fields must not contain secret-bearing names")
  ;;? validate_resources 0 [] (Resources l).

(* sdk/cleanup_ledger.go, lines 420-440: validateCleanupInventory *)
Fixpoint validate_inventory_from (i : Z) (seen : list string) (os : list CleanupInventoryResource) : gerror :=
  match os with
  | [] => None
  | o :: os =>
      err_wrap (wrapf "cleanup inventory resource %d: %w" [GInt i])
        (requireCleanupLine "inventory identity" (InvIdentity o)
         ;;? requireCleanupLine "inventory kind" (InvKind o)
         ;;? optionalCleanupLine "inventory role" (InvRole o)
         ;;? optionalCleanupLine "inventory name" (InvName o))
      ;;? fail_if (Live o && Delayed o)
            (errorf "cleanup inventory resource %q cannot be live and delayed" [GStr (InvIdentity o)])
      ;;? fail_if (bool_decide (InvIdentity o ∈ seen))
            (errorf "cleanup inventory identity %q is duplicated" [GStr (InvIdentity o)])
      ;;? validate_inventory_from (i + 1) (InvIdentity o :: seen) os
  end.

(* sdk/cleanup_ledger.go, lines 418-442: validateCleanupInventory *)
Definition validateCleanupInventory (os : list CleanupInventoryResource) : gerror :=
  validate_inventory_from 0 [] os.

(** The index of the first element that satisfies a test. *)
Definition index_of {A} (p : A → bool) (l : list A) : option nat :=
  fst <$> list_find p l.

(* sdk/cleanup_ledger.go, lines 489-501: cleanupInventoryMatch *)
Definition cleanupInventoryMatch (rs : list CleanupResource) (o : CleanupInventoryResource) : option nat :=
  match index_of (λ r, negb (bool_decide (Identity r = "")) && bool_decide (Identity r = InvIdentity o)) rs with
  | Some i => Some i
  | None =>
      index_of (λ r, bool_decide (Identity r = "") && bool_decide (Kind r = InvKind o)
                     && negb (bool_decide (Name r = "")) && bool_decide (Name r = InvName o)) rs
  end.

(** [if field == "" { field = observed }]. *)
Definition or_else (field observed : string) : string :=
  if bool_decide (field = "") then observed else field.

(** Bind an observation to the entry it matches. *)
(* sdk/cleanup_ledger.go, lines 450-468: mergeCleanupInventory *)
Definition bind_observation (o : CleanupInventoryResource) (r : CleanupResource) : CleanupResource :=
  let kind := or_else (Kind r) (InvKind o) in
  let role := or_else (Role r) (InvRole o) in
  {| Kind := kind; Role := role; Name := or_else (Name r) (InvName o);
     Identity := or_else (Identity r) (InvIdentity o);
     Rank := if (Rank r =? 0)%Z then DefaultCleanupRank kind role else Rank r;
     Status := if bool_decide (Status r = CleanupStatusIntended) then CleanupStatusClaimed else Status r;
     Detail := Detail r |}.

(** The entry of an observation the ledger does not know. *)
(* sdk/cleanup_ledger.go, lines 472-484: mergeCleanupInventory *)
Definition adopt_observation (o : CleanupInventoryResource) : CleanupResource :=
  {| Kind := InvKind o; Role := InvRole o; Name := InvName o; Identity := InvIdentity o;
     Rank := DefaultCleanupRank (InvKind o) (InvRole o);
     Status := if Delayed o then CleanupStatusTombstone else CleanupStatusClaimed;
     Detail := "adopted from owning-service inventory" |}.

(* sdk/cleanup_ledger.go, lines 446-484: mergeCleanupInventory *)
Definition merge_one (rs : list CleanupResource) (o : CleanupInventoryResource) : list CleanupResource :=
  if negb (Owned o) then rs else
  match cleanupInventoryMatch rs o with
  | Some i => alter (bind_observation o) i rs
  | None => rs ++ [adopt_observation o]
  end.

(* sdk/cleanup_ledger.go, lines 444-487: mergeCleanupInventory *)
Definition mergeCleanupInventory (l : CleanupLedger) (os : list CleanupInventoryResource) : CleanupLedger :=
  with_resources (fold_left merge_one os (Resources l)) l.

(* sdk/cleanup_ledger.go, lines 503-512: indexCleanupInventory *)
Definition indexCleanupInventory (os : list CleanupInventoryResource) : gmap string CleanupInventoryResource :=
  fold_left (λ index o,
    let index := <["id:" +:+ InvIdentity o := o]> index in
    if negb (bool_decide (InvName o = ""))
    then <["name:" +:+ InvKind o +:+ ":" +:+ InvName o := o]> index
    else index) os ∅.

(* sdk/cleanup_ledger.go, lines 514-524: lookupCleanupInventory *)
Definition lookupCleanupInventory (index : gmap string CleanupInventoryResource)
    (r : CleanupResource) : option CleanupInventoryResource :=
  if negb (bool_decide (Identity r = "")) then index !! ("id:" +:+ Identity r)
  else if negb (bool_decide (Name r = "")) then index !! ("name:" +:+ Kind r +:+ ":" +:+ Name r)
  else None.

(* sdk/cleanup_ledger.go, lines 526-534: cleanupResourceIndex *)
Definition cleanupResourceIndex (rs : list CleanupResource) (wanted : CleanupResource) : option nat :=
  index_of (λ r, bool_decide (cleanupResourceKey r = cleanupResourceKey wanted)) rs.

(* sdk/cleanup_ledger.go, lines 546-557: remainingCleanupResources *)
Definition remainingCleanupResources (l : CleanupLedger) : list CleanupResource :=
  filter (λ r, Status r ≠ CleanupStatusGone) (Resources l).

(* sdk/cleanup_ledger.go, lines 570-585: uniqueCleanupKeys *)
Definition uniqueCleanupKeys (values : list string) : list string :=
  sort_strings (dedup [] values).

(* sdk/cleanup_ledger.go, lines 559-568: pendingCleanupKeys *)
Definition pendingCleanupKeys (l : CleanupLedger) (pending : list string) : list string :=
  uniqueCleanupKeys (pending ++ (cleanupResourceKey <$>
    filter (λ r, Status r ∈ [CleanupStatusClaimed; CleanupStatusDeleting; CleanupStatusTombstone])
      (Resources l))).

(** The order of the pass: rank, then key. *)
(* sdk/cleanup_ledger.go, lines 227-234: ReconcileCleanup *)
Definition rank_le (a b : CleanupResource) : Prop :=
  (Rank a < Rank b)%Z ∨ Rank a = Rank b ∧ String.le (cleanupResourceKey a) (cleanupResourceKey b).

#[export] Instance rank_le_dec a b : Decision (rank_le a b).
Proof. unfold rank_le. apply _. Defined.

(* sdk/cleanup_ledger.go, lines 226-234: ReconcileCleanup *)
Definition rank_sort (rs : list CleanupResource) : list CleanupResource := sort_by rank_le rs.

(** ** Reconciliation *)

Section reconcile.
Context {W : Type}.
(** The text of a provider's error. *)
Context (error_text : error → string).

Abbreviation action A := (W → A * W).

(* sdk/cleanup_ledger.go, lines 87-89: CleanupInventoryClient *)
Definition CleanupInventoryClient : Type :=
  CleanupInventoryRequest → action (result (list CleanupInventoryResource)).

(* sdk/cleanup_ledger.go, lines 92-94: CleanupDeleteClient *)
Definition CleanupDeleteClient : Type := CleanupResource → action gerror.

(* sdk/cleanup_ledger.go, lines 99-102: CleanupReconcileOptions *)
Record CleanupReconcileOptions := {
  DryRun : bool;
  Persist : option (CleanupLedger → action gerror);
}.

Inductive event :=
  | EvInventory (req : CleanupInventoryRequest) (answer : result (list CleanupInventoryResource))
  | EvPersist (l : CleanupLedger) (e : gerror)
  | EvDelete (r : CleanupResource) (e : gerror).

Abbreviation M := (eff event W).

(* sdk/cleanup_ledger.go, lines 587-595: persistCleanupLedger *)
Definition persistCleanupLedger (l : CleanupLedger) (options : CleanupReconcileOptions) : M gerror :=
  match Persist options with
  | None => mret None
  | Some persist =>
      err ← call (EvPersist l) (persist l);
      mret (err_wrap (wrapf "persist cleanup ledger: %w" []) err)
  end.

(** [if err := persist(...); err != nil { return CleanupReport{}, err }]. *)
Definition saved {A} (l : CleanupLedger) (options : CleanupReconcileOptions) (a : A) : M (result A) :=
  err ← persistCleanupLedger l options;
  mret (match err with Some e => Err e | None => Ok a end).

(** The [found && observation.Live] case outside a dry run. *)
(* sdk/cleanup_ledger.go, lines 306-326: ReconcileCleanup *)
Definition delete_resource (deleter : CleanupDeleteClient) (options : CleanupReconcileOptions)
    (l : CleanupLedger) (t : tally) (index : nat) (current : CleanupResource)
    : M (result (CleanupLedger * tally)) :=
  let current := with_status CleanupStatusDeleting current in
  let l := set_resource index current l in
  marked ← saved l options tt;
  match marked with
  | Err e => mret (Err e)
  | Ok _ =>
      err ← call (EvDelete current) (deleter current);
      match err with
      | Some e =>
          let text := error_text e in
          let current := with_detail (if multiline text then "provider delete failed" else text) current in
          _ ← persistCleanupLedger (set_resource index current l) options;
          mret (Err (wrapf "delete cleanup resource %q: %w" [GStr (cleanupResourceKey current)] e))
      | None =>
          let current := with_detail "deleted through owning-service inventory"
                           (with_status CleanupStatusGone current) in
          let l := set_resource index current l in
          saved l options (l, add_deleted (cleanupResourceKey current) t)
      end
  end.

(** One iteration of the loop: the cases of the switch, in order.  [settle]
    writes the new status and detail, files the key and persists. *)
(* sdk/cleanup_ledger.go, lines 247-327: ReconcileCleanup *)
Definition reconcile_one (deleter : CleanupDeleteClient) (options : CleanupReconcileOptions)
    (byIdentity : gmap string CleanupInventoryResource)
    (l : CleanupLedger) (t : tally) (resource : CleanupResource)
    : M (result (CleanupLedger * tally)) :=
  match cleanupResourceIndex (Resources l) resource with
  | None => mret (Ok (l, t))
  | Some index =>
      match Resources l !! index with
      | None => mret (Ok (l, t))
      | Some current =>
          let observation := lookupCleanupInventory byIdentity current in
          let is_status s := bool_decide (Status current = s) in
          let observed flag := match observation with Some o => flag o | None => false end in
          let found := bool_decide (is_Some observation) in
          let key := cleanupResourceKey current in
          let settle status detail file :=
            let current := with_detail detail (with_status status current) in
            let l := set_resource index current l in
            saved l options (l, file (cleanupResourceKey current) t) in
          if is_status CleanupStatusGone then mret (Ok (l, add_gone key t))
          else if is_status CleanupStatusRefused then mret (Ok (l, add_refused key t))
          else if is_status CleanupStatusTombstone then mret (Ok (l, add_pending key t))
          else if observed (λ o, negb (Owned o)) then
            settle CleanupStatusRefused "owning-service inventory did not confirm ownership" add_refused
          else if observed Protected then
            settle CleanupStatusClaimed "resource is protected; deletion was not attempted" add_pending
          else if observed Delayed then
            settle CleanupStatusTombstone "provider-mandated deletion tombstone" add_pending
          else if negb found && is_status CleanupStatusIntended then mret (Ok (l, t))
          else if negb found && bool_decide (Identity current = "") && is_status CleanupStatusClaimed then
            mret (Ok (l, add_pending key t))
          else if negb found && (is_status CleanupStatusClaimed || is_status CleanupStatusDeleting) then
            settle CleanupStatusGone "owning-service inventory no longer contains this resource" add_gone
          else if observed Live then
            if DryRun options then mret (Ok (l, add_pending key t))
            else delete_resource deleter options l t index current
          else mret (Ok (l, t))
      end
  end.

(* sdk/cleanup_ledger.go, lines 243-328: ReconcileCleanup *)
Fixpoint reconcile_loop (deleter : CleanupDeleteClient) (options : CleanupReconcileOptions)
    (byIdentity : gmap string CleanupInventoryResource)
    (l : CleanupLedger) (t : tally) (sorted : list CleanupResource)
    : M (result (CleanupLedger * tally)) :=
  match sorted with
  | [] => mret (Ok (l, t))
  | resource :: sorted =>
      r ← reconcile_one deleter options byIdentity l t resource;
      match r with
      | Err e => mret (Err e)
      | Ok (l, t) => reconcile_loop deleter options byIdentity l t sorted
      end
  end.

(** The verdict on the verifying inventory. *)
(* sdk/cleanup_ledger.go, lines 342-380: ReconcileCleanup *)
Definition conclude (options : CleanupReconcileOptions) (l : CleanupLedger) (t : tally)
    (verified : list CleanupInventoryResource) : CleanupReport :=
  let owned := filter (λ o, Owned o = true) verified in
  let live := sort_strings (InvIdentity <$> filter (λ o, Live o = true) owned) in
  let delayed := sort_strings (InvIdentity <$> filter (λ o, Delayed o = true) owned) in
  let activePending := pendingCleanupKeys l (Pending t) in
  let some {A} (xs : list A) := negb (bool_decide (length xs = 0)) in
  let report status detail keys :=
    {| ReportStatus := status; ReportMarker := Marker l; ReportProvider := Provider l;
       ReportDryRun := DryRun options; ReportKeys := keys;
       Remaining := remainingCleanupResources l; ReportDetail := detail; ReportLedger := l |} in
  if some (Refused t) then
    report "failed" "owned live resources or refused identities remain" t
  else if DryRun options && (some live || some activePending) then
    report "pending" "dry-run; owned live resources were not deleted"
      (set_pending (uniqueCleanupKeys (activePending ++ live)) t)
  else if some live then
    report "failed" "owned live resources or refused identities remain" t
  else if some delayed || some activePending then
    report "pending" "provider deletion tombstones, protected resources, or unbound claims remain"
      (set_pending (uniqueCleanupKeys (activePending ++ delayed)) t)
  else report "complete" "" t.

(* sdk/cleanup_ledger.go, lines 207-212: ReconcileCleanup *)
Definition inventory_request (l : CleanupLedger) : CleanupInventoryRequest :=
  {| ReqMarker := Marker l; ReqProvider := Provider l; ReqRegion := Region l; ReqProject := Project l |}.

(** Query the owning service and check the answer. *)
(* sdk/cleanup_ledger.go, lines 207-218: ReconcileCleanup *)
Definition take_inventory (inventory : CleanupInventoryClient) (l : CleanupLedger) (context : string)
    : M (result (list CleanupInventoryResource)) :=
  r ← call (EvInventory (inventory_request l)) (inventory (inventory_request l));
  mret (match r with
        | Err e => Err (wrapf (context +:+ ": %w") [] e)
        | Ok os => validateCleanupInventory os ;;! Ok os
        end).

(** From the first inventory on, with a deleter where one is needed. *)
(* sdk/cleanup_ledger.go, lines 207-379: ReconcileCleanup *)
Definition reconcile_with (inventory : CleanupInventoryClient) (deleter : CleanupDeleteClient)
    (options : CleanupReconcileOptions) (l : CleanupLedger) : M (result CleanupReport) :=
  first ← take_inventory inventory l "inventory owned cleanup resources";
  match first with
  | Err e => mret (Err e)
  | Ok observed =>
      let l := mergeCleanupInventory l observed in
      merged ← saved l options tt;
      match merged with
      | Err e => mret (Err e)
      | Ok _ =>
          r ← reconcile_loop deleter options (indexCleanupInventory observed) l NoTally
                (rank_sort (Resources l));
          match r with
          | Err e => mret (Err e)
          | Ok (l, t) =>
              second ← take_inventory inventory l "verify cleanup inventory";
              mret (verified ← second; Ok (conclude options l t verified))
          end
      end
  end.

(** A nil client is [None]; [ctx] tells whether a context was given.  A dry
    run reaches no call of the deleter. *)
(* sdk/cleanup_ledger.go, lines 193-380: ReconcileCleanup *)
Definition ReconcileCleanup (ctx : bool) (l : CleanupLedger)
    (inventory : option CleanupInventoryClient) (deleter : option CleanupDeleteClient)
    (options : CleanupReconcileOptions) : M (result CleanupReport) :=
  if negb ctx then mret (Err (ErrNew "cleanup reconcile context is required")) else
  match ValidateCleanupLedger l with
  | Some e => mret (Err e)
  | None =>
      match inventory, deleter with
      | None, _ => mret (Err (ErrNew "cleanup inventory client is required"))
      | Some inventory, Some deleter => reconcile_with inventory deleter options l
      | Some inventory, None =>
          if DryRun options then reconcile_with inventory (λ _ w, (None, w)) options l
          else mret (Err (ErrNew "cleanup delete client is required unless dry-run is set"))
      end
  end.

(** ** Entries and ledgers over time *)

Definition terminal (status : string) : Prop :=
  status ∈ [CleanupStatusGone; CleanupStatusRefused; CleanupStatusTombstone].

(** What the loop never changes in an entry. *)
Definition identity_of (r : CleanupResource) : string * string * string * string * Z :=
  (Kind r, Role r, Name r, Identity r, Rank r).

Definition header (l : CleanupLedger) := with_resources [] l.

(** The loop: entries keep their identity, settled entries do not change. *)
Definition loop_advances (l l' : CleanupLedger) : Prop :=
  header l' = header l ∧
  Forall2 (λ r r', identity_of r' = identity_of r ∧ (terminal (Status r) → r' = r))
    (Resources l) (Resources l').

#[global] Instance loop_advances_refl : Reflexive loop_advances.
Proof. intros l. split; [done|]. by apply Forall_Forall2_diag, Forall_forall. Qed.

#[global] Instance loop_advances_trans : Transitive loop_advances.
Proof.
  intros l1 l2 l3 [H1 F1] [H2 F2]. split; [congruence|].
  eapply Forall2_trans; [|exact F1|exact F2].
  intros r1 r2 r3 [? Ht1] [? Ht2]. split; [congruence|]. intros Ht.
  specialize (Ht1 Ht) as ->. auto.
Qed.

Lemma set_resource_advances l i r0 r :
  Resources l !! i = Some r0 → ¬ terminal (Status r0) → identity_of r = identity_of r0 →
  loop_advances l (set_resource i r l).
Proof.
  intros Hi Ht Hr. split; [done|]. simpl.
  apply Forall2_same_length_lookup. split; [by rewrite length_insert|].
  intros j x y Hx Hy. rewrite list_lookup_insert in Hy.
  case_decide as Hc; [destruct Hc as [<- _]|]; simplify_eq; split; try done.
  unfold identity_of; congruence.
Qed.

(** Both merging and the loop: an entry only gains what it lacks, keeps its
    place, and a settled status stays. *)
Definition entry_refines (r r' : CleanupResource) : Prop :=
  (Kind r ≠ "" → Kind r' = Kind r) ∧ (Role r ≠ "" → Role r' = Role r) ∧
  (Name r ≠ "" → Name r' = Name r) ∧ (Identity r ≠ "" → Identity r' = Identity r) ∧
  (Rank r ≠ 0%Z → Rank r' = Rank r) ∧ (terminal (Status r) → Status r' = Status r).

Definition ledger_refines (l l' : CleanupLedger) : Prop :=
  header l' = header l ∧
  ∃ known new, Resources l' = known ++ new ∧ Forall2 entry_refines (Resources l) known.

#[global] Instance entry_refines_refl : Reflexive entry_refines.
Proof. by intros r. Qed.

#[global] Instance entry_refines_trans : Transitive entry_refines.
Proof.
  intros r1 r2 r3 (?&?&?&?&?&?) (?&?&?&?&?&Ht). split_and!; intros.
  1-5: naive_solver congruence.
  rewrite Ht; [auto|]. by rewrite H4.
Qed.

#[global] Instance ledger_refines_refl : Reflexive ledger_refines.
Proof. intros l. split; [done|]. exists (Resources l), []. by rewrite app_nil_r. Qed.

#[global] Instance ledger_refines_trans : Transitive ledger_refines.
Proof.
  intros l1 l2 l3 [H1 (k1&n1&E1&F1)] [H2 (k2&n2&E2&F2)]. split; [congruence|].
  rewrite E1 in F2. apply Forall2_app_inv_l in F2 as (a&b&Fa&Fb&->).
  exists a, (b ++ n2). split; [by rewrite E2, <-app_assoc|].
  eapply Forall2_trans; [|exact F1|exact Fa]. intros x y z. apply transitivity.
Qed.

Lemma loop_advances_refines l l' : loop_advances l l' → ledger_refines l l'.
Proof.
  intros [Hh F]. split; [done|]. exists (Resources l'), []. rewrite app_nil_r. split; [done|].
  eapply Forall2_impl; [exact F|]. intros r r' [Hid Ht]. injection Hid as H1 H2 H3 H4 H5.
  unfold entry_refines. rewrite H1, H2, H3, H4, H5. split_and!; try done.
  intros H. by rewrite (Ht H).
Qed.

Lemma bind_observation_refines o r : entry_refines r (bind_observation o r).
Proof.
  unfold entry_refines, bind_observation, or_else; simpl. split_and!.
  1-4: intros; by rewrite bool_decide_false.
  - intros H. destruct (Z.eqb_spec (Rank r) 0); done.
  - intros Ht. case_bool_decide as Hs; [|done]. rewrite Hs in Ht. set_solver.
Qed.

Lemma index_of_Some {A} (p : A → bool) l i :
  index_of p l = Some i → ∃ x, l !! i = Some x ∧ p x = true.
Proof.
  unfold index_of. intros ([j x]&H&->)%fmap_Some.
  apply list_find_Some in H as (?&?&_). exists x. split; [done|]. by apply Is_true_true.
Qed.

Lemma merge_one_refines l rs o :
  Resources l = rs → ledger_refines l (with_resources (merge_one rs o) l).
Proof.
  intros <-. split; [done|]. simpl. unfold merge_one.
  destruct (negb (Owned o)); [exists (Resources l), []; by rewrite app_nil_r|].
  destruct (cleanupInventoryMatch _ _) as [i|].
  - exists (alter (bind_observation o) i (Resources l)), []. rewrite app_nil_r. split; [done|].
    apply Forall2_same_length_lookup. split; [by rewrite length_alter|].
    intros j x y Hx Hy. destruct (decide (i = j)) as [->|].
    + rewrite list_lookup_alter_eq, Hx in Hy. simplify_eq/=. apply bind_observation_refines.
    + rewrite list_lookup_alter_ne, Hx in Hy by done. by simplify_eq.
  - by exists (Resources l), [adopt_observation o].
Qed.

Lemma merge_refines l os : ledger_refines l (mergeCleanupInventory l os).
Proof.
  unfold mergeCleanupInventory.
  assert (∀ rs, ledger_refines (with_resources rs l) (with_resources (fold_left merge_one os rs) l)) as H.
  { induction os as [|o os IH]; intros rs; simpl; [reflexivity|].
    etrans; [|apply IH]. apply (merge_one_refines (with_resources rs l) rs o eq_refl). }
  specialize (H (Resources l)). by destruct l.
Qed.

(** ** One iteration *)

(** What the loop may delete. *)
Record deletable (options : CleanupReconcileOptions) (byIdentity : gmap string CleanupInventoryResource)
    (current : CleanupResource) : Prop := {
  del_real : DryRun options = false;
  del_open : ¬ terminal (Status current);
  del_seen : ∃ o, lookupCleanupInventory byIdentity current = Some o ∧
    Owned o = true ∧ Live o = true ∧ Protected o = false ∧ Delayed o = false;
}.

Inductive one_shape deleter options byIdentity l t resource :
    M (result (CleanupLedger * tally)) → Prop :=
  | shape_skip t' : one_shape deleter options byIdentity l t resource (mret (Ok (l, t')))
  | shape_settle i current r t' :
      Resources l !! i = Some current → cleanupResourceKey current = cleanupResourceKey resource →
      ¬ terminal (Status current) → identity_of r = identity_of current →
      one_shape deleter options byIdentity l t resource
        (saved (set_resource i r l) options (set_resource i r l, t'))
  | shape_delete i current :
      Resources l !! i = Some current → cleanupResourceKey current = cleanupResourceKey resource →
      deletable options byIdentity current →
      one_shape deleter options byIdentity l t resource
        (delete_resource deleter options l t i current).

Lemma reconcile_one_shape deleter options byIdentity l t resource :
  one_shape deleter options byIdentity l t resource
    (reconcile_one deleter options byIdentity l t resource).
Proof.
  unfold reconcile_one.
  destruct (cleanupResourceIndex (Resources l) resource) as [i|] eqn:Ei; [|constructor].
  apply index_of_Some in Ei as (x&Hx&Hk%bool_decide_eq_true). rewrite Hx. cbv zeta.
  case_bool_decide as Hgone; [constructor|]. case_bool_decide as Href; [constructor|].
  case_bool_decide as Htomb; [constructor|].
  assert (¬ terminal (Status x)) as Ht by (unfold terminal; set_solver).
  destruct (lookupCleanupInventory byIdentity x) as [o|] eqn:Eo; simpl.
  - destruct (Owned o) eqn:?; simpl; [|by eapply shape_settle].
    destruct (Protected o) eqn:?; [by eapply shape_settle|].
    destruct (Delayed o) eqn:?; [by eapply shape_settle|].
    destruct (Live o) eqn:?; [|constructor].
    destruct (DryRun options) eqn:?; [constructor|].
    eapply shape_delete; [done|done|]. by split; [| |exists o].
  - destruct (bool_decide (Status x = CleanupStatusIntended)); [constructor|].
    destruct (bool_decide (Identity x = "") && _); [constructor|].
    destruct (_ || _); [by eapply shape_settle|constructor].
Qed.

(** ** Events of the loop *)

(** The deletion is announced in a persisted ledger just before it, and its
    result is persisted just after it. *)
Definition announced (evs : list event) : Prop :=
  ∀ a r e b, evs = a ++ EvDelete r e :: b →
    (∃ a' L, a = a' ++ [EvPersist L None] ∧ r ∈ Resources L) ∧
    (∃ L x b' r', b = EvPersist L x :: b' ∧ r' ∈ Resources L ∧ identity_of r' = identity_of r ∧
       Status r' = if e then CleanupStatusDeleting else CleanupStatusGone).

Lemma announced_nodelete evs : (∀ r e, EvDelete r e ∉ evs) → announced evs.
Proof. intros H a r e b ->. destruct (H r e). set_solver. Qed.

Lemma announced_app evs1 evs2 : announced evs1 → announced evs2 → announced (evs1 ++ evs2).
Proof.
  intros H1 H2 a r e b Heq. apply app_eq_inv in Heq as [(k&->&Hk)|(k&->&Hk)].
  - destruct k as [|ev k]; simpl in Hk.
    + destruct (H2 [] r e b (eq_sym Hk)) as [(a'&L&Ha&_) _]. by destruct a'.
    + injection Hk as <- ->. destruct (H1 a r e k eq_refl) as [Ha (L&x&b'&r'&->&?&?&?)].
      split; [done|]. exists L, x, (b' ++ evs2), r'. done.
  - destruct (H2 k r e b Hk) as [(a'&L&->&?) Hb]. split; [|done].
    exists (evs1 ++ a'), L. by rewrite app_assoc.
Qed.

(** The calls of the loop. *)
Definition loop_event (options : CleanupReconcileOptions) (byIdentity : gmap string CleanupInventoryResource)
    (l : CleanupLedger) (ev : event) : Prop :=
  match ev with
  | EvInventory _ _ => False
  | EvPersist L _ => loop_advances l L
  | EvDelete r _ => ∃ current, r = with_status CleanupStatusDeleting current ∧
      deletable options byIdentity current
  end.

Lemma loop_event_weaken options byIdentity l l' ev :
  loop_advances l l' → loop_event options byIdentity l' ev → loop_event options byIdentity l ev.
Proof. destruct ev; simpl; try done. intros. by etrans. Qed.

Record loop_spec options byIdentity l (m : M (result (CleanupLedger * tally))) (w : W) : Prop := {
  ls_events : Forall (loop_event options byIdentity l) (events m w);
  ls_out : ∀ l' t', outcome m w = Ok (l', t') → loop_advances l l';
  ls_announced : is_Some (Persist options) → announced (events m w);
}.

Lemma delete_resource_spec deleter options byIdentity l t i current w :
  Resources l !! i = Some current → deletable options byIdentity current →
  loop_spec options byIdentity l (delete_resource deleter options l t i current) w.
Proof.
  intros Hi Hd. pose proof (del_open _ _ _ Hd) as Hopen.
  assert (Hadv : ∀ r, identity_of r = identity_of current → loop_advances l (set_resource i r l)).
  { intros r Hr. by eapply set_resource_advances. }
  assert (Hset : ∀ r1 r2, set_resource i r2 (set_resource i r1 l) = set_resource i r2 l).
  { intros r1 r2. unfold set_resource, with_resources; simpl. by rewrite list_insert_insert_eq. }
  assert (Hin : ∀ r, r ∈ Resources (set_resource i r l)).
  { intros r. simpl. apply list_elem_of_lookup. exists i.
    apply list_lookup_insert_eq. by eapply lookup_lt_Some. }
  assert (Hann : ∀ r e x r', identity_of r = identity_of current → identity_of r' = identity_of r →
    Status r' = (if e : gerror then CleanupStatusDeleting else CleanupStatusGone) →
    announced [EvPersist (set_resource i r l) None; EvDelete r e; EvPersist (set_resource i r' l) x]).
  { intros r e x r' Hr Hr' Hs [|ev1 [|ev2 [|ev3 [|? ?]]]] y f b [=]; simplify_eq.
    split; [by exists [], (set_resource i y l)|].
    exists (set_resource i r' l), x, [], r'. split_and!; try done; try apply Hin.
    all: unfold identity_of; congruence. }
  unfold delete_resource, saved, persistCleanupLedger. cbv zeta.
  set (cur := with_status CleanupStatusDeleting current).
  assert (Hdel : ∀ e, loop_event options byIdentity l (EvDelete cur e)) by by exists current.
  destruct (Persist options) as [persist|] eqn:Hp; run_eff.
  - destruct (persist (set_resource i cur l) w) as [[e|] w1] eqn:E1.
    + split; run_eff; rewrite E1; run_eff; [|done|].
      * apply Forall_singleton. by apply Hadv.
      * intros _. apply announced_nodelete. set_solver.
    + destruct (deleter cur w1) as [[e|] w2] eqn:E2; split; run_eff; rewrite E1; run_eff;
        rewrite E2; run_eff; rewrite ?Hset; try done.
      * repeat (apply Forall_cons; split; [first [apply Hdel | by apply Hadv]|]). constructor.
      * intros _. by apply Hann.
      * repeat (apply Forall_cons; split; [first [apply Hdel | by apply Hadv]|]). constructor.
      * intros l' t'. case_match; [done|]. intros [= <- <-]. by apply Hadv.
      * intros _. by apply Hann.
  - destruct (deleter cur w) as [[e|] w2] eqn:E2; split; run_eff; rewrite E2; run_eff; rewrite ?Hset; try done.
    + by apply Forall_singleton.
    + rewrite Hp. by intros [? ?].
    + by apply Forall_singleton.
    + intros l' t' [= <- <-]. by apply Hadv.
    + rewrite Hp. by intros [? ?].
Qed.

Lemma reconcile_one_spec deleter options byIdentity l t resource w :
  loop_spec options byIdentity l (reconcile_one deleter options byIdentity l t resource) w.
Proof.
  destruct (reconcile_one_shape deleter options byIdentity l t resource)
    as [t'|i current r t' Hi Hk Ht Hr|i current Hi Hk Hd].
  - split; run_eff; [constructor|by intros ?? [= <- <-]|].
    intros _. apply announced_nodelete. set_solver.
  - assert (loop_advances l (set_resource i r l)) by by eapply set_resource_advances.
    unfold saved, persistCleanupLedger. destruct (Persist options) as [persist|] eqn:Hp.
    + split; run_eff; [by apply Forall_singleton| |].
      * intros l' t''. case_match; [done|]. by intros [= <- <-].
      * intros _. apply announced_nodelete. set_solver.
    + split; run_eff; [constructor|by intros ?? [= <- <-]|rewrite Hp; by intros [? ?]].
  - by apply delete_resource_spec.
Qed.

Lemma reconcile_loop_spec deleter options byIdentity l t sorted w :
  loop_spec options byIdentity l (reconcile_loop deleter options byIdentity l t sorted) w.
Proof.
  revert l t w; induction sorted as [|r sorted IH]; intros l t w; simpl.
  - split; run_eff; [constructor|by intros ?? [= <- <-]|].
    intros _. apply announced_nodelete. set_solver.
  - destruct (reconcile_one_spec deleter options byIdentity l t r w) as [He Ho Ha].
    set (one := reconcile_one deleter options byIdentity l t r) in *.
    destruct (outcome one w) as [[l1 t1]|e] eqn:Eo.
    + destruct (IH l1 t1 (final one w)) as [He' Ho' Ha']. specialize (Ho _ _ eq_refl).
      split; run_eff; rewrite Eo.
      * apply Forall_app. split; [done|]. eapply Forall_impl; [exact He'|].
        intros ev. by apply loop_event_weaken.
      * intros l' t' H. etrans; [exact Ho|]. by eapply Ho'.
      * intros Hp. apply announced_app; auto.
    + split; run_eff; rewrite Eo; run_eff; rewrite ?app_nil_r; done.
Qed.
End reconcile.
