(* ===== verification/CleanupClaims.v ===== *)
(** * What a reconciliation guarantees

    The theorems on [ReconcileCleanup]: what it deletes and in which order,
    what the persisted ledgers record, when it reports completion, and two
    situations it does not recover from. *)

From S2P Require Import Prelude GoStrings Regex GoTime Sdk CleanupLedger.

Section reconcile.
Context {W : Type} (error_text : error → string).

Abbreviation action A := (W → A * W).
Abbreviation M := (eff event W).
Abbreviation CleanupInventoryClient := (@CleanupInventoryClient W).
Abbreviation CleanupDeleteClient := (@CleanupDeleteClient W).
Abbreviation CleanupReconcileOptions := (@CleanupReconcileOptions W).
Abbreviation delete_resource := (delete_resource error_text).
Abbreviation reconcile_one := (reconcile_one error_text).
Abbreviation reconcile_loop := (reconcile_loop error_text).
Abbreviation reconcile_with := (reconcile_with error_text).
Abbreviation ReconcileCleanup := (ReconcileCleanup error_text).

(** ** A whole pass *)

#[local] Arguments rank_sort : simpl never.
#[local] Arguments Resources : simpl never.

Lemma take_inventory_spec (inventory : CleanupInventoryClient) l context w :
  let m := take_inventory inventory l context in
  let answer := (inventory (inventory_request l) w).1 in
  events m w = [EvInventory (inventory_request l) answer] ∧
  (∀ os, outcome m w = Ok os → answer = Ok os ∧ validateCleanupInventory os = None).
Proof.
  unfold take_inventory. run_eff. split; [done|]. intros os.
  destruct (inventory _ w).1 as [os'|e]; [|done]. intros [? [= ->]]%lift_check_Ok. done.
Qed.

(** How far a pass got. *)
Inductive pass_shape (inventory : CleanupInventoryClient) (deleter : CleanupDeleteClient)
    (options : CleanupReconcileOptions) (l : CleanupLedger) (w : W) (evs : list event) (out : result CleanupReport) : Prop :=
  | pass_no_inventory answer e :
      evs = [EvInventory (inventory_request l) answer] → out = Err e →
      pass_shape inventory deleter options l w evs out
  | pass_unsaved observed e x :
      evs = [EvInventory (inventory_request l) (Ok observed);
             EvPersist (mergeCleanupInventory l observed) x] → out = Err e →
      pass_shape inventory deleter options l w evs out
  | pass_loop observed saved w1 e :
      (inventory (inventory_request l) w).1 = Ok observed → validateCleanupInventory observed = None →
      Forall (λ ev, ∃ x, ev = EvPersist (mergeCleanupInventory l observed) x) saved →
      let loop := reconcile_loop deleter options (indexCleanupInventory observed)
        (mergeCleanupInventory l observed) NoTally
        (rank_sort (Resources (mergeCleanupInventory l observed))) in
      evs = EvInventory (inventory_request l) (Ok observed) :: saved ++ events loop w1 →
      outcome loop w1 = Err e → out = Err e →
      pass_shape inventory deleter options l w evs out
  | pass_done observed saved w1 l' t answer :
      (inventory (inventory_request l) w).1 = Ok observed → validateCleanupInventory observed = None →
      Forall (λ ev, ∃ x, ev = EvPersist (mergeCleanupInventory l observed) x) saved →
      let loop := reconcile_loop deleter options (indexCleanupInventory observed)
        (mergeCleanupInventory l observed) NoTally
        (rank_sort (Resources (mergeCleanupInventory l observed))) in
      outcome loop w1 = Ok (l', t) →
      evs = EvInventory (inventory_request l) (Ok observed) :: saved ++ events loop w1
            ++ [EvInventory (inventory_request l') answer] →
      (∀ report, out = Ok report → ∃ verified, answer = Ok verified ∧
         validateCleanupInventory verified = None ∧ report = conclude options l' t verified) →
      pass_shape inventory deleter options l w evs out.

Lemma reconcile_with_shape (inventory : CleanupInventoryClient) deleter options l w :
  let m := reconcile_with inventory deleter options l in
  pass_shape inventory deleter options l w (events m w) (outcome m w).
Proof.
  unfold reconcile_with.
  set (first := take_inventory inventory l "inventory owned cleanup resources").
  destruct (take_inventory_spec inventory l "inventory owned cleanup resources" w) as [He Ho].
  fold first in He, Ho.
  destruct (outcome first w) as [observed|e] eqn:Ef; cycle 1.
  { eapply pass_no_inventory; run_eff; rewrite ?Ef; run_eff; [|done]. rewrite He. by rewrite ?app_nil_r. }
  destruct (Ho observed eq_refl) as [Hans Hval]. rewrite Hans in He.
  set (l0 := mergeCleanupInventory l observed).
  set (keep := saved l0 options tt).
  assert (Hkeep : Forall (λ ev, ∃ x, ev = EvPersist l0 x) (events keep (final first w)) ∧
    (∀ e, outcome keep (final first w) = Err e → ∃ x, events keep (final first w) = [EvPersist l0 x])).
  { unfold keep, saved, persistCleanupLedger. destruct (Persist options); run_eff; [|done].
    split; [apply Forall_singleton|intros _ _]; by eexists. }
  destruct Hkeep as [Hkeep Hfail]. set (w1 := final first w) in *.
  destruct (outcome keep w1) as [[]|e] eqn:Ek; cycle 1.
  { destruct (Hfail e eq_refl) as [x Hx].
    eapply pass_unsaved; run_eff; rewrite Ef; run_eff; fold l0 keep w1; rewrite Ek; run_eff; [|done].
    by rewrite He, Hx. }
  set (loop := reconcile_loop deleter options (indexCleanupInventory observed) l0 NoTally
    (rank_sort (Resources l0))).
  set (w2 := final keep w1).
  destruct (outcome loop w2) as [[l' t]|e] eqn:El; cycle 1.
  { eapply (pass_loop _ _ _ _ _ _ _ observed (events keep w1) w2 e); try done;
      run_eff; rewrite Ef; run_eff; fold l0 keep w1; rewrite Ek; run_eff; fold w2 loop;
      rewrite El; run_eff; [|done].
    rewrite He. by rewrite app_nil_r. }
  destruct (take_inventory_spec inventory l' "verify cleanup inventory" (final loop w2)) as [He2 Ho2].
  set (second := take_inventory inventory l' "verify cleanup inventory") in *.
  eapply (pass_done _ _ _ _ _ _ _ observed (events keep w1) w2 l' t
    (inventory (inventory_request l') (final loop w2)).1); try done;
    run_eff; rewrite Ef; run_eff; fold l0 keep w1; rewrite Ek; run_eff; fold w2 loop;
    rewrite El; run_eff; fold second.
  - rewrite He, He2. by rewrite ?app_nil_r.
  - intros report. destruct (outcome second (final loop w2)) as [verified|e] eqn:Es; [|done].
    intros [= <-]. exists verified. by destruct (Ho2 verified eq_refl).
Qed.

Lemma ReconcileCleanup_cases ctx l (inventory : option CleanupInventoryClient) deleter options w :
  let m := ReconcileCleanup ctx l inventory deleter options in
  (events m w = [] ∧ ∃ e, outcome m w = Err e) ∨
  ∃ inv del, inventory = Some inv ∧ (deleter = Some del ∨ DryRun options = true) ∧
    ValidateCleanupLedger l = None ∧ m = reconcile_with inv del options l.
Proof.
  unfold ReconcileCleanup. destruct ctx; simpl; [|left; split; [done|by eexists]].
  destruct (ValidateCleanupLedger l) as [e|]; [left; split; [done|by eexists]|].
  destruct inventory as [inv|]; [|left; split; [done|by eexists]].
  destruct deleter as [del|]; [right; exists inv, del; auto|].
  destruct (DryRun options); [right; exists inv, (λ _ w, (None, w)); auto|left; split; [done|by eexists]].
Qed.

(** ** What the index answers *)

(** The index knows an observation by its identity and by its name. *)
Definition observed_as (r : CleanupResource) (o : CleanupInventoryResource) : Prop :=
  Identity r ≠ "" ∧ Identity r = InvIdentity o ∨
  Identity r = "" ∧ Kind r +:+ ":" +:+ Name r = InvKind o +:+ ":" +:+ InvName o.

Lemma id_name_keys a b : "id:" +:+ a ≠ "name:" +:+ b.
Proof. done. Qed.

Lemma indexCleanupInventory_snoc os o :
  indexCleanupInventory (os ++ [o]) =
  let index := <["id:" +:+ InvIdentity o := o]> (indexCleanupInventory os) in
  if negb (bool_decide (InvName o = ""))
  then <["name:" +:+ InvKind o +:+ ":" +:+ InvName o := o]> index else index.
Proof. unfold indexCleanupInventory. by rewrite fold_left_app. Qed.

Lemma index_by_id os x o :
  indexCleanupInventory os !! ("id:" +:+ x) = Some o → o ∈ os ∧ InvIdentity o = x.
Proof.
  induction os as [|o' os IH] using rev_ind; [done|].
  rewrite indexCleanupInventory_snoc. cbv zeta. intros H.
  assert (<["id:" +:+ InvIdentity o' := o']> (indexCleanupInventory os) !! ("id:" +:+ x) = Some o) as H'.
  { destruct (negb _); [|done]. by rewrite lookup_insert_ne in H. }
  apply lookup_insert_Some in H' as [[Heq ->]|[_ H']].
  - apply (inj (String.app "id:")) in Heq. set_solver.
  - destruct (IH H'). set_solver.
Qed.

Lemma index_by_name os x o :
  indexCleanupInventory os !! ("name:" +:+ x) = Some o →
  o ∈ os ∧ InvKind o +:+ ":" +:+ InvName o = x.
Proof.
  induction os as [|o' os IH] using rev_ind; [done|].
  rewrite indexCleanupInventory_snoc. cbv zeta. intros H.
  assert (indexCleanupInventory os !! ("name:" +:+ x) = Some o ∨
    (o' = o ∧ InvKind o' +:+ ":" +:+ InvName o' = x)) as [H'|[-> ?]].
  { destruct (negb _).
    - apply lookup_insert_Some in H as [[Heq ->]|[_ H]].
      + apply (inj (String.app "name:")) in Heq. by right.
      + rewrite lookup_insert_ne in H; [by left|]. done.
    - rewrite lookup_insert_ne in H; [by left|]. done. }
  - destruct (IH H'). set_solver.
  - set_solver.
Qed.

Lemma lookup_observed os r o :
  lookupCleanupInventory (indexCleanupInventory os) r = Some o → o ∈ os ∧ observed_as r o.
Proof.
  unfold lookupCleanupInventory, observed_as. case_bool_decide as Hid; simpl.
  - case_bool_decide; simpl; [done|]. intros [? ?]%index_by_name. auto.
  - intros [? ?]%index_by_id. auto.
Qed.

(** Distinct identities: an observation is found by its own. *)
Lemma index_found os o :
  NoDup (InvIdentity <$> os) → o ∈ os →
  indexCleanupInventory os !! ("id:" +:+ InvIdentity o) = Some o.
Proof.
  induction os as [|o' os IH] using rev_ind; [set_solver|].
  rewrite fmap_app, NoDup_app, indexCleanupInventory_snoc. cbv zeta.
  intros (Hnd&Hx&_) Hin.
  assert (<["id:" +:+ InvIdentity o' := o']> (indexCleanupInventory os) !! ("id:" +:+ InvIdentity o) = Some o) as H.
  { apply elem_of_app in Hin as [Hin| ->%list_elem_of_singleton].
    - rewrite lookup_insert_ne; [by apply IH|]. intros Heq. apply (inj (String.app "id:")) in Heq.
      apply (Hx (InvIdentity o)); [by apply list_elem_of_fmap_2|]. simpl. rewrite Heq. set_solver.
    - by rewrite lookup_insert_eq. }
  destruct (negb _); [|done]. by rewrite lookup_insert_ne.
Qed.

Lemma validateCleanupInventory_NoDup os :
  validateCleanupInventory os = None →
  NoDup (InvIdentity <$> os) ∧
  Forall (λ o, blank (InvIdentity o) = false ∧ (Live o = true → Delayed o = false)) os.
Proof.
  unfold validateCleanupInventory. generalize 0%Z. 
  assert (∀ seen i, validate_inventory_from i seen os = None →
    NoDup (InvIdentity <$> os) ∧ (∀ x, x ∈ seen → x ∉ InvIdentity <$> os) ∧
    Forall (λ o, blank (InvIdentity o) = false ∧ (Live o = true → Delayed o = false)) os) as H.
  { induction os as [|o os IH]; intros seen i; simpl; [intros _; split_and!; [constructor|set_solver|constructor]|].
    intros Hc. inv_checks. destruct (IH _ _ H2) as (Hnd&Hs&Hf).
    apply bool_decide_eq_false in H1. unfold requireCleanupLine in H.
    apply fail_if_None, orb_false_iff in H as [Hb _].
    split_and!; [constructor; [set_solver|done]|set_solver|constructor; [|done]].
    split; [done|]. intros Hl. by rewrite Hl in H0. }
  intros i Hv. destruct (H [] i Hv) as (?&_&?). done.
Qed.

(** ** Claims *)


(** No deletion is forgotten by a crash.  With a persist function, the
    ledger written just before a deletion lists the resource as [deleting], and
    the ledger written just after it records the outcome: [gone] when the
    deletion succeeded, still [deleting] when it failed. *)
Theorem ReconcileCleanup_announced ctx l (inventory : option CleanupInventoryClient) deleter options w :
  is_Some (Persist options) →
  announced (events (ReconcileCleanup ctx l inventory deleter options) w).
Proof.
  intros Hp. destruct (ReconcileCleanup_cases ctx l inventory deleter options w)
    as [[-> _]|(inv&del&_&_&Hval&->)]; [apply announced_nodelete; set_solver|].
  assert (Hpre : ∀ observed saved,
    Forall (λ ev, ∃ x, ev = EvPersist (mergeCleanupInventory l observed) x) saved →
    announced (EvInventory (inventory_request l) (Ok observed) :: saved)).
  { intros observed saved Hs. apply announced_nodelete. intros r e [[=]|H]%elem_of_cons.
    rewrite Forall_forall in Hs. by destruct (Hs _ H). }
  destruct (reconcile_with_shape inv del options l w)
    as [ans e' -> _|obs e' x -> _|obs saved w1 e' _ Hobs Hs loop -> _ _
       |obs saved w1 l' t ans _ Hobs Hs loop _ -> _];
    try (apply announced_nodelete; set_solver).
  all: pose proof (ls_announced _ _ _ _ _ (reconcile_loop_spec error_text del options (indexCleanupInventory obs)
         (mergeCleanupInventory l obs) NoTally (rank_sort (Resources (mergeCleanupInventory l obs))) w1) Hp) as Ha.
  - rewrite app_comm_cons. apply announced_app; [by apply Hpre|done].
  - rewrite app_comm_cons. apply announced_app; [by apply Hpre|].
    apply announced_app; [done|]. apply announced_nodelete. set_solver.
Qed.

(** C33: ownership is never forgotten.  Every ledger a pass writes, and the one
    it reports, has the header of the given ledger and all its entries in
    place: an entry only gains fields it lacked, and a settled status (gone,
    refused, tombstone) never changes. *)
Theorem ReconcileCleanup_refines ctx l (inventory : option CleanupInventoryClient) deleter options w :
  let m := ReconcileCleanup ctx l inventory deleter options in
  (∀ L e, EvPersist L e ∈ events m w → ledger_refines l L) ∧
  (∀ report, outcome m w = Ok report → ledger_refines l (ReportLedger report)).
Proof.
  intros m. unfold m. destruct (ReconcileCleanup_cases ctx l inventory deleter options w)
    as [[-> [e ->]]|(inv&del&_&_&Hval&->)]; [split; [set_solver|done]|].
  assert (Hloop : ∀ observed saved loop_evs tail L e,
    Forall (λ ev, ∃ x, ev = EvPersist (mergeCleanupInventory l observed) x) saved →
    Forall (loop_event options (indexCleanupInventory observed) (mergeCleanupInventory l observed)) loop_evs →
    EvPersist L e ∈ EvInventory (inventory_request l) (Ok observed) :: saved ++ loop_evs ++ tail →
    EvPersist L e ∉ tail → ledger_refines l L).
  { intros observed saved evs tail L e Hs Hl H Ht.
    rewrite elem_of_cons, !elem_of_app in H. destruct H as [[=]|[H|[H|H]]]; [| |done].
    - rewrite Forall_forall in Hs. destruct (Hs _ H) as [x [= -> _]]. apply merge_refines.
    - rewrite Forall_forall in Hl. specialize (Hl _ H). simpl in Hl.
      etrans; [apply merge_refines|by apply loop_advances_refines]. }
  destruct (reconcile_with_shape inv del options l w)
    as [ans e' He Ho|obs e' x He Ho|obs saved w1 e' _ Hobs Hs loop He _ Ho
       |obs saved w1 l' t ans _ Hobs Hs loop Hout He Ho]; rewrite He.
  - split; [set_solver|by rewrite Ho].
  - split; [|by rewrite Ho]. intros L e Hin.
    apply elem_of_cons in Hin as [[=]|Hin%list_elem_of_singleton].
    injection Hin as -> _. apply merge_refines.
  - split; [|by rewrite Ho]. intros L e Hin.
    eapply (Hloop obs saved (events loop w1) [] L e); [done|apply reconcile_loop_spec| |set_solver].
    by rewrite app_nil_r.
  - split.
    + intros L e Hin. eapply (Hloop obs saved (events loop w1) _ L e Hs); [|exact Hin|set_solver].
      apply reconcile_loop_spec.
    + intros report Hr. destruct (Ho report Hr) as (verified&_&_&->).
      assert (ReportLedger (conclude options l' t verified) = l') as ->.
      { unfold conclude. by repeat case_match. }
      etrans; [apply merge_refines|]. apply loop_advances_refines.
      by eapply (ls_out _ _ _ _ _ (reconcile_loop_spec error_text _ _ _ _ _ _ _)).
Qed.

Lemma length_sort_strings l : length (sort_strings l) = length l.
Proof. by rewrite sort_strings_perm. Qed.

Lemma uniqueCleanupKeys_nil values : uniqueCleanupKeys values = [] ↔ values = [].
Proof.
  unfold uniqueCleanupKeys. split; [|by intros ->]. intros H.
  assert (dedup [] values = []) as Hd.
  { apply length_zero_iff_nil. by rewrite <-length_sort_strings, H. }
  destruct values as [|x values]; [done|].
  assert (x ∈ dedup [] (x :: values)) as Hin by (apply elem_of_dedup; set_solver).
  rewrite Hd in Hin. set_solver.
Qed.

Lemma pendingCleanupKeys_nil l pending :
  pendingCleanupKeys l pending = [] ↔ pending = [] ∧
  Forall (λ r, Status r ∉ [CleanupStatusClaimed; CleanupStatusDeleting; CleanupStatusTombstone]) (Resources l).
Proof.
  unfold pendingCleanupKeys. rewrite uniqueCleanupKeys_nil.
  set (P := λ r, Status r ∈ [CleanupStatusClaimed; CleanupStatusDeleting; CleanupStatusTombstone]).
  split.
  - intros [-> H]%app_eq_nil. split; [done|]. apply fmap_nil_inv in H.
    apply Forall_forall. intros r Hr Hs.
    assert (r ∈ filter P (Resources l)) as Hin by by apply list_elem_of_filter.
    rewrite H in Hin. set_solver.
  - intros [-> H]. simpl. replace (filter P (Resources l)) with (@nil CleanupResource); [done|].
    symmetry. induction H as [|r rs Hr _ IH]; [done|]. by rewrite filter_cons_False.
Qed.

(** A verdict of [complete]. *)
Lemma conclude_complete (options : CleanupReconcileOptions) l t verified :
  ReportStatus (conclude options l t verified) = "complete" →
  Refused t = [] ∧ Pending t = [] ∧
  Forall (λ o, Owned o = true → Live o = false ∧ Delayed o = false) verified ∧
  Forall (λ r, Status r ∉ [CleanupStatusClaimed; CleanupStatusDeleting; CleanupStatusTombstone]) (Resources l).
Proof.
  unfold conclude. rewrite !length_sort_strings, !length_fmap.
  set (owned := filter (λ o, Owned o = true) verified).
  assert (Hf : ∀ P : CleanupInventoryResource → bool, length (filter (λ o, P o = true) owned) = 0 →
    ∀ o, o ∈ verified → Owned o = true → P o = false).
  { intros P H%length_zero_iff_nil o Ho Hown. destruct (P o) eqn:E; [|done].
    assert (o ∈ filter (λ o, P o = true) owned) as Hin
      by (apply list_elem_of_filter; split; [done|by apply list_elem_of_filter]).
    rewrite H in Hin. set_solver. }
  destruct (negb (bool_decide (length (Refused t) = 0))) eqn:Er; [done|].
  destruct (DryRun options && _) eqn:Ed; [done|].
  destruct (negb (bool_decide (length (filter (λ o, Live o = true) owned) = 0))) eqn:El; [done|].
  destruct (negb (bool_decide (length (filter (λ o, Delayed o = true) owned) = 0)) || _) eqn:Edl; [done|].
  intros _. apply orb_false_iff in Edl as [Edl Ep].
  apply negb_false_iff, bool_decide_eq_true in Er, El, Edl, Ep.
  apply length_zero_iff_nil in Er, Ep. apply pendingCleanupKeys_nil in Ep as [??].
  split_and!; try done. apply Forall_forall. intros o Ho Hown. split; by eapply Hf.
Qed.

Lemma reported_shape ctx l (inventory : option CleanupInventoryClient) deleter options w report :
  outcome (ReconcileCleanup ctx l inventory deleter options) w = Ok report →
  ∃ before l' t verified,
    events (ReconcileCleanup ctx l inventory deleter options) w
      = before ++ [EvInventory (inventory_request l) (Ok verified)] ∧
    report = conclude options l' t verified ∧ ledger_refines l l'.
Proof.
  intros H. destruct (ReconcileCleanup_refines ctx l inventory deleter options w) as [_ Hr].
  specialize (Hr report H). revert H.
  destruct (ReconcileCleanup_cases ctx l inventory deleter options w)
    as [[-> [e ->]]|(inv&del&_&_&Hval&->)]; [done|].
  destruct (reconcile_with_shape inv del options l w)
    as [ans e' He Ho|obs e' x He Ho|obs saved w1 e' _ Hobs Hs loop He _ Ho
       |obs saved w1 l' t ans _ Hobs Hs loop Hout He Ho]; rewrite He; try (by rewrite Ho).
  intros H. destruct (Ho report H) as (verified&->&_&->).
  assert (ReportLedger (conclude options l' t verified) = l') as Heq.
  { unfold conclude. by repeat case_match. }
  rewrite Heq in Hr.
  eexists (EvInventory _ _ :: saved ++ events loop w1), l', t, verified.
  split_and!; [|done|done]. destruct Hr as [Hh _].
  replace (inventory_request l') with (inventory_request l);
    [by rewrite <-app_comm_cons, <-app_assoc|].
  unfold header, with_resources in Hh. unfold inventory_request. injection Hh; intros; congruence.
Qed.

(** [complete] is verified.  The last call of the pass is an inventory of
    the ledger's marker, in which no owned resource is live or in a delayed
    deletion; nothing was refused or left pending, and no entry of the reported
    ledger is claimed, deleting or a tombstone. *)
Theorem ReconcileCleanup_complete ctx l (inventory : option CleanupInventoryClient) deleter options w report :
  outcome (ReconcileCleanup ctx l inventory deleter options) w = Ok report →
  ReportStatus report = "complete" →
  (∃ before verified,
    events (ReconcileCleanup ctx l inventory deleter options) w
      = before ++ [EvInventory (inventory_request l) (Ok verified)] ∧
    Forall (λ o, Owned o = true → Live o = false ∧ Delayed o = false) verified) ∧
  Refused (ReportKeys report) = [] ∧ Pending (ReportKeys report) = [] ∧
  Forall (λ r, Status r ∉ [CleanupStatusClaimed; CleanupStatusDeleting; CleanupStatusTombstone])
    (Resources (ReportLedger report)).
Proof.
  intros (before&l'&t&verified&He&->&_)%reported_shape Hc.
  pose proof (conclude_complete _ _ _ _ Hc) as (Hr&Hp&Hv&Hl).
  assert (ReportLedger (conclude options l' t verified) = l') as ->.
  { unfold conclude. by repeat case_match. }
  assert (ReportKeys (conclude options l' t verified) = t) as ->.
  { revert Hc. unfold conclude. by repeat case_match. }
  split_and!; [by exists before, verified|done..].
Qed.

(** A ledger with a tombstone is never reported complete, whatever the
    owning service answers: the pass files a tombstone as pending without
    looking at the inventory, so the provider's final purge goes unnoticed. *)
Theorem ReconcileCleanup_tombstone ctx l (inventory : option CleanupInventoryClient) deleter options w report r :
  r ∈ Resources l → Status r = CleanupStatusTombstone →
  outcome (ReconcileCleanup ctx l inventory deleter options) w = Ok report →
  ReportStatus report ≠ "complete".
Proof.
  intros Hr Ht (before&l'&t&verified&_&->&[_ (known&new&Hk&HF)])%reported_shape Hc.
  pose proof (conclude_complete _ _ _ _ Hc) as (_&_&_&Hl).
  apply list_elem_of_lookup in Hr as [i Hi].
  destruct (Forall2_lookup_l _ _ _ _ _ HF Hi) as (r'&Hi'&(_&_&_&_&_&Hs)).
  rewrite Forall_forall in Hl. apply (Hl r').
  - rewrite Hk. apply elem_of_app. left. by eapply list_elem_of_lookup_2.
  - rewrite Hs; rewrite Ht; [|unfold terminal]; set_solver.
Qed.

(** ** A failed deletion *)

(** The detail a failed deletion leaves in the ledger. *)
Definition failure_detail (e : error) : string :=
  if multiline (error_text e) then "provider delete failed" else error_text e.

(** A computation that stops at a failed deletion and records it. *)
Definition stops_recorded (options : CleanupReconcileOptions) {A} (m : M (result A)) (w : W) : Prop :=
  ∀ r e, EvDelete r (Some e) ∈ events m w →
    (∃ x, outcome m w = Err x) ∧
    (is_Some (Persist options) → ∃ before L x,
       events m w = before ++ [EvPersist L x] ∧ with_detail (failure_detail e) r ∈ Resources L).

Lemma delete_resource_stops (deleter : CleanupDeleteClient) options l t i current w :
  Resources l !! i = Some current →
  stops_recorded options (delete_resource deleter options l t i current) w.
Proof.
  intros Hi r e. 
  assert (Hin : ∀ r1 r2, r2 ∈ Resources (set_resource i r2 (set_resource i r1 l))).
  { intros r1 r2. apply list_elem_of_lookup. exists i.
    change (<[i := r2]> (<[i := r1]> (Resources l)) !! i = Some r2). rewrite list_insert_insert_eq. apply list_lookup_insert_eq. by eapply lookup_lt_Some. }
  unfold delete_resource, saved, persistCleanupLedger, failure_detail. cbv zeta.
  set (cur := with_status CleanupStatusDeleting current). set (l1 := set_resource i cur l).
  specialize (Hin cur). fold l1 in Hin. clearbody cur l1.
  destruct (Persist options) as [persist|] eqn:Hp; run_eff.
  - destruct (persist l1 w) as [[x|] w1]; run_eff; [set_solver|].
    destruct (deleter cur w1) as [[x|] w2]; run_eff; [|set_solver].
    intros H. assert (r = cur ∧ e = x) as [-> ->] by set_solver.
    split; [by eexists|]. intros _. eexists [_; _], _, _. split; [done|apply Hin].
  - destruct (deleter cur w) as [[x|] w2]; run_eff; [|set_solver].
    intros H. split; [by eexists|]. by intros [? ?].
Qed.

Lemma reconcile_one_stops (deleter : CleanupDeleteClient) options byIdentity l t resource w :
  stops_recorded options (reconcile_one deleter options byIdentity l t resource) w.
Proof.
  destruct (reconcile_one_shape error_text deleter options byIdentity l t resource)
    as [t'|i current r t' Hi Hk Ht Hr|i current Hi Hk Hd].
  - intros r e. run_eff. set_solver.
  - intros r' e. unfold saved, persistCleanupLedger. destruct (Persist options); run_eff; set_solver.
  - by apply delete_resource_stops.
Qed.

Lemma reconcile_loop_stops (deleter : CleanupDeleteClient) options byIdentity l t sorted w :
  stops_recorded options (reconcile_loop deleter options byIdentity l t sorted) w.
Proof.
  revert l t w; induction sorted as [|s sorted IH]; intros l t w r e; simpl; run_eff; [set_solver|].
  pose proof (reconcile_one_stops deleter options byIdentity l t s w r e) as Hone.
  rewrite elem_of_app. set (one := reconcile_one deleter options byIdentity l t s) in *.
  destruct (outcome one w) as [[l1 t1]|x] eqn:Eo.
  - intros [H|H]; [by destruct (Hone H) as [[? [=]] _]|].
    destruct (IH l1 t1 (final one w) r e H) as [Herr Hrec]. split; [done|].
    intros Hp. destruct (Hrec Hp) as (before&L&y&->&?). exists (events one w ++ before), L, y.
    by rewrite app_assoc.
  - run_eff. rewrite app_nil_r. intros [H|H]; [|set_solver].
    split; [by eexists|]. by apply Hone.
Qed.

Lemma validate_resources_each i seen rs r :
  validate_resources i seen rs = None → r ∈ rs → validateCleanupResource r = None.
Proof.
  revert i seen; induction rs as [|r' rs IH]; intros i seen; simpl; [set_solver|].
  intros Hc [->|Hin]%elem_of_cons; inv_checks; [done|]. by eapply IH.
Qed.

(** C35: a provider's message can lock the ledger.  When a deletion fails with
    a single-line message in which the sensitive-field pattern occurs (an
    expired [token], say), the message is stored as the detail of the entry,
    and the ledger persisted last is rejected by every later pass before any
    client is called. *)
Theorem ReconcileCleanup_locked_by_detail ctx l (inventory : option CleanupInventoryClient) deleter options w r e :
  EvDelete r (Some e) ∈ events (ReconcileCleanup ctx l inventory deleter options) w →
  is_Some (Persist options) →
  MatchString sensitiveField (error_text e) = true → multiline (error_text e) = false →
  ∃ before L x,
    events (ReconcileCleanup ctx l inventory deleter options) w = before ++ [EvPersist L x] ∧
    ∀ ctx' (inventory' : option CleanupInventoryClient) deleter' options' w',
      events (ReconcileCleanup ctx' L inventory' deleter' options') w' = [] ∧
      ∃ e', outcome (ReconcileCleanup ctx' L inventory' deleter' options') w' = Err e'.
Proof.
  intros Hin Hp Hs Hm.
  assert (∃ before L x,
    events (ReconcileCleanup ctx l inventory deleter options) w = before ++ [EvPersist L x] ∧
    with_detail (failure_detail e) r ∈ Resources L) as (before&L&x&He&HL).
  { revert Hin. destruct (ReconcileCleanup_cases ctx l inventory deleter options w)
      as [[-> _]|(inv&del&_&_&_&->)]; [set_solver|].
    destruct (reconcile_with_shape inv del options l w)
      as [ans e' -> _|obs e' x -> _|obs saved w1 e' _ _ Hsv loop -> _ _
         |obs saved w1 l' t ans _ _ Hsv loop Hout -> _]; [set_solver|set_solver| |];
      pose proof (reconcile_loop_stops del options (indexCleanupInventory obs)
        (mergeCleanupInventory l obs) NoTally (rank_sort (Resources (mergeCleanupInventory l obs))) w1 r e) as Hst;
      fold loop in Hst;
      assert (Hsave : EvDelete r (Some e) ∉ saved) by
        (intros H; rewrite Forall_forall in Hsv; by destruct (Hsv _ H)).
    - intros Hin. destruct Hst as [_ Hrec]; [set_solver|].
      destruct (Hrec Hp) as (before&L&x&->&?).
      exists (EvInventory (inventory_request l) (Ok obs) :: saved ++ before), L, x.
      by rewrite <-app_comm_cons, <-app_assoc.
    - intros Hin. destruct Hst as [[y Hy] _]; [set_solver|]. congruence. }
  assert (ValidateCleanupLedger L ≠ None) as Hbad.
  { intros Hv. unfold ValidateCleanupLedger in Hv. rewrite !err_seq_None in Hv.
    assert (validate_resources 0 [] (Resources L) = None) as Hr by tauto.
    eapply validate_resources_each in Hr; [|exact HL].
    unfold validateCleanupResource in Hr. rewrite !err_seq_None in Hr.
    destruct Hr as (_&_&_&_&_&_&_&_&_&Hr%fail_if_None).
    unfold failure_detail in Hr. rewrite Hm in Hr. simpl in Hr.
    pose proof (search_app _ (Kind r +:+ Role r +:+ Name r +:+ Identity r) _ "" Hs) as Hx.
    replace ((Kind r +:+ Role r +:+ Name r +:+ Identity r) +:+ error_text e +:+ "")
      with (Kind r +:+ Role r +:+ Name r +:+ Identity r +:+ error_text e) in Hx;
      [exact (eq_true_false_abs _ Hx Hr)|].
    apply go_bytes_inj. by rewrite !go_bytes_app, app_nil_r, <-!app_assoc. }
  exists before, L, x. split; [done|]. intros. unfold ReconcileCleanup.
  destruct ctx'; simpl; [|split; [done|by eexists]].
  destruct (ValidateCleanupLedger L); [|done]. split; [done|by eexists].
Qed.

(** ** Order and completeness of the deletions *)

Definition deleted_by (ev : event) : option CleanupResource :=
  match ev with EvDelete r _ => Some r | _ => None end.
(** The resources a computation asked to delete, in order. *)
Definition deletes (evs : list event) : list CleanupResource := omap deleted_by evs.

Lemma deletes_app a b : deletes (a ++ b) = deletes a ++ deletes b.
Proof. apply omap_app. Qed.

Lemma deletes_none evs : (∀ r e, EvDelete r e ∉ evs) → deletes evs = [].
Proof.
  intros H. unfold deletes. induction evs as [|ev evs IH]; [done|].
  destruct ev; simpl; try (apply IH; set_solver). destruct (H r e). set_solver.
Qed.

(** The keys of a ledger tell its entries apart. *)
Definition distinct_keys (rs : list CleanupResource) : Prop := NoDup (cleanupResourceKey <$> rs).

Lemma cleanupResourceIndex_self rs s :
  distinct_keys rs → s ∈ rs → ∃ i, cleanupResourceIndex rs s = Some i ∧ rs !! i = Some s.
Proof.
  intros Hnd [j Hj]%list_elem_of_lookup.
  destruct (cleanupResourceIndex rs s) as [i|] eqn:E.
  - exists i. split; [done|]. apply index_of_Some in E as (x&Hx&Hk%bool_decide_eq_true).
    assert (i = j) as ->; [|congruence].
    eapply (NoDup_lookup _ i j (cleanupResourceKey s)); [exact Hnd| |].
    + rewrite list_lookup_fmap, Hx. simpl. by rewrite Hk.
    + by rewrite list_lookup_fmap, Hj.
  - exfalso. unfold cleanupResourceIndex, index_of in E. apply fmap_None, list_find_None in E.
    rewrite Forall_forall in E. apply (E s); [by eapply list_elem_of_lookup_2|].
    by apply bool_decide_pack.
Qed.

Lemma identity_of_key r r' : identity_of r = identity_of r' → cleanupResourceKey r = cleanupResourceKey r'.
Proof. unfold identity_of, cleanupResourceKey. intros [= H1 H2 H3 H4 H5]. by rewrite H1, H3, H4. Qed.

(** The entry of a deleted resource. *)
Definition deleted_entry (r : CleanupResource) : CleanupResource :=
  with_detail "deleted through owning-service inventory" (with_status CleanupStatusGone r).

Lemma delete_resource_ok (deleter : CleanupDeleteClient) options l t i s w l' t' :
  outcome (delete_resource deleter options l t i s) w = Ok (l', t') →
  Resources l' = <[i := deleted_entry s]> (Resources l) ∧
  EvDelete (with_status CleanupStatusDeleting s) None
    ∈ events (delete_resource deleter options l t i s) w.
Proof.
  unfold delete_resource, saved, persistCleanupLedger. cbv zeta.
  set (cur := with_status CleanupStatusDeleting s). set (l1 := set_resource i cur l).
  assert (Resources (set_resource i (with_detail "deleted through owning-service inventory"
    (with_status CleanupStatusGone cur)) l1) = <[i := deleted_entry s]> (Resources l)) as Hres.
  { change (<[i := deleted_entry s]> (<[i := cur]> (Resources l)) = <[i := deleted_entry s]> (Resources l)).
    apply list_insert_insert_eq. }
  revert Hres. set (l2 := set_resource i _ l1). clearbody cur l1 l2. intros Hres.
  destruct (Persist options) as [persist|]; run_eff.
  - destruct (persist l1 w) as [[x|] w1]; run_eff; [done|].
    destruct (deleter cur w1) as [[x|] w2]; run_eff; [done|].
    destruct (persist l2 w2).1; simpl; [done|]. intros [= <- _]. split; [done|set_solver].
  - destruct (deleter cur w) as [[x|] w2]; run_eff; [done|].
    intros [= <- _]. split; [done|set_solver].
Qed.

(** After the turn of [s], the other entries are untouched and the keys are
    the same. *)
Lemma reconcile_one_others (deleter : CleanupDeleteClient) options byIdentity l t s w l' t' :
  distinct_keys (Resources l) → s ∈ Resources l →
  outcome (reconcile_one deleter options byIdentity l t s) w = Ok (l', t') →
  distinct_keys (Resources l') ∧
  ∀ s', s' ∈ Resources l → cleanupResourceKey s' ≠ cleanupResourceKey s → s' ∈ Resources l'.
Proof.
  intros Hnd Hs. 
  assert (Hset : ∀ i current r, Resources l !! i = Some current →
    cleanupResourceKey current = cleanupResourceKey s → identity_of r = identity_of current →
    distinct_keys (<[i := r]> (Resources l)) ∧
    ∀ s', s' ∈ Resources l → cleanupResourceKey s' ≠ cleanupResourceKey s → s' ∈ <[i := r]> (Resources l)).
  { intros i current r Hi Hk Hr. apply identity_of_key in Hr. split.
    - unfold distinct_keys. rewrite list_fmap_insert, list_insert_id; [exact Hnd|].
      by rewrite list_lookup_fmap, Hi, Hr.
    - intros s' [j Hj]%list_elem_of_lookup Hne. apply list_elem_of_lookup. exists j.
      rewrite list_lookup_insert_ne; [done|]. intros ->. congruence. }
  destruct (reconcile_one_shape error_text deleter options byIdentity l t s)
    as [t''|i current r t'' Hi Hk Ht Hr|i current Hi Hk Hd].
  - intros [= <- <-]. done.
  - unfold saved. run_eff. case_match; [done|]. intros [= <- <-]. by eapply Hset.
  - intros [-> _]%delete_resource_ok. by eapply Hset.
Qed.

(** The case where nothing stands between an entry and its deletion. *)
Lemma reconcile_one_deletes (deleter : CleanupDeleteClient) options byIdentity l t s i :
  cleanupResourceIndex (Resources l) s = Some i → Resources l !! i = Some s →
  deletable options byIdentity s →
  reconcile_one deleter options byIdentity l t s = delete_resource deleter options l t i s.
Proof.
  intros Hi Hs [Hd Ht (o&Ho&Hown&Hlive&Hp&Hdel)]. unfold CleanupLedger.reconcile_one. rewrite Hi, Hs. cbv zeta.
  rewrite Ho. rewrite Hown, Hlive, Hp, Hdel, Hd. simpl.
  unfold terminal in Ht. rewrite !bool_decide_false by set_solver. done.
Qed.

Lemma reconcile_one_deletes_self (deleter : CleanupDeleteClient) options byIdentity l t s w :
  distinct_keys (Resources l) → s ∈ Resources l →
  deletes (events (reconcile_one deleter options byIdentity l t s) w)
    `sublist_of` [with_status CleanupStatusDeleting s].
Proof.
  intros Hnd Hs.
  destruct (reconcile_one_shape error_text deleter options byIdentity l t s)
    as [t''|i current r t'' Hi Hk Ht Hr|i current Hi Hk Hd].
  - apply sublist_nil_l.
  - unfold saved, persistCleanupLedger. destruct (Persist options); run_eff; apply sublist_nil_l.
  - assert (current = s) as ->.
    { apply list_elem_of_lookup in Hs as [j Hj]. assert (i = j) as ->; [|congruence].
      eapply (NoDup_lookup _ i j (cleanupResourceKey s)); [exact Hnd| |].
      - rewrite list_lookup_fmap, Hi. simpl. by rewrite Hk.
      - by rewrite list_lookup_fmap, Hj. }
    unfold delete_resource, saved, persistCleanupLedger.
    set (cur := with_status CleanupStatusDeleting s). clearbody cur.
    destruct (Persist options); run_eff; repeat (case_match; run_eff);
      try apply sublist_nil_l; reflexivity.
Qed.

Lemma reconcile_loop_all (deleter : CleanupDeleteClient) options byIdentity l t sorted w :
  distinct_keys (Resources l) → distinct_keys sorted → (∀ s, s ∈ sorted → s ∈ Resources l) →
  let m := reconcile_loop deleter options byIdentity l t sorted in
  deletes (events m w) `sublist_of` (with_status CleanupStatusDeleting <$> sorted) ∧
  ∀ l' t', outcome m w = Ok (l', t') → ∀ s, s ∈ sorted → deletable options byIdentity s →
    EvDelete (with_status CleanupStatusDeleting s) None ∈ events m w.
Proof.
  revert l t w; induction sorted as [|s sorted IH]; intros l t w Hnd Hks Hsub; simpl.
  { run_eff. split; [apply sublist_nil_l|set_solver]. }
  apply NoDup_cons in Hks as [Hns Hks].
  assert (s ∈ Resources l) as Hs by set_solver.
  pose proof (reconcile_one_deletes_self deleter options byIdentity l t s w Hnd Hs) as Hself.
  pose proof (λ l' t', reconcile_one_others deleter options byIdentity l t s w l' t' Hnd Hs) as Hoth.
  assert (Hcall : ∀ l' t', outcome (reconcile_one deleter options byIdentity l t s) w = Ok (l', t') →
    deletable options byIdentity s → EvDelete (with_status CleanupStatusDeleting s) None
      ∈ events (reconcile_one deleter options byIdentity l t s) w).
  { intros l' t' Ho Hd. destruct (cleanupResourceIndex_self _ _ Hnd Hs) as (i&Hi&Hl).
    rewrite (reconcile_one_deletes deleter options byIdentity l t s i Hi Hl Hd) in Ho |- *.
    by apply delete_resource_ok in Ho as [_ ?]. }
  set (one := reconcile_one deleter options byIdentity l t s) in *. run_eff. rewrite deletes_app.
  destruct (outcome one w) as [[l1 t1]|e] eqn:Eo.
  - destruct (Hoth l1 t1 eq_refl) as [Hnd1 Hkeep].
    destruct (IH l1 t1 (final one w) Hnd1 Hks) as [Hdel Hall].
    { intros s' Hs'. apply Hkeep; [set_solver|]. intros Heq. apply Hns. rewrite <-Heq.
      by apply list_elem_of_fmap_2. }
    split; [by apply (sublist_app _ [_])|].
    intros l' t' Ho s' [->|Hs']%elem_of_cons Hd; apply elem_of_app; [left; by eapply Hcall|right].
    by eapply Hall.
  - run_eff. rewrite app_nil_r. split; [|done].
    etrans; [exact Hself|]. apply sublist_skip, sublist_nil_l.
Qed.

#[global] Instance rank_le_total : Total rank_le.
Proof.
  intros a b. unfold rank_le. destruct (Z.lt_trichotomy (Rank a) (Rank b)) as [?|[Heq|?]]; [by left; left| |by right; left].
  destruct (total String.le (cleanupResourceKey a) (cleanupResourceKey b)); [left|right]; right; auto.
Qed.

#[global] Instance rank_le_trans : Transitive rank_le.
Proof.
  intros a b c [?|[? Hab]] [?|[? Hbc]]; [left; lia|left; lia|left; lia|right].
  split; [congruence|]. by etrans.
Qed.

Lemma StronglySorted_sublist {A} (R : relation A) l1 l2 :
  l1 `sublist_of` l2 → StronglySorted R l2 → StronglySorted R l1.
Proof.
  intros H Hs. revert l1 H. induction Hs as [|x l2 Hl2 IH Hx]; intros l1 H.
  - apply sublist_nil_r in H as ->. constructor.
  - inv H; [|by apply IH]. constructor; [by apply IH|].
    rewrite !Forall_forall in *. intros y Hy. apply Hx.
    eapply elem_of_submseteq; [exact Hy|by apply sublist_submseteq].
Qed.

Lemma pass_deletes (inv : CleanupInventoryClient) del options l w (observed : list CleanupInventoryResource) :
  (inv (inventory_request l) w).1 = Ok observed →
  distinct_keys (Resources (mergeCleanupInventory l observed)) →
  let m := reconcile_with inv del options l in
  deletes (events m w) `sublist_of`
    (with_status CleanupStatusDeleting <$> rank_sort (Resources (mergeCleanupInventory l observed))) ∧
  ∀ report, outcome m w = Ok report → ∀ s, s ∈ Resources (mergeCleanupInventory l observed) →
    deletable options (indexCleanupInventory observed) s →
    EvDelete (with_status CleanupStatusDeleting s) None ∈ events m w.
Proof.
  intros Hinv Hnd m. unfold m.
  assert (distinct_keys (rank_sort (Resources (mergeCleanupInventory l observed)))) as Hks.
  { unfold distinct_keys, rank_sort. by rewrite sort_by_perm. }
  assert (Hsub : ∀ s, s ∈ rank_sort (Resources (mergeCleanupInventory l observed)) ↔
    s ∈ Resources (mergeCleanupInventory l observed)) by (intros s; apply elem_of_sort_by).
  assert (Hsave : ∀ sv, Forall (λ ev, ∃ x, ev = EvPersist (mergeCleanupInventory l observed) x) sv →
    deletes sv = []).
  { intros sv Hsv. apply deletes_none. intros r e H. rewrite Forall_forall in Hsv. by destruct (Hsv _ H). }
  destruct (reconcile_with_shape inv del options l w)
    as [ans e' -> Ho|obs e' x -> Ho|obs sv w1 e' Ha Hobs Hs loop He _ Ho
       |obs sv w1 l' t ans Ha Hobs Hs loop Hout He Ho].
  - split; [apply sublist_nil_l|by rewrite Ho].
  - split; [apply sublist_nil_l|by rewrite Ho].
  - assert (obs = observed) as -> by congruence.
    destruct (reconcile_loop_all del options (indexCleanupInventory observed)
      (mergeCleanupInventory l observed) NoTally _ w1 Hnd Hks (λ s, proj1 (Hsub s))) as [Hd Hall].
    rewrite He, Ho. split; [|done]. simpl. change (deletes (?ev :: ?x)) with (deletes x).
    rewrite deletes_app, Hsave by done. done.
  - assert (obs = observed) as -> by congruence.
    destruct (reconcile_loop_all del options (indexCleanupInventory observed)
      (mergeCleanupInventory l observed) NoTally _ w1 Hnd Hks (λ s, proj1 (Hsub s))) as [Hd Hall].
    rewrite He. split.
    + change (deletes (EvInventory (inventory_request l) (Ok observed) :: ?x)) with (deletes x).
      rewrite !deletes_app, Hsave by done. simpl. by rewrite app_nil_r.
    + intros report Hr s Hs' Hdel. apply elem_of_cons; right. apply elem_of_app; right.
      apply elem_of_app; left. eapply Hall; [exact Hout|by apply Hsub|done].
Qed.

(** Deletions follow the ranks.  When the keys of the merged ledger are
    distinct, the resources of a pass are deleted in the order of their ranks
    (snapshots before restores before sources), each key at most once. *)
Theorem ReconcileCleanup_rank_order ctx l (inventory : CleanupInventoryClient) deleter options w observed :
  (inventory (inventory_request l) w).1 = Ok observed →
  distinct_keys (Resources (mergeCleanupInventory l observed)) →
  let ds := deletes (events (ReconcileCleanup ctx l (Some inventory) deleter options) w) in
  StronglySorted (λ a b, (Rank a ≤ Rank b)%Z) ds ∧ NoDup (cleanupResourceKey <$> ds).
Proof.
  intros Hinv Hnd ds. unfold ds.
  destruct (ReconcileCleanup_cases ctx l (Some inventory) deleter options w)
    as [[-> _]|(inv&del&[= <-]&_&_&->)]; [by repeat constructor|].
  destruct (pass_deletes inventory del options l w observed Hinv Hnd) as [Hsub _].
  set (sorted := rank_sort (Resources (mergeCleanupInventory l observed))) in *.
  assert (StronglySorted rank_le sorted) as Hs by (apply sort_by_sorted; apply _).
  assert (NoDup (cleanupResourceKey <$> sorted)) as Hk.
  { unfold sorted, rank_sort. by rewrite sort_by_perm. }
  split.
  - eapply StronglySorted_sublist; [exact Hsub|]. clear -Hs.
    induction Hs as [|a sorted Hs IH Ha]; simpl; constructor; [done|].
    apply Forall_fmap. eapply Forall_impl; [exact Ha|]. intros b. unfold rank_le. simpl. lia.
  - apply (fmap_sublist cleanupResourceKey) in Hsub. rewrite <-list_fmap_compose in Hsub.
    eapply sublist_NoDup; [exact Hk|exact Hsub].
Qed.

(** ** Merging binds every owned observation *)

Lemma merge_one_keeps rs o x :
  x ≠ "" → (∃ r, r ∈ rs ∧ Identity r = x) → ∃ r, r ∈ merge_one rs o ∧ Identity r = x.
Proof.
  intros Hx (r&[j Hj]%list_elem_of_lookup&Hr). unfold merge_one.
  destruct (negb (Owned o)); [exists r; split; [by eapply list_elem_of_lookup_2|done]|].
  destruct (cleanupInventoryMatch rs o) as [i|].
  - destruct (decide (i = j)) as [->|].
    + exists (bind_observation o r). split.
      * apply list_elem_of_lookup. exists j. by rewrite list_lookup_alter_eq, Hj.
      * simpl. unfold or_else. rewrite bool_decide_false; congruence.
    + exists r. split; [|done]. apply list_elem_of_lookup. exists j.
      by rewrite list_lookup_alter_ne.
  - exists r. split; [|done]. apply elem_of_app. left. by eapply list_elem_of_lookup_2.
Qed.

Lemma merge_one_binds rs o :
  Owned o = true → InvIdentity o ≠ "" → ∃ r, r ∈ merge_one rs o ∧ Identity r = InvIdentity o.
Proof.
  intros Hown Hx. unfold merge_one. rewrite Hown. simpl.
  destruct (cleanupInventoryMatch rs o) as [i|] eqn:E.
  - unfold cleanupInventoryMatch in E.
    assert (∃ r, rs !! i = Some r ∧ (Identity r = InvIdentity o ∨ Identity r = "")) as (r&Hi&Hr).
    { destruct (index_of _ rs) as [j|] eqn:E1.
      - injection E as ->. apply index_of_Some in E1 as (r&?&[_ H]%andb_true_iff).
        apply bool_decide_eq_true in H. eauto.
      - apply index_of_Some in E as (r&?&H). rewrite !andb_true_iff in H.
        destruct H as [[[H _] _] _]. apply bool_decide_eq_true in H. eauto. }
    exists (bind_observation o r). split.
    + apply list_elem_of_lookup. exists i. by rewrite list_lookup_alter_eq, Hi.
    + simpl. unfold or_else. case_bool_decide; [done|]. by destruct Hr.
  - exists (adopt_observation o). split; [set_solver|done].
Qed.

Lemma merge_binds l os o :
  o ∈ os → Owned o = true → InvIdentity o ≠ "" →
  ∃ r, r ∈ Resources (mergeCleanupInventory l os) ∧ Identity r = InvIdentity o.
Proof.
  intros (os1&os2&->)%list_elem_of_split Hown Hx.
  change (Resources (mergeCleanupInventory l (os1 ++ o :: os2)))
    with (fold_left merge_one (os1 ++ o :: os2) (Resources l)).
  rewrite fold_left_app. simpl. set (rs := fold_left merge_one os1 (Resources l)).
  pose proof (merge_one_binds rs o Hown Hx) as Hb. clearbody rs. revert Hb.
  generalize (merge_one rs o). clear rs. induction os2 as [|o' os2 IH]; intros rs Hb; simpl; [done|].
  apply IH. by apply merge_one_keeps.
Qed.

(** C34: a pass that reports deleted everything it could.  When it is not a dry
    run and the keys of the merged ledger are distinct, every resource the
    inventory showed as owned, live and not protected was successfully deleted,
    unless its entry was already settled as gone, refused or a tombstone. *)
Theorem ReconcileCleanup_deletes_all ctx l (inventory : CleanupInventoryClient) deleter options w
    observed report o :
  (inventory (inventory_request l) w).1 = Ok observed →
  distinct_keys (Resources (mergeCleanupInventory l observed)) →
  outcome (ReconcileCleanup ctx l (Some inventory) deleter options) w = Ok report →
  DryRun options = false →
  o ∈ observed → Owned o = true → Live o = true → Protected o = false →
  ∃ r, r ∈ Resources (mergeCleanupInventory l observed) ∧ Identity r = InvIdentity o ∧
    (terminal (Status r) ∨
     EvDelete (with_status CleanupStatusDeleting r) None
       ∈ events (ReconcileCleanup ctx l (Some inventory) deleter options) w).
Proof.
  intros Hinv Hnd Hout Hdry Hin Hown Hlive Hprot. revert Hout.
  destruct (ReconcileCleanup_cases ctx l (Some inventory) deleter options w)
    as [[_ [e ->]]|(inv&del&[= <-]&_&_&->)]; [done|]. intros Hout.
  assert (validateCleanupInventory observed = None) as Hval.
  { destruct (reconcile_with_shape inventory del options l w)
      as [ans e' _ Ho|obs e' x _ Ho|obs sv w1 e' Ha Hobs Hs loop He _ Ho
         |obs sv w1 l' t ans Ha Hobs Hs loop _ He Ho]; try congruence. }
  apply validateCleanupInventory_NoDup in Hval as [Hids Hobs]. rewrite Forall_forall in Hobs.
  destruct (Hobs o Hin) as [Hblank Hdel]. specialize (Hdel Hlive).
  apply blank_false_nonempty in Hblank.
  destruct (merge_binds l observed o Hin Hown Hblank) as (r&Hr&Hid).
  exists r. split_and!; [done|done|].
  destruct (decide (Status r ∈ [CleanupStatusGone; CleanupStatusRefused; CleanupStatusTombstone]))
    as [?|Ht]; [by left|right].
  destruct (pass_deletes inventory del options l w observed Hinv Hnd) as [_ Hall].
  eapply Hall; [exact Hout|done|]. split; [done|done|]. exists o.
  split; [|done]. unfold lookupCleanupInventory.
  rewrite Hid, bool_decide_false by done. simpl. by apply index_found.
Qed.
End reconcile.

(** ** Concrete passes *)

Module CleanupExample.

(** A world of observations: deleting removes by identity. *)
Definition world := list CleanupInventoryResource.

Definition inventory : @CleanupInventoryClient world := λ _ w, (Ok w, w).
Definition deleter : @CleanupDeleteClient world := λ r w,
  (None, filter (λ o, InvIdentity o ≠ Identity r) w).
Definition options : @CleanupReconcileOptions world :=
  {| DryRun := false; Persist := Some (λ _ w, (None, w)) |}.
Definition text (e : error) : string := match e with ErrNew t => t | _ => "" end.

Definition entry (kind name identity : string) (rank : Z) (status : string) : CleanupResource :=
  {| Kind := kind; Role := ""; Name := name; Identity := identity; Rank := rank; Status := status;
     Detail := "" |}.
Definition seen (kind name identity : string) : CleanupInventoryResource :=
  {| InvKind := kind; InvRole := ""; InvName := name; InvIdentity := identity; Owned := true;
     Live := true; Delayed := false; Protected := false |}.

Definition ledger (rs : list CleanupResource) : CleanupLedger :=
  {| Version := 1; RunID := "run-1"; Marker := "magelift-run-1"; Provider := "scaleway";
     Region := "fr-par"; Project := ""; Profile := ""; ClaimedAt := "2024-01-02T03:04:05Z";
     Resources := rs |}.

Definition two := ledger [entry "instance" "db" "i-1" 30 CleanupStatusClaimed;
                          entry "snapshot" "db-snap" "" 10 CleanupStatusIntended].
Definition cloud : world := [seen "instance" "db" "i-1"; seen "snapshot" "db-snap" "s-1"].

Definition run := ReconcileCleanup text true two (Some inventory) (Some deleter) options.

Example run_completes :
  ReportStatus <$> (match outcome run cloud with Ok r => Some r | Err _ => None end) = Some "complete"
  ∧ Identity <$> deletes (events run cloud) = ["s-1"; "i-1"].
Proof. split; vm_compute; reflexivity. Qed.

Definition report_of : CleanupReport := Eval vm_compute in
  match outcome run cloud with
  | Ok r => r
  | Err _ => {| ReportStatus := ""; ReportMarker := ""; ReportProvider := ""; ReportDryRun := false;
                ReportKeys := NoTally; Remaining := []; ReportDetail := ""; ReportLedger := two |}
  end.

Definition first_deleted : CleanupResource := Eval vm_compute in
  match deletes (events run cloud) with r :: _ => r | [] => entry "" "" "" 0 "" end.


Lemma ReconcileCleanup_announced_witness : announced (events run cloud).
Proof.
  apply (ReconcileCleanup_announced text true two (Some inventory) (Some deleter) options cloud).
  by eexists.
Defined.

Lemma ReconcileCleanup_complete_witness :
  (∃ before verified,
    events run cloud = before ++ [EvInventory (inventory_request two) (Ok verified)] ∧
    Forall (λ o, Owned o = true → Live o = false ∧ Delayed o = false) verified) ∧
  Refused (ReportKeys report_of) = [] ∧ Pending (ReportKeys report_of) = [] ∧
  Forall (λ r, Status r ∉ [CleanupStatusClaimed; CleanupStatusDeleting; CleanupStatusTombstone])
    (Resources (ReportLedger report_of)).
Proof.
  apply (ReconcileCleanup_complete text true two (Some inventory) (Some deleter) options cloud report_of);
    vm_compute; reflexivity.
Defined.

(** A purged tombstone: the service no longer knows the resource. *)
Definition stuck := entry "snapshot" "db-snap" "s-1" 10 CleanupStatusTombstone.
Definition stuck_report : CleanupReport := Eval vm_compute in
  match outcome (ReconcileCleanup text true (ledger [stuck]) (Some inventory) (Some deleter) options) [] with
  | Ok r => r
  | Err _ => report_of
  end.

Example stuck_is_pending : ReportStatus stuck_report = "pending".
Proof. reflexivity. Qed.

Lemma ReconcileCleanup_tombstone_witness : ReportStatus stuck_report ≠ "complete".
Proof.
  apply (ReconcileCleanup_tombstone text true (ledger [stuck]) (Some inventory) (Some deleter) options
    [] stuck_report stuck); [left|reflexivity|vm_compute; reflexivity].
Defined.

(** A provider that refuses with an expired token. *)
Definition refusal := ErrNew "the access token expired".
Definition refusing : @CleanupDeleteClient world := λ _ w, (Some refusal, w).

Lemma ReconcileCleanup_locked_by_detail_witness :
  ∃ before L x,
    events (ReconcileCleanup text true two (Some inventory) (Some refusing) options) cloud
      = before ++ [EvPersist L x] ∧
    ∀ ctx' (inventory' : option (@CleanupInventoryClient world)) deleter' options' w',
      events (ReconcileCleanup text ctx' L inventory' deleter' options') w' = [] ∧
      ∃ e', outcome (ReconcileCleanup text ctx' L inventory' deleter' options') w' = Err e'.
Proof.
  apply (ReconcileCleanup_locked_by_detail text true two (Some inventory) (Some refusing) options cloud
    first_deleted refusal); [vm_compute; repeat constructor|by eexists|vm_compute; reflexivity..].
Defined.

Lemma ReconcileCleanup_rank_order_witness :
  let ds := deletes (events run cloud) in
  StronglySorted (λ a b, (Rank a ≤ Rank b)%Z) ds ∧ NoDup (cleanupResourceKey <$> ds).
Proof.
  apply (ReconcileCleanup_rank_order text true two inventory (Some deleter) options cloud cloud);
    [reflexivity|]. apply (bool_decide_unpack (distinct_keys _)). vm_compute. exact I.
Defined.

Lemma ReconcileCleanup_deletes_all_witness :
  ∃ r, r ∈ Resources (mergeCleanupInventory two cloud) ∧ Identity r = "i-1" ∧
    (terminal (Status r) ∨
     EvDelete (with_status CleanupStatusDeleting r) None ∈ events run cloud).
Proof.
  apply (ReconcileCleanup_deletes_all text true two inventory (Some deleter) options cloud cloud
    report_of (seen "instance" "db" "i-1")); [reflexivity| |vm_compute; reflexivity| |left|..];
    try reflexivity.
  apply (bool_decide_unpack (distinct_keys _)). vm_compute. exact I.
Defined.
End CleanupExample.

